(* ===== verification/_CoqProject ===== *)
-Q . S2P
Prelude.v
JsNumber.v
JsString.v
JsBase64.v
JsDate.v
Json.v
JsMap.v
Types.v
Chain.v
Sim.v
Unfinalized.v
UnfinalizedInv.v
UnfinalizedSteps.v
UnfinalizedChain.v
UnfinalizedFork.v
UnfinalizedRewind.v
UnfinalizedRegister.v
UnfinalizedAwait.v
UnfinalizedRecover.v
UnfinalizedLive.v
UnfinalizedPoi.v
Filters.v
Blocks.v
BlocksSpec.v
BlockSize.v
Api.v
ApiSpec.v
Scenarios.v
FetchBatch.v
ApiService.v
Blockchain.v
Ledger.v
Dictionary.v
DictionarySpec.v
Datasources.v
Idl.v
Decoder.v
DecoderSpec.v
Indexer.v
IndexSpec.v
Codegen.v
Manifest.v
ManifestLaws.v
ManifestSpec.v
ManifestComplete.v
ProjectChange.v
Modules.v
Bootstrap.v
ScenariosProject.v
Regex.v
Release.v
