(* ===== verification/Prelude.v ===== *)
(** * A verification library for the Solana indexer of SubQuery

    The program under [src/packages] indexes a Solana chain: it asks an RPC endpoint
    (or a dictionary service) for blocks, wraps them, hands their transactions,
    instructions and logs to the handlers of a project whose filters accept them,
    and, since the newest blocks may still be replaced, keeps the headers of blocks
    that are not final and finds out when the chain has forked away from them.

    ** Parts and how they interact

    The blockchain service asks the client of an endpoint for blocks and headers.
    The unfinalized blocks service gets each new header before its block is
    indexed, compares its records with the chain through the blockchain service,
    keeps them in the metadata store, and says to which block to rewind.  The
    indexer manager walks over a wrapped block and calls the handlers, after the
    filters and the decoder.  The dictionary turns the same filters into a query.
    The decoder keeps the IDLs of the project; the code generator reads the same
    IDLs.  The manifest of a project becomes instances of classes whose decorators
    say what is valid.

    ** Files and the code they model (paths below [src/packages])

    - [Prelude]: outcomes (returned, thrown, process ended, out of fuel), the state
      monad [M], its weakest preconditions and invariants, lists that are chains.
    - [JsNumber], [JsString], [JsBase64], [JsDate], [Json], [JsMap]: the part of
      JavaScript the program uses: numbers as integers rounded to 53 bits, strings
      and buffers, base64, dates and their ISO text, [JSON.stringify], lodash as an
      interface with its laws, maps and object spread.
    - [Types]: [types/src/solana.ts] and [types/src/project.ts].
    - [Chain]: the interfaces between the unfinalized blocks service and what it
      calls, each a class of operations and a class of laws, with the finalized headers
      that are registered while the service waits; [Sim] instantiates them.
    - [Unfinalized]: [node/src/indexer/unfinalizedBlocks.service.ts], method by method,
      with its [await]s.
      [UnfinalizedInv] (invariant), [UnfinalizedSteps] (transition system),
      [UnfinalizedChain], [UnfinalizedFork], [UnfinalizedRewind],
      [UnfinalizedRegister], [UnfinalizedAwait] (finality that advances during a call),
      [UnfinalizedRecover] (the common ancestor of a fork),
      [UnfinalizedPoi], [UnfinalizedLive] (infinite executions) hold its theorems.
    - [Filters]: [node/src/solana/utils.solana.ts].
    - [Blocks], [BlocksSpec]: [node/src/solana/block.solana.ts]; [BlockSize]:
      [node/src/indexer/types.ts] with the [toJSON] methods it depends on.
    - [Api], [ApiSpec]: [node/src/solana/api.solana.ts], [api.connection.ts] and
      [configure/NodeConfig.ts]; [FetchBatch]: the requests of a batch answered in any
      order; [ApiService]: the start of [api.service.solana.ts], its connections, and
      account requests.
    - [Scenarios]: the unit tests [unfinalizedBlocks.service.spec.ts] and
      [api.solana.skip-slot.spec.ts] run on the model, with the answers they expect;
      [ScenariosProject]: those of [codegen.spec.ts] and [blockchain.service.test.ts],
      and the manifest of [project.spec.ts], whose filters by topics are not accepted.
    - [Blockchain]: [node/src/blockchain.service.ts] as the implementation of the
      interface of [Chain], and [indexer/worker/worker.service.ts]; [Ledger]: that
      service over endpoints that serve one ledger is the stable chain of [Chain].
    - [Dictionary], [DictionarySpec]: [node/src/indexer/dictionary].
    - [Idl]: [common-solana/src/codegen/idl.ts]; [Decoder], [DecoderSpec]:
      [node/src/solana/decoder.ts] and [node/src/utils/decorators.ts].
    - [Indexer]: [node/src/indexer/indexer.manager.ts]; [IndexSpec]: the composition of
      the client, the wrapping of blocks and the indexer manager.
    - [Codegen]: [common-solana/src/codegen/codegen.ts].
    - [Manifest]: [common-solana/src/project/models.ts], [versioned], [load.ts] and
      [node/src/configure/SubqueryProject.ts]: each class is a list of properties
      with their rules and conversions.  [ManifestLaws]: the documented behaviour of
      class-transformer and class-validator on such lists, as laws, with an instance
      that meets them; [ManifestSpec]: what follows for a manifest; [ManifestComplete]:
      the converse, that what is well typed is accepted.
    - [Modules]: the modules of the dependency injection ([app.module.ts],
      [fetch.module.ts], [worker.module.ts], [worker-fetch.module.ts],
      [configure.module.ts], [subcommands/*.module.ts]) with the constructors they use;
      [Bootstrap]: [node/src/main.ts], [init.ts], [yargs.ts],
      [indexer/worker/worker.ts], [subcommands/*.init.ts] and the test command.
    - [Release] over [Regex]: the release scripts under [.github/actions].
    - [ProjectChange]: [onProjectChange] of the blockchain service over [loadIdls] of the
      decoder, as threads that share the store of IDLs.
    - [Datasources]: [common-solana/src/project/utils.ts], [node/src/utils/project.ts]
      and [updateDynamicDs] of the blockchain service.

    A method that reads or writes state is a term of [M S A]: the fields of its
    object and the world it talks to are the record [S] (for the unfinalized blocks
    service [UnfinalizedBlocksService], for the decoder [DecoderState], for the
    worker [WorkerState]).  What was written stays written when the code throws.
    In the unfinalized blocks service [await m] runs [m] and then registers the finalized
    headers that have arrived, which the class [Arrivals] reads off the world.

    ** What the theorems show

    - Unfinalized blocks: in every state reached by calls that end in any way, and
      by restarts, the records in memory and in the store are a chain of parents of
      increasing height ([reachable_chain]), whatever headers become final while a
      method waits.  With such headers too, on a chain that does not change,
      the fork check answers correctly ([hasForked_decides]), registration with
      backfill never takes a canonical block for a fork ([process_canonical]), and the
      block to rewind to is canonical ([rewind_target_canonical]).  Stored
      records are read back as they were, and the paged search over proofs of index is
      the search over all of them.  After a fork the answer is computed exactly: from the
      records up to the finalized block ([rewind_to_common_ancestor], the last common
      ancestor or not, by the number of blocks on either side) and from the next header
      ([fork_reported_by_next_header]), as long as finality does not reach the records
      above during the call.  All of this holds for the real client over one ledger
      ([service_stable_chain]).  In every infinite execution, with finalized headers at
      any await, in which finality goes on while records are kept, each record is released
      for good and nothing is taken for a fork ([records_released]).
    - Blocks: the stack machine over log lines gives each message the program of
      its invocation in the tree of invocations, and positions within the log; wrapping
      loses nothing; measuring a block decodes nothing and adds up the exact sizes.
    - Filters, dictionary: what each filter accepts; the query is exactly the set of
      conditions of the handlers.
    - Client: which errors count as a skipped slot, heights; the blocks of a batch come
      back in the order asked for whatever the order of the answers;
      the blockchain service refines the interface the fork detection relies on; the
      service's start sets the fetch function before any connection is made.
    - Decoder: selection by discriminator, base64 round trip, what the cache that all
      decoders share answers ([memoize_first_call]).
    - Indexer: what the RPC answers reaches the handlers whole, in the order of
      execution: the nested loops over the wrapped block are the walk over one list that
      stands for the raw block.
    - Loading of IDLs: every schedule of the loops ends, and with the same store when
      the datasources agree on the file of a program.
    - Datasources, code generation: the merge of arguments, the validation of
      discriminators, with files that cannot be read, the choice of IDL files.
    - Manifest: a runtime datasource that is accepted has a well-typed mapping, and one
      whose mapping and assets are well typed is accepted, by induction on the lists of
      handlers and assets; the
      chain's id comes from the network or the genesis hash; only version 1.0.0 is read.
    - Release script: what it publishes.
    - Theorems about what the code gets wrong come last among the claims: a fork that is
      lost when finality reaches it while the check waits ([finality_race]), records in
      slots that the chain skipped, the restart after a search for the common ancestor
      that missed it, log lines of an unknown form, accounts from lookup
      tables, empty filters in dictionary queries, heights of dictionary blocks,
      base58 tried before base64, the race of datasources that name different files
      for a program.  Beside the claims are theorems on the size of a block in a worker, the handlers of dynamic
      datasources, and the loop that a handler without filter ends.

    ** Fuel

    Loops over lists are structural.  The loops that go over slots
    ([backfillSkippedSlots], [getParentHeaderByHeight], [walk_back], [find_correct],
    [poi_loop]) take fuel and end with [OutOfFuel] when it is used up, which is no
    outcome of the program.  A slot is visited once, so the theorems that say what
    is returned ask for as much fuel as there are slots up to the finalized block or
    between the last record and the new block; they show that the result is then
    an answer, an exception or an exit, and never [OutOfFuel].  The invariants hold
    for any fuel.

    ** What is not modelled

    Code outside of the repository is a parameter with its documented laws where
    they are used: the RPC library, the node core (store, sandbox, retries,
    endpoints, and the constructors of its classes), codama and its codecs, bs58, lodash, class-validator, the file system.
    Logging, events and metrics are left out.  The requests of a batch and the loops that
    load IDLs interleave.  The node core registers finalized headers while the unfinalized
    blocks service waits, and that is modelled; its dispatcher makes the other calls of
    the service one at a time.  The theorems on the restart and on
    proofs of index have no header arrive during a call, only between calls.  Types without run-time content have
    no model, nor have the commands that run a function of the node core beyond the
    module they give it, and the configuration of tools.  What the base classes of
    [@subql/common] declare, and their [validate] of a whole manifest, is a parameter. *)
From stdpp Require Export base option list strings pretty gmap.
From Stdlib Require Export ZArith Lia.

#[global] Open Scope Z_scope.

(** ** Results of JavaScript code

    A piece of the program returns, throws, or ends the process
    ([exitWithError] of the node core, which never returns).  A loop whose
    iteration count is not bounded by its data is run with fuel, and [OutOfFuel]
    says the fuel was not enough; it is never an answer of the program. *)

Inductive jserror : Type :=
| BlockUnavailableError
| AssertionError (message : string)
| TypeError (message : string)
| SolanaError (code : Z) (statusCode : option Z) (message : string)
| JsError (message : string) (cause : option jserror).

Inductive outcome (A : Type) : Type :=
| Done (a : A)
| Throw (e : jserror)
| Exit (message : string)
| OutOfFuel.
Arguments Done {A} a.
Arguments Throw {A} e.
Arguments Exit {A} message.
Arguments OutOfFuel {A}.

#[global] Instance jserror_eq_dec : EqDecision jserror.
Proof.
  refine (fix go (x y : jserror) {struct x} : Decision (x = y) :=
    match x, y with
    | BlockUnavailableError, BlockUnavailableError => left eq_refl
    | AssertionError a, AssertionError b => cast_if (decide (a = b))
    | TypeError a, TypeError b => cast_if (decide (a = b))
    | SolanaError c1 s1 m1, SolanaError c2 s2 m2 =>
        cast_if_and3 (decide (c1 = c2)) (decide (s1 = s2)) (decide (m1 = m2))
    | JsError m1 c1, JsError m2 c2 =>
        cast_if_and (decide (m1 = m2))
          (match c1 as o1, c2 as o2 return Decision (o1 = o2) with
           | None, None => left eq_refl
           | Some e1, Some e2 => cast_if (go e1 e2)
           | None, Some _ => right _
           | Some _, None => right _
           end)
    | _, _ => right _
    end); clear go; abstract congruence.
Defined.

#[global] Instance outcome_eq_dec {A} `{EqDecision A} : EqDecision (outcome A).
Proof. solve_decision. Defined.

#[global] Instance outcome_ret : MRet outcome := fun A a => Done a.
#[global] Instance outcome_bind : MBind outcome := fun A B f o =>
  match o with
  | Done a => f a
  | Throw e => Throw e
  | Exit m => Exit m
  | OutOfFuel => OutOfFuel
  end.

(** [try { o } catch (e) { h(e) }]: only a thrown error is caught. *)
Definition catch {A} (o : outcome A) (h : jserror → outcome A) : outcome A :=
  match o with Throw e => h e | _ => o end.

(** [l.map(f)] where [f] may throw: left to right, the first error wins. *)
Fixpoint traverse {A B} (f : A → outcome B) (l : list A) : outcome (list B) :=
  match l with
  | [] => Done []
  | x :: l => y ← f x; ys ← traverse f l; Done (y :: ys)
  end.

(** ** State passing

    [M S A] is code that reads and writes a state [S].  What was written stays
    written when the code throws. *)

Definition M (S A : Type) : Type := S → outcome A * S.

#[global] Instance M_ret {S} : MRet (M S) := fun A a s => (Done a, s).
#[global] Instance M_bind {S} : MBind (M S) := fun A B f m s =>
  match m s with
  | (Done a, s') => f a s'
  | (Throw e, s') => (Throw e, s')
  | (Exit x, s') => (Exit x, s')
  | (OutOfFuel, s') => (OutOfFuel, s')
  end.

Definition throw {S A} (e : jserror) : M S A := fun s => (Throw e, s).
Definition exit {S A} (m : string) : M S A := fun s => (Exit m, s).
Definition no_fuel {S A} : M S A := fun s => (OutOfFuel, s).
Definition get {S} : M S S := fun s => (Done s, s).
Definition gets {S A} (f : S → A) : M S A := fun s => (Done (f s), s).
Definition modify {S} (f : S → S) : M S unit := fun s => (Done tt, f s).
Definition of_outcome {S A} (o : outcome A) : M S A := fun s => (o, s).

Definition try_catch {S A} (m : M S A) (h : jserror → M S A) : M S A := fun s =>
  match m s with
  | (Throw e, s') => h e s'
  | r => r
  end.

(** [for (const x of l) await f(x)] *)
Fixpoint for_each {S A} (l : list A) (f : A → M S unit) : M S unit :=
  match l with
  | [] => mret tt
  | x :: l => f x ;; for_each l f
  end.

(** Effects on a part [W] of a bigger state [S]. *)
Definition zoom {S W A} (prj : S → W) (upd : W → S → S) (m : M W A) : M S A :=
  fun s => match m (prj s) with (o, w) => (o, upd w s) end.

(** Truthiness of the JavaScript values the program tests with [if (x)]. *)
Definition truthy_string (s : string) : bool := bool_decide (s ≠ "").
Definition truthy_option_string (s : option string) : bool :=
  match s with Some s => truthy_string s | None => false end.

(** ** Reasoning about effectful code *)

Lemma bind_Done_inv {S A B} (m : M S A) (k : A → M S B) s b s' :
  (m ≫= k) s = (Done b, s') →
  ∃ a s1, m s = (Done a, s1) ∧ k a s1 = (Done b, s').
Proof.
  unfold mbind, M_bind. destruct (m s) as [[] s1] eqn:E; intros H; try done; eauto.
Qed.

Lemma bind_Done {S A B} (m : M S A) (k : A → M S B) s a s1 :
  m s = (Done a, s1) → (m ≫= k) s = k a s1.
Proof. intros H. unfold mbind, M_bind. by rewrite H. Qed.

Lemma bind_Throw {S A B} (m : M S A) (k : A → M S B) s e s1 :
  m s = (Throw e, s1) → (m ≫= k) s = (Throw e, s1).
Proof. intros H. unfold mbind, M_bind. by rewrite H. Qed.

Lemma bind_ext {S A B} (m1 m2 : M S A) (k1 k2 : A → M S B) s :
  m1 s = m2 s → (∀ a s, k1 a s = k2 a s) → (m1 ≫= k1) s = (m2 ≫= k2) s.
Proof. intros H1 H2. unfold mbind, M_bind. rewrite H1. by destruct (m2 s) as [[] ?]. Qed.

Lemma outcome_bind_Done_inv {A B} (o : outcome A) (k : A → outcome B) b :
  (o ≫= k) = Done b → ∃ a, o = Done a ∧ k a = Done b.
Proof. destruct o; simpl; intros H; try done; eauto. Qed.

(** [m] keeps [I] however it ends: by returning, throwing or exiting. *)
Definition preserves {S A} (I : S → Prop) (m : M S A) : Prop :=
  ∀ s, I s → I (m s).2.

(** [wp m Q s]: run from [s], [m] ends with an outcome and a state in [Q]. *)
Definition wp {S A} (m : M S A) (Q : outcome A → S → Prop) (s : S) : Prop :=
  Q (m s).1 (m s).2.

Section wp.
Context {S : Type}.
Implicit Types s : S.

Lemma wp_mono {A} (m : M S A) (Q R : outcome A → S → Prop) s :
  wp m Q s → (∀ o s', Q o s' → R o s') → wp m R s.
Proof. unfold wp. auto. Qed.

Lemma wp_and {A} (m : M S A) (Q R : outcome A → S → Prop) s :
  wp m Q s → wp m R s → wp m (fun o s' => Q o s' ∧ R o s') s.
Proof. unfold wp. auto. Qed.

Lemma wp_run {A} (m : M S A) Q s o s' : wp m Q s → m s = (o, s') → Q o s'.
Proof. unfold wp. intros H E. by rewrite E in H. Qed.

(** What a continuation must meet after an outcome [o]. *)
Definition after {A B} (k : A → M S B) (Q : outcome B → S → Prop) (o : outcome A) (s : S) : Prop :=
  match o with
  | Done a => wp (k a) Q s
  | Throw e => Q (Throw e) s
  | Exit x => Q (Exit x) s
  | OutOfFuel => Q OutOfFuel s
  end.

Lemma wp_bind {A B} (m : M S A) (k : A → M S B) Q s :
  wp m (after k Q) s → wp (m ≫= k) Q s.
Proof.
  unfold wp, after, mbind, M_bind. destruct (m s) as [[] s']; auto.
Qed.

Lemma wp_try {A} (m : M S A) h Q s :
  wp m (fun o s' => match o with Throw e => wp (h e) Q s' | _ => Q o s' end) s →
  wp (try_catch m h) Q s.
Proof. unfold wp, try_catch. destruct (m s) as [[] s']; auto. Qed.

Lemma wp_ret {A} (a : A) (Q : outcome A → S → Prop) s : Q (Done a) s → wp (mret a) Q s.
Proof. done. Qed.
Lemma wp_throw {A} e (Q : outcome A → S → Prop) s : Q (Throw e) s → wp (throw e) Q s.
Proof. done. Qed.
Lemma wp_exit {A} x (Q : outcome A → S → Prop) s : Q (Exit x) s → wp (exit x) Q s.
Proof. done. Qed.
Lemma wp_no_fuel {A} (Q : outcome A → S → Prop) s : Q OutOfFuel s → wp no_fuel Q s.
Proof. done. Qed.
Lemma wp_gets {A} (f : S → A) (Q : outcome A → S → Prop) s : Q (Done (f s)) s → wp (gets f) Q s.
Proof. done. Qed.
Lemma wp_modify f (Q : outcome unit → S → Prop) s : Q (Done tt) (f s) → wp (modify f) Q s.
Proof. done. Qed.
End wp.

Section preserves.
Context {S : Type} (I : S → Prop).

Lemma preserves_ret {A} (a : A) : preserves I (mret a).
Proof. by intros s. Qed.
Lemma preserves_throw {A} e : preserves I (throw (A:=A) e).
Proof. by intros s. Qed.
Lemma preserves_exit {A} x : preserves I (exit (A:=A) x).
Proof. by intros s. Qed.
Lemma preserves_no_fuel {A} : preserves I (no_fuel (A:=A)).
Proof. by intros s. Qed.
Lemma preserves_gets {A} (f : S → A) : preserves I (gets f).
Proof. by intros s. Qed.
Lemma preserves_modify f : (∀ s, I s → I (f s)) → preserves I (modify f).
Proof. intros H s Hs. by apply H. Qed.

Lemma preserves_bind {A B} (m : M S A) (k : A → M S B) :
  preserves I m → (∀ a, preserves I (k a)) → preserves I (m ≫= k).
Proof.
  intros Hm Hk s Hs. specialize (Hm s Hs). unfold mbind, M_bind.
  destruct (m s) as [[] s1]; simpl in *; auto. by apply Hk.
Qed.

(** The same where what follows needs a property [P] of the result. *)
Lemma preserves_bind_post {A B} (m : M S A) (k : A → M S B) (P : A → Prop) :
  (∀ s, I s → wp m (fun o s' => I s' ∧ ∀ a, o = Done a → P a) s) →
  (∀ a, P a → preserves I (k a)) → preserves I (m ≫= k).
Proof.
  intros Hm Hk s Hs. change (wp (m ≫= k) (fun _ s' => I s') s).
  apply wp_bind. eapply wp_mono; [by apply Hm|].
  intros [a|e|x|] s' [H1 H2]; simpl; try done. apply Hk; [by apply H2|done].
Qed.

Lemma preserves_try {A} (m : M S A) h :
  preserves I m → (∀ e, preserves I (h e)) → preserves I (try_catch m h).
Proof.
  intros Hm Hh s Hs. specialize (Hm s Hs). unfold try_catch.
  destruct (m s) as [[] s1]; simpl in *; auto. by apply Hh.
Qed.

Lemma preserves_for_each {A} (l : list A) f :
  (∀ x, preserves I (f x)) → preserves I (for_each l f).
Proof.
  intros Hf. induction l as [|x l IH]; simpl.
  - apply preserves_ret.
  - apply preserves_bind; auto.
Qed.

Lemma preserves_wp {A} (m : M S A) :
  preserves I m ↔ ∀ s, I s → wp m (fun _ s' => I s') s.
Proof. done. Qed.
End preserves.

Create HintDb effects.
#[export] Hint Resolve preserves_ret preserves_throw preserves_exit preserves_no_fuel
  preserves_gets preserves_for_each : effects.

(** Take a run that returned apart into the runs of its steps. *)
Ltac inv_bind H :=
  let a := fresh "x" in let s1 := fresh "s" in let H1 := fresh "Hrun" in
  apply bind_Done_inv in H as (a & s1 & H1 & H).

(** Steps of the walk through an effectful definition. *)
Ltac pres :=
  repeat first
    [ apply preserves_ret | apply preserves_throw | apply preserves_exit
    | apply preserves_no_fuel | apply preserves_gets
    | apply preserves_bind; [|intros ?] | apply preserves_try; [|intros ?]
    | progress case_match ].

(** ** Lists *)

Lemma traverse_app {A B} (f : A → outcome B) l1 l2 :
  traverse f (l1 ++ l2) =
    (ys1 ← traverse f l1; ys2 ← traverse f l2; Done (ys1 ++ ys2)).
Proof.
  induction l1 as [|x l1 IH]; simpl.
  - by destruct (traverse f l2).
  - destruct (f x); simpl; [|done..]. rewrite IH.
    destruct (traverse f l1); simpl; [|done..].
    by destruct (traverse f l2).
Qed.

Lemma traverse_Forall2 {A B} (f : A → outcome B) l ys :
  traverse f l = Done ys ↔ Forall2 (fun x y => f x = Done y) l ys.
Proof.
  revert ys. induction l as [|x l IH]; intros ys; simpl.
  - split; [by intros [= <-]|by inversion 1].
  - split.
    + intros (y & Hy & H)%outcome_bind_Done_inv.
      apply outcome_bind_Done_inv in H as (zs & Hzs & [= <-]).
      constructor; [done|by apply IH].
    + inversion 1 as [|?? y zs Hy Hzs]; subst. rewrite Hy; simpl.
      apply IH in Hzs. by rewrite Hzs.
Qed.

Lemma traverse_total {A B} (f : A → outcome B) (g : A → B) l :
  (∀ x, x ∈ l → f x = Done (g x)) → traverse f l = Done (g <$> l).
Proof.
  intros H. apply traverse_Forall2. induction l as [|x l IH]; constructor.
  - apply H. by left.
  - apply IH. intros y Hy. apply H. by right.
Qed.

Lemma filter_all {A} (P : A → Prop) `{!∀ x, Decision (P x)} l : Forall P l → filter P l = l.
Proof. induction 1; [done|]. rewrite filter_cons, decide_True by done. by f_equal. Qed.

Lemma filter_none {A} (P : A → Prop) `{!∀ x, Decision (P x)} l :
  Forall (fun x => ¬ P x) l → filter P l = [].
Proof. induction 1; [done|]. by rewrite filter_cons, decide_False. Qed.

(** A list is a chain for [R] when [R] holds of its neighbours. *)
Fixpoint chain {A} (R : A → A → Prop) (l : list A) : Prop :=
  match l with
  | x :: (y :: _) as l' => R x y ∧ chain R l'
  | _ => True
  end.

Section chain.
Context {A : Type} (R : A → A → Prop).

Lemma chain_cons x y l : chain R (x :: y :: l) ↔ R x y ∧ chain R (y :: l).
Proof. done. Qed.

Lemma chain_tail x l : chain R (x :: l) → chain R l.
Proof. destruct l; [done|]. by intros [_ ?]. Qed.

Lemma chain_snoc l x y : chain R (l ++ [x]) → R x y → chain R ((l ++ [x]) ++ [y]).
Proof.
  induction l as [|z l IH]; [simpl; tauto|].
  intros H HR. destruct l as [|w l].
  - simpl in *. tauto.
  - destruct H as [H1 H2]. split; [done|]. by apply IH.
Qed.

Lemma chain_app_r l1 l2 : chain R (l1 ++ l2) → chain R l2.
Proof.
  induction l1 as [|x l1 IH]; [done|]. simpl app. intros H%chain_tail. auto.
Qed.

Lemma chain_app_l l1 l2 : chain R (l1 ++ l2) → chain R l1.
Proof.
  induction l1 as [|x [|y l1] IH]; [done|done|].
  intros [H1 H2]. split; [done|]. by apply IH.
Qed.

(** In a chain for a transitive relation the head is related to all the rest. *)
Lemma chain_head `{!Transitive R} x l : chain R (x :: l) → Forall (R x) l.
Proof.
  revert x. induction l as [|y l IH]; intros x; [constructor|].
  intros [H1 H2]. constructor; [done|].
  eapply Forall_impl; [by apply IH|]. intros z Hz. by trans y.
Qed.
End chain.

Lemma chain_reverse {A} (R : A → A → Prop) l : chain R l → chain (flip R) (reverse l).
Proof.
  induction l as [|x [|y l] IH]; [done|done|]. intros [Hxy Hl%IH].
  rewrite reverse_cons in Hl |- *. rewrite reverse_cons. by apply chain_snoc.
Qed.

Lemma chain_impl {A} (R R' : A → A → Prop) l :
  (∀ x y, R x y → R' x y) → chain R l → chain R' l.
Proof.
  intros HR. induction l as [|x [|y l] IH]; [done|done|].
  intros [H1 H2]. split; [by apply HR|]. by apply IH.
Qed.
