(* ===== verification/JsNumber.v ===== *)
(** * JavaScript numbers that hold integers

    A JavaScript number is an IEEE double.  The program keeps slots, block
    heights and times in numbers, all of them integral, so a number is modelled
    by the integer it denotes and the arithmetic by the exact result rounded to
    53 significant bits, ties to even.  A [bigint] is a plain [Z], and
    [Number(b)] is the same rounding.  Overflow to infinity starts at 2^1024 and
    is out of reach of the u64 slots the program converts. *)
From S2P Require Import Prelude.

Definition MAX_SAFE_INTEGER : Z := 2 ^ 53 - 1.

(** Rounding to 53 bits, ties to even; [e] is the number of bits dropped. *)
Definition round53_pos (z : Z) : Z :=
  let e := Z.log2 z - 52 in
  let q := Z.shiftr z e in
  let r := z - Z.shiftl q e in
  let half := Z.shiftl 1 (e - 1) in
  let q' := match r ?= half with
            | Lt => q
            | Gt => q + 1
            | Eq => if Z.even q then q else q + 1
            end in
  Z.shiftl q' e.

Definition js_round (z : Z) : Z :=
  if Z.abs z <=? 2 ^ 53 then z
  else if z <? 0 then - round53_pos (- z) else round53_pos z.

(** [Number(b)] of a [bigint], and [+], [-], [*], [%] of numbers. *)
Definition Number (b : Z) : Z := js_round b.
Definition num_add (x y : Z) : Z := js_round (x + y).
Definition num_sub (x y : Z) : Z := js_round (x - y).
Definition num_mul (x y : Z) : Z := js_round (x * y).
Definition num_rem (x y : Z) : Z := Z.rem x y.

(** [Number.isSafeInteger], for the non-negative numbers heights are. *)
Definition safe (z : Z) : Prop := 0 ≤ z ≤ MAX_SAFE_INTEGER.
#[global] Instance safe_dec z : Decision (safe z).
Proof. unfold safe. apply _. Defined.

Lemma js_round_exact z : Z.abs z ≤ 2 ^ 53 → js_round z = z.
Proof. intros H. unfold js_round. by rewrite (proj2 (Z.leb_le _ _) H). Qed.

Lemma Number_exact b : safe b → Number b = b.
Proof. unfold safe, MAX_SAFE_INTEGER. intros H. apply js_round_exact. lia. Qed.

Lemma num_succ_exact z : safe z → num_add z 1 = z + 1.
Proof. unfold safe, MAX_SAFE_INTEGER. intros H. apply js_round_exact. lia. Qed.

Lemma num_pred_exact z : safe z → num_sub z 1 = z - 1.
Proof. unfold safe, MAX_SAFE_INTEGER. intros H. apply js_round_exact. lia. Qed.

Lemma num_sub_exact x y : safe x → safe y → num_sub x y = x - y.
Proof. unfold safe, MAX_SAFE_INTEGER. intros H1 H2. apply js_round_exact. lia. Qed.

Create Rewrite HintDb jsnum.
#[export] Hint Rewrite Number_exact num_succ_exact num_pred_exact num_sub_exact
  using (try done; unfold safe, MAX_SAFE_INTEGER in *; lia) : jsnum.

(** Above 2^53 the numbers are no longer all the integers. *)
Example js_round_halfway : js_round (2 ^ 53 + 1) = 2 ^ 53.
Proof. reflexivity. Qed.
Example js_round_up : js_round (2 ^ 53 + 3) = 2 ^ 53 + 4.
Proof. reflexivity. Qed.
Example js_round_u64 : Number (2 ^ 64 - 1) = 2 ^ 64.
Proof. reflexivity. Qed.
