(* ===== verification/JsString.v ===== *)
(** * JavaScript strings and Node buffers

    The string and [Buffer] functions of the language and its runtime that the
    program uses.  Strings are [string] (one character per code unit, ASCII in
    everything the program inspects), a buffer is a list of bytes, each a [Z]
    between 0 and 255. *)
From S2P Require Import Prelude.
From Stdlib Require Import Ascii.

(** ** Strings *)

Definition newline : ascii := ascii_of_nat 10.

(** [s.startsWith(p)] *)
Fixpoint startsWith (p s : string) : bool :=
  match p, s with
  | EmptyString, _ => true
  | String a p, String b s => bool_decide (a = b) && startsWith p s
  | String _ _, EmptyString => false
  end.

(** [s.split(' ')]: the pieces between single blanks; never empty. *)
Fixpoint split_on (sep : ascii) (s : string) : list string :=
  match s with
  | EmptyString => [EmptyString]
  | String c s' =>
      if decide (c = sep) then EmptyString :: split_on sep s'
      else match split_on sep s' with
           | [] => [String c EmptyString]
           | w :: ws => String c w :: ws
           end
  end.

Fixpoint drop_string (n : nat) (s : string) : string :=
  match n, s with
  | S n, String _ s => drop_string n s
  | _, _ => s
  end.

(** [s.trim()] *)
Definition is_blank (c : ascii) : bool :=
  let n := nat_of_ascii c in (n =? 32)%nat || ((9 <=? n)%nat && (n <=? 13)%nat).
Fixpoint trim_start (s : string) : string :=
  match s with String c t => if is_blank c then trim_start t else s | EmptyString => s end.
Fixpoint trim_end (s : string) : string :=
  match s with
  | EmptyString => EmptyString
  | String c s =>
      match trim_end s with
      | EmptyString => if is_blank c then EmptyString else String c EmptyString
      | t => String c t
      end
  end.
Definition trim (s : string) : string := trim_end (trim_start s).

(** [s.replace(p, r)] with a string pattern: the first occurrence only. *)
Fixpoint replace_first (p r s : string) : string :=
  if startsWith p s then r +:+ drop_string (String.length p) s
  else match s with
       | EmptyString => EmptyString
       | String c s' => String c (replace_first p r s')
       end.

Lemma startsWith_spec p s : startsWith p s = true ↔ ∃ t, s = p +:+ t.
Proof.
  revert s. induction p as [|a p IH]; intros s; simpl.
  - split; [by exists s|done].
  - destruct s as [|b s]; [split; [done|by intros [t ?]]|].
    rewrite andb_true_iff, bool_decide_eq_true, IH. split.
    + intros [-> [t ->]]. by exists t.
    + intros [t [= -> ->]]. eauto.
Qed.

Lemma startsWith_refl p t : startsWith p (p +:+ t) = true.
Proof. apply startsWith_spec. by exists t. Qed.

Lemma drop_string_app p t : drop_string (String.length p) (p +:+ t) = t.
Proof. induction p; simpl; auto. Qed.

Lemma replace_first_prefix p r t : replace_first p r (p +:+ t) = r +:+ t.
Proof.
  assert (startsWith p (p +:+ t) = true) as H by apply startsWith_refl.
  pose proof (drop_string_app p t) as E.
  destruct (p +:+ t) eqn:Ep; simpl; rewrite H; by rewrite E.
Qed.

Lemma split_on_nonempty c s : split_on c s ≠ [].
Proof. destruct s; simpl; [done|]. case_decide; [done|]. by destruct (split_on c s). Qed.

(** No piece holds the separator, and joining the pieces gives the string back. *)
Fixpoint has_char (c : ascii) (s : string) : bool :=
  match s with
  | EmptyString => false
  | String d s => bool_decide (c = d) || has_char c s
  end.

Fixpoint join_on (sep : ascii) (ws : list string) : string :=
  match ws with
  | [] => EmptyString
  | [w] => w
  | w :: ws => w +:+ String sep (join_on sep ws)
  end.

Lemma join_on_split_on c s : join_on c (split_on c s) = s.
Proof.
  induction s as [|d s IH]; [done|]. simpl. case_decide as H; subst.
  - pose proof (split_on_nonempty c s) as Hne. rewrite <- IH at 2.
    by destruct (split_on c s).
  - destruct (split_on c s) as [|w [|w' ws]] eqn:E; simpl in *; by rewrite <- IH.
Qed.

Lemma split_on_app_sep c w s :
  has_char c w = false → split_on c (w +:+ String c s) = w :: split_on c s.
Proof.
  induction w as [|d w IH]; simpl; intros H.
  - by rewrite decide_True.
  - apply orb_false_iff in H as [H1%bool_decide_eq_false H2].
    rewrite decide_False by congruence. by rewrite IH.
Qed.

Lemma split_on_no_sep c w : has_char c w = false → split_on c w = [w].
Proof.
  induction w as [|d w IH]; simpl; intros H; [done|].
  apply orb_false_iff in H as [H1%bool_decide_eq_false H2].
  rewrite decide_False by congruence. by rewrite IH.
Qed.

(** ** Buffers *)

Definition byte_ok (b : Z) : Prop := 0 ≤ b < 256.

Fixpoint is_prefix (p l : list Z) : bool :=
  match p, l with
  | [], _ => true
  | a :: p, b :: l => (a =? b) && is_prefix p l
  | _ :: _, [] => false
  end.

(** [buf.indexOf(value)]: the first offset at which [value] occurs, or -1.
    An empty [value] is found at offset 0. *)
Fixpoint indexOf_from (i : Z) (l v : list Z) : Z :=
  if is_prefix v l then i
  else match l with
       | [] => -1
       | _ :: l => indexOf_from (i + 1) l v
       end.
Definition indexOf (l v : list Z) : Z := indexOf_from 0 l v.

Lemma is_prefix_spec p l : is_prefix p l = true ↔ ∃ t, l = p ++ t.
Proof.
  revert l. induction p as [|a p IH]; intros l; simpl.
  - split; [by exists l|done].
  - destruct l as [|b l]; [split; [done|by intros [t ?]]|].
    rewrite andb_true_iff, Z.eqb_eq, IH. split.
    + intros [-> [t ->]]. by exists t.
    + intros [t [= -> ->]]. eauto.
Qed.

Lemma is_prefix_refl p t : is_prefix p (p ++ t) = true.
Proof. apply is_prefix_spec. by exists t. Qed.

Lemma indexOf_from_ge i l v : 0 ≤ i → indexOf_from i l v = -1 ∨ i ≤ indexOf_from i l v.
Proof.
  revert i. induction l as [|a l IH]; intros i Hi; simpl; case_match; try lia.
  destruct (IH (i + 1)); lia.
Qed.

(** The test [data.indexOf(disc) === 0] the program uses is the prefix test. *)
Lemma indexOf_zero l v : (indexOf l v =? 0) = is_prefix v l.
Proof.
  unfold indexOf. destruct l as [|a l]; simpl.
  - by destruct (is_prefix v []).
  - destruct (is_prefix v (a :: l)); [done|].
    pose proof (indexOf_from_ge 1 l v ltac:(lia)). apply Z.eqb_neq.
    change (0 + 1) with 1. lia.
Qed.

Definition subarray_from (n : nat) (l : list Z) : list Z := drop n l.

(** [buf.toString('hex')]: two lower case digits per byte. *)
Definition hex_digit (n : Z) : ascii :=
  ascii_of_nat (Z.to_nat (if n <? 10 then 48 + n else 87 + n)).
Fixpoint to_hex (l : list Z) : string :=
  match l with
  | [] => EmptyString
  | b :: l => String (hex_digit (b / 16)) (String (hex_digit (b mod 16)) (to_hex l))
  end.

(** [Buffer.from(s, 'hex')]: reading stops at the first pair that is not two
    digits of either case. *)
Definition hex_value (c : ascii) : option Z :=
  let n := Z.of_nat (nat_of_ascii c) in
  if (48 <=? n) && (n <=? 57) then Some (n - 48)
  else if (97 <=? n) && (n <=? 102) then Some (n - 87)
  else if (65 <=? n) && (n <=? 70) then Some (n - 55)
  else None.
Fixpoint of_hex (s : string) : list Z :=
  match s with
  | String a (String b s) =>
      match hex_value a, hex_value b with
      | Some x, Some y => 16 * x + y :: of_hex s
      | _, _ => []
      end
  | _ => []
  end.

Lemma hex_value_digit n : 0 ≤ n < 16 → hex_value (hex_digit n) = Some n.
Proof.
  intros H. assert (n ∈ seqZ 0 16) as Hn by (apply elem_of_seqZ; lia).
  assert (forallb (fun k => bool_decide (hex_value (hex_digit k) = Some k)) (seqZ 0 16) = true)
    as Hall by reflexivity.
  rewrite forallb_forall in Hall. apply list_elem_of_In, Hall in Hn.
  by apply bool_decide_eq_true in Hn.
Qed.

Lemma of_hex_to_hex l : Forall byte_ok l → of_hex (to_hex l) = l.
Proof.
  induction 1 as [|b l Hb Hl IH]; [done|]. unfold byte_ok in Hb. cbn [to_hex of_hex].
  pose proof (Z.div_mod b 16 ltac:(lia)). pose proof (Z.mod_pos_bound b 16 ltac:(lia)).
  rewrite !hex_value_digit by lia. rewrite IH. f_equal. lia.
Qed.

(** ** Trimming *)
Lemma trim_start_cases s : trim_start s = "" ∨ ∃ c t, trim_start s = String c t ∧ is_blank c = false.
Proof.
  induction s as [|c s IH]; simpl; [by left|]. destruct (is_blank c) eqn:E; [exact IH|]. right. eauto.
Qed.

Lemma trim_end_idem s : trim_end (trim_end s) = trim_end s.
Proof.
  induction s as [|c s IH]; [done|]. simpl. destruct (trim_end s) as [|d t] eqn:E.
  - destruct (is_blank c) eqn:Ec; simpl; [done|by rewrite Ec].
  - change (trim_end (String c (String d t))) with
      (match trim_end (String d t) with
       | EmptyString => if is_blank c then EmptyString else String c EmptyString
       | t => String c t end). by rewrite IH.
Qed.

Lemma trim_end_head c t : is_blank c = false → ∃ t', trim_end (String c t) = String c t'.
Proof. intros H. simpl. destruct (trim_end t); [rewrite H|]; eauto. Qed.

Lemma trim_idem s : trim (trim s) = trim s.
Proof.
  unfold trim. destruct (trim_start_cases s) as [->|(c & t & -> & Hc)]; [done|].
  destruct (trim_end_head c t Hc) as [t' Ht]. rewrite <- (trim_end_idem (String c t)) at 2.
  rewrite Ht. cbn [trim_start]. by rewrite Hc.
Qed.
