(* ===== verification/JsBase64.v ===== *)
(** * Base64 of buffers

    [buf.toString('base64')] and [Buffer.from(s, 'base64')], which reads both
    alphabets and skips every other character. *)
From S2P Require Import Prelude JsString.
From Stdlib Require Import Ascii.

Definition base64_char (n : Z) : ascii :=
  ascii_of_nat (Z.to_nat (if n <? 26 then 65 + n else if n <? 52 then 71 + n
    else if n <? 62 then n - 4 else if n =? 62 then 43 else 47)).
Definition base64_value (c : ascii) : option Z :=
  let n := Z.of_nat (nat_of_ascii c) in
  if (65 <=? n) && (n <=? 90) then Some (n - 65)
  else if (97 <=? n) && (n <=? 122) then Some (n - 71)
  else if (48 <=? n) && (n <=? 57) then Some (n + 4)
  else if (n =? 43) || (n =? 45) then Some 62
  else if (n =? 47) || (n =? 95) then Some 63
  else None.

Fixpoint to_base64 (l : list Z) : string :=
  match l with
  | a :: b :: c :: l =>
      String (base64_char (a / 4)) (String (base64_char (a mod 4 * 16 + b / 16))
        (String (base64_char (b mod 16 * 4 + c / 64)) (String (base64_char (c mod 64)) (to_base64 l))))
  | [a; b] =>
      String (base64_char (a / 4)) (String (base64_char (a mod 4 * 16 + b / 16))
        (String (base64_char (b mod 16 * 4)) "="))
  | [a] => String (base64_char (a / 4)) (String (base64_char (a mod 4 * 16)) "==")
  | [] => EmptyString
  end.

Fixpoint sextets (l : list Z) : list Z :=
  match l with
  | w :: x :: y :: z :: l => w * 4 + x / 16 :: x mod 16 * 16 + y / 4 :: y mod 4 * 64 + z :: sextets l
  | [w; x; y] => [w * 4 + x / 16; x mod 16 * 16 + y / 4]
  | [w; x] => [w * 4 + x / 16]
  | _ => []
  end.
Definition of_base64 (s : string) : list Z := sextets (omap base64_value (String.list_ascii_of_string s)).

(** ** The round trip *)
Lemma base64_value_char n : 0 ≤ n < 64 → base64_value (base64_char n) = Some n.
Proof.
  intros H. assert (n ∈ seqZ 0 64) as Hn by (apply elem_of_seqZ; lia).
  assert (forallb (fun k => bool_decide (base64_value (base64_char k) = Some k)) (seqZ 0 64) = true)
    as Hall by reflexivity.
  rewrite forallb_forall in Hall. apply list_elem_of_In, Hall in Hn.
  by apply bool_decide_eq_true in Hn.
Qed.

Lemma omap_string c s :
  omap base64_value (String.list_ascii_of_string (String c s)) =
    match base64_value c with
    | Some n => n :: omap base64_value (String.list_ascii_of_string s)
    | None => omap base64_value (String.list_ascii_of_string s)
    end.
Proof. done. Qed.

(** Three bytes are four sextets. *)
Lemma sextet_bytes a b c :
  byte_ok a → byte_ok b → byte_ok c →
  0 ≤ a / 4 < 64 ∧ 0 ≤ a mod 4 * 16 + b / 16 < 64 ∧ 0 ≤ b mod 16 * 4 + c / 64 < 64 ∧
  0 ≤ c mod 64 < 64 ∧
  a / 4 * 4 + (a mod 4 * 16 + b / 16) / 16 = a ∧
  (a mod 4 * 16 + b / 16) mod 16 * 16 + (b mod 16 * 4 + c / 64) / 4 = b ∧
  (b mod 16 * 4 + c / 64) mod 4 * 64 + c mod 64 = c.
Proof.
  unfold byte_ok. intros Ha Hb Hc.
  pose proof (Z.div_mod a 4). pose proof (Z.mod_pos_bound a 4).
  pose proof (Z.div_mod b 16). pose proof (Z.mod_pos_bound b 16).
  pose proof (Z.div_mod c 64). pose proof (Z.mod_pos_bound c 64).
  assert (0 ≤ b / 16 < 16) by (split; [apply Z.div_pos|apply Z.div_lt_upper_bound]; lia).
  assert (0 ≤ c / 64 < 4) by (split; [apply Z.div_pos|apply Z.div_lt_upper_bound]; lia).
  assert ((a mod 4 * 16 + b / 16) / 16 = a mod 4) as ->
    by (rewrite Z.add_comm, Z.div_add, Z.div_small; lia).
  assert ((a mod 4 * 16 + b / 16) mod 16 = b / 16) as ->
    by (rewrite Z.add_comm, Z.mod_add, Z.mod_small; lia).
  assert ((b mod 16 * 4 + c / 64) / 4 = b mod 16) as ->
    by (rewrite Z.add_comm, Z.div_add, Z.div_small; lia).
  assert ((b mod 16 * 4 + c / 64) mod 4 = c / 64) as ->
    by (rewrite Z.add_comm, Z.mod_add, Z.mod_small; lia).
  repeat split; lia.
Qed.

Lemma of_base64_to_base64 l : Forall byte_ok l → of_base64 (to_base64 l) = l.
Proof.
  unfold of_base64. remember (length l) as n eqn:En. revert l En.
  induction n as [n IH] using lt_wf_ind. intros [|a [|b [|c l]]] ->; intros Hl.
  - done.
  - inversion Hl as [|?? Ha _]; subst.
    destruct (sextet_bytes a 0 0 Ha) as (H1 & H2 & _ & _ & H5 & _); [by unfold byte_ok..|].
    cbn [to_base64]. rewrite Z.div_0_l, Z.add_0_r in H2, H5 by lia.
    rewrite !omap_string, !base64_value_char by done.
    change (omap base64_value (String.list_ascii_of_string "==")) with (@nil Z).
    cbn [sextets]. by rewrite H5.
  - inversion Hl as [|?? Ha Hl']; subst. inversion Hl' as [|?? Hb _]; subst.
    destruct (sextet_bytes a b 0 Ha Hb) as (H1 & H2 & H3 & _ & H5 & H6 & _); [by unfold byte_ok|].
    cbn [to_base64]. rewrite Z.div_0_l, Z.add_0_r in H3, H6 by lia.
    rewrite !omap_string, !base64_value_char by done.
    change (omap base64_value (String.list_ascii_of_string "=")) with (@nil Z).
    cbn [sextets]. by rewrite H5, H6.
  - inversion Hl as [|?? Ha Hl1]; subst. inversion Hl1 as [|?? Hb Hl2]; subst.
    inversion Hl2 as [|?? Hc Hl3]; subst.
    destruct (sextet_bytes a b c Ha Hb Hc) as (H1 & H2 & H3 & H4 & H5 & H6 & H7).
    cbn [to_base64]. rewrite !omap_string, !base64_value_char by done.
    cbn [sextets]. rewrite H5, H6, H7. do 3 f_equal. by eapply IH; [|done..]; simpl; lia.
Qed.
