(* ===== verification/JsDate.v ===== *)
(** * JavaScript dates

    A [Date] is its time value: milliseconds since the epoch, or NaN ([None]).
    [toISOString] is what [JSON.stringify] writes for a date and [parse_iso] is
    [new Date(text)] on such a text; the theorem of the file is that reading
    back a written date gives the same date. *)
From S2P Require Import Prelude JsNumber.
From Stdlib Require Import Ascii.

Definition js_date : Type := option Z.

(** [new Date(v)] of a number: TimeClip. *)
Definition new_Date (v : Z) : js_date :=
  if Z.abs v <=? 8640000000000000 then Some v else None.

Definition date_ok (t : js_date) : Prop :=
  ∃ v, t = Some v ∧ Z.abs v ≤ 8640000000000000.

(** ** Days and civil dates

    Years are counted from March 1st, so that the leap day is the last of its
    year: 400, 100, 4 and 1 years of 146097, 36524, 1461 and 365 days. *)
Definition civil_from_days (z : Z) : Z * Z * Z :=
  let z := z + 719468 in
  let n400 := z / 146097 in
  let r := z mod 146097 in
  let n100 := Z.min 3 (r / 36524) in
  let r := r - 36524 * n100 in
  let n4 := r / 1461 in
  let r := r mod 1461 in
  let n1 := Z.min 3 (r / 365) in
  let doy := r - 365 * n1 in
  let mp := (5 * doy + 2) / 153 in
  let m := if mp <? 10 then mp + 3 else mp - 9 in
  let d := doy - (153 * mp + 2) / 5 + 1 in
  (400 * n400 + 100 * n100 + 4 * n4 + n1 + (if m <=? 2 then 1 else 0), m, d).

Definition days_from_civil (y m d : Z) : Z :=
  let y := y - (if m <=? 2 then 1 else 0) in
  let yoe := y mod 400 in
  let mp := (m + 9) mod 12 in
  let doy := (153 * mp + 2) / 5 + d - 1 in
  146097 * (y / 400) + 365 * yoe + yoe / 4 - yoe / 100 + doy - 719468.

Lemma month_roundtrip doy :
  0 ≤ doy < 366 →
  let mp := (5 * doy + 2) / 153 in
  let m := if mp <? 10 then mp + 3 else mp - 9 in
  let d := doy - (153 * mp + 2) / 5 + 1 in
  (m + 9) mod 12 = mp ∧ 0 ≤ mp < 12 ∧ 1 ≤ m ≤ 12 ∧ 1 ≤ d ≤ 31.
Proof.
  intros H mp m d.
  assert (0 ≤ mp < 12) as Hmp by (subst mp; split; [apply Z.div_pos|apply Z.div_lt_upper_bound]; lia).
  assert ((m + 9) mod 12 = mp) as Hm.
  { subst m. destruct (Z.ltb_spec mp 10).
    - replace (mp + 3 + 9) with (mp + 1 * 12) by lia. rewrite Z.mod_add, Z.mod_small; lia.
    - replace (mp - 9 + 9) with mp by lia. rewrite Z.mod_small; lia. }
  split; [done|]. split; [done|]. split.
  { subst m. destruct (Z.ltb_spec mp 10); lia. }
  subst d. pose proof (Z.div_mod (5 * doy + 2) 153 ltac:(lia)) as E.
  pose proof (Z.mod_pos_bound (5 * doy + 2) 153 ltac:(lia)).
  pose proof (Z.div_mod (153 * mp + 2) 5 ltac:(lia)).
  pose proof (Z.mod_pos_bound (153 * mp + 2) 5 ltac:(lia)).
  fold mp in E. lia.
Qed.

Lemma civil_roundtrip z :
  let '(y, m, d) := civil_from_days z in
  days_from_civil y m d = z ∧ 1 ≤ m ≤ 12 ∧ 1 ≤ d ≤ 31.
Proof.
  unfold civil_from_days. cbv zeta.
  set (w := z + 719468). set (n400 := w / 146097). set (r := w mod 146097).
  set (n100 := Z.min 3 (r / 36524)). set (r1 := r - 36524 * n100).
  set (n4 := r1 / 1461). set (r2 := r1 mod 1461).
  set (n1 := Z.min 3 (r2 / 365)). set (doy := r2 - 365 * n1).
  assert (w = 146097 * n400 + r) as Ew by (apply Z.div_mod; lia).
  assert (0 ≤ r < 146097) as Hr by (apply Z.mod_pos_bound; lia).
  pose proof (Z.div_mod r 36524 ltac:(lia)) as E1.
  pose proof (Z.mod_pos_bound r 36524 ltac:(lia)) as B1.
  assert (0 ≤ r / 36524 ≤ 4) as Q1 by lia.
  assert (0 ≤ n100 ≤ 3 ∧ 0 ≤ r1 < 36525) as [Hn100 Hr1] by lia.
  assert (r1 = 1461 * n4 + r2) as Er1 by (apply Z.div_mod; lia).
  assert (0 ≤ r2 < 1461) as Hr2 by (apply Z.mod_pos_bound; lia).
  assert (0 ≤ n4 ≤ 24) as Hn4 by lia.
  pose proof (Z.div_mod r2 365 ltac:(lia)) as E2.
  pose proof (Z.mod_pos_bound r2 365 ltac:(lia)) as B2.
  assert (0 ≤ n1 ≤ 3 ∧ 0 ≤ doy < 366) as [Hn1 Hdoy] by lia.
  destruct (month_roundtrip doy Hdoy) as (Hm & Hmp & Hmb & Hdb). cbv zeta in Hm.
  split; [|done].
  set (mp := (5 * doy + 2) / 153) in *.
  set (m := if mp <? 10 then mp + 3 else mp - 9) in *.
  unfold days_from_civil. cbv zeta. rewrite Hm.
  set (lp := if m <=? 2 then 1 else 0).
  replace (400 * n400 + 100 * n100 + 4 * n4 + n1 + lp - lp)
    with ((100 * n100 + 4 * n4 + n1) + n400 * 400) by lia.
  rewrite Z.mod_add, Z.div_add by lia.
  rewrite (Z.mod_small (100 * n100 + 4 * n4 + n1)) by lia.
  rewrite (Z.div_small (100 * n100 + 4 * n4 + n1) 400) by lia.
  assert ((100 * n100 + 4 * n4 + n1) / 4 = 25 * n100 + n4) as ->.
  { symmetry. apply (Z.div_unique _ _ _ n1); lia. }
  assert ((100 * n100 + 4 * n4 + n1) / 100 = n100) as ->.
  { symmetry. apply (Z.div_unique _ _ _ (4 * n4 + n1)); lia. }
  lia.
Qed.

(** ** Decimal fields of fixed width *)
Definition digit (z : Z) : ascii := ascii_of_nat (48 + Z.to_nat (z mod 10)).
Definition undigit (c : ascii) : option Z :=
  let n := Z.of_nat (nat_of_ascii c) - 48 in
  if (0 <=? n) && (n <=? 9) then Some n else None.

Fixpoint pad (n : nat) (z : Z) (rest : string) : string :=
  match n with
  | O => rest
  | S n => pad n (z / 10) (String (digit z) rest)
  end.

Fixpoint unpad (n : nat) (acc : Z) (s : string) : option (Z * string) :=
  match n with
  | O => Some (acc, s)
  | S n => match s with
           | String c s => d ← undigit c; unpad n (10 * acc + d) s
           | EmptyString => None
           end
  end.

Lemma undigit_digit z : undigit (digit z) = Some (z mod 10).
Proof.
  unfold undigit, digit. pose proof (Z.mod_pos_bound z 10 ltac:(lia)).
  rewrite nat_ascii_embedding by lia.
  replace (Z.of_nat (48 + Z.to_nat (z mod 10)) - 48) with (z mod 10) by lia.
  by rewrite (proj2 (Z.leb_le 0 _)), (proj2 (Z.leb_le _ 9)) by lia.
Qed.

Lemma unpad_pad_gen n z acc rest k :
  0 ≤ z < 10 ^ Z.of_nat n →
  unpad (n + k) acc (pad n z rest) = unpad k (acc * 10 ^ Z.of_nat n + z) rest.
Proof.
  revert z acc rest k. induction n as [|n IH]; intros z acc rest k Hz.
  { change (10 ^ Z.of_nat 0) with 1 in *. cbn [pad Nat.add]. f_equal. lia. }
  cbn [pad]. rewrite Nat2Z.inj_succ, Z.pow_succ_r in * by lia.
  pose proof (Z.div_mod z 10 ltac:(lia)). pose proof (Z.mod_pos_bound z 10 ltac:(lia)).
  replace (S n + k)%nat with (n + S k)%nat by lia.
  rewrite IH by (split; [apply Z.div_pos|apply Z.div_lt_upper_bound]; lia).
  cbn [unpad]. rewrite undigit_digit. cbn [mbind option_bind]. f_equal. lia.
Qed.

Lemma unpad_pad n z rest :
  0 ≤ z < 10 ^ Z.of_nat n → unpad n 0 (pad n z rest) = Some (z, rest).
Proof.
  intros H. pose proof (unpad_pad_gen n z 0 rest 0 H) as E.
  rewrite Nat.add_0_r in E. rewrite E. done.
Qed.

(** ** ISO 8601 texts *)
Definition show_year (y : Z) (rest : string) : string :=
  if (0 <=? y) && (y <=? 9999) then pad 4 y rest
  else if y <? 0 then String "-" (pad 6 (- y) rest) else String "+" (pad 6 y rest).

Definition show_time (ms : Z) : string :=
  pad 2 (ms / 3600000) (String ":" (pad 2 (ms / 60000 mod 60)
    (String ":" (pad 2 (ms / 1000 mod 60)
      (String "." (pad 3 (ms mod 1000) "Z")))))).

(** [date.toISOString()] of a valid date. *)
Definition toISOString (v : Z) : string :=
  let '(y, m, d) := civil_from_days (v / 86400000) in
  show_year y (String "-" (pad 2 m (String "-" (pad 2 d
    (String "T" (show_time (v mod 86400000))))))).

Definition expect (c : ascii) (s : string) : option string :=
  match s with
  | String c' s => if decide (c' = c) then Some s else None
  | EmptyString => None
  end.

Definition read_year (s : string) : option (Z * string) :=
  match s with
  | String "-" s => '(y, s) ← unpad 6 0 s; Some (- y, s)
  | String "+" s => unpad 6 0 s
  | _ => unpad 4 0 s
  end%char.

Definition read_time (s : string) : option Z :=
  '(h, s) ← unpad 2 0 s; s ← expect ":" s;
  '(mi, s) ← unpad 2 0 s; s ← expect ":" s;
  '(sec, s) ← unpad 2 0 s; s ← expect "." s;
  '(ms, s) ← unpad 3 0 s;
  if decide (s = "Z") then Some (3600000 * h + 60000 * mi + 1000 * sec + ms) else None.

(** [new Date(text)]; a text that is not of this form gives the invalid date. *)
Definition parse_iso (s : string) : js_date :=
  '(y, s) ← read_year s; s ← expect "-" s;
  '(m, s) ← unpad 2 0 s; s ← expect "-" s;
  '(d, s) ← unpad 2 0 s; s ← expect "T" s;
  t ← read_time s;
  if (1 <=? m) && (m <=? 12) && (1 <=? d) && (d <=? 31)
  then new_Date (86400000 * days_from_civil y m d + t) else None.

Lemma civil_year_bound z :
  Z.abs z ≤ 100000000 → Z.abs (civil_from_days z).1.1 < 10 ^ 6.
Proof.
  intros H. unfold civil_from_days. cbv zeta. simpl fst.
  set (w := z + 719468). set (n400 := w / 146097).
  set (r := w mod 146097). set (n100 := Z.min 3 (r / 36524)).
  set (r1 := r - 36524 * n100). set (n4 := r1 / 1461).
  set (n1 := Z.min 3 (r1 mod 1461 / 365)).
  assert (0 ≤ r < 146097) by (apply Z.mod_pos_bound; lia).
  assert (-700 ≤ n400 ≤ 700) by (subst n400 w; split;
    [apply Z.div_le_lower_bound|apply Z.lt_succ_r, Z.div_lt_upper_bound]; lia).
  assert (0 ≤ r / 36524) by (apply Z.div_pos; lia).
  assert (0 ≤ n100 ≤ 3) by lia.
  pose proof (Z.div_mod r 36524 ltac:(lia)). pose proof (Z.mod_pos_bound r 36524 ltac:(lia)).
  assert (0 ≤ n4 ≤ 200) by (subst n4; split;
    [apply Z.div_pos|apply Z.lt_succ_r, Z.div_lt_upper_bound]; lia).
  assert (0 ≤ n1 ≤ 3).
  { subst n1. pose proof (Z.mod_pos_bound r1 1461 ltac:(lia)).
    assert (0 ≤ r1 mod 1461 / 365) by (apply Z.div_pos; lia). lia. }
  change (10 ^ 6) with 1000000. case_match; lia.
Qed.

Lemma read_show_year y rest :
  Z.abs y < 10 ^ 6 → read_year (show_year y rest) = Some (y, rest).
Proof.
  intros H. unfold show_year.
  destruct (Z.leb_spec 0 y); [destruct (Z.leb_spec y 9999)|]; cbn [andb].
  - assert (∀ z n r, n ≠ 0%nat → ∃ w s, pad n z r = String (digit w) s) as Hd.
    { intros z n. revert z. induction n as [|n IH]; [done|]. intros z r _. cbn [pad].
      destruct n; [eexists _, _; reflexivity|]. by apply IH. }
    destruct (Hd y 4%nat rest) as (w & s & Ew); [done|].
    pose proof (unpad_pad 4 y rest) as Hu. rewrite Ew in *.
    assert (undigit (digit w) ≠ None) by (by rewrite undigit_digit).
    assert (read_year (String (digit w) s) = unpad 4 0 (String (digit w) s)) as ->.
    { destruct (digit w) as [[] [] [] [] [] [] [] []]; done. }
    apply Hu. change (10 ^ Z.of_nat 4) with 10000. lia.
  - rewrite (proj2 (Z.ltb_ge y 0)) by lia. cbn [read_year].
    apply (unpad_pad 6). change (10 ^ Z.of_nat 6) with (10 ^ 6). lia.
  - rewrite (proj2 (Z.ltb_lt y 0)) by lia. cbn [read_year].
    rewrite (unpad_pad 6) by (change (10 ^ Z.of_nat 6) with (10 ^ 6); lia).
    cbn. f_equal. f_equal. lia.
Qed.

Lemma read_show_time ms : 0 ≤ ms < 86400000 → read_time (show_time ms) = Some ms.
Proof.
  intros H. unfold show_time, read_time.
  assert (10 ^ Z.of_nat 2 = 100) as E2 by done.
  assert (10 ^ Z.of_nat 3 = 1000) as E3 by done.
  pose proof (Z.mod_pos_bound (ms / 60000) 60 ltac:(lia)).
  pose proof (Z.mod_pos_bound (ms / 1000) 60 ltac:(lia)).
  pose proof (Z.mod_pos_bound ms 1000 ltac:(lia)).
  assert (0 ≤ ms / 3600000 < 24) by (split; [apply Z.div_pos|apply Z.div_lt_upper_bound]; lia).
  repeat (rewrite unpad_pad by (rewrite ?E2, ?E3; lia);
    cbn [mbind option_bind expect];
    try (rewrite decide_True by done; cbn [mbind option_bind])).
  f_equal.
  pose proof (Z.div_mod ms 1000 ltac:(lia)).
  pose proof (Z.div_mod (ms / 1000) 60 ltac:(lia)).
  pose proof (Z.div_mod (ms / 60000) 60 ltac:(lia)).
  assert (ms / 60000 = ms / 1000 / 60) by (rewrite Z.div_div; [done|lia|lia]).
  assert (ms / 3600000 = ms / 60000 / 60) by (rewrite Z.div_div; [done|lia|lia]).
  lia.
Qed.

(** Reading back a written date gives the same date. *)
Lemma parse_toISOString v :
  Z.abs v ≤ 8640000000000000 → parse_iso (toISOString v) = Some v.
Proof.
  intros H. unfold parse_iso, toISOString.
  pose proof (Z.div_mod v 86400000 ltac:(lia)) as E.
  pose proof (Z.mod_pos_bound v 86400000 ltac:(lia)) as B.
  assert (Z.abs (v / 86400000) ≤ 100000000) as Hd by lia.
  pose proof (civil_year_bound _ Hd) as Hy. pose proof (civil_roundtrip (v / 86400000)) as Hc.
  destruct (civil_from_days (v / 86400000)) as [[y m] d]. destruct Hc as (Hc & Hm & Hdd).
  simpl fst in Hy. assert (10 ^ Z.of_nat 2 = 100) as E2 by done.
  rewrite read_show_year by done. cbn [mbind option_bind expect].
  rewrite decide_True by done. cbn [mbind option_bind].
  repeat (rewrite unpad_pad by (rewrite ?E2; lia);
    cbn [mbind option_bind expect];
    try (rewrite decide_True by done; cbn [mbind option_bind])).
  rewrite read_show_time by done. cbn [mbind option_bind].
  rewrite (proj2 (Z.leb_le 1 m)), (proj2 (Z.leb_le m 12)),
    (proj2 (Z.leb_le 1 d)), (proj2 (Z.leb_le d 31)) by lia. cbn [andb].
  rewrite Hc. replace (86400000 * (v / 86400000) + v mod 86400000) with v by lia.
  unfold new_Date. by rewrite (proj2 (Z.leb_le _ _) H).
Qed.

Example iso_sample : toISOString 1756336073486 = "2025-08-27T23:07:53.486Z".
Proof. vm_compute. reflexivity. Qed.
