(* ===== verification/Json.v ===== *)
(** * JSON values, their texts, and lodash

    [JSON.stringify] as the program uses it: as a key that tells values apart
    (the cache keys of [Memoize], the keys of [uniqBy]), and to measure blocks.  And the lodash
    functions the program calls, as an interface with their documented laws. *)
From S2P Require Import Prelude JsString.
From Stdlib Require Import Ascii.

Inductive json : Type :=
| JNull
| JBool (b : bool)
| JNumber (z : Z)
| JString (s : string)
| JArray (l : list json)
| JObject (l : list (string * json))
(** a bigint, which has a text only where [BigInt.prototype.toJSON] is installed *)
| JBigInt (z : Z).

Definition quote : ascii := ascii_of_nat 34.
Definition backslash : ascii := ascii_of_nat 92.

Definition hex_char (n : nat) : ascii :=
  ascii_of_nat (if (n <? 10)%nat then 48 + n else 87 + n).

(** QuoteJSONString: the short escapes, and [\u00XX] for the other controls. *)
Definition escape_char (c : ascii) : string :=
  let n := nat_of_ascii c in
  let short e := String backslash (String e EmptyString) in
  if (n =? 34)%nat then short quote
  else if (n =? 92)%nat then short backslash
  else if (n =? 8)%nat then short "b"%char
  else if (n =? 9)%nat then short "t"%char
  else if (n =? 10)%nat then short "n"%char
  else if (n =? 12)%nat then short "f"%char
  else if (n =? 13)%nat then short "r"%char
  else if (n <? 32)%nat
       then String backslash ("u00" +:+
              String (hex_char (n / 16)) (String (hex_char (n mod 16)) EmptyString))
  else String c EmptyString.

Fixpoint escape (s : string) : string :=
  match s with
  | EmptyString => EmptyString
  | String c s => escape_char c +:+ escape s
  end.

Definition quoted (s : string) : string :=
  String quote (escape s +:+ String quote EmptyString).

Definition show_bool (b : bool) : string := if b then "true" else "false".

Fixpoint stringify (j : json) : string :=
  match j with
  | JNull => "null"
  | JBool b => show_bool b
  | JNumber z => pretty z
  | JString s => quoted s
  | JArray l => "[" +:+ join_on ","%char (map stringify l) +:+ "]"
  | JObject l =>
      "{" +:+ join_on ","%char
        (map (fun kv => quoted kv.1 +:+ ":" +:+ stringify kv.2) l) +:+ "}"
  | JBigInt z => quoted (pretty z)
  end.

(** Reading one possibly escaped character back. *)
Definition unhex (c : ascii) : option nat :=
  let n := nat_of_ascii c in
  if ((48 <=? n) && (n <=? 57))%nat then Some (n - 48)%nat
  else if ((97 <=? n) && (n <=? 102))%nat then Some (n - 87)%nat else None.

Definition read_escaped (s : string) : option (ascii * string) :=
  match s with
  | EmptyString => None
  | String c s =>
      if decide (c = quote) then None
      else if decide (c = backslash) then
        match s with
        | String e s =>
            if decide (e = quote) then Some (quote, s)
            else if decide (e = backslash) then Some (backslash, s)
            else if decide (e = "b"%char) then Some (ascii_of_nat 8, s)
            else if decide (e = "t"%char) then Some (ascii_of_nat 9, s)
            else if decide (e = "n"%char) then Some (ascii_of_nat 10, s)
            else if decide (e = "f"%char) then Some (ascii_of_nat 12, s)
            else if decide (e = "r"%char) then Some (ascii_of_nat 13, s)
            else match s with
                 | String _ (String _ (String h (String l s))) =>
                     h ← unhex h; l ← unhex l; Some (ascii_of_nat (16 * h + l), s)
                 | _ => None
                 end
        | EmptyString => None
        end
      else Some (c, s)
  end.

Lemma read_escape_char c rest :
  read_escaped (escape_char c +:+ rest) = Some (c, rest).
Proof. destruct c as [[] [] [] [] [] [] [] []]; reflexivity. Qed.

Lemma string_app_cons c (a b : string) : String c a +:+ b = String c (a +:+ b).
Proof. done. Qed.

Lemma string_app_assoc (a b c : string) : a +:+ b +:+ c = (a +:+ b) +:+ c.
Proof. induction a as [|x a IH]; [done|]. by rewrite !string_app_cons, IH. Qed.

(** The closing quote of an escaped string is its first unescaped one, so the
    string and what follows it can be told from the text. *)
Lemma escape_inj s1 s2 r1 r2 :
  escape s1 +:+ String quote r1 = escape s2 +:+ String quote r2 → s1 = s2 ∧ r1 = r2.
Proof.
  revert s2. induction s1 as [|c1 s1 IH]; intros [|c2 s2].
  - by intros [= ->].
  - intros H. apply (f_equal read_escaped) in H.
    cbn [escape] in H. rewrite <- string_app_assoc, read_escape_char in H. done.
  - intros H. apply (f_equal read_escaped) in H.
    cbn [escape] in H. rewrite <- string_app_assoc, read_escape_char in H. done.
  - intros H. apply (f_equal read_escaped) in H.
    cbn [escape] in H. rewrite <- !string_app_assoc, !read_escape_char in H.
    injection H as -> H. apply IH in H as [-> ->]. done.
Qed.

(** Different argument lists of two strings have different keys. *)
Lemma stringify_pair_inj a b a' b' :
  stringify (JArray [JString a; JString b]) = stringify (JArray [JString a'; JString b']) →
  a = a' ∧ b = b'.
Proof.
  cbn [stringify map join_on]. unfold quoted. rewrite <- !string_app_assoc.
  cbn. intros [= H]. rewrite <- !string_app_assoc in H.
  apply escape_inj in H as [-> H].
  cbn in H. injection H as H. rewrite <- !string_app_assoc in H.
  by apply escape_inj in H as [-> _].
Qed.

(** ** lodash *)
Class Lodash := {
  lodash_last : ∀ {A : Type}, list A → option A;
  lodash_last_nil : ∀ A, lodash_last (A:=A) [] = None;
  lodash_last_snoc : ∀ A (l : list A) x, lodash_last (l ++ [x]) = Some x;
  (** the first element of each key, in the order of the list *)
  lodash_uniqBy : ∀ {A : Type}, (A → string) → list A → list A;
  lodash_uniqBy_nil : ∀ A (f : A → string), lodash_uniqBy f [] = [];
  lodash_uniqBy_snoc : ∀ A (f : A → string) l x,
    lodash_uniqBy f (l ++ [x]) =
      if decide (f x ∈ f <$> l) then lodash_uniqBy f l else lodash_uniqBy f l ++ [x];
  (** the elements under a key, in the order of the list; [None] is no entry *)
  lodash_groupBy : ∀ {A : Type}, (A → Z) → list A → Z → option (list A);
  lodash_groupBy_spec : ∀ A (f : A → Z) l k,
    lodash_groupBy f l k =
      match filter (fun x => f x = k) l with [] => None | xs => Some xs end
}.

(** An implementation, which shows that the laws can be met. *)
Fixpoint uniq_keys {A} (f : A → string) (seen : list string) (l : list A) : list A :=
  match l with
  | [] => []
  | x :: l => if decide (f x ∈ seen) then uniq_keys f seen l
              else x :: uniq_keys f (f x :: seen) l
  end.

Lemma uniq_keys_snoc {A} (f : A → string) seen l x :
  uniq_keys f seen (l ++ [x]) =
    if decide (f x ∈ seen ++ (f <$> l)) then uniq_keys f seen l
    else uniq_keys f seen l ++ [x].
Proof.
  revert seen. induction l as [|y l IH]; intros seen; simpl.
  - rewrite app_nil_r. by case_decide.
  - destruct (decide (f y ∈ seen)) as [Hy|Hy]; rewrite IH.
    + apply decide_ext. rewrite !elem_of_app, elem_of_cons.
      split; [tauto|intros [?|[->|?]]; auto].
    + assert (f x ∈ (f y :: seen) ++ (f <$> l) ↔ f x ∈ seen ++ f y :: (f <$> l)) as E
        by (rewrite !elem_of_app, !elem_of_cons; tauto).
      rewrite (decide_ext _ _ _ _ E).
      change (list_fmap A string f l) with (f <$> l). by case_decide.
Qed.

#[export] Instance lodash_model : Lodash := {|
  lodash_last := fun A l => last l;
  lodash_last_nil := fun A => eq_refl;
  lodash_last_snoc := fun A l x => last_snoc x l;
  lodash_uniqBy := fun A f l => uniq_keys f [] l;
  lodash_uniqBy_nil := fun A f => eq_refl;
  lodash_uniqBy_snoc := fun A f l x => uniq_keys_snoc f [] l x;
  lodash_groupBy := fun A f l k =>
    match filter (fun x => f x = k) l with [] => None | xs => Some xs end;
  lodash_groupBy_spec := fun A f l k => eq_refl
|}.

Section lodash.
Context `{LD : Lodash}.

Lemma lodash_last_spec {A} (l : list A) : lodash_last l = last l.
Proof.
  destruct l as [|x l _] using rev_ind; [apply lodash_last_nil|].
  by rewrite lodash_last_snoc, last_snoc.
Qed.

Lemma lodash_uniqBy_spec {A} (f : A → string) l :
  lodash_uniqBy f l = uniq_keys f [] l.
Proof.
  induction l as [|x l IH] using rev_ind; [apply lodash_uniqBy_nil|].
  rewrite lodash_uniqBy_snoc, uniq_keys_snoc, IH. done.
Qed.

Lemma elem_of_uniq_keys {A} (f : A → string) seen l x :
  x ∈ uniq_keys f seen l → x ∈ l.
Proof.
  revert seen. induction l as [|y l IH]; intros seen; simpl; [done|].
  case_decide; rewrite ?elem_of_cons; naive_solver.
Qed.

Lemma uniq_keys_covers {A} (f : A → string) seen l x :
  x ∈ l → f x ∉ seen → ∃ y, y ∈ uniq_keys f seen l ∧ f y = f x.
Proof.
  revert seen. induction l as [|y l IH]; intros seen Hx Hs; simpl; [by apply not_elem_of_nil in Hx|].
  apply elem_of_cons in Hx as [->|Hx].
  - rewrite decide_False by done. exists y. split; [by left|done].
  - case_decide as Hy; [by apply IH|].
    destruct (decide (f x = f y)) as [E|E].
    + exists y. split; [by left|done].
    + destruct (IH (f y :: seen) Hx) as (z & Hz & Ez); [set_solver|].
      exists z. split; [by right|done].
Qed.

Lemma uniq_keys_NoDup {A} (f : A → string) seen l :
  NoDup (f <$> uniq_keys f seen l) ∧ ∀ x, x ∈ uniq_keys f seen l → f x ∉ seen.
Proof.
  revert seen. induction l as [|y l IH]; intros seen; simpl.
  { split; [constructor|by intros x ?%not_elem_of_nil]. }
  case_decide as Hy; [apply IH|].
  destruct (IH (f y :: seen)) as [H1 H2]. split.
  - simpl. constructor; [|done]. intros (z & E & Hz)%list_elem_of_fmap.
    apply (H2 z Hz). rewrite <- E. by left.
  - intros x [->|Hx]%elem_of_cons; [done|]. intros Hs. apply (H2 x Hx). by right.
Qed.
End lodash.

(** ** The text of a value determines the value

    Values without numbers are enough for the keys the program builds. *)
Fixpoint no_num (j : json) : bool :=
  match j with
  | JNumber _ | JBigInt _ => false
  | JArray l => forallb no_num l
  | JObject l => forallb (fun kv => no_num kv.2) l
  | _ => true
  end.

(** Induction with the hypothesis for all the elements of arrays and objects. *)
Definition json_rec_deep (P : json → Prop)
    (Hnull : P JNull) (Hbool : ∀ b, P (JBool b)) (Hnum : ∀ z, P (JNumber z))
    (Hstr : ∀ s, P (JString s)) (Harr : ∀ l, Forall P l → P (JArray l))
    (Hobj : ∀ l, Forall (fun kv => P kv.2) l → P (JObject l)) (Hbig : ∀ z, P (JBigInt z)) : ∀ j, P j :=
  fix go j := match j with
  | JNull => Hnull
  | JBool b => Hbool b
  | JNumber z => Hnum z
  | JString s => Hstr s
  | JArray l => Harr l ((fix go_list (l : list json) : Forall P l :=
      match l with [] => Forall_nil_2 _ | x :: l => Forall_cons_2 _ x l (go x) (go_list l) end) l)
  | JObject l => Hobj l ((fix go_list (l : list (string * json)) : Forall (fun kv => P kv.2) l :=
      match l with [] => Forall_nil_2 _ | x :: l => Forall_cons_2 _ x l (go x.2) (go_list l) end) l)
  | JBigInt z => Hbig z
  end.

Definition prefix_free {A} (f : A → string) (ok : A → Prop) (x : A) : Prop :=
  ∀ y r1 r2, ok y → f x +:+ r1 = f y +:+ r2 → x = y ∧ r1 = r2.

(** Elements joined by commas and closed can be told apart. *)
Lemma join_inj {A} (f : A → string) (ok : A → Prop) (close : ascii) l1 l2 r1 r2 :
  close ≠ ","%char →
  Forall ok l1 → Forall ok l2 → Forall (prefix_free f ok) l1 →
  (∀ x, ok x → ∃ c s, f x = String c s ∧ c ≠ close) →
  join_on ","%char (map f l1) +:+ String close r1 =
    join_on ","%char (map f l2) +:+ String close r2 → l1 = l2 ∧ r1 = r2.
Proof.
  intros Hclose Hok1 Hok2 Hpf Hstart. revert l2 Hok2.
  assert (∀ x ws, join_on ","%char (f x :: ws) =
    match ws with [] => f x | _ => f x +:+ String ","%char (join_on ","%char ws) end) as Hjoin
    by (intros x []; done).
  induction l1 as [|x l1 IH]; intros [|y l2] Hok2.
  - intros H. change (String close r1 = String close r2) in H. by injection H as ->.
  - intros H. exfalso. inversion Hok2 as [|? ? Hy _]; subst.
    destruct (Hstart y Hy) as (c & s & E & Hc). cbn [map] in H.
    rewrite Hjoin in H. change (join_on _ [] +:+ ?t) with t in H.
    destruct (map f l2); rewrite E, ?string_app_cons in H; injection H; intros _ ?; by apply Hc.
  - intros H. exfalso. inversion Hok1 as [|? ? Hx _]; subst.
    destruct (Hstart x Hx) as (c & s & E & Hc). cbn [map] in H.
    rewrite Hjoin in H. change (join_on _ [] +:+ ?t) with t in H.
    destruct (map f l1); rewrite E, ?string_app_cons in H; injection H; intros _ ?; by apply Hc.
  - intros H. inversion Hok1 as [|? ? Hx Hok1']; subst. inversion Hok2 as [|? ? Hy Hok2']; subst.
    inversion Hpf as [|? ? Hpx Hpf']; subst. cbn [map] in H. rewrite !Hjoin in H.
    assert (∀ z ws r, (match map f ws with [] => f z
        | _ => f z +:+ String ","%char (join_on ","%char (map f ws)) end) +:+ String close r =
      f z +:+ (match ws with [] => String close r
        | _ => String ","%char (join_on ","%char (map f ws) +:+ String close r) end)) as Hsplit.
    { intros z [|w ws] r; [done|]. cbn [map]. by rewrite <- string_app_assoc. }
    rewrite !Hsplit in H. apply Hpx in H as [-> H]; [|done].
    destruct l1 as [|x1 l1], l2 as [|y1 l2]; injection H; try (by intros -> || congruence).
    intros H'. destruct (IH Hok1' Hpf' (y1 :: l2) Hok2') as [-> ->]; done.
Qed.

Lemma stringify_start j :
  no_num j = true → ∃ c s, stringify j = String c s ∧ c ≠ "]"%char ∧ c ≠ "}"%char.
Proof. destruct j as [|[]| | | | |]; [..| |]; intros H; try done; by do 2 eexists. Qed.

Lemma forallb_Forall_true {A} (p : A → bool) l : forallb p l = true ↔ Forall (fun x => p x = true) l.
Proof.
  induction l as [|x l IH]; simpl; [by split; [constructor|]|].
  rewrite andb_true_iff, IH, Forall_cons. done.
Qed.

Lemma quoted_inj s1 s2 r1 r2 : quoted s1 +:+ r1 = quoted s2 +:+ r2 → s1 = s2 ∧ r1 = r2.
Proof.
  unfold quoted. rewrite !string_app_cons. intros [= H].
  rewrite <- !string_app_assoc in H. by apply escape_inj in H.
Qed.

Lemma stringify_prefix_free j :
  no_num j = true → prefix_free stringify (fun j => no_num j = true) j.
Proof.
  induction j as [|b|z|s|l IH|l IH|z] using json_rec_deep; intros Hj y r1 r2 Hy H; [..|done].
  - destruct y as [|[]| | | | |]; try done. by apply (inj (String.append "null")) in H as ->.
  - destruct b, y as [|[]| | | | |]; try done;
      [by apply (inj (String.append "true")) in H as ->|by apply (inj (String.append "false")) in H as ->].
  - done.
  - destruct y as [|[]| | | | |]; try done. by apply quoted_inj in H as [-> ->].
  - destruct y as [|[]| | |l'| |]; try done. cbn [stringify] in H. cbn [no_num] in Hj, Hy.
    rewrite forallb_Forall_true in Hj, Hy. injection H as H. rewrite <- !string_app_assoc in H.
    apply (join_inj stringify (fun j => no_num j = true)) in H as [-> ->]; try done.
    + clear -IH Hj. induction IH as [|x l Hx IH]; [constructor|].
      inversion Hj; subst. constructor; auto.
    + intros x Hx. destruct (stringify_start x Hx) as (c & s & ? & ? & ?). eauto.
  - destruct y as [|[]| | | |l'|]; try done. cbn [stringify] in H. cbn [no_num] in Hj, Hy.
    rewrite forallb_Forall_true in Hj, Hy. injection H as H. rewrite <- !string_app_assoc in H.
    apply (join_inj (fun kv => quoted kv.1 +:+ ":" +:+ stringify kv.2)
      (fun kv => no_num kv.2 = true)) in H as [-> ->]; try done.
    + clear -IH Hj. induction IH as [|[k v] l Hx IH]; [constructor|].
      inversion Hj; subst. constructor; [|auto]. intros [k' v'] r1 r2 Hok E. simpl in *.
      rewrite <- !string_app_assoc in E. apply quoted_inj in E as [-> E].
      injection E as E. apply Hx in E as [-> ->]; done.
    + intros [k v] Hx. by do 2 eexists.
Qed.

Lemma stringify_inj j1 j2 :
  no_num j1 = true → no_num j2 = true → stringify j1 = stringify j2 → j1 = j2.
Proof.
  intros H1 H2 H. apply (f_equal (fun s => s +:+ "")) in H.
  by apply stringify_prefix_free in H as [-> _].
Qed.
