(* ===== verification/JsMap.v ===== *)
(** * Maps and objects by key

    [Map] and object spread as the program uses them: lists of entries with distinct
    keys, in the order of insertion. *)
From S2P Require Import Prelude.

(** [new Map(entries)]: a later entry replaces the value of an earlier one and keeps
    its place. *)
Fixpoint map_set {A} (m : list (string * A)) (k : string) (v : A) : list (string * A) :=
  match m with
  | [] => [(k, v)]
  | (k', v') :: m => if decide (k' = k) then (k, v) :: m else (k', v') :: map_set m k v
  end.
Definition new_Map {A} (entries : list (string * A)) : list (string * A) :=
  foldl (fun m e => map_set m e.1 e.2) [] entries.

(** [m.get(k)], [o.k] *)
Fixpoint map_get {A} (m : list (string * A)) (k : string) : option A :=
  match m with
  | [] => None
  | (k', v) :: m => if decide (k' = k) then Some v else map_get m k
  end.

(** [{ ...a, ...b }], where a or b may be undefined *)
Definition spread {A} (a b : option (list (string * A))) : list (string * A) :=
  new_Map (default [] a ++ default [] b).

Lemma map_set_keys {A} (m : list (string * A)) k v :
  NoDup m.*1 → NoDup (map_set m k v).*1 ∧ ∀ x, x ∈ (map_set m k v).*1 ↔ x = k ∨ x ∈ m.*1.
Proof.
  induction m as [|[k' v'] m IH]; cbn [map_set]; rewrite ?fmap_cons.
  - intros _. split; [apply NoDup_singleton|]. set_solver.
  - intros [Hk Hm]%NoDup_cons. destruct (IH Hm) as [H1 H2]. case_decide as Hd; rewrite ?fmap_cons; cbn [fst] in *.
    + subst k'. split; [by apply NoDup_cons|set_solver].
    + split; [|intros x; rewrite !elem_of_cons, H2; tauto].
      apply NoDup_cons. split; [|done]. rewrite H2. by intros [->|?].
Qed.

Lemma map_set_elem {A} (m : list (string * A)) k v x y :
  NoDup m.*1 → (x, y) ∈ map_set m k v ↔ (x = k ∧ y = v) ∨ (x ≠ k ∧ (x, y) ∈ m).
Proof.
  induction m as [|[k' v'] m IH]; cbn [map_set]; rewrite ?fmap_cons.
  - intros _. set_solver.
  - intros [Hk Hm]%NoDup_cons. simpl in *. case_decide as Hd.
    + subst k'. rewrite !elem_of_cons. split.
      * intros [[= -> ->]|Hin]; [by left|]. right. split; [|by right].
        intros ->. apply Hk. apply list_elem_of_fmap. by exists (k, y).
      * intros [[-> ->]|[Hne [[= -> ->]|Hin]]]; [by left|done|by right].
    + rewrite !elem_of_cons, IH by done. naive_solver.
Qed.

(** The value that comes last under a key *)
Definition last_entry {A} (entries : list (string * A)) (k : string) : option A :=
  snd <$> last (filter (fun e => e.1 = k) entries).

Lemma new_Map_spec {A} (entries : list (string * A)) :
  NoDup (new_Map entries).*1 ∧
  ∀ k v, (k, v) ∈ new_Map entries ↔ last_entry entries k = Some v.
Proof.
  unfold new_Map, last_entry. induction entries as [|[k v] entries [IH1 IH2]] using rev_ind; simpl.
  { split; [constructor|]. set_solver. }
  rewrite foldl_snoc. split; [by apply map_set_keys|]. intros k' v'.
  rewrite map_set_elem, IH2 by done. rewrite filter_app, filter_cons, filter_nil. simpl. case_decide as Hd.
  - subst k'. rewrite last_snoc. simpl. naive_solver.
  - rewrite app_nil_r. naive_solver.
Qed.

Lemma map_get_set {A} (m : list (string * A)) k v k' :
  map_get (map_set m k v) k' = if decide (k = k') then Some v else map_get m k'.
Proof.
  induction m as [|[k1 v1] m IH]; simpl; [done|].
  destruct (decide (k1 = k)) as [->|Hk]; simpl.
  - by destruct (decide (k = k')).
  - rewrite IH. destruct (decide (k1 = k')) as [->|]; [|done]. by rewrite decide_False.
Qed.

(** A property of the second object hides that of the first. *)
Lemma new_Map_app {A} (a b : list (string * A)) k :
  NoDup b.*1 →
  map_get (new_Map (a ++ b)) k =
    match map_get b k with Some v => Some v | None => map_get (new_Map a) k end.
Proof.
  intros Hb. unfold new_Map. rewrite foldl_app. generalize (foldl (fun m e => map_set m e.1 e.2) [] a) as m.
  induction b as [|[k1 v1] b IH]; intros m; simpl; [done|].
  apply NoDup_cons in Hb as [Hk Hb]. rewrite IH, map_get_set by done.
  destruct (decide (k1 = k)) as [->|]; [|done].
  destruct (map_get b k) as [v|] eqn:E; [|done]. exfalso. apply Hk. clear -E.
  induction b as [|[k2 v2] b IH]; simpl in *; [done|].
  destruct (decide (k2 = k)) as [->|]; [by left|right; auto].
Qed.

Lemma new_Map_get {A} (a : list (string * A)) k : NoDup a.*1 → map_get (new_Map a) k = map_get a k.
Proof.
  intros Ha. pose proof (new_Map_app [] a k Ha) as H. simpl in H. rewrite H. by destruct (map_get a k).
Qed.

Lemma spread_get {A} (a b : option (list (string * A))) k :
  NoDup (default [] a).*1 → NoDup (default [] b).*1 →
  map_get (spread a b) k =
    match map_get (default [] b) k with Some v => Some v | None => map_get (default [] a) k end.
Proof. intros Ha Hb. unfold spread. by rewrite new_Map_app, new_Map_get. Qed.

(** Entries with distinct keys are a map as they are. *)
Lemma map_set_fresh {A} (m : list (string * A)) k v : k ∉ m.*1 → map_set m k v = m ++ [(k, v)].
Proof.
  induction m as [|[k' v'] m IH]; [done|]. rewrite fmap_cons. intros [Hne Hk]%not_elem_of_cons. simpl.
  rewrite decide_False by (by intros ->). by rewrite IH.
Qed.

Lemma new_Map_NoDup {A} (a : list (string * A)) : NoDup a.*1 → new_Map a = a.
Proof.
  unfold new_Map. induction a as [|[k v] a IH] using rev_ind; [done|].
  rewrite fmap_app. intros (Ha & Hd & _)%NoDup_app. rewrite foldl_snoc, IH by done.
  apply map_set_fresh. intros Hk. apply (Hd _ Hk). by left.
Qed.

Lemma map_get_elem {A} (m : list (string * A)) k v : map_get m k = Some v → (k, v) ∈ m.
Proof.
  induction m as [|[k' v'] m IH]; simpl; [done|]. case_decide as Hk; [|by right; auto].
  intros [= ->]. subst. by left.
Qed.

Lemma elem_map_get {A} (m : list (string * A)) k v : NoDup m.*1 → (k, v) ∈ m → map_get m k = Some v.
Proof.
  induction m as [|[k' v'] m IH]; [by intros _ ?%not_elem_of_nil|]. rewrite fmap_cons.
  intros [Hk Hm]%NoDup_cons [[= -> ->]|Hin]%elem_of_cons; simpl; [by rewrite decide_True|].
  rewrite decide_False; [by apply IH|]. intros ->. apply Hk, list_elem_of_fmap. by exists (k, v).
Qed.
