(* ===== verification/Types.v ===== *)
(** * Data of the program

    The types of [packages/types/src/solana.ts] and [project.ts] that the node
    computes with, the raw RPC types they wrap, and the node core's [Header].
    Properties the code only carries along by object spread are kept as one
    [rest] field of JSON properties. *)
From S2P Require Import Prelude JsNumber JsDate Json.

Definition props : Type := list (string * json).

(** [l[i]] of an array and a number: undefined out of range. *)
Definition js_nth {A} (l : list A) (i : Z) : option A :=
  if i <? 0 then None else l !! Z.to_nat i.

(** ** Node core *)
Record Header := mkHeader {
  blockHeight : Z;
  blockHash : string;
  parentHash : option string;
  timestamp : js_date
}.
#[global] Instance Header_eq_dec : EqDecision Header.
Proof. solve_decision. Defined.

(** [IBlock]: a block and the header its [getHeader()] gives. *)
Record IBlock (B : Type) := mkIBlock { block : B; getHeader : Header }.
Arguments mkIBlock {B} _ _.
Arguments block {B} _.
Arguments getHeader {B} _.

(** ** Blocks *)
Record BaseSolanaBlock := mkBase {
  sb_blockHeight : Z;
  sb_blockTime : Z;
  sb_blockhash : string;
  sb_parentSlot : Z;
  sb_previousBlockhash : string;
  sb_rest : props
}.

(** An instruction as the RPC gives it; [stackHeight] may be missing or null. *)
Record RawInstruction := mkRawInstruction {
  accounts : list Z;
  data : string;
  programIdIndex : Z;
  stackHeight : option (option Z)
}.

Record Inner (I : Type) := mkInner { index : Z; inner_instructions : list I }.
Arguments mkInner {I} _ _.
Arguments index {I} _.
Arguments inner_instructions {I} _.

Record Message (I : Type) := mkMessage {
  accountKeys : list string;
  instructions : list I;
  message_rest : props
}.
Arguments mkMessage {I} _ _ _.
Arguments accountKeys {I} _.
Arguments instructions {I} _.
Arguments message_rest {I} _.

(** [loadedAddresses] are the accounts of the address lookup tables.  [logs] are
    the log objects, [logMessages] the raw texts. *)
Record Meta (I L : Type) := mkMeta {
  err : option json;
  loaded_writable : list string;
  loaded_readonly : list string;
  innerInstructions : option (list (Inner I));
  logMessages : option (list string);
  logs : option (list L);
  meta_rest : props
}.
Arguments mkMeta {I L} _ _ _ _ _ _ _.
Arguments err {I L} _.
Arguments loaded_writable {I L} _.
Arguments loaded_readonly {I L} _.
Arguments innerInstructions {I L} _.
Arguments logMessages {I L} _.
Arguments logs {I L} _.
Arguments meta_rest {I L} _.

Record Tx (I L : Type) := mkTx {
  signatures : list string;
  message : Message I;
  meta : option (Meta I L);
  tx_rest : props
}.
Arguments mkTx {I L} _ _ _ _.
Arguments signatures {I L} _.
Arguments message {I L} _.
Arguments meta {I L} _.
Arguments tx_rest {I L} _.

Inductive LogType := LogLog | LogData | LogOther.
#[global] Instance LogType_eq_dec : EqDecision LogType.
Proof. solve_decision. Defined.

(** The logs of a dictionary block are objects already. *)
Record DictionaryLog := mkDictionaryLog {
  dl_message : string;
  dl_logIndex : Z;
  dl_programId : string;
  dl_kind : LogType
}.

Abbreviation RawTransaction := (Tx RawInstruction DictionaryLog).

Record RawSolanaBlock := mkRawBlock {
  raw_base : BaseSolanaBlock;
  raw_transactions : list RawTransaction
}.

(** Where [decodedMessage] comes from: a resolved promise of null, or a getter
    that calls the decoder on first use. *)
Inductive DecodeSource := ResolvedNull | OnDemand.

(** [programId] is declared a string, but is undefined for a message outside of
    any invocation. *)
Record SolanaLogMessage := mkLog {
  log_message : string;
  log_programId : option string;
  logIndex : Z;
  log_type : LogType;
  decodedMessage : DecodeSource
}.

(** [decodedData] is always a getter that calls the decoder on first use. *)
Record SolanaInstruction := mkInstruction {
  si_index : list Z;
  si_raw : RawInstruction;
  si_transaction : RawTransaction;
  si_block : BaseSolanaBlock
}.

Record SolanaTransaction := mkTransaction {
  st_tx : Tx SolanaInstruction SolanaLogMessage;
  st_block : BaseSolanaBlock
}.

Record SolanaBlock := mkBlock {
  block_base : BaseSolanaBlock;
  transactions : list SolanaTransaction
}.

Record DecodedData := mkDecodedData { decoded_name : string; decoded_data : props }.

(** ** Filters, handlers and datasources *)
Record SolanaBlockFilter := mkBlockFilter {
  modulo : option Z;
  block_timestamp : option string
}.

Record SolanaTransactionFilter := mkTransactionFilter {
  signerAccountKey : option string
}.

Definition InstructionAccountFilter : Type := option (list string).

Record SolanaInstructionFilter := mkInstructionFilter {
  if_programId : option string;
  if_discriminator : option string;
  if_accounts : option (list InstructionAccountFilter);
  if_includeFailed : option bool
}.

Record SolanaLogFilter := mkLogFilter { lf_programId : option string }.

Inductive SolanaHandlerKind := KBlock | KTransaction | KInstruction | KLog.
#[global] Instance SolanaHandlerKind_eq_dec : EqDecision SolanaHandlerKind.
Proof. solve_decision. Defined.

Definition handler_kind_string (k : SolanaHandlerKind) : string :=
  match k with
  | KBlock => "solana/BlockHandler"
  | KTransaction => "solana/TransactionHandler"
  | KInstruction => "solana/InstructionHandler"
  | KLog => "solana/LogHandler"
  end.

Definition SolanaDatasourceKind_Runtime : string := "solana/Runtime".

(** A handler is its function's name and a filter of its kind. *)
Inductive HandlerFilter :=
| FBlock (f : option SolanaBlockFilter)
| FTransaction (f : option SolanaTransactionFilter)
| FInstruction (f : option SolanaInstructionFilter)
| FLog (f : option SolanaLogFilter)
| FCustom (kind : string) (f : option props).

Record SubqlHandler := mkHandler { handler : string; handler_filter : HandlerFilter }.

Definition handler_kind (h : SubqlHandler) : string :=
  match handler_filter h with
  | FBlock _ => handler_kind_string KBlock
  | FTransaction _ => handler_kind_string KTransaction
  | FInstruction _ => handler_kind_string KInstruction
  | FLog _ => handler_kind_string KLog
  | FCustom k _ => k
  end.

Record SubqlDatasource := mkDatasource {
  ds_kind : string;
  ds_file : string;
  ds_handlers : list SubqlHandler;
  ds_assets : option (list (string * string));
  ds_processor : option props
}.
