(* ===== verification/Chain.v ===== *)
(** * The services the indexer is a client of

    What the unfinalized blocks service relies on: the blockchain service
    (implemented in [Blockchain.v] on top of the RPC client) and the metadata
    store of the node core (a service outside of the repository).  Each is a
    class of operations over a world [W], with a second class for its laws. *)
From S2P Require Import Prelude JsNumber JsDate Types.

(** ** The blockchain *)
Class BlockchainClient (W : Type) := {
  bc_getFinalizedHeader : M W Header;
  bc_getHeaderForHeight : Z → M W Header
}.

(** A header that is returned for a slot says that slot as its height, and the
    finalized slot is a number within the safe integers. *)
Class BlockchainLaws (W : Type) `{BlockchainClient W} := {
  header_at_height : ∀ h w hd w',
    safe h → bc_getHeaderForHeight h w = (Done hd, w') → blockHeight hd = h;
  finalized_height : ∀ w hd w',
    bc_getFinalizedHeader w = (Done hd, w') → safe (blockHeight hd)
}.

(** A chain that answers every question the same way: [canonical] gives the
    header of a produced slot, a skipped slot is unavailable, and there is an
    RPC error, not a skip, below slot 0. *)
Definition stable_answer (canonical : Z → option Header) (bad_slot : jserror) (h : Z)
  : outcome Header :=
  if h <? 0 then Throw bad_slot
  else match canonical h with
       | Some hd => Done hd
       | None => Throw BlockUnavailableError
       end.

Class StableChain (W : Type) `{BlockchainClient W}
    (canonical : Z → option Header) (bad_slot : jserror) := {
  stable_header : ∀ h w,
    bc_getHeaderForHeight h w = (stable_answer canonical bad_slot h, w);
  bad_slot_not_skip : bad_slot ≠ BlockUnavailableError;
  canonical_height : ∀ h hd, canonical h = Some hd → 0 ≤ h ∧ blockHeight hd = h;
  (** the parent of a block is the block of the previous produced slot *)
  canonical_parent : ∀ h h' hd hd',
    canonical h = Some hd → canonical h' = Some hd' → h < h' →
    (∀ k, h < k < h' → canonical k = None) → parentHash hd' = Some (blockHash hd);
  canonical_hash_nonempty : ∀ h hd, canonical h = Some hd → blockHash hd ≠ "";
  (** every produced slot names a parent, the first one the genesis' null hash *)
  canonical_has_parent : ∀ h hd, canonical h = Some hd →
    ∃ p, parentHash hd = Some p ∧ p ≠ ""
}.

(** ** The metadata store

    A value is a JSON text, a number or null.  The only text stored is that of a
    list of headers; it is represented by the list of its objects, with the
    date as the text [toISOString] gives (null for an invalid date). *)
Record SerializedHeader := mkSerialized {
  s_blockHeight : Z;
  s_blockHash : string;
  s_parentHash : option string;
  s_timestamp : option string
}.
#[global] Instance SerializedHeader_eq_dec : EqDecision SerializedHeader.
Proof. solve_decision. Defined.

Inductive metadata_value :=
| MText (objs : list SerializedHeader)
| MNumber (z : Z)
| MNull.

Class MetadataStore (W : Type) := {
  metadata_set : string → metadata_value → M W unit;
  metadata_find : string → M W (option metadata_value)
}.

(** [metadata_view w k] is what the store holds under [k].  A [set] writes one
    key, or fails without writing; the reads and the chain write nothing. *)
Class MetadataLaws (W : Type) `{MetadataStore W, BlockchainClient W} := {
  metadata_view : W → string → option metadata_value;
  metadata_set_view : ∀ k v w o w', metadata_set k v w = (o, w') →
    (∀ k', metadata_view w' k' = if decide (k = k') then Some v else metadata_view w k') ∨
    (o ≠ Done tt ∧ ∀ k', metadata_view w' k' = metadata_view w k');
  metadata_find_view : ∀ k w o w', metadata_find k w = (o, w') →
    (∀ r, o = Done r → r = metadata_view w k) ∧
    ∀ k', metadata_view w' k' = metadata_view w k';
  header_view : ∀ h w o w', bc_getHeaderForHeight h w = (o, w') →
    ∀ k, metadata_view w' k = metadata_view w k;
  finalized_view : ∀ w o w', bc_getFinalizedHeader w = (o, w') →
    ∀ k, metadata_view w' k = metadata_view w k
}.

(** A store that answers every call. *)
Class ReliableStore (W : Type) `{MetadataLaws W} := {
  reliable_set : ∀ k v w, (metadata_set k v w).1 = Done tt;
  reliable_find : ∀ k w, metadata_find k w = (Done (metadata_view w k), w)
}.

(** ** What happens while the service waits

    A method runs until an [await]; there the rest of the node may run.  It polls the
    finalized block and registers it with the service, at any [await] of a call that is
    under way.  [arriving w] gives the finalized headers that come at an [await] which
    leaves the world in [w], and the world after them. *)
Class Arrivals (W : Type) := { arriving : W → list Header * W }.

(** What arrives are headers of safe height, and the store is not touched. *)
Class ArrivalsLaws (W : Type) `{MetadataLaws W, Arrivals W} := {
  arriving_safe : ∀ w, Forall (fun h => safe (blockHeight h)) (arriving w).1;
  arriving_view : ∀ w k, metadata_view (arriving w).2 k = metadata_view w k
}.

(** Nothing arrives: the calls run one after the other. *)
Class Sequential (W : Type) `{Arrivals W} := none_arriving : ∀ w, arriving w = ([], w).

Definition none_arrive {W} : Arrivals W := {| arriving w := ([], w) |}.
#[global] Instance none_arrive_sequential W : Sequential W (H:=none_arrive).
Proof. done. Qed.

#[global] Instance sequential_arrivals_laws W `{MetadataLaws W, Arrivals W, !Sequential W} : ArrivalsLaws W.
Proof.
  split; [intros w; by rewrite none_arriving; constructor|intros w k; by rewrite none_arriving].
Qed.

(** ** Further functions of the node core *)

(** The decorator [mainThreadOnly()]: the method, or an error off the main thread. *)
Class MainThread := mainThreadOnly : ∀ {A}, outcome A → outcome A.
Class MainThreadLaws `{MainThread} :=
  main_thread_answer : ∀ A (o : outcome A) a, mainThreadOnly o = Done a → o = Done a.

(** Proof-of-index records of the store, and [PoiBlock.create(..).chainBlockHash],
    which encodes a block hash to bytes. *)
Record ProofOfIndex := mkPoi {
  poi_id : Z;
  poi_chainBlockHash : list Z;
  poi_projectId : option string
}.

Class PoiStore (W : Type) := {
  (** [storeModelProvider.poi]: undefined when POI is not enabled *)
  poi_model : option (Z → M W (list ProofOfIndex));
  PoiBlock_chainBlockHash : Z → string → string → list Z
}.
