(* ===== verification/Sim.v ===== *)
(** * A concrete world

    A chain with given blocks and a store that never fails, with instances of
    every class of [Chain.v].  The theorems that assume those classes are applied
    to it. *)
From S2P Require Import Prelude JsNumber JsDate Json Types Chain.

Definition sim_store : Type := gmap string metadata_value.

Section sim.
  Context (canonical : Z → option Header) (fin : Header) (bad_slot : jserror).

Definition sim_client : BlockchainClient sim_store := {|
  bc_getFinalizedHeader := mret fin;
  bc_getHeaderForHeight h := of_outcome (stable_answer canonical bad_slot h)
|}.

Definition sim_metadata : MetadataStore sim_store := {|
  metadata_set k v := modify <[k := v]>;
  metadata_find k := gets (fun w => w !! k)
|}.

Definition sim_main_thread : MainThread := fun A o => o.

Definition sim_laws :
  (∀ h hd, canonical h = Some hd → blockHeight hd = h) → safe (blockHeight fin) →
  BlockchainLaws sim_store (H:=sim_client).
Proof.
  intros Hc Hf. split.
  - intros h w hd w' _. simpl. unfold of_outcome, stable_answer. case_match; [done|].
    destruct (canonical h) eqn:E; [|done]. intros [= <- _]. by apply Hc.
  - intros w hd w' [= <- _]. done.
Defined.

Definition sim_metadata_laws : MetadataLaws sim_store (H:=sim_metadata) (H0:=sim_client).
Proof.
  refine {| metadata_view w k := w !! k |}.
  - intros k v w o w' [= <- <-]. left. intros k'. case_decide as E; subst.
    + apply lookup_insert_eq.
    + by apply lookup_insert_ne.
  - intros k w o w' [= <- <-]. split; [by intros r [= <-]|done].
  - intros h w o w' [= <- <-]. done.
  - intros w o w' [= <- <-]. done.
Defined.

(** The same headers arrive at every await. *)
Definition sim_arrivals (hs : list Header) : Arrivals sim_store := {| arriving w := (hs, w) |}.
Definition sim_arrivals_laws hs :
  Forall (fun h => safe (blockHeight h)) hs →
  ArrivalsLaws sim_store (H:=sim_metadata) (H0:=sim_client) (H1:=sim_metadata_laws) (H2:=sim_arrivals hs).
Proof. intros Hs. by split. Defined.

Definition sim_reliable :
  ReliableStore sim_store (H:=sim_metadata) (H0:=sim_client) (H1:=sim_metadata_laws).
Proof. by split. Defined.

Definition sim_main_thread_laws : MainThreadLaws (H:=sim_main_thread).
Proof. by intros A o a H. Defined.

Definition sim_stable :
  bad_slot ≠ BlockUnavailableError →
  (∀ h hd, canonical h = Some hd → 0 ≤ h ∧ blockHeight hd = h) →
  (∀ h h' hd hd', canonical h = Some hd → canonical h' = Some hd' → h < h' →
    (∀ k, h < k < h' → canonical k = None) → parentHash hd' = Some (blockHash hd)) →
  (∀ h hd, canonical h = Some hd → blockHash hd ≠ "") →
  (∀ h hd, canonical h = Some hd → ∃ p, parentHash hd = Some p ∧ p ≠ "") →
  StableChain sim_store (H:=sim_client) canonical bad_slot.
Proof. intros. by split. Defined.
End sim.

(** Slot 3 was skipped. *)
Definition sim_block (h : Z) (hash parent : string) : Header :=
  mkHeader h hash (Some parent) (Some (h * 1000)).
Definition sim_canonical (h : Z) : option Header :=
  match h with
  | 0 => Some (sim_block 0 "a0" "null")
  | 1 => Some (sim_block 1 "a1" "a0")
  | 2 => Some (sim_block 2 "a2" "a1")
  | 4 => Some (sim_block 4 "a4" "a2")
  | 5 => Some (sim_block 5 "a5" "a4")
  | 6 => Some (sim_block 6 "a6" "a5")
  | _ => None
  end.
Definition sim_bad_slot : jserror := SolanaError (-32602) None "invalid value: integer `-1`".

Ltac sim_slots :=
  repeat match goal with
  | H : context [sim_canonical ?h] |- _ =>
      unfold sim_canonical in H; repeat (case_match; simplify_eq/=)
  end.

Lemma sim_canonical_slot h hd :
  sim_canonical h = Some hd →
  h ∈ [0; 1; 2; 4; 5; 6] ∧ blockHeight hd = h.
Proof. intros H. sim_slots; (split; [set_solver|done]). Qed.

Lemma sim_canonical_parent h h' hd hd' :
  sim_canonical h = Some hd → sim_canonical h' = Some hd' → h < h' →
  (∀ k, h < k < h' → sim_canonical k = None) → parentHash hd' = Some (blockHash hd).
Proof.
  intros H H' Hlt Hgap.
  destruct (sim_canonical_slot _ _ H) as [Hh _], (sim_canonical_slot _ _ H') as [Hh' _].
  rewrite !elem_of_cons, elem_of_nil in Hh, Hh'.
  assert (∀ k, bool_decide (h < k < h') = true → sim_canonical k = None) as Hg.
  { intros k Hk%bool_decide_eq_true. by apply Hgap. }
  destruct_or!; subst; try done; simpl in H, H'; simplify_eq/=; try done; exfalso;
    first [ by specialize (Hg 1 eq_refl) | by specialize (Hg 2 eq_refl)
          | by specialize (Hg 4 eq_refl) | by specialize (Hg 5 eq_refl) ].
Qed.

Definition sim_stable_chain (fin : Header) :
  StableChain sim_store (H:=sim_client sim_canonical fin sim_bad_slot) sim_canonical sim_bad_slot.
Proof.
  apply sim_stable; [done| | |..].
  - intros h hd H. destruct (sim_canonical_slot _ _ H) as [Hh ?].
    rewrite !elem_of_cons, elem_of_nil in Hh. split; [lia|done].
  - exact sim_canonical_parent.
  - intros h hd H. by sim_slots.
  - intros h hd H. sim_slots; by eexists.
Defined.
