(* ===== verification/Unfinalized.v ===== *)
(** * The unfinalized blocks service

    [packages/node/src/indexer/unfinalizedBlocks.service.ts]: the headers of
    indexed blocks that are not yet final, the detection of forks against the
    chain, and the choice of the block to rewind to.  The service object and the
    world it talks to are the state of the monad [U]. *)
From S2P Require Import Prelude JsNumber JsDate Json Types Chain.

Definition METADATA_UNFINALIZED_BLOCKS_KEY : string := "unfinalizedBlocks".
Definition METADATA_LAST_FINALIZED_PROCESSED_KEY : string := "lastFinalizedVerifiedHeight".
Definition POI_NOT_ENABLED_ERROR_MESSAGE : string :=
  "Poi is not enabled, unable to check for last finalized block".
Definition UNFINALIZED_THRESHOLD : Z := 200.
Definition NOT_INITIALIZED : string :=
  "Unfinalized blocks service has not been initialized".

(** [lastCheckedBlockHeight?: number], which the store also returns as null. *)
Inductive jsnum := Undefined | Null | Num (z : Z).
#[global] Instance jsnum_eq_dec : EqDecision jsnum.
Proof. solve_decision. Defined.

(** [x < n]: null is 0, undefined is NaN. *)
Definition jsnum_lt (x : jsnum) (n : Z) : bool :=
  match x with Undefined => false | Null => 0 <? n | Num z => z <? n end.
Definition jsnum_truthy (x : jsnum) : option Z :=
  match x with Num z => if z =? 0 then None else Some z | _ => None end.

Record UnfinalizedBlocksService (W : Type) := mkService {
  unfinalizedBlocks_ : option (list Header);
  finalizedHeader_ : option Header;
  lastCheckedBlockHeight : jsnum;
  world : W
}.
Arguments mkService {W} _ _ _ _.
Arguments unfinalizedBlocks_ {W} _.
Arguments finalizedHeader_ {W} _.
Arguments lastCheckedBlockHeight {W} _.
Arguments world {W} _.

(** [JSON.stringify] of the headers and [JSON.parse] of their text. *)
Definition stringify_header (h : Header) : SerializedHeader :=
  mkSerialized (blockHeight h) (blockHash h) (parentHash h) (toISOString <$> timestamp h).
Definition parse_header (o : SerializedHeader) : Header :=
  mkHeader (s_blockHeight o) (s_blockHash o) (s_parentHash o)
    (match s_timestamp o with
     | Some t => parse_iso t
     | None => new_Date 0
     end).

Section service.
  Context {W B : Type}
    `{LD : Lodash, BC : BlockchainClient W, MS : MetadataStore W, MT : MainThread, AR : Arrivals W}.

Abbreviation U := (M (UnfinalizedBlocksService W)).

Definition set_unfinalizedBlocks (l : list Header) : U unit :=
  modify (fun s => mkService (Some l) (finalizedHeader_ s) (lastCheckedBlockHeight s) (world s)).
Definition set_finalizedHeader (h : Header) : U unit :=
  modify (fun s => mkService (unfinalizedBlocks_ s) (Some h) (lastCheckedBlockHeight s) (world s)).
Definition set_lastChecked (n : jsnum) : U unit :=
  modify (fun s => mkService (unfinalizedBlocks_ s) (finalizedHeader_ s) n (world s)).
Definition on_world {A} (m : M W A) : U A :=
  zoom world
    (fun w s => mkService (unfinalizedBlocks_ s) (finalizedHeader_ s) (lastCheckedBlockHeight s) w) m.

Definition getHeaderForHeight (h : Z) : U Header := on_world (bc_getHeaderForHeight h).

Definition unfinalizedBlocks : U (list Header) :=
  o ← gets unfinalizedBlocks_;
  match o with Some l => mret l | None => throw (JsError NOT_INITIALIZED None) end.

Definition finalizedHeader : U Header :=
  o ← gets finalizedHeader_;
  match o with Some h => mret h | None => throw (JsError NOT_INITIALIZED None) end.

Definition finalizedBlockNumber : U Z := h ← finalizedHeader; mret (blockHeight h).

Definition registerFinalizedBlock (header : Header) : U unit :=
  finalized ← finalizedBlockNumber;
  if blockHeight header <=? finalized then mret tt else set_finalizedHeader header.

(** The finalized headers that arrive are registered; an error of the registration is
    that of its caller. *)
Definition meanwhile (s : UnfinalizedBlocksService W) : UnfinalizedBlocksService W :=
  foldl (fun s h => (registerFinalizedBlock h s).2)
    (mkService (unfinalizedBlocks_ s) (finalizedHeader_ s) (lastCheckedBlockHeight s)
       (arriving (world s)).2)
    (arriving (world s)).1.

(** [await m]: whether [m] succeeds or fails, the rest of the node runs before the
    method goes on. *)
Definition await {A} (m : U A) : U A := fun s =>
  match m s with
  | (Done a, s') => (Done a, meanwhile s')
  | (Throw e, s') => (Throw e, meanwhile s')
  | r => r
  end.

(** [this.unfinalizedBlocks.push(header)] *)
Definition push_unfinalized (h : Header) : U unit :=
  l ← unfinalizedBlocks; set_unfinalizedBlocks (l ++ [h]).

Definition saveUnfinalizedBlocks (l : list Header) : U unit :=
  on_world (metadata_set METADATA_UNFINALIZED_BLOCKS_KEY (MText (stringify_header <$> l))).

Definition saveLastFinalizedVerifiedHeight (n : Z) : U unit :=
  on_world (metadata_set METADATA_LAST_FINALIZED_PROCESSED_KEY (MNumber n)).

Definition resetUnfinalizedBlocks : U unit :=
  await (on_world (metadata_set METADATA_UNFINALIZED_BLOCKS_KEY (MText []))) ;;
  set_unfinalizedBlocks [].

Definition resetLastFinalizedVerifiedHeight : U unit :=
  on_world (metadata_set METADATA_LAST_FINALIZED_PROCESSED_KEY MNull).

(** A stored number is truthy unless 0, parses to itself and has no [map]. *)
Definition getMetadataUnfinalizedBlocks : U (list Header) :=
  val ← await (on_world (metadata_find METADATA_UNFINALIZED_BLOCKS_KEY));
  match val with
  | Some (MText objs) => mret (parse_header <$> objs)
  | Some (MNumber z) => if z =? 0 then mret [] else throw (TypeError "result.map is not a function")
  | Some MNull | None => mret []
  end.

(** The value under this key is only ever a number or null. *)
Definition getLastFinalizedVerifiedHeight : U jsnum :=
  val ← on_world (metadata_find METADATA_LAST_FINALIZED_PROCESSED_KEY);
  match val with
  | Some (MNumber z) => mret (Num z)
  | Some MNull => mret Null
  | Some (MText _) => throw (TypeError "not a number")
  | None => mret Undefined
  end.

(** [assert(x, message)] *)
Definition assert_truthy (x : option string) (message : string) : U unit :=
  if truthy_option_string x then mret tt else throw (AssertionError message).

(** Solana can skip slots: the block of this height, or the one before it. *)
Fixpoint getParentHeaderByHeight (fuel : nat) (height : Z) : U Header :=
  match fuel with
  | O => no_fuel
  | S fuel =>
      try_catch (await (getHeaderForHeight height)) (fun e =>
        if decide (e = BlockUnavailableError)
        then getParentHeaderByHeight fuel (num_sub height 1)
        else throw e)
  end.

(** [header.parentHash !== previous.blockHash] *)
Definition breaks_chain (header previous : Header) : bool :=
  bool_decide (parentHash header ≠ Some (blockHash previous)).

(** [try { header = await getHeaderForHeight(height) } catch (e) { if (e
    instanceof BlockUnavailableError) continue; throw e }] *)
Definition header_or_skipped (height : Z) : U (option Header) :=
  try_catch (h ← await (getHeaderForHeight height); mret (Some h)) (fun e =>
    if decide (e = BlockUnavailableError) then mret None else throw e).

(** The blocks between the last unfinalized one and a new one are fetched and
    linked; a skipped slot has no block. *)
Fixpoint backfillSkippedSlots (fuel : nat) (height endHeight : Z) : U (option Header) :=
  if height <=? endHeight then
    match fuel with
    | O => no_fuel
    | S fuel =>
        r ← header_or_skipped height;
        match r with
        | None => backfillSkippedSlots fuel (num_add height 1) endHeight
        | Some header =>
            blocks ← unfinalizedBlocks;
            match lodash_last blocks with
            | Some previousHeader =>
                if breaks_chain header previousHeader then mret (Some header)
                else push_unfinalized header ;;
                     backfillSkippedSlots fuel (num_add height 1) endHeight
            | None =>
                push_unfinalized header ;;
                backfillSkippedSlots fuel (num_add height 1) endHeight
            end
        end
    end
  else mret None.

Definition push_and_save (header : Header) : U (option Header) :=
  push_unfinalized header ;;
  blocks ← unfinalizedBlocks;
  await (saveUnfinalizedBlocks blocks) ;;
  mret None.

Definition not_sequential (lastUnfinalizedHeight height : Z) : string :=
  "Unfinalized block is not sequential, lastUnfinalizedBlock='"
    +:+ pretty lastUnfinalizedHeight +:+ "', newUnfinalizedBlock='" +:+ pretty height +:+ "'".

Definition registerUnfinalizedBlock (fuel : nat) (header : Header) : U (option Header) :=
  finalized ← finalizedBlockNumber;
  if blockHeight header <=? finalized then mret None
  else
    blocks ← unfinalizedBlocks;
    match lodash_last blocks with
    | None => push_and_save header
    | Some lastUnfinalized =>
        if blockHeight header <=? blockHeight lastUnfinalized
        then exit (not_sequential (blockHeight lastUnfinalized) (blockHeight header))
        else
          forkedHeader ←
            (if num_add (blockHeight lastUnfinalized) 1 =? blockHeight header then mret None
             else await (backfillSkippedSlots fuel (num_add (blockHeight lastUnfinalized) 1)
                           (num_sub (blockHeight header) 1)));
          match forkedHeader with
          | Some h => mret (Some h)
          | None =>
              blocks ← unfinalizedBlocks;
              match lodash_last blocks with
              | Some latestUnfinalized =>
                  if breaks_chain header latestUnfinalized then mret (Some header)
                  else push_and_save header
              | None => push_and_save header
              end
          end
    end.

(** Remove any records up to the finalized height. *)
Definition removeFinalized (height : Z) : U unit :=
  l ← unfinalizedBlocks;
  set_unfinalizedBlocks (filter (fun h => height < blockHeight h) l).

Definition deleteFinalizedBlock : U unit :=
  lastChecked ← gets lastCheckedBlockHeight;
  finalized ← finalizedBlockNumber;
  (if jsnum_lt lastChecked finalized
   then removeFinalized finalized ;;
        await (saveLastFinalizedVerifiedHeight finalized) ;;
        l ← unfinalizedBlocks;
        await (saveUnfinalizedBlocks l)
   else mret tt) ;;
  finalized ← finalizedBlockNumber;
  set_lastChecked (Num finalized).

(** [[...blocks].reverse().find(p)]: the last element with [p]. *)
Definition find_last {A} (p : A → bool) (l : list A) : option A :=
  List.find p (reverse l).

Definition getClosestRecord (height : Z) : U (option Header) :=
  l ← unfinalizedBlocks;
  mret (find_last (fun h => blockHeight h <=? height) l).

Definition PARENT_MESSAGE : string :=
  "When iterate back parent hashes to find matching height, we expect parentHash to be exist".

(** [while (lastVerifiableBlock.blockHeight !== header.blockHeight)]: go back
    over the parents of the finalized header. *)
Fixpoint walk_back (fuel : nat) (target : Z) (header : Header) : U Header :=
  if target =? blockHeight header then mret header
  else match fuel with
       | O => no_fuel
       | S fuel' =>
           assert_truthy (parentHash header) PARENT_MESSAGE ;;
           header ← await (getParentHeaderByHeight fuel (num_sub (blockHeight header) 1));
           walk_back fuel' target header
       end.

(** Check the unfinalized blocks for a fork; the header where one happened. *)
Definition hasForked (fuel : nat) : U (option Header) :=
  finalized ← finalizedBlockNumber;
  lastVerifiable ← getClosestRecord finalized;
  match lastVerifiable with
  | None => mret None
  | Some lastVerifiableBlock =>
      header ← finalizedHeader;
      if blockHeight lastVerifiableBlock =? finalized then
        if decide (blockHash lastVerifiableBlock ≠ blockHash header)
        then mret (Some header) else mret None
      else
        header ←
          (if UNFINALIZED_THRESHOLD <?
                num_sub (blockHeight header) (blockHeight lastVerifiableBlock)
           then await (getHeaderForHeight (blockHeight lastVerifiableBlock))
           else walk_back fuel (blockHeight lastVerifiableBlock) header);
        if decide (blockHash header ≠ blockHash lastVerifiableBlock)
        then mret (Some header) else mret None
  end.

Definition CHECKING_MESSAGE : string := "Expect checking header parentHash to be exist".

(** [for (const bestHeader of bestVerifiableBlocks.reverse())] *)
Fixpoint find_correct (fuel : nat) (checkingHeader : Header) (best : list Header)
  : U (option Header) :=
  match best with
  | [] => mret None
  | bestHeader :: best =>
      if decide (blockHash bestHeader = blockHash checkingHeader
                 ∨ Some (blockHash bestHeader) = parentHash checkingHeader)
      then mret (Some bestHeader)
      else
        assert_truthy (parentHash checkingHeader) CHECKING_MESSAGE ;;
        checkingHeader ← await (getParentHeaderByHeight fuel (num_sub (blockHeight checkingHeader) 1));
        find_correct fuel checkingHeader best
  end.

(** The callback of the filter reads the finalized number, so no record, no read. *)
Definition getLastCorrectFinalizedBlock (fuel : nat) (forkedHeader : Header)
  : U (option Header) :=
  l ← unfinalizedBlocks;
  bestVerifiableBlocks ←
    (match l with
     | [] => mret []
     | _ :: _ =>
         finalized ← finalizedBlockNumber;
         mret (filter (fun h => blockHeight h ≤ finalized) l)
     end);
  found ← find_correct fuel forkedHeader (reverse bestVerifiableBlocks);
  match found with
  | Some h => mret (Some h)
  | None =>
      lastChecked ← gets lastCheckedBlockHeight;
      match jsnum_truthy lastChecked with
      | None => mret None
      | Some height => h ← getHeaderForHeight height; mret (Some h)
      end
  end.

Definition processUnfinalizedBlockHeader (fuel : nat) (header : option Header)
  : U (option Header) :=
  forkedHeader ← (match header with
                  | Some header => await (registerUnfinalizedBlock fuel header)
                  | None => mret None
                  end);
  forkedHeader ← (match forkedHeader with
                  | Some h => mret (Some h)
                  | None => await (hasForked fuel)
                  end);
  match forkedHeader with
  | None => await deleteFinalizedBlock ;; mret None
  | Some forkedHeader => getLastCorrectFinalizedBlock fuel forkedHeader
  end.

Definition blockToHeader (b : IBlock B) : U Header :=
  of_outcome (mainThreadOnly (Done (getHeader b))).

Definition processUnfinalizedBlocks (fuel : nat) (b : option (IBlock B))
  : U (option Header) :=
  header ← (match b with
            | Some b => h ← blockToHeader b; mret (Some h)
            | None => mret None
            end);
  processUnfinalizedBlockHeader fuel header.

(** [reindex] is the caller's rewind of the database. *)
Definition init (fuel : nat) (reindex : Header → U unit) : U (option Header) :=
  l ← await getMetadataUnfinalizedBlocks;
  set_unfinalizedBlocks l ;;
  lastChecked ← await getLastFinalizedVerifiedHeight;
  set_lastChecked lastChecked ;;
  finalized ← await (on_world bc_getFinalizedHeader);
  set_finalizedHeader finalized ;;
  l ← unfinalizedBlocks;
  match l with
  | [] => mret None
  | _ :: _ =>
      rewindHeight ← await (processUnfinalizedBlocks fuel None);
      match rewindHeight with
      | Some h => await (reindex h) ;; mret (Some h)
      | None =>
          await resetUnfinalizedBlocks ;;
          await resetLastFinalizedVerifiedHeight ;;
          mret None
      end
  end.

(** The last POI that had a correct block hash; one page of records per round. *)
Fixpoint poi_page `{PoiStore W} (l : list ProofOfIndex) : U (option Header) :=
  match l with
  | [] => mret None
  | indexedBlock :: l =>
      chainHeader ← await (getHeaderForHeight (poi_id indexedBlock));
      if decide (PoiBlock_chainBlockHash (blockHeight chainHeader) (blockHash chainHeader)
                   (default "" (poi_projectId indexedBlock))
                 = poi_chainBlockHash indexedBlock)
      then mret (Some chainHeader)
      else poi_page l
  end.

Fixpoint poi_loop `{PoiStore W} (fuel : nat)
    (getPoiBlocksBefore : Z → M W (list ProofOfIndex)) (lastHeight : Z) : U Header :=
  match fuel with
  | O => no_fuel
  | S fuel =>
      indexedBlocks ← await (on_world (getPoiBlocksBefore lastHeight));
      match last indexedBlocks with
      | None => throw (JsError "Unable to find a POI block with matching block hash" None)
      | Some lastIndexed =>
          r ← poi_page indexedBlocks;
          match r with
          | Some h => mret h
          | None => poi_loop fuel getPoiBlocksBefore (num_sub (poi_id lastIndexed) 1)
          end
      end
  end.

Definition findFinalizedUsingPOI `{PoiStore W} (fuel : nat) (header : Header) : U Header :=
  match poi_model with
  | None => throw (JsError POI_NOT_ENABLED_ERROR_MESSAGE None)
  | Some getPoiBlocksBefore => poi_loop fuel getPoiBlocksBefore (blockHeight header)
  end.

End service.
