(* ===== verification/UnfinalizedInv.v ===== *)
(** * The unfinalized blocks form a chain

    For any answers of the RPC that carry the height asked for, the list of
    unfinalized headers is a chain of parents of increasing height, whatever
    operation ran and however it ended.  The helper lemmas on what each
    operation may touch are shared by the other theorems on the service. *)
From S2P Require Import Prelude JsNumber JsDate Json Types Chain Unfinalized.

(** ** Well-formed states *)
Definition child_of (parent h : Header) : Prop :=
  blockHeight parent < blockHeight h ∧ parentHash h = Some (blockHash parent).

Definition blocks_ok (l : list Header) : Prop :=
  chain child_of l ∧ Forall (fun h => safe (blockHeight h)) l.

(** What the store keeps is a chain too, and never a number; the texts keep
    heights and hashes. *)
Definition stored_ok (v : option metadata_value) : Prop :=
  match v with
  | Some (MText objs) => blocks_ok (parse_header <$> objs)
  | Some (MNumber _) => False
  | _ => True
  end.

(** The last verified height is never a text. *)
Definition stored_number (v : option metadata_value) : Prop :=
  match v with Some (MText _) => False | _ => True end.

Section inv.
  Context {W B : Type}
    `{LD : Lodash, BC : BlockchainClient W, MS : MetadataStore W, MT : MainThread, AR : Arrivals W}
    `{ML : !MetadataLaws W, AL : !ArrivalsLaws W}.
  Local Abbreviation svc := (UnfinalizedBlocksService W).

(** The part of the state that is not the world. *)
Definition fields (s : svc) : option (list Header) * option Header * jsnum :=
  (unfinalizedBlocks_ s, finalizedHeader_ s, lastCheckedBlockHeight s).

(** [moved s s']: from [s] to [s'] the RPC may have answered and finalized headers may
    have been registered; the records, the last verified height and the store are as
    they were. *)
Definition moved (s s' : svc) : Prop :=
  unfinalizedBlocks_ s' = unfinalizedBlocks_ s ∧
  lastCheckedBlockHeight s' = lastCheckedBlockHeight s ∧
  (finalizedHeader_ s' = finalizedHeader_ s ∨
   ∃ h, finalizedHeader_ s' = Some h ∧ safe (blockHeight h)) ∧
  ∀ k, metadata_view (world s') k = metadata_view (world s) k.

#[global] Instance moved_preorder : PreOrder moved.
Proof.
  split.
  - intros s. split_and!; [done..|by left|done].
  - intros s1 s2 s3 (H1 & H2 & H3 & H4) (H5 & H6 & H7 & H8).
    split_and!; [congruence|congruence| |by intros k; rewrite H8, H4].
    destruct H7 as [->|]; [done|by right].
Qed.

Lemma moved_world (s : svc) w' :
  (∀ k, metadata_view w' k = metadata_view (world s) k) →
  moved s (mkService (unfinalizedBlocks_ s) (finalizedHeader_ s) (lastCheckedBlockHeight s) w').
Proof. intros H. split_and!; [done..|by left|done]. Qed.

Definition service_ok (s : svc) : Prop :=
  (∀ l, unfinalizedBlocks_ s = Some l → blocks_ok l) ∧
  (∀ h, finalizedHeader_ s = Some h → safe (blockHeight h)) ∧
  stored_ok (metadata_view (world s) METADATA_UNFINALIZED_BLOCKS_KEY) ∧
  stored_number (metadata_view (world s) METADATA_LAST_FINALIZED_PROCESSED_KEY).

Definition below (n : Z) (s : svc) : Prop :=
  ∀ l, unfinalizedBlocks_ s = Some l → Forall (fun h => blockHeight h < n) l.

Lemma moved_ok s s' : moved s s' → service_ok s → service_ok s'.
Proof.
  intros (E1 & E2 & E3 & Hv) (H1 & H2 & H3 & H4). unfold service_ok. rewrite E1, !Hv.
  split_and!; [done| |done..]. destruct E3 as [->|(f & -> & Hf)]; [done|]. by intros h [= <-].
Qed.

Lemma moved_below n s s' : moved s s' → below n s → below n s'.
Proof. intros (E & _). unfold below. by rewrite E. Qed.

Lemma registerFinalized_moved h s :
  safe (blockHeight h) → moved s (registerFinalizedBlock h s).2.
Proof.
  intros Hh. unfold registerFinalizedBlock, finalizedBlockNumber, finalizedHeader, mbind, M_bind, gets.
  destruct (finalizedHeader_ s) as [f|] eqn:Hf; [|done]. simpl. case_match; [done|].
  split_and!; [done..|right; by exists h|done].
Qed.

Lemma meanwhile_moved s : moved s (meanwhile s).
Proof.
  unfold meanwhile. pose proof (arriving_safe (world s)) as Hsafe.
  etrans; [apply (moved_world s (arriving (world s)).2), arriving_view|].
  generalize (mkService (unfinalizedBlocks_ s) (finalizedHeader_ s) (lastCheckedBlockHeight s)
    (arriving (world s)).2) as s1.
  induction Hsafe as [|h hs Hh _ IH]; intros s1; [done|]. simpl.
  etrans; [by apply (registerFinalized_moved h)|apply IH].
Qed.

(** ** What only reads the service and the store *)
Definition reads_service {A} (m : M svc A) : Prop := ∀ s, moved s (m s).2.

Lemma reads_bind {A C} (m : M svc A) (k : A → M svc C) :
  reads_service m → (∀ a, reads_service (k a)) → reads_service (m ≫= k).
Proof.
  intros Hm Hk s. specialize (Hm s). unfold mbind, M_bind.
  destruct (m s) as [[a| | |] s1]; simpl in *; try done. etrans; [done|apply Hk].
Qed.

Lemma reads_try {A} (m : M svc A) h :
  reads_service m → (∀ e, reads_service (h e)) → reads_service (try_catch m h).
Proof.
  intros Hm Hh s. specialize (Hm s). unfold try_catch.
  destruct (m s) as [[a|e| |] s1]; simpl in *; try done. etrans; [done|apply Hh].
Qed.

Lemma reads_await {A} (m : M svc A) : reads_service m → reads_service (await m).
Proof.
  intros Hm s. specialize (Hm s). unfold await.
  destruct (m s) as [[a|e| |] s1]; simpl in *; try done; (etrans; [done|apply meanwhile_moved]).
Qed.

Lemma reads_on_world {A} (m : M W A) :
  (∀ w o w', m w = (o, w') → ∀ k, metadata_view w' k = metadata_view w k) →
  reads_service (on_world m).
Proof.
  intros H s. unfold on_world, zoom. destruct (m (world s)) as [o w'] eqn:E.
  apply moved_world. intros k. by eapply H.
Qed.

Lemma reads_ret {A} (a : A) : reads_service (mret a).
Proof. by intros s. Qed.
Lemma reads_throw {A} e : reads_service (throw (A:=A) e).
Proof. by intros s. Qed.
Lemma reads_exit {A} x : reads_service (exit (A:=A) x).
Proof. by intros s. Qed.
Lemma reads_no_fuel {A} : reads_service (no_fuel (A:=A)).
Proof. by intros s. Qed.
Lemma reads_gets {A} (f : svc → A) : reads_service (gets f).
Proof. by intros s. Qed.

Ltac reads :=
  repeat first
    [ assumption | apply reads_ret | apply reads_throw | apply reads_exit | apply reads_no_fuel
    | apply reads_gets | apply reads_await
    | apply reads_bind; [|intros ?] | apply reads_try; [|intros ?]
    | progress case_match ].

Lemma reads_unfinalizedBlocks : reads_service unfinalizedBlocks.
Proof. unfold unfinalizedBlocks. reads. Qed.
Lemma reads_finalizedHeader : reads_service finalizedHeader.
Proof. unfold finalizedHeader. reads. Qed.
Lemma reads_finalizedBlockNumber : reads_service finalizedBlockNumber.
Proof. unfold finalizedBlockNumber, finalizedHeader. reads. Qed.
Lemma reads_getHeader h : reads_service (getHeaderForHeight h).
Proof. apply reads_on_world. intros. by eapply header_view. Qed.
Lemma reads_getFinalized : reads_service (on_world bc_getFinalizedHeader).
Proof. apply reads_on_world. intros. by eapply finalized_view. Qed.
Lemma reads_find k : reads_service (on_world (metadata_find k)).
Proof.
  apply reads_on_world. intros w o w' H. by eapply metadata_find_view in H as [_ H].
Qed.

Lemma reads_getParent fuel h : reads_service (getParentHeaderByHeight fuel h).
Proof.
  revert h. induction fuel as [|fuel IH]; intros h; simpl; [reads|].
  apply reads_try; [apply reads_await, reads_getHeader|]. intros e. case_decide; [apply IH|reads].
Qed.

Lemma reads_walk_back fuel t h : reads_service (walk_back fuel t h).
Proof.
  revert h. induction fuel as [|fuel IH]; intros h; cbn [walk_back]; [reads|].
  case_match; [reads|]. apply reads_bind; [unfold assert_truthy; reads|].
  intros _. apply reads_bind; [apply reads_await, reads_getParent|]. apply IH.
Qed.

Lemma reads_hasForked fuel : reads_service (hasForked fuel).
Proof.
  unfold hasForked, getClosestRecord.
  repeat first
    [ apply reads_finalizedBlockNumber | apply reads_finalizedHeader
    | apply reads_unfinalizedBlocks | apply reads_walk_back | apply reads_getHeader
    | apply reads_await | apply reads_ret | apply reads_bind; [|intros ?] | progress case_match ].
Qed.

Lemma reads_find_correct fuel c best : reads_service (find_correct fuel c best).
Proof.
  revert c. induction best as [|b best IH]; intros c; simpl; [reads|].
  case_match; [reads|]. apply reads_bind; [unfold assert_truthy; reads|].
  intros _. apply reads_bind; [apply reads_await, reads_getParent|]. apply IH.
Qed.

Lemma reads_getLastCorrect fuel h : reads_service (getLastCorrectFinalizedBlock fuel h).
Proof.
  unfold getLastCorrectFinalizedBlock.
  apply reads_bind; [apply reads_unfinalizedBlocks|intros l].
  apply reads_bind; [destruct l; [reads|]; apply reads_bind; [apply reads_finalizedBlockNumber|reads]|intros n].
  apply reads_bind; [apply reads_find_correct|intros o].
  repeat first [apply reads_getHeader | progress reads].
Qed.

(** ** Rules for the accessors and the calls *)
Definition with_unfinalized (l : list Header) (s : svc) : svc :=
  mkService (Some l) (finalizedHeader_ s) (lastCheckedBlockHeight s) (world s).

Lemma wp_reads {A} (m : M svc A) (Q : outcome A → svc → Prop) s :
  reads_service m → (∀ o s', moved s s' → Q o s') → wp m Q s.
Proof. intros H HQ. apply HQ, H. Qed.

Lemma wp_unfinalizedBlocks (Q : outcome (list Header) → svc → Prop) s :
  (∀ l, unfinalizedBlocks_ s = Some l → Q (Done l) s) →
  (unfinalizedBlocks_ s = None → Q (Throw (JsError NOT_INITIALIZED None)) s) →
  wp unfinalizedBlocks Q s.
Proof.
  intros H1 H2. apply wp_bind, wp_gets. simpl.
  destruct (unfinalizedBlocks_ s); [by apply wp_ret, H1|by apply wp_throw, H2].
Qed.

Lemma wp_finalizedHeader (Q : outcome Header → svc → Prop) s :
  (∀ h, finalizedHeader_ s = Some h → Q (Done h) s) →
  (finalizedHeader_ s = None → Q (Throw (JsError NOT_INITIALIZED None)) s) →
  wp finalizedHeader Q s.
Proof.
  intros H1 H2. apply wp_bind, wp_gets. simpl.
  destruct (finalizedHeader_ s); [by apply wp_ret, H1|by apply wp_throw, H2].
Qed.

Lemma wp_finalizedBlockNumber (Q : outcome Z → svc → Prop) s :
  (∀ h, finalizedHeader_ s = Some h → Q (Done (blockHeight h)) s) →
  (finalizedHeader_ s = None → Q (Throw (JsError NOT_INITIALIZED None)) s) →
  wp finalizedBlockNumber Q s.
Proof.
  intros H1 H2. apply wp_bind, wp_finalizedHeader; [|done].
  intros h Hh. by apply wp_ret, H1.
Qed.

Lemma wp_push h (Q : outcome unit → svc → Prop) s :
  (∀ l, unfinalizedBlocks_ s = Some l → Q (Done tt) (with_unfinalized (l ++ [h]) s)) →
  (unfinalizedBlocks_ s = None → Q (Throw (JsError NOT_INITIALIZED None)) s) →
  wp (push_unfinalized h) Q s.
Proof.
  intros H1 H2. apply wp_bind, wp_unfinalizedBlocks; [|done].
  intros l Hl. by apply wp_modify, H1.
Qed.

Lemma wp_on_world {A} (m : M W A) (Q : outcome A → svc → Prop) s :
  (∀ o w', m (world s) = (o, w') →
    Q o (mkService (unfinalizedBlocks_ s) (finalizedHeader_ s) (lastCheckedBlockHeight s) w')) →
  wp (on_world m) Q s.
Proof.
  intros H. unfold wp, on_world, zoom. destruct (m (world s)) as [o w'] eqn:E.
  simpl. by apply H.
Qed.

Lemma wp_await {A} (m : M svc A) (Q : outcome A → svc → Prop) s :
  wp m (fun o s' => ∀ s'', moved s' s'' → Q o s'') s → wp (await m) Q s.
Proof.
  unfold wp, await. destruct (m s) as [[a|e|x|] s1]; simpl; intros H; apply H;
    first [apply meanwhile_moved|done].
Qed.

(** Whatever [moved] keeps survives an await. *)
Lemma wp_await_ok {A} (m : M svc A) (Q : outcome A → svc → Prop) s :
  wp m Q s → (∀ o s' s'', moved s' s'' → Q o s' → Q o s'') → wp (await m) Q s.
Proof. intros H HQ. apply wp_await. eapply wp_mono; [exact H|]. eauto. Qed.

(** ** Chains of headers *)
Lemma blocks_ok_snoc l h :
  blocks_ok l → safe (blockHeight h) →
  (∀ p, last l = Some p → child_of p h) → blocks_ok (l ++ [h]).
Proof.
  intros [H1 H2] Hs Hp. split.
  - destruct l as [|p l _] using rev_ind; [done|].
    apply chain_snoc; [done|]. apply Hp, last_snoc.
  - apply Forall_app. auto.
Qed.

Lemma blocks_ok_filter l n :
  blocks_ok l → blocks_ok (filter (fun h => n < blockHeight h) l).
Proof.
  intros [H1 H2]. split.
  2:{ rewrite Forall_forall in *. intros h [_ Hh]%list_elem_of_filter. auto. }
  induction l as [|h l IH]; [done|]. rewrite filter_cons.
  assert (chain child_of (filter (fun h => n < blockHeight h) l)) as IH'.
  { apply IH; [by eapply chain_tail|by inversion H2]. }
  case_decide as Hn; [|done].
  destruct l as [|h' l]; [done|]. destruct H1 as [[Hc Hp] _].
  rewrite filter_cons in *. rewrite decide_True by lia.
  rewrite decide_True in IH' by lia. split; [by split|done].
Qed.

Lemma breaks_chain_false h p :
  breaks_chain h p = false → blockHeight p < blockHeight h → child_of p h.
Proof.
  unfold breaks_chain. intros H%bool_decide_eq_false ?. split; [done|]. by apply dec_stable.
Qed.

Lemma blocks_ok_last_max l p :
  blocks_ok l → last l = Some p → Forall (fun h => blockHeight h ≤ blockHeight p) l.
Proof.
  intros [Hc _] [l0 ->]%last_Some. induction l0 as [|h l0 IH]; [by constructor|].
  assert (Forall (fun h => blockHeight h ≤ blockHeight p) (l0 ++ [p])) as IH'
    by (apply IH; by eapply chain_tail).
  constructor; [|done]. destruct l0 as [|h' l0]; simpl in *;
    [destruct Hc as [[] _]; lia|]. destruct Hc as [[Hlt _] _]. inversion IH'; lia.
Qed.

Lemma last_below n (s : svc) l p :
  below n s → unfinalizedBlocks_ s = Some l → last l = Some p → blockHeight p < n.
Proof.
  intros Hb Hl [l' ->]%last_Some. specialize (Hb _ Hl).
  apply Forall_app in Hb as [_ Hb]. by inversion Hb.
Qed.

Lemma below_last n (s : svc) l p :
  service_ok s → unfinalizedBlocks_ s = Some l → last l = Some p → blockHeight p < n →
  below n s.
Proof.
  intros (Hs & _) Hl Hp Hn l' Hl'. simplify_eq.
  eapply Forall_impl; [by eapply blocks_ok_last_max; [apply Hs|]|]. simpl. lia.
Qed.

Lemma below_mono n m (s : svc) : n ≤ m → below n s → below m s.
Proof. intros H Hb l Hl. eapply Forall_impl; [by apply Hb|]. simpl. lia. Qed.

Lemma service_ok_push h l (s : svc) :
  service_ok s → unfinalizedBlocks_ s = Some l → safe (blockHeight h) →
  (∀ p, last l = Some p → child_of p h) → service_ok (with_unfinalized (l ++ [h]) s).
Proof.
  intros (H1 & H2 & H3 & H4) Hl Hs Hp. split_and!; [|done..]. intros l' [= <-].
  apply blocks_ok_snoc; auto.
Qed.

Lemma below_push h l n (s : svc) :
  below n s → unfinalizedBlocks_ s = Some l → blockHeight h = n →
  below (n + 1) (with_unfinalized (l ++ [h]) s).
Proof.
  intros Hb Hl Hh l' [= <-]. apply Forall_app. split; [|constructor; [lia|done]].
  eapply Forall_impl; [by apply Hb|]. simpl. lia.
Qed.

(** ** The operations keep the invariant *)
Context {BL : BlockchainLaws W}.

Lemma wp_getHeader h (Q : outcome Header → svc → Prop) s :
  (∀ o s', moved s s' → (∀ hd, o = Done hd → safe h → blockHeight hd = h) → Q o s') →
  wp (getHeaderForHeight h) Q s.
Proof.
  intros H. apply wp_on_world. intros o w' E.
  apply H; [apply moved_world; by eapply header_view|].
  intros hd -> Hs. by eapply header_at_height.
Qed.

Lemma wp_header_or_skipped h (Q : outcome (option Header) → svc → Prop) s :
  (∀ o s', moved s s' →
    (∀ hd, o = Done (Some hd) → safe h → blockHeight hd = h) → Q o s') →
  wp (header_or_skipped h) Q s.
Proof.
  intros H. apply wp_try, wp_bind, wp_await, wp_getHeader. intros [hd|e|x|] s1 Hs1 Hh s' Hs';
    (assert (moved s s') as Hf by (by trans s1)); simpl.
  - apply wp_ret, H; [done|]. intros ? [= <-]. by apply Hh.
  - case_decide; [apply wp_ret|apply wp_throw]; by apply H.
  - by apply H.
  - by apply H.
Qed.

(** The state after the backfill, however it ended. *)
Lemma backfill_ok fuel height end_ (s : svc) :
  service_ok s → below height s → 0 ≤ height → end_ < MAX_SAFE_INTEGER →
  wp (backfillSkippedSlots fuel height end_)
    (fun o s' => service_ok s' ∧
      (o = Done None → below (Z.max height (end_ + 1)) s')) s.
Proof.
  revert height s. induction fuel as [|fuel IH]; intros height s Hs Hb H0 He;
    cbn [backfillSkippedSlots]; destruct (Z.leb_spec height end_) as [Hle|Hle];
    try (apply wp_ret; split_and!; [done..|]; intros _; by apply (below_mono height); [lia|]).
  { by apply wp_no_fuel. }
  assert (safe height) as Hsafe by (unfold safe; lia).
  assert (∀ s2, service_ok s2 → below (height + 1) s2 →
    wp (backfillSkippedSlots fuel (num_add height 1) end_)
      (fun o s' => service_ok s' ∧
        (o = Done None → below (Z.max height (end_ + 1)) s')) s2) as Hnext.
  { intros s2 ??. rewrite num_succ_exact by done.
    eapply wp_mono; [apply IH; [done..|lia|done]|]. intros o s' (?&HN).
    split; [done|]. intros Ho. eapply below_mono; [|by apply HN]. lia. }
  apply wp_bind, wp_header_or_skipped. intros o s1 Hf Hh.
  pose proof (moved_ok _ _ Hf Hs) as Hs1. pose proof (moved_below _ _ _ Hf Hb) as Hb1.
  destruct o as [[hd|]|e|x|]; simpl; try done.
  2:{ apply Hnext; [done|]. by apply (below_mono height); [lia|]. }
  specialize (Hh hd eq_refl Hsafe). apply wp_bind, wp_unfinalizedBlocks; [|by simpl].
  intros l Hl. simpl. rewrite lodash_last_spec.
  assert ((∀ p, last l = Some p → child_of p hd) →
    wp (push_unfinalized hd ;; backfillSkippedSlots fuel (num_add height 1) end_)
      (fun o s' => service_ok s' ∧
        (o = Done None → below (Z.max height (end_ + 1)) s')) s1) as Hpush.
  { intros Hp. apply wp_bind, wp_push; [|by rewrite Hl]. intros l' Hl'; simplify_eq.
    apply Hnext; [apply service_ok_push|apply below_push]; done. }
  destruct (last l) as [p|] eqn:Hlast; [|by apply Hpush].
  destruct (breaks_chain hd p) eqn:Hbr; [by apply wp_ret|].
  apply Hpush. intros p' [= <-]. apply breaks_chain_false; [done|].
  rewrite Hh. by eapply last_below.
Qed.

(** Heights, hashes and parents survive the store. *)
Lemma blocks_ok_stored l : blocks_ok l → blocks_ok (parse_header <$> (stringify_header <$> l)).
Proof.
  intros [Hc Hs]. split.
  - clear Hs. induction l as [|h [|h' l] IH]; [done|done|].
    destruct Hc as [Hh Hc]. split; [apply Hh|by apply IH].
  - clear Hc. induction Hs as [|h l Hh Hl IH]; constructor; [exact Hh|exact IH].
Qed.

Lemma wp_set k v (Q : outcome unit → svc → Prop) s :
  (∀ o w', (∀ k', metadata_view w' k' = if decide (k = k') then Some v
                  else metadata_view (world s) k')
    ∨ (o ≠ Done tt ∧ ∀ k', metadata_view w' k' = metadata_view (world s) k') →
    Q o (mkService (unfinalizedBlocks_ s) (finalizedHeader_ s) (lastCheckedBlockHeight s) w')) →
  wp (on_world (metadata_set k v)) Q s.
Proof.
  intros H. apply wp_on_world. intros o w' E. by apply H, metadata_set_view.
Qed.

Lemma set_ok k v s :
  service_ok s → (k = METADATA_UNFINALIZED_BLOCKS_KEY → stored_ok (Some v)) →
  (k = METADATA_LAST_FINALIZED_PROCESSED_KEY → stored_number (Some v)) →
  wp (on_world (metadata_set k v))
    (fun _ s' => service_ok s' ∧ fields s' = fields s) s.
Proof.
  intros (H1 & H2 & H3 & H4) Hv Hn. apply wp_set. intros o w' Hw.
  split; [|done]. split_and!; [done..| |]; simpl;
    (destruct Hw as [Hw|[_ Hw]]; rewrite Hw; [|done]);
    case_decide; [by apply Hv|done|by apply Hn|done].
Qed.

Lemma save_ok l s :
  service_ok s → blocks_ok l →
  wp (saveUnfinalizedBlocks l) (fun _ s' => service_ok s' ∧ fields s' = fields s) s.
Proof.
  intros Hs Hl. apply set_ok; [done| |done]. intros _. by apply blocks_ok_stored.
Qed.

Lemma push_and_save_ok h l s :
  service_ok s → unfinalizedBlocks_ s = Some l → safe (blockHeight h) →
  (∀ p, last l = Some p → child_of p h) →
  wp (push_and_save h) (fun _ s' => service_ok s') s.
Proof.
  intros Hs Hl Hh Hp.
  assert (service_ok (with_unfinalized (l ++ [h]) s)) as Hs' by by apply service_ok_push.
  apply wp_bind, wp_push; [|by rewrite Hl]. intros l' Hl'. simplify_eq. simpl.
  apply wp_bind, wp_unfinalizedBlocks; [|done]. intros l' Hl'. simpl in Hl'. simplify_eq.
  apply wp_bind, wp_await. eapply wp_mono; [apply save_ok; [done|by apply Hs']|].
  intros o s' [H _] s'' Hm. apply (moved_ok _ _ Hm) in H. by destruct o.
Qed.

Lemma register_ok fuel h s :
  service_ok s → safe (blockHeight h) →
  wp (registerUnfinalizedBlock fuel h) (fun _ s' => service_ok s') s.
Proof.
  intros Hs Hh. apply wp_bind, wp_finalizedBlockNumber; [|done]. intros fin Hfin. simpl.
  destruct (Z.leb_spec (blockHeight h) (blockHeight fin)) as [Hle|Hgt]; [by apply wp_ret|].
  apply wp_bind, wp_unfinalizedBlocks; [|done]. intros l Hl. simpl. rewrite lodash_last_spec.
  destruct (last l) as [p|] eqn:Hp; [|apply (push_and_save_ok h l); [done..|by rewrite Hp]].
  destruct (Z.leb_spec (blockHeight h) (blockHeight p)) as [|Hlt]; [by apply wp_exit|].
  assert (safe (blockHeight p)) as Hsp.
  { destruct Hs as [Hs _]. destruct (Hs _ Hl) as [_ Hall]. rewrite Forall_forall in Hall.
    apply Hall. apply last_Some in Hp as [l' ->]. set_solver. }
  rewrite num_succ_exact, num_pred_exact by done. apply wp_bind.
  assert (wp (if blockHeight p + 1 =? blockHeight h then mret None
     else await (backfillSkippedSlots fuel (blockHeight p + 1) (blockHeight h - 1)))
    (fun o s' => service_ok s' ∧ (o = Done None → below (blockHeight h) s')) s) as Hback.
  { destruct (Z.eqb_spec (blockHeight p + 1) (blockHeight h)) as [E|E].
    - apply wp_ret. split; [done|]. intros _. by eapply below_last.
    - apply wp_await_ok.
      2:{ intros o s1 s2 Hm [H1 H2]. split; [by eapply moved_ok|]. intros Ho.
          by eapply moved_below, H2. }
      eapply wp_mono; [apply backfill_ok; [done| | |]|].
      + eapply below_last; [done..|lia].
      + unfold safe in *; lia.
      + unfold safe, MAX_SAFE_INTEGER in *; lia.
      + intros o s' (H1 & H3). split; [done|]. intros Ho.
        eapply below_mono; [|by apply H3]. lia. }
  eapply wp_mono; [exact Hback|]. intros o s1 [Hs1 Hb1].
  destruct o as [[f|]| | |]; simpl; try done.
  apply wp_bind, wp_unfinalizedBlocks; [|done]. intros l1 Hl1. simpl. rewrite lodash_last_spec.
  destruct (last l1) as [q|] eqn:Hq; [|apply (push_and_save_ok h l1); [done..|by rewrite Hq]].
  destruct (breaks_chain h q) eqn:Hbr; [by apply wp_ret|].
  apply (push_and_save_ok h l1); [done..|]. rewrite Hq. intros q' [= <-].
  apply breaks_chain_false; [done|]. eapply last_below; [by apply Hb1|done..].
Qed.

Lemma delete_ok s : service_ok s → wp deleteFinalizedBlock (fun _ s' => service_ok s') s.
Proof.
  intros Hs. apply wp_bind, wp_gets, wp_bind, wp_finalizedBlockNumber; [|done].
  intros fin Hfin. simpl. apply wp_bind.
  assert (∀ s', service_ok s' → wp (finalized ← finalizedBlockNumber; set_lastChecked (Num finalized))
    (fun _ s' => service_ok s') s') as Hset.
  { intros s' Hs'. apply wp_bind, wp_finalizedBlockNumber; [|done]. intros f Hf. by apply wp_modify. }
  destruct (jsnum_lt _ _); [|by apply wp_ret, Hset].
  assert (∀ s', service_ok s' → wp (await (saveLastFinalizedVerifiedHeight (blockHeight fin)) ;;
    l ← unfinalizedBlocks; await (saveUnfinalizedBlocks l))
    (after (fun _ => finalized ← finalizedBlockNumber; set_lastChecked (Num finalized))
       (fun _ s' => service_ok s')) s') as Hrest.
  { intros s1 Hs1. apply wp_bind, wp_await. eapply wp_mono; [by apply set_ok|].
    intros o s2 [Hs2 _] s2' Hm. apply (moved_ok _ _ Hm) in Hs2. destruct o; simpl; try done.
    apply wp_bind, wp_unfinalizedBlocks; [|done]. intros l Hl. simpl. apply wp_await.
    eapply wp_mono; [apply save_ok; [done|by apply Hs2]|].
    intros o s3 [Hs3 _] s3' Hm3. apply (moved_ok _ _ Hm3) in Hs3. destruct o; simpl; try done.
    by apply Hset. }
  apply wp_bind, wp_bind, wp_unfinalizedBlocks; [|done]. intros l Hl. apply wp_modify, Hrest.
  destruct Hs as (H1 & H2 & H3 & H4). split_and!; [|done..]. intros l' [= <-].
  by apply blocks_ok_filter, H1.
Qed.

Lemma process_ok fuel oh s :
  service_ok s → (∀ h, oh = Some h → safe (blockHeight h)) →
  wp (processUnfinalizedBlockHeader fuel oh) (fun _ s' => service_ok s') s.
Proof.
  intros Hs Hh. apply wp_bind.
  assert (wp (match oh with Some h => await (registerUnfinalizedBlock fuel h) | None => mret None end)
    (fun _ s' => service_ok s') s) as Hreg.
  { destruct oh as [h|]; [|done]. apply wp_await_ok; [by apply register_ok, Hh|].
    intros o s1 s2. apply moved_ok. }
  eapply wp_mono; [exact Hreg|]. intros o s1 Hs1.
  assert (∀ h s', service_ok s' → wp (getLastCorrectFinalizedBlock fuel h) (fun _ s' => service_ok s') s') as Hlast.
  { intros h s' Hs'. apply wp_reads; [apply reads_getLastCorrect|]. intros _ s2 Hm.
    by eapply moved_ok. }
  destruct o as [[f|]| | |]; simpl; try done.
  - apply wp_bind, wp_ret. simpl. by apply Hlast.
  - apply wp_bind, wp_reads; [apply reads_await, reads_hasForked|]. intros o s2 Hm.
    assert (service_ok s2) by by eapply moved_ok.
    destruct o as [[f|]| | |]; simpl; try done; [by apply Hlast|].
    apply wp_bind, wp_await. eapply wp_mono; [by apply delete_ok|].
    intros o s3 Hs3 s4 Hm4. apply (moved_ok _ _ Hm4) in Hs3. by destruct o.
Qed.

Lemma registerFinalized_ok h s :
  service_ok s → safe (blockHeight h) →
  wp (registerFinalizedBlock h) (fun _ s' => service_ok s') s.
Proof.
  intros Hs Hh. apply wp_bind, wp_finalizedBlockNumber; [|done]. intros fin Hfin. simpl.
  case_match; [by apply wp_ret|]. apply wp_modify.
  destruct Hs as (H1 & H2 & H3 & H4). split_and!; [done| |done..]. by intros h' [= <-].
Qed.

Lemma reset_ok s : service_ok s → wp resetUnfinalizedBlocks (fun _ s' => service_ok s') s.
Proof.
  intros Hs. apply wp_bind, wp_await. eapply wp_mono; [apply set_ok; [done|by split|done]|].
  intros o s0 [Hs0 _] s1 Hm. apply (moved_ok _ _ Hm) in Hs0 as Hs1. destruct o; simpl; try done.
  apply wp_modify.
  destruct Hs1 as (H1 & H2 & H3 & H4). split_and!; [|done..]. intros l [= <-]. by split.
Qed.

Lemma resetLast_ok s :
  service_ok s → wp resetLastFinalizedVerifiedHeight (fun _ s' => service_ok s') s.
Proof. intros Hs. eapply wp_mono; [by apply set_ok|]. by intros o s' [H _]. Qed.

Lemma reads_ok {A} (m : M svc A) : reads_service m → preserves service_ok m.
Proof. intros H s Hs. by apply (moved_ok _ _ (H s)). Qed.

Lemma getMetadata_ok s :
  service_ok s →
  wp getMetadataUnfinalizedBlocks
    (fun o s' => service_ok s' ∧ ∀ l, o = Done l → blocks_ok l) s.
Proof.
  intros Hs. apply wp_bind, wp_await, wp_on_world. intros o w Eo s2 Hm.
  apply metadata_find_view in Eo as [Ev Evw].
  assert (service_ok (mkService (unfinalizedBlocks_ s) (finalizedHeader_ s)
    (lastCheckedBlockHeight s) w)) as Hs1.
  { destruct Hs as (?&?&?&?). split_and!; [done..| |]; simpl; by rewrite Evw. }
  apply (moved_ok _ _ Hm) in Hs1. assert (blocks_ok []) as Hnil by by split.
  destruct o as [v| | |]; simpl; try done. specialize (Ev v eq_refl). subst v.
  destruct (metadata_view (world s) _) as [[objs|z|]|] eqn:E; try case_match;
    (apply wp_ret || apply wp_throw); (split; [done|]); intros l [= <-]; try done.
  destruct Hs as (_&_&Hst&_). by rewrite E in Hst.
Qed.

Lemma getFinalized_ok s :
  service_ok s →
  wp (await (on_world bc_getFinalizedHeader))
    (fun o s' => service_ok s' ∧ ∀ h, o = Done h → safe (blockHeight h)) s.
Proof.
  intros Hs. apply wp_and; [by apply (reads_ok _ (reads_await _ reads_getFinalized))|].
  apply wp_await, wp_on_world. intros o w' E s' _ h ->. by eapply finalized_height.
Qed.

Lemma preserves_await {A} (m : M svc A) : preserves service_ok m → preserves service_ok (await m).
Proof.
  intros Hm s Hs. apply (wp_await_ok m (fun _ s' => service_ok s')); [by apply Hm|].
  intros o s1 s2. apply moved_ok.
Qed.

Lemma init_ok fuel reindex :
  (∀ h, preserves service_ok (reindex h)) → preserves service_ok (init (B:=B) fuel reindex).
Proof.
  intros Hre. eapply preserves_bind_post.
  { intros s Hs. apply wp_await_ok; [by apply getMetadata_ok|]. intros o s1 s2 Hm [H1 H2].
    split; [by eapply moved_ok|exact H2]. }
  intros l Hl.
  apply preserves_bind.
  { apply preserves_modify. intros s (?&?&?&?). split_and!; [|done..]. by intros ? [= <-]. }
  intros _. apply preserves_bind.
  { apply preserves_await, preserves_bind; [apply reads_ok, reads_find|]. intros v. pres. }
  intros n. apply preserves_bind; [by apply preserves_modify|]. intros _.
  eapply preserves_bind_post; [apply getFinalized_ok|]. intros fin Hfin.
  apply preserves_bind.
  { apply preserves_modify. intros s (?&?&?&?). split_and!; [done| |done..]. by intros ? [= <-]. }
  intros _. apply preserves_bind; [apply reads_ok, reads_unfinalizedBlocks|].
  intros [|h t]; [apply preserves_ret|].
  apply preserves_bind.
  { apply preserves_await. intros s Hs. by apply (process_ok fuel None s Hs). }
  intros [f|]; (apply preserves_bind; [apply preserves_await|intros _]);
    [apply Hre|apply preserves_ret|..].
  { intros s. apply reset_ok. }
  apply preserves_bind; [apply preserves_await; intros s; apply resetLast_ok|]. intros _. apply preserves_ret.
Qed.
End inv.
