(* ===== verification/UnfinalizedSteps.v ===== *)
(** * The unfinalized blocks service as a transition system

    One step is one call on the service, with whatever way it ended and whatever
    finalized headers were registered while it waited, or a
    restart of the process, which forgets the service's fields and keeps the
    store.  The invariant of [UnfinalizedInv.v] holds in every state that a
    fresh store can lead to. *)
From S2P Require Import Prelude JsNumber JsDate Json Types Chain Sim Unfinalized.
From S2P Require Import UnfinalizedInv.
From stdpp Require Import relations.

Section steps.
  Context {W B : Type}
    `{LD : Lodash, BC : BlockchainClient W, MS : MetadataStore W, MT : MainThread, AR : Arrivals W}
    `{ML : !MetadataLaws W, AL : !ArrivalsLaws W, BL : !BlockchainLaws W, MTL : !MainThreadLaws}.
  Local Abbreviation svc := (UnfinalizedBlocksService W).

(** What the rest of the node does to the state between and within calls: the
    two resets of a reindex, and effects outside of the two keys. *)
Inductive env_step : svc → svc → Prop :=
| env_reset s o s' : resetUnfinalizedBlocks s = (o, s') → env_step s s'
| env_reset_last s o s' : resetLastFinalizedVerifiedHeight s = (o, s') → env_step s s'
| env_world s s' : moved s s' → env_step s s'.

Inductive step : svc → svc → Prop :=
| step_env s s' : env_step s s' → step s s'
| step_process fuel header s o s' :
    (∀ h, header = Some h → safe (blockHeight h)) →
    processUnfinalizedBlockHeader fuel header s = (o, s') → step s s'
| step_process_block fuel b s o s' :
    (∀ b', b = Some b' → safe (blockHeight (getHeader b'))) →
    processUnfinalizedBlocks (B:=B) fuel b s = (o, s') → step s s'
| step_register header s o s' :
    safe (blockHeight header) →
    registerFinalizedBlock header s = (o, s') → step s s'
| step_init fuel reindex s o s' :
    (∀ h s1 o1 s2, reindex h s1 = (o1, s2) → rtc env_step s1 s2) →
    init (B:=B) fuel reindex s = (o, s') → step s s'
| step_restart s :
    step s (mkService None None Undefined (world s)).

Definition fresh (s : svc) : Prop :=
  fields s = (None, None, Undefined) ∧
  metadata_view (world s) METADATA_UNFINALIZED_BLOCKS_KEY = None ∧
  metadata_view (world s) METADATA_LAST_FINALIZED_PROCESSED_KEY = None.

Definition reachable (s : svc) : Prop := ∃ s0, fresh s0 ∧ rtc step s0 s.

Lemma service_ok_fresh s : fresh s → service_ok s.
Proof.
  intros ([= H1 H2 H3] & H4 & H5). unfold service_ok. rewrite H1, H2, H4, H5. by split_and!.
Qed.

Lemma env_step_ok s s' : env_step s s' → service_ok s → service_ok s'.
Proof.
  intros [s1 o s2 E|s1 o s2 E|s1 s2 E] Hs.
  - by eapply (wp_run _ _ _ _ _ (reset_ok s1 Hs)).
  - by eapply (wp_run _ _ _ _ _ (resetLast_ok s1 Hs)).
  - by eapply moved_ok.
Qed.

Lemma env_steps_ok s s' : rtc env_step s s' → service_ok s → service_ok s'.
Proof. induction 1; eauto using env_step_ok. Qed.

Lemma process_block_ok fuel (b : option (IBlock B)) s :
  service_ok s → (∀ b', b = Some b' → safe (blockHeight (getHeader b'))) →
  wp (processUnfinalizedBlocks fuel b) (fun _ s' => service_ok s') s.
Proof.
  intros Hs Hb. destruct b as [b|]; [|by apply (process_ok fuel None)].
  apply wp_bind, wp_bind. unfold blockToHeader, of_outcome, wp at 1. simpl.
  destruct (mainThreadOnly (Done (getHeader b))) as [h| | |] eqn:E; simpl; try done.
  apply main_thread_answer in E as [= <-].
  apply wp_ret. simpl. apply process_ok; [done|]. intros h [= <-]. by apply Hb.
Qed.

Lemma step_ok s s' : step s s' → service_ok s → service_ok s'.
Proof.
  intros H Hs. destruct H as [s s' H|fuel h s o s' Hh E|fuel b s o s' Hb E|h s o s' Hh E
    |fuel re s o s' Hre E|s].
  - by eapply env_step_ok.
  - by eapply (wp_run _ _ _ _ _ (process_ok fuel h s Hs Hh)).
  - by eapply (wp_run _ _ _ _ _ (process_block_ok fuel b s Hs Hb)).
  - by eapply (wp_run _ _ _ _ _ (registerFinalized_ok h s Hs Hh)).
  - assert (preserves service_ok (init (B:=B) fuel re)) as Hi.
    { apply init_ok. intros h s1 Hs1. destruct (re h s1) as [o1 s2] eqn:E1.
      eapply env_steps_ok; [by eapply Hre|done]. }
    specialize (Hi s Hs). by rewrite E in Hi.
  - destruct Hs as (_ & _ & H3 & H4). by split_and!.
Qed.

Lemma steps_ok s s' : rtc step s s' → service_ok s → service_ok s'.
Proof. induction 1; eauto using step_ok. Qed.

(** C1: whatever the calls made on the service since the store was empty, and
    however they ended (an RPC or store error, the exit of the process, a restart,
    a reindex), and whatever finalized headers were registered in between, also at any
    await of a call under way, its unfinalized blocks are a chain of parents of increasing safe
    heights, and so are those in the store, where the last verified height is
    never a text; so no later read of the store fails. *)
Theorem reachable_chain s :
  reachable s →
  (∀ l, unfinalizedBlocks_ s = Some l → chain child_of l) ∧ service_ok s.
Proof.
  intros (s0 & Hf & Hsteps).
  assert (service_ok s) as Hs by (eapply steps_ok; [done|by apply service_ok_fresh]).
  split; [|done]. intros l Hl. by apply Hs.
Qed.
End steps.

Definition sim_reindex (h : Header) : M (UnfinalizedBlocksService sim_store) unit := mret tt.

(** A start on an empty store, then the blocks of slots 2 and 5; slot 4 is finalized
    during every wait. *)
Lemma reachable_chain_witness :
  let f := sim_block 1 "a1" "a0" in
  let BC := sim_client sim_canonical f sim_bad_slot in
  let MS := sim_metadata in
  let AR := sim_arrivals [sim_block 4 "a4" "a2"] in
  let fresh := mkService None None Undefined (∅ : sim_store) in
  let started := (init (LD:=lodash_model) (MT:=sim_main_thread) (B:=SolanaBlock) 8
    sim_reindex fresh).2 in
  let s2 := (processUnfinalizedBlockHeader (LD:=lodash_model) 8
    (Some (sim_block 2 "a2" "a1")) started).2 in
  let s := (processUnfinalizedBlockHeader (LD:=lodash_model) 8
    (Some (sim_block 5 "a5" "a4")) s2).2 in
  unfinalizedBlocks_ s =
    Some [sim_block 2 "a2" "a1"; sim_block 4 "a4" "a2"; sim_block 5 "a5" "a4"] ∧
  chain child_of [sim_block 2 "a2" "a1"; sim_block 4 "a4" "a2"; sim_block 5 "a5" "a4"].
Proof.
  intros f BC MS AR fresh started s2 s.
  assert (∀ h hd, sim_canonical h = Some hd → blockHeight hd = h) as Hc
    by (intros h hd H; by destruct (sim_canonical_slot h hd H)).
  assert (Forall (fun h => safe (blockHeight h)) [sim_block 4 "a4" "a2"]) as Ha
    by (constructor; [by vm_compute|constructor]).
  split; [vm_compute; reflexivity|].
  refine (proj1 (reachable_chain (B:=SolanaBlock) (LD:=lodash_model) (MT:=sim_main_thread)
    (ML:=sim_metadata_laws sim_canonical f sim_bad_slot)
    (AL:=sim_arrivals_laws sim_canonical f sim_bad_slot [sim_block 4 "a4" "a2"] Ha)
    (BL:=sim_laws sim_canonical f sim_bad_slot Hc ltac:(by vm_compute))
    (MTL:=sim_main_thread_laws) s _) _ _); [|vm_compute; reflexivity].
  exists fresh. split; [by split_and!|].
  apply (rtc_l _ _ started).
  { eapply (step_init 8 sim_reindex); [|apply surjective_pairing].
    intros h s1 o1 s3 E. injection E as _ <-. apply rtc_refl. }
  apply (rtc_l _ _ s2).
  { eapply (step_process 8 (Some (sim_block 2 "a2" "a1"))); [|apply surjective_pairing].
    intros h [= <-]. by vm_compute. }
  apply rtc_once.
  eapply (step_process 8 (Some (sim_block 5 "a5" "a4"))); [|apply surjective_pairing].
  intros h [= <-]. by vm_compute.
Defined.
