(* ===== verification/UnfinalizedChain.v ===== *)
(** * Fork detection against a stable chain

    While the canonical chain does not change, the answers of the RPC are a
    function of the slot, and the loops of the unfinalized blocks service can be
    computed: what they return, that they end, and what they leave unchanged. *)
From S2P Require Import Prelude JsNumber JsDate Json Types Chain Unfinalized UnfinalizedInv.

(** ** The canonical chain *)
Section canonical.
  Context (canonical : Z → option Header).

(** The block of the last produced slot up to [h]. *)
Fixpoint latest_nat (n : nat) : option Header :=
  match canonical (Z.of_nat n) with
  | Some hd => Some hd
  | None => match n with O => None | S n => latest_nat n end
  end.
Definition latest (h : Z) : option Header :=
  if h <? 0 then None else latest_nat (Z.to_nat h).

(** The blocks of slots [a], ..., [b - 1], in order. *)
Definition produced (a b : Z) : list Header := omap canonical (seqZ a (b - a)).

Lemma latest_negative h : h < 0 → latest h = None.
Proof. intros H. unfold latest. by rewrite (proj2 (Z.ltb_lt _ _) H). Qed.

Lemma latest_unfold h :
  0 ≤ h → latest h = match canonical h with Some hd => Some hd | None => latest (h - 1) end.
Proof.
  intros H. unfold latest. destruct (Z.ltb_spec h 0) as [|_]; [lia|].
  destruct (Z.to_nat h) as [|n] eqn:E; simpl.
  - replace h with 0 by lia. change (Z.of_nat 0) with 0. by destruct (canonical 0).
  - replace (Z.of_nat (S n)) with h by lia. destruct (Z.ltb_spec (h - 1) 0); [lia|].
    by replace (Z.to_nat (h - 1)) with n by lia.
Qed.

Lemma latest_None h k : latest h = None → 0 ≤ k ≤ h → canonical k = None.
Proof.
  intros Hn Hk. assert (0 ≤ h) as H0 by lia. revert h H0 Hn Hk.
  apply (natlike_ind (fun h => latest h = None → 0 ≤ k ≤ h → canonical k = None)).
  - intros Hn Hk. replace k with 0 by lia. rewrite latest_unfold in Hn by lia. by case_match.
  - intros h Hh IH Hn Hk. rewrite latest_unfold in Hn by lia.
    case_match eqn:E; [done|]. replace (Z.succ h - 1) with h in Hn by lia.
    destruct (decide (k = Z.succ h)) as [->|]; [done|]. apply IH; [done|lia].
Qed.

Lemma produced_nil a b : b ≤ a → produced a b = [].
Proof. intros H. unfold produced. by rewrite seqZ_nil by lia. Qed.

Lemma produced_cons a b :
  a < b → produced a b = match canonical a with
                         | Some hd => hd :: produced (a + 1) b
                         | None => produced (a + 1) b
                         end.
Proof.
  intros H. unfold produced. rewrite seqZ_cons by lia. simpl.
  replace (Z.pred (b - a)) with (b - (a + 1)) by lia. by rewrite <- Z.add_1_r.
Qed.

Lemma elem_of_produced hd a b :
  hd ∈ produced a b ↔ ∃ h, a ≤ h < b ∧ canonical h = Some hd.
Proof.
  unfold produced. rewrite list_elem_of_omap. split.
  - intros (h & Hh%elem_of_seqZ & Hc). exists h. split; [lia|done].
  - intros (h & Hh & Hc). exists h. split; [|done]. apply elem_of_seqZ. lia.
Qed.
End canonical.

(** ** Waiting *)

(** The finalized header after [h] was registered *)
Definition newer (o : option Header) (h : Header) : option Header :=
  match o with
  | Some f => if blockHeight h <=? blockHeight f then Some f else Some h
  | None => None
  end.

Section waiting.
  Context {W : Type} `{AR : Arrivals W}.
  Local Abbreviation svc := (UnfinalizedBlocksService W).

Lemma registerFinalized_newer h (s : svc) :
  (registerFinalizedBlock h s).2 =
    mkService (unfinalizedBlocks_ s) (newer (finalizedHeader_ s) h) (lastCheckedBlockHeight s) (world s).
Proof.
  destruct s as [l [f|] c w]; [|done].
  unfold registerFinalizedBlock, finalizedBlockNumber, finalizedHeader, mbind, M_bind, gets. simpl.
  by destruct (blockHeight h <=? blockHeight f).
Qed.

(** What waiting does: the headers that arrive are registered. *)
Lemma meanwhile_eq (s : svc) :
  meanwhile s = mkService (unfinalizedBlocks_ s)
    (foldl newer (finalizedHeader_ s) (arriving (world s)).1) (lastCheckedBlockHeight s)
    (arriving (world s)).2.
Proof.
  unfold meanwhile. generalize (finalizedHeader_ s) as o.
  induction (arriving (world s)).1 as [|h hs IH]; intros o; [done|]. simpl.
  by rewrite registerFinalized_newer, IH.
Qed.

(** From [s] to [s'] the service only waited. *)
Definition waited (s s' : svc) : Prop := ∃ n, s' = Nat.iter n meanwhile s.

#[global] Instance waited_preorder : PreOrder waited.
Proof.
  split; [intros s; by exists 0%nat|]. intros s1 s2 s3 [n ->] [m ->]. exists (m + n)%nat.
  by rewrite Nat.iter_add.
Qed.

Lemma waited_meanwhile s s' : waited s s' → waited s (meanwhile s').
Proof. intros [n ->]. by exists (S n). Qed.

(** What is said of every header that arrives, and of the one that is known, is said of
    the finalized header after any wait. *)
Lemma waited_finalized (P : Header → Prop) s s' f :
  (∀ w, Forall P (arriving w).1) → waited s s' → finalizedHeader_ s = Some f → P f →
  ∃ f', finalizedHeader_ s' = Some f' ∧ blockHeight f ≤ blockHeight f' ∧ P f'.
Proof.
  intros HP [n ->] Hf Hpf. induction n as [|n (f1 & IH & Hle & Hp1)]; [by exists f|].
  rewrite Nat.iter_succ, meanwhile_eq, IH. simpl. specialize (HP (world (Nat.iter n meanwhile s))).
  clear IH. revert f1 Hle Hp1. induction HP as [|h hs Hh _ IHs]; intros f1 Hle Hp1; [by exists f1|].
  simpl. destruct (Z.leb_spec (blockHeight h) (blockHeight f1)); apply IHs; done || lia.
Qed.

Lemma waited_records s s' : waited s s' → unfinalizedBlocks_ s' = unfinalizedBlocks_ s.
Proof. intros [n ->]. induction n as [|n IH]; [done|]. by rewrite Nat.iter_succ, meanwhile_eq. Qed.

Lemma waited_checked s s' : waited s s' → lastCheckedBlockHeight s' = lastCheckedBlockHeight s.
Proof. intros [n ->]. induction n as [|n IH]; [done|]. by rewrite Nat.iter_succ, meanwhile_eq. Qed.

Lemma waited_view `{ML : MetadataLaws W} `{AL : !ArrivalsLaws W} s s' k :
  waited s s' → metadata_view (world s') k = metadata_view (world s) k.
Proof.
  intros [n ->]. induction n as [|n IH]; [done|].
  by rewrite Nat.iter_succ, meanwhile_eq, <- IH, <- (arriving_view (world (Nat.iter n meanwhile s))).
Qed.

(** [f] or a finalized header that arrives *)
Definition known (f f' : Header) : Prop := f' = f ∨ ∃ w, f' ∈ (arriving w).1.

Lemma known_trans f1 f2 f3 : known f1 f2 → known f2 f3 → known f1 f3.
Proof. intros H1 [->|H2]; [done|by right]. Qed.

Lemma waited_known s s' f :
  waited s s' → finalizedHeader_ s = Some f →
  ∃ f', finalizedHeader_ s' = Some f' ∧ blockHeight f ≤ blockHeight f' ∧ known f f'.
Proof.
  intros Hw Hf. apply (waited_finalized (known f) s); [|done|done|by left].
  intros w. apply Forall_forall. intros h Hh. right. eauto.
Qed.

(** The records may change before or after a wait. *)
Lemma waited_unfinalized l s s' : waited s s' → waited (with_unfinalized l s) (with_unfinalized l s').
Proof.
  intros [n ->]. exists n. induction n as [|n IH]; [done|].
  by rewrite !Nat.iter_succ, <- IH, !meanwhile_eq.
Qed.

(** [m] ends with [o] and does nothing but wait. *)
Definition answers {A} (m : M svc A) (s : svc) (o : outcome A) : Prop :=
  ∃ s', m s = (o, s') ∧ waited s s'.

Lemma answers_run {A} (m : M svc A) s o : m s = (o, s) → answers m s o.
Proof. intros H. by exists s. Qed.

Lemma answers_bind {A C} (m : M svc A) (k : A → M svc C) s a o :
  answers m s (Done a) → (∀ s', waited s s' → answers (k a) s' o) → answers (m ≫= k) s o.
Proof.
  intros (s1 & E1 & W1) Hk. destruct (Hk s1 W1) as (s2 & E2 & W2). exists s2.
  split; [by rewrite (bind_Done _ _ _ _ _ E1)|by trans s1].
Qed.

(** A step that does not wait *)
Lemma answers_step {A C} (m : M svc A) (k : A → M svc C) s a o :
  m s = (Done a, s) → answers (k a) s o → answers (m ≫= k) s o.
Proof. intros E (s' & Es & Ws). exists s'. by rewrite (bind_Done _ _ _ _ _ E). Qed.

Lemma answers_bind_Throw {A C} (m : M svc A) (k : A → M svc C) s e :
  answers m s (Throw e) → answers (m ≫= k) s (Throw e).
Proof. intros (s1 & E1 & W1). exists s1. by rewrite (bind_Throw _ _ _ _ _ E1). Qed.

Lemma answers_await {A} (m : M svc A) s o : answers m s o → answers (await m) s o.
Proof.
  intros (s1 & E1 & W1). unfold await, answers. rewrite E1.
  destruct o; eexists; (split; [done|]); auto using waited_meanwhile.
Qed.

Lemma answers_try {A} (m : M svc A) h s o o' :
  answers m s o →
  (match o with Throw e => ∀ s', waited s s' → answers (h e) s' o' | _ => o' = o end) →
  answers (try_catch m h) s o'.
Proof.
  intros (s1 & E1 & W1) Hh. unfold try_catch, answers. rewrite E1.
  destruct o as [a|e|x|]; [subst o'; by eexists| |subst o'; by eexists|subst o'; by eexists].
  destruct (Hh s1 W1) as (s2 & E2 & W2). exists s2. split; [done|by trans s1].
Qed.
End waiting.

(** ** Calls that run one after the other *)
Section sequential.
  Context {W : Type} `{AR : Arrivals W} {SQ : Sequential W}.
  Local Abbreviation svc := (UnfinalizedBlocksService W).

Lemma meanwhile_seq (s : svc) : meanwhile s = s.
Proof. rewrite meanwhile_eq, none_arriving. by destruct s. Qed.

Lemma waited_seq (s s' : svc) : waited s s' → s' = s.
Proof. intros [n ->]. induction n as [|n IH]; [done|]. by rewrite Nat.iter_succ, meanwhile_seq. Qed.

Lemma known_seq f f' : known f f' → f' = f.
Proof. intros [->|(w & Hw)]; [done|]. rewrite none_arriving in Hw. by apply elem_of_nil in Hw. Qed.

Lemma answers_seq {A} (m : M svc A) s o : answers m s o → m s = (o, s).
Proof. by intros (s' & E & ->%waited_seq). Qed.

Lemma await_seq {A} (m : M svc A) s : await m s = m s.
Proof. unfold await. destruct (m s) as [[] s']; by rewrite ?meanwhile_seq. Qed.

Lemma bind_await {A C} (m : M svc A) (k : A → M svc C) s : (await m ≫= k) s = (m ≫= k) s.
Proof. by apply bind_ext; [apply await_seq|]. Qed.
End sequential.

Section stable.
  Context {W : Type} `{LD : Lodash, BC : BlockchainClient W, MS : MetadataStore W, AR : Arrivals W}
    (canonical : Z → option Header) (bad_slot : jserror)
    {SC : StableChain W canonical bad_slot}.
  Local Abbreviation svc := (UnfinalizedBlocksService W).
  Local Abbreviation latest := (latest canonical).
  Local Abbreviation produced := (produced canonical).

Lemma latest_Some h hd :
  latest h = Some hd →
  canonical (blockHeight hd) = Some hd ∧ 0 ≤ blockHeight hd ≤ h ∧
  ∀ k, blockHeight hd < k ≤ h → canonical k = None.
Proof.
  destruct (Z.ltb_spec h 0) as [Hneg|Hpos]; [by rewrite latest_negative|].
  revert h Hpos hd. apply (natlike_ind (fun h => ∀ hd, latest h = Some hd → _));
    [|intros h Hh IH]; intros hd; rewrite latest_unfold by lia.
  - destruct (canonical 0) as [c|] eqn:E; [|by rewrite latest_negative by lia].
    intros [= <-]. destruct (canonical_height (W:=W) _ _ E) as [_ ->]. split_and!; [done|lia..|].
    intros k Hk. lia.
  - destruct (canonical (Z.succ h)) as [c|] eqn:E.
    + intros [= <-]. destruct (canonical_height (W:=W) _ _ E) as [_ ->].
      split_and!; [done|lia..|]. intros k Hk. lia.
    + replace (Z.succ h - 1) with h by lia. intros H%IH.
      destruct H as (H1 & H2 & H3). split_and!; [done|lia..|].
      intros k Hk. destruct (decide (k = Z.succ h)) as [->|]; [done|]. apply H3. lia.
Qed.

(** A header whose slot is right after produced slot [latest (h - 1)]. *)
Lemma canonical_link h hd p :
  canonical h = Some hd → latest (h - 1) = Some p → parentHash hd = Some (blockHash p).
Proof.
  intros Hh (Hc & Hle & Hgap)%latest_Some.
  eapply canonical_parent; [exact Hc|exact Hh|lia|]. intros k Hk. apply Hgap. lia.
Qed.

(** ** The calls *)
Lemma getHeader_stable h (s : svc) :
  getHeaderForHeight h s = (stable_answer canonical bad_slot h, s).
Proof.
  unfold getHeaderForHeight, on_world, zoom. rewrite stable_header. by destruct s.
Qed.

Lemma stable_answer_pos h :
  0 ≤ h → stable_answer canonical bad_slot h =
    match canonical h with Some hd => Done hd | None => Throw BlockUnavailableError end.
Proof. intros H. unfold stable_answer. by rewrite (proj2 (Z.ltb_ge _ _) H). Qed.

Definition or_bad_slot (o : option Header) : outcome Header :=
  match o with Some hd => Done hd | None => Throw bad_slot end.

(** The search for a parent ends: at the last produced slot, or below slot 0. *)
Lemma getParent_answers fuel h (s : svc) :
  -1 ≤ h ≤ MAX_SAFE_INTEGER → h + 2 ≤ Z.of_nat fuel →
  answers (getParentHeaderByHeight fuel h) s (or_bad_slot (latest h)).
Proof.
  revert h s. induction fuel as [|fuel IH]; intros h s Hh Hf; [lia|]. cbn [getParentHeaderByHeight].
  eapply answers_try; [apply answers_await, answers_run, getHeader_stable|].
  destruct (decide (h = -1)) as [->|Hne].
  - rewrite latest_negative by lia. simpl. intros s' _.
    rewrite decide_False by apply (bad_slot_not_skip (W:=W)). by apply answers_run.
  - rewrite stable_answer_pos, latest_unfold by lia.
    destruct (canonical h) eqn:E; [done|]. intros s' _. rewrite decide_True by done.
    rewrite num_pred_exact by (unfold safe; lia). apply IH; lia.
Qed.

Lemma assert_hash_ok hd msg (s : svc) :
  canonical (blockHeight hd) = Some hd → assert_truthy (parentHash hd) msg s = (Done tt, s).
Proof.
  intros Hc. destruct (canonical_has_parent (W:=W) _ _ Hc) as (p & -> & Hp).
  unfold assert_truthy. simpl. unfold truthy_string. by rewrite bool_decide_true.
Qed.

(** Going back over the parents of a canonical block finds the canonical block
    of the target slot; when that slot was skipped the walk goes past it, down to
    the slot before 0. *)
Lemma walk_back_answers fuel t hd (s : svc) :
  canonical (blockHeight hd) = Some hd → 0 ≤ t ≤ blockHeight hd ∨ blockHeight hd < t ∧ canonical t = None →
  blockHeight hd ≤ MAX_SAFE_INTEGER → blockHeight hd + 1 ≤ Z.of_nat fuel →
  answers (walk_back fuel t hd) s (or_bad_slot (canonical t)).
Proof.
  revert hd s. induction fuel as [|fuel IH]; intros hd s Hc Ht Hmax Hf;
    destruct (canonical_height (W:=W) _ _ Hc) as [Hpos _]; [lia|].
  cbn [walk_back]. destruct (Z.eqb_spec t (blockHeight hd)) as [->|Hne];
    [rewrite Hc; by apply answers_run|].
  eapply answers_bind; [by apply answers_run, assert_hash_ok|]. intros s1 _.
  rewrite num_pred_exact by (unfold safe; lia).
  pose proof (getParent_answers (S fuel) (blockHeight hd - 1) s1 ltac:(lia) ltac:(lia)) as Hp.
  apply answers_await in Hp.
  destruct (latest (blockHeight hd - 1)) as [q|] eqn:Hq; simpl in Hp.
  - eapply answers_bind; [exact Hp|]. intros s2 _. apply latest_Some in Hq as (Hqc & Hqh & Hgap).
    apply IH; [done| |lia..]. destruct (decide (t ≤ blockHeight q)); [left; lia|right].
    split; [lia|]. destruct Ht as [Ht|[_ Ht]]; [|done]. apply Hgap. lia.
  - assert (canonical t = None) as ->; [|by apply answers_bind_Throw].
    destruct Ht as [Ht|[_ Ht]]; [|done]. destruct (canonical t) as [c|] eqn:Et; [|done].
    exfalso. apply (latest_None canonical _ t) in Hq; [congruence|lia].
Qed.
End stable.
