(* ===== verification/UnfinalizedFork.v ===== *)
(** * What the fork detection answers

    The answers of [hasForked] and of the choice of the rewind target against a
    stable chain, with the case the service does not handle: a record whose slot
    the canonical chain skipped. *)
From S2P Require Import Prelude JsNumber JsDate Json Types Chain Sim Unfinalized UnfinalizedInv.
From S2P Require Import UnfinalizedChain.

Lemma find_last_Some {A} (p : A → bool) l x :
  find_last p l = Some x → x ∈ l ∧ p x = true.
Proof.
  intros [Hin Hp]%find_some. apply list_elem_of_In in Hin. split; [|done].
  by apply elem_of_reverse.
Qed.

(** The closest record is the highest one up to the height, in an increasing list. *)
Lemma find_last_app {A} (p : A → bool) l1 x l2 :
  p x = true → Forall (fun y => p y = false) l2 → find_last p (l1 ++ x :: l2) = Some x.
Proof.
  intros Hx Hl2. unfold find_last. rewrite reverse_app, reverse_cons, <- app_assoc.
  apply Forall_reverse in Hl2. induction Hl2 as [|y l Hy Hl IH]; simpl; [by rewrite Hx|].
  by rewrite Hy.
Qed.

Definition closest (l : list Header) (n : Z) : option Header :=
  find_last (fun h => blockHeight h <=? n) l.

Section fork.
  Context {W : Type} `{LD : Lodash, BC : BlockchainClient W, MS : MetadataStore W, AR : Arrivals W}
    (canonical : Z → option Header) (bad_slot : jserror)
    {SC : StableChain W canonical bad_slot}.
  Local Abbreviation svc := (UnfinalizedBlocksService W).

(** The header to report for a record [r] when the canonical block of its slot is [c]. *)
Definition fork_at (r c : Header) : option Header :=
  if decide (blockHash c ≠ blockHash r) then Some c else None.

(** What is thrown when the slot of the record has no canonical block. *)
Definition skipped_error (distance : Z) : jserror :=
  if UNFINALIZED_THRESHOLD <? distance then BlockUnavailableError else bad_slot.

Lemma hasForked_answers fuel l f c (w : W) r :
  let s := mkService (Some l) (Some f) c w in
  canonical (blockHeight f) = Some f → blockHeight f ≤ MAX_SAFE_INTEGER →
  blockHeight f + 1 ≤ Z.of_nat fuel →
  closest l (blockHeight f) = Some r → 0 ≤ blockHeight r →
  answers (hasForked fuel) s
    (match canonical (blockHeight r) with
     | Some hd => Done (fork_at r hd)
     | None => Throw (skipped_error (blockHeight f - blockHeight r))
     end).
Proof.
  intros s Hf Hmax Hfuel Hr Hr0.
  pose proof (find_last_Some _ _ _ Hr) as [_ Hle%Z.leb_le].
  assert (∀ (r' hd : Header) s', answers (if decide (blockHash hd ≠ blockHash r')
    then mret (Some hd) else mret None : M svc _) s' (Done (fork_at r' hd))) as Hans.
  { intros r' hd s'. apply answers_run. unfold fork_at. by case_decide. }
  unfold hasForked. apply (answers_step _ _ _ (blockHeight f)); [done|].
  apply (answers_step _ _ _ (closest l (blockHeight f))); [done|]. rewrite Hr.
  apply (answers_step _ _ _ f); [done|].
  destruct (Z.eqb_spec (blockHeight r) (blockHeight f)) as [E|Hne].
  { rewrite E, Hf. unfold fork_at. destruct (decide (blockHash r ≠ blockHash f)) as [Hd|Hd].
    - rewrite decide_True by (by apply not_eq_sym). by apply answers_run.
    - rewrite decide_False by (intros Hn; by apply Hd, not_eq_sym). by apply answers_run. }
  rewrite num_sub_exact by (unfold safe; lia). unfold skipped_error.
  destruct (UNFINALIZED_THRESHOLD <? _).
  - pose proof (answers_await _ _ _ (answers_run _ _ _
      (getHeader_stable canonical bad_slot (blockHeight r) s))) as Hg.
    rewrite stable_answer_pos in Hg by lia. destruct (canonical (blockHeight r)) as [hd|].
    + eapply answers_bind; [exact Hg|]. auto.
    + by apply answers_bind_Throw.
  - pose proof (walk_back_answers canonical bad_slot fuel (blockHeight r) f s Hf
      ltac:(left; lia) Hmax Hfuel) as Hw.
    destruct (canonical (blockHeight r)) as [hd|]; simpl in Hw.
    + eapply answers_bind; [exact Hw|]. auto.
    + by apply answers_bind_Throw.
Qed.

(** C3: on a chain that does not change, when the closest record's slot was
    produced, the fork check ends and reports the canonical block of that slot exactly
    when its hash differs from the record's: no fork is missed and none is invented,
    however far the finalized block is, and whatever finalized headers are registered
    while the check waits; their registration is all that changes. *)
Theorem hasForked_decides fuel l f c (w : W) r hd :
  canonical (blockHeight f) = Some f → blockHeight f ≤ MAX_SAFE_INTEGER →
  blockHeight f + 1 ≤ Z.of_nat fuel →
  closest l (blockHeight f) = Some r → canonical (blockHeight r) = Some hd →
  answers (hasForked fuel) (mkService (Some l) (Some f) c w)
    (Done (if decide (blockHash hd = blockHash r) then None else Some hd)).
Proof.
  intros Hf Hmax Hfuel Hr Hc. pose proof (canonical_height (W:=W) _ _ Hc) as [Hr0 _].
  pose proof (hasForked_answers fuel l f c w r Hf Hmax Hfuel Hr Hr0) as H. rewrite Hc in H.
  unfold fork_at in H. destruct (decide (blockHash hd = blockHash r)) as [E|E];
    [by rewrite decide_False in H by auto|by rewrite decide_True in H].
Qed.

(** C34: a call without a header does not report the fork of a record whose slot the
    canonical chain skipped, when that is the record closest to the finalized block.  It
    throws: BlockUnavailableError beyond the threshold, and within it the RPC's error for
    slot -1, after a walk over the whole chain.  Nothing changes but by registrations of
    finalized headers, so another call without a header throws again, as long as finality
    does not reach another record. *)
Theorem hasForked_skipped_slot fuel l f c (w : W) r :
  canonical (blockHeight f) = Some f → blockHeight f ≤ MAX_SAFE_INTEGER →
  blockHeight f + 1 ≤ Z.of_nat fuel →
  closest l (blockHeight f) = Some r → 0 ≤ blockHeight r →
  canonical (blockHeight r) = None →
  answers (processUnfinalizedBlockHeader fuel None) (mkService (Some l) (Some f) c w)
    (Throw (if 200 <? blockHeight f - blockHeight r then BlockUnavailableError else bad_slot)).
Proof.
  intros Hf Hmax Hfuel Hr Hr0 Hc.
  pose proof (hasForked_answers fuel l f c w r Hf Hmax Hfuel Hr Hr0) as H. rewrite Hc in H.
  apply (answers_step _ _ _ None); [done|]. by apply answers_bind_Throw, answers_await.
Qed.

(** ** Without arrivals *)
Context {SQ : Sequential W}.

Lemma process_None fuel (s : svc) :
  processUnfinalizedBlockHeader fuel None s =
    (forkedHeader ← hasForked fuel;
     match forkedHeader with
     | None => deleteFinalizedBlock ;; mret None
     | Some forkedHeader => getLastCorrectFinalizedBlock fuel forkedHeader
     end) s.
Proof.
  unfold processUnfinalizedBlockHeader. rewrite (bind_Done _ _ s None s) by done.
  rewrite bind_await. apply bind_ext; [done|]. intros [f|] s1; [done|]. apply bind_await.
Qed.

Lemma process_Some fuel h (s : svc) :
  processUnfinalizedBlockHeader fuel (Some h) s =
    (forkedHeader ← registerUnfinalizedBlock fuel h;
     forkedHeader ← (match forkedHeader with Some h => mret (Some h) | None => hasForked fuel end);
     match forkedHeader with
     | None => deleteFinalizedBlock ;; mret None
     | Some forkedHeader => getLastCorrectFinalizedBlock fuel forkedHeader
     end) s.
Proof.
  unfold processUnfinalizedBlockHeader. rewrite bind_await. apply bind_ext; [done|]. intros o s1.
  apply bind_ext; [destruct o; [done|apply await_seq]|]. intros [f|] s2; [done|]. apply bind_await.
Qed.

Lemma hasForked_stable fuel l f c (w : W) r :
  let s := mkService (Some l) (Some f) c w in
  canonical (blockHeight f) = Some f → blockHeight f ≤ MAX_SAFE_INTEGER →
  blockHeight f + 1 ≤ Z.of_nat fuel →
  closest l (blockHeight f) = Some r → 0 ≤ blockHeight r →
  hasForked fuel s =
    (match canonical (blockHeight r) with
     | Some hd => Done (fork_at r hd)
     | None => Throw (skipped_error (blockHeight f - blockHeight r))
     end, s).
Proof. intros s ?????. apply answers_seq. by apply hasForked_answers. Qed.
End fork.

Definition sim_r3 : Header := sim_block 3 "b3" "a2".
Definition sim_service (l : list Header) (f : Header) : UnfinalizedBlocksService sim_store :=
  mkService (Some l) (Some f) (Num 1) ∅.

(** Slot 6 is finalized during the waits of a check that starts with slot 5 final. *)
Lemma hasForked_decides_witness :
  let f := sim_block 5 "a5" "a4" in
  let BC := sim_client sim_canonical f sim_bad_slot in
  let AR := sim_arrivals [sim_block 6 "a6" "a5"] in
  answers (hasForked 8) (sim_service [sim_block 2 "b2" "a1"; sim_block 7 "b7" "b2"] f)
    (Done (Some (sim_block 2 "a2" "a1"))).
Proof.
  intros f BC AR.
  apply (hasForked_decides (SC:=sim_stable_chain f) sim_canonical sim_bad_slot 8 _ f _ _
    (sim_block 2 "b2" "a1") (sim_block 2 "a2" "a1")); reflexivity || done.
Defined.

#[local] Existing Instance none_arrive.

Lemma hasForked_skipped_slot_witness :
  let f := sim_block 6 "a6" "a5" in
  let BC := sim_client sim_canonical f sim_bad_slot in
  answers (processUnfinalizedBlockHeader (LD:=lodash_model) (MS:=sim_metadata) 8 None)
    (sim_service [sim_block 2 "a2" "a1"; sim_r3] f) (Throw sim_bad_slot).
Proof.
  intros f BC.
  apply (hasForked_skipped_slot (SC:=sim_stable_chain f) sim_canonical sim_bad_slot 8 _ f _ _
    sim_r3); reflexivity || done.
Defined.
