(* ===== verification/UnfinalizedRewind.v ===== *)
(** * The block to rewind to

    After a fork the service looks for the last of its records that is on the
    canonical chain, going back one record and one canonical block at a time. *)
From S2P Require Import Prelude JsNumber JsDate Json Types Chain Sim Unfinalized UnfinalizedInv.
From S2P Require Import UnfinalizedChain UnfinalizedFork.

Section rewind.
  Context {W B : Type} `{LD : Lodash, BC : BlockchainClient W, MS : MetadataStore W, AR : Arrivals W}
    (canonical : Z → option Header) (bad_slot : jserror)
    {SC : StableChain W canonical bad_slot}.
  Local Abbreviation svc := (UnfinalizedBlocksService W).
  Local Abbreviation latest := (latest canonical).

(** The record [b] is [c] or its parent. *)
Definition matches (b c : Header) : Prop :=
  blockHash b = blockHash c ∨ Some (blockHash b) = parentHash c.
#[global] Instance matches_dec b c : Decision (matches b c).
Proof. unfold matches. apply _. Defined.

(** The search without its effects. *)
Fixpoint match_back (c : Header) (best : list Header) : outcome (option Header) :=
  match best with
  | [] => Done None
  | b :: best =>
      if decide (matches b c) then Done (Some b)
      else match latest (blockHeight c - 1) with
           | Some c => match_back c best
           | None => Throw bad_slot
           end
  end.

(** The [i]-th block before [c] on the canonical chain. *)
Fixpoint ancestor (i : nat) (c : Header) : option Header :=
  match i with
  | O => Some c
  | S i => p ← latest (blockHeight c - 1); ancestor i p
  end.

Definition on_canonical (b : Header) : Prop := ∃ k c, canonical k = Some c ∧ matches b c.

Lemma find_correct_answers fuel c best (s : svc) :
  canonical (blockHeight c) = Some c → blockHeight c ≤ MAX_SAFE_INTEGER →
  blockHeight c + 1 ≤ Z.of_nat fuel →
  answers (find_correct fuel c best) s (match_back c best).
Proof.
  revert c s. induction best as [|b best IH]; intros c s Hc Hmax Hf; [by apply answers_run|].
  cbn [find_correct match_back]. unfold matches at 1.
  destruct (decide (blockHash b = blockHash c ∨ _)); [by apply answers_run|].
  destruct (canonical_height (W:=W) _ _ Hc) as [Hpos _].
  eapply answers_step; [by apply (assert_hash_ok canonical bad_slot)|].
  rewrite num_pred_exact by (unfold safe; lia).
  pose proof (getParent_answers canonical bad_slot fuel (blockHeight c - 1) s
    ltac:(lia) ltac:(lia)) as Hp. apply answers_await in Hp.
  destruct (latest (blockHeight c - 1)) as [q|] eqn:Hq; simpl in Hp; [|by apply answers_bind_Throw].
  eapply answers_bind; [exact Hp|]. intros s1 _.
  apply (latest_Some (W:=W) canonical bad_slot) in Hq as (Hqc & Hqh & _). apply IH; [done|lia..].
Qed.

Lemma match_back_sound c best :
  canonical (blockHeight c) = Some c →
  match match_back c best with
  | Done (Some b) => b ∈ best ∧ on_canonical b
  | Done None => True
  | Throw e => e = bad_slot
  | _ => False
  end.
Proof.
  revert c. induction best as [|b best IH]; intros c Hc; simpl; [done|].
  case_decide as Hm; [split; [by left|by exists (blockHeight c), c]|].
  destruct (latest (blockHeight c - 1)) as [q|] eqn:Hq; [|done].
  apply (latest_Some (W:=W) canonical bad_slot) in Hq as (Hqc & _).
  specialize (IH q Hqc).
  destruct (match_back q best) as [[b'|]| | |]; try done. destruct IH. split; [by right|done].
Qed.

Lemma match_back_miss c best :
  (∀ i b, best !! i = Some b → ∃ a, ancestor i c = Some a ∧ ¬ matches b a) →
  is_Some (ancestor (length best) c) → match_back c best = Done None.
Proof.
  revert c. induction best as [|b best IH]; intros c Hbest Hlast; [done|]. simpl.
  destruct (Hbest 0%nat b eq_refl) as (a & [= <-] & Hm). rewrite decide_False by done.
  destruct Hlast as [z Hz]. simpl in Hz.
  destruct (latest (blockHeight c - 1)) as [q|] eqn:Hq; [|done]. simpl in Hz.
  apply IH; [|by eexists]. intros i b' Hb'. destruct (Hbest (S i) b' Hb') as (a' & Ha' & ?).
  simpl in Ha'. rewrite Hq in Ha'. eauto.
Qed.

(** The records at or below the finalized block, the highest first. *)
Definition verifiable (l : list Header) (f : Header) : list Header :=
  reverse (filter (fun h => blockHeight h ≤ blockHeight f) l).

(** The block to rewind to. *)
Definition rewind_target (l : list Header) (f : Header) (n : jsnum) (fh : Header)
  : outcome (option Header) :=
  match match_back fh (verifiable l f) with
  | Done None => match jsnum_truthy n with
                 | None => Done None
                 | Some h => hd ← stable_answer canonical bad_slot h; Done (Some hd)
                 end
  | o => o
  end.

Lemma getLastCorrect_answers fuel fh l f n (w : W) :
  canonical (blockHeight fh) = Some fh → blockHeight fh ≤ MAX_SAFE_INTEGER →
  blockHeight fh + 1 ≤ Z.of_nat fuel →
  answers (getLastCorrectFinalizedBlock fuel fh) (mkService (Some l) (Some f) n w)
    (rewind_target l f n fh).
Proof.
  intros Hc Hmax Hf. set (s := mkService _ _ _ _). unfold getLastCorrectFinalizedBlock.
  apply (answers_step _ _ _ l); [done|]. apply (answers_step _ _ _ (filter (fun h => blockHeight h ≤ blockHeight f) l)); [by destruct l|].
  destruct (find_correct_answers fuel fh (verifiable l f) s Hc Hmax Hf) as (s1 & E1 & W1).
  unfold answers, rewind_target. fold (verifiable l f). unfold mbind at 1, M_bind at 1. rewrite E1.
  destruct (match_back fh (verifiable l f)) as [[b|]| | |]; try by exists s1.
  rewrite (bind_Done (gets lastCheckedBlockHeight) _ s1 n s1)
    by (unfold gets; by rewrite (waited_checked _ _ W1)).
  destruct (jsnum_truthy n) as [h|]; [|by exists s1].
  unfold mbind at 1, M_bind at 1. rewrite (getHeader_stable canonical bad_slot).
  exists s1. split; [|done]. by destruct (stable_answer canonical bad_slot h).
Qed.

(** C5: on a chain that does not change the search for the block to rewind to
    ends, and changes nothing but by registrations of finalized headers while it waits,
    which do not change its answer.  A block it gives is on the canonical chain (it has
    the hash of a canonical block or of the parent of one) and is either a record
    no higher than the finalized block or the block last verified; there is none
    only if nothing was verified before; and the only errors are the RPC's for a
    slot below 0 and an unavailable last verified slot. *)
Theorem rewind_target_canonical fuel fh l f n (w : W) :
  canonical (blockHeight fh) = Some fh → blockHeight fh ≤ MAX_SAFE_INTEGER →
  blockHeight fh + 1 ≤ Z.of_nat fuel →
  ∃ o, answers (getLastCorrectFinalizedBlock fuel fh) (mkService (Some l) (Some f) n w) o ∧
  match o with
  | Done (Some b) => on_canonical b ∧
      (b ∈ l ∧ blockHeight b ≤ blockHeight f ∨ n = Num (blockHeight b))
  | Done None => jsnum_truthy n = None
  | Throw e => e = bad_slot ∨
      e = BlockUnavailableError ∧ ∃ h, n = Num h ∧ canonical h = None
  | _ => False
  end.
Proof.
  intros Hc Hmax Hf. eexists. split; [by apply getLastCorrect_answers|]. unfold rewind_target.
  pose proof (match_back_sound fh (verifiable l f) Hc) as Hs.
  destruct (match_back fh (verifiable l f)) as [[b|]| | |]; try done.
  - destruct Hs as [Hb Hcan]. split; [done|]. left.
    apply elem_of_reverse, list_elem_of_filter in Hb. tauto.
  - destruct (jsnum_truthy n) as [h|] eqn:Hn; [|done].
    assert (n = Num h) as ->.
    { destruct n as [| |z]; simpl in Hn; try done. by destruct (z =? 0); simplify_eq. }
    unfold stable_answer. destruct (Z.ltb_spec h 0); [by left|].
    destruct (canonical h) as [hd|] eqn:Hh; simpl; [|right; eauto].
    destruct (canonical_height (W:=W) _ _ Hh) as [_ ->].
    split; [|by right]. exists h, hd. split; [done|by left].
  - by left.
Qed.

(** ** Without arrivals *)
Context {SQ : Sequential W}.

Lemma getLastCorrect_stable fuel fh l f n (w : W) :
  let s := mkService (Some l) (Some f) n w in
  canonical (blockHeight fh) = Some fh → blockHeight fh ≤ MAX_SAFE_INTEGER →
  blockHeight fh + 1 ≤ Z.of_nat fuel →
  getLastCorrectFinalizedBlock fuel fh s = (rewind_target l f n fh, s).
Proof. intros s ???. apply answers_seq. by apply getLastCorrect_answers. Qed.

(** A fork at the closest record, none of whose records meets the canonical block
    it is compared with, and nothing verified to fall back on. *)
Record missed_fork (fuel : nat) (l : list Header) (f : Header) (n : jsnum) : Prop := {
  mf_finalized : canonical (blockHeight f) = Some f;
  mf_safe : blockHeight f ≤ MAX_SAFE_INTEGER;
  mf_fuel : blockHeight f + 1 ≤ Z.of_nat fuel;
  mf_fork : ∃ r fh, closest l (blockHeight f) = Some r ∧
    canonical (blockHeight r) = Some fh ∧ blockHash r ≠ blockHash fh ∧
    (∀ i b, verifiable l f !! i = Some b → ∃ a, ancestor i fh = Some a ∧ ¬ matches b a) ∧
    is_Some (ancestor (length (verifiable l f)) fh);
  mf_unverified : jsnum_truthy n = None
}.

Lemma process_missed_fork fuel l f n (w : W) :
  missed_fork fuel l f n →
  processUnfinalizedBlockHeader fuel None (mkService (Some l) (Some f) n w) =
    (Done None, mkService (Some l) (Some f) n w).
Proof.
  intros [Hf Hmax Hfuel (r & fh & Hr & Hfh & Hne & Hmiss & Hlast) Hn].
  destruct (canonical_height (W:=W) _ _ Hfh) as [Hr0 Hrh].
  pose proof (find_last_Some _ _ _ Hr) as [_ Hle%Z.leb_le].
  pose proof (hasForked_stable canonical bad_slot _ _ _ n w _ Hf Hmax Hfuel Hr Hr0) as H.
  rewrite Hfh in H. unfold fork_at in H. rewrite decide_True in H by by apply not_eq_sym.
  rewrite process_None, (bind_Done _ _ _ _ _ H).
  rewrite getLastCorrect_stable; [|by rewrite Hrh|lia..].
  unfold rewind_target. by rewrite match_back_miss, Hn.
Qed.

(** What [init] loads from the store. *)
Definition stored_last (v : option metadata_value) : jsnum :=
  match v with
  | Some (MNumber z) => Num z
  | Some MNull => Null
  | _ => Undefined
  end.

Section start.
  Context {MT : MainThread} `{ML : !MetadataLaws W, RS : !ReliableStore W}.

Lemma reset_run (s : svc) :
  ∃ w', resetUnfinalizedBlocks s =
    (Done tt, mkService (Some []) (finalizedHeader_ s) (lastCheckedBlockHeight s) w') ∧
  ∀ k, metadata_view w' k = if decide (METADATA_UNFINALIZED_BLOCKS_KEY = k)
    then Some (MText []) else metadata_view (world s) k.
Proof.
  pose proof (reliable_set METADATA_UNFINALIZED_BLOCKS_KEY (MText []) (world s)) as Hr.
  destruct (metadata_set METADATA_UNFINALIZED_BLOCKS_KEY (MText []) (world s)) as [o w'] eqn:E.
  simpl in Hr. subst o. exists w'. split.
  - unfold resetUnfinalizedBlocks. rewrite bind_await.
    unfold on_world, zoom, mbind, M_bind. by rewrite E.
  - by destruct (metadata_set_view _ _ _ _ _ E) as [H|[? _]].
Qed.

Lemma resetLast_run (s : svc) :
  ∃ w', resetLastFinalizedVerifiedHeight s =
    (Done tt, mkService (unfinalizedBlocks_ s) (finalizedHeader_ s) (lastCheckedBlockHeight s) w') ∧
  ∀ k, metadata_view w' k = if decide (METADATA_LAST_FINALIZED_PROCESSED_KEY = k)
    then Some MNull else metadata_view (world s) k.
Proof.
  pose proof (reliable_set METADATA_LAST_FINALIZED_PROCESSED_KEY MNull (world s)) as Hr.
  destruct (metadata_set METADATA_LAST_FINALIZED_PROCESSED_KEY MNull (world s)) as [o w'] eqn:E.
  simpl in Hr. subst o. exists w'. split.
  - unfold resetLastFinalizedVerifiedHeight, on_world, zoom. by rewrite E.
  - by destruct (metadata_set_view _ _ _ _ _ E) as [H|[? _]].
Qed.

Lemma find_run k (s : svc) :
  on_world (metadata_find k) s = (Done (metadata_view (world s) k), s).
Proof. unfold on_world, zoom. rewrite reliable_find. by destruct s. Qed.

Definition loaded (objs : list SerializedHeader) (f : Header) (w : W) : svc :=
  mkService (Some (parse_header <$> objs)) (Some f)
    (stored_last (metadata_view w METADATA_LAST_FINALIZED_PROCESSED_KEY)) w.

(** [init] up to the check of the stored records. *)
Lemma init_run fuel reindex (s : svc) objs f o s1 :
  metadata_view (world s) METADATA_UNFINALIZED_BLOCKS_KEY = Some (MText objs) → objs ≠ [] →
  stored_number (metadata_view (world s) METADATA_LAST_FINALIZED_PROCESSED_KEY) →
  bc_getFinalizedHeader (world s) = (Done f, world s) →
  processUnfinalizedBlockHeader fuel None (loaded objs f (world s)) = (Done o, s1) →
  init (B:=B) fuel reindex s =
    (match o with
     | Some h => reindex h ;; mret (Some h)
     | None => resetUnfinalizedBlocks ;; resetLastFinalizedVerifiedHeight ;; mret None
     end) s1.
Proof.
  intros Hobjs Hne Hnum Hfin Hp. unfold init.
  rewrite bind_await, (bind_Done getMetadataUnfinalizedBlocks _ s (parse_header <$> objs) s).
  2:{ unfold getMetadataUnfinalizedBlocks. rewrite bind_await.
      by rewrite (bind_Done _ _ _ _ _ (find_run _ _)), Hobjs. }
  rewrite (bind_Done (set_unfinalizedBlocks _) _ s tt _ eq_refl).
  set (s2 := mkService _ _ _ _).
  rewrite bind_await, (bind_Done getLastFinalizedVerifiedHeight _ s2
    (stored_last (metadata_view (world s) METADATA_LAST_FINALIZED_PROCESSED_KEY)) s2).
  2:{ unfold getLastFinalizedVerifiedHeight. rewrite (bind_Done _ _ _ _ _ (find_run _ _)). simpl.
      by destruct (metadata_view (world s) METADATA_LAST_FINALIZED_PROCESSED_KEY) as [[]|]. }
  rewrite (bind_Done (set_lastChecked _) _ _ tt _ eq_refl). simpl.
  set (s3 := mkService _ _ _ _).
  rewrite bind_await, (bind_Done (on_world bc_getFinalizedHeader) _ s3 f s3).
  2:{ unfold on_world, zoom. simpl. by rewrite Hfin. }
  rewrite (bind_Done (set_finalizedHeader _) _ _ tt _ eq_refl). simpl.
  change (mkService _ _ _ _) with (loaded objs f (world s)).
  rewrite (bind_Done unfinalizedBlocks _ _ (parse_header <$> objs) (loaded objs f (world s)))
    by done.
  destruct objs as [|h t]; [done|]. cbn [fmap list_fmap].
  rewrite bind_await, (bind_Done (processUnfinalizedBlocks (B:=B) fuel None) _ _ o s1) by done.
  destruct o; [apply bind_await|]. rewrite bind_await. apply bind_ext; [done|].
  intros [] s4. apply bind_await.
Qed.
End start.

(** The search goes back one canonical block per record, so it misses a
    common ancestor when the fork has more or fewer blocks than the canonical
    chain.  When every record misses the canonical block it is compared with, and
    no height was verified before, the detected fork is dropped: the call returns
    nothing, as if the records were right, and keeps them. *)
Theorem fork_without_target_dropped fuel l f n (w : W) :
  missed_fork fuel l f n →
  ∃ fh, hasForked fuel (mkService (Some l) (Some f) n w) =
    (Done (Some fh), mkService (Some l) (Some f) n w) ∧
  processUnfinalizedBlockHeader fuel None (mkService (Some l) (Some f) n w) =
    (Done None, mkService (Some l) (Some f) n w).
Proof.
  intros Hm. pose proof Hm as [Hf Hmax Hfuel (r & fh & Hr & Hfh & Hne & _) _].
  exists fh. split; [|by apply process_missed_fork].
  destruct (canonical_height (W:=W) _ _ Hfh) as [Hr0 _].
  rewrite (hasForked_stable canonical bad_slot _ _ _ n w r) by done.
  rewrite Hfh. unfold fork_at. by rewrite decide_True by by apply not_eq_sym.
Qed.

(** C35: a fork for which there is no block to rewind to is forgotten for good by a
    restart.  The stored records up to the finalized block all miss the canonical block
    that the search compares them with, the closest of them has another hash than the
    chain's block in its slot, and no height was verified before: then [init] runs the
    check, takes the missing answer for "no fork", does not rewind, and erases the records
    and the last verified height. *)
Theorem init_forgets_fork `{MT : MainThread} `{ML : !MetadataLaws W, RS : !ReliableStore W}
    fuel reindex (s : svc) objs f :
  metadata_view (world s) METADATA_UNFINALIZED_BLOCKS_KEY = Some (MText objs) →
  stored_number (metadata_view (world s) METADATA_LAST_FINALIZED_PROCESSED_KEY) →
  bc_getFinalizedHeader (world s) = (Done f, world s) →
  missed_fork fuel (parse_header <$> objs) f
    (stored_last (metadata_view (world s) METADATA_LAST_FINALIZED_PROCESSED_KEY)) →
  ∃ s', init (B:=B) fuel reindex s = (Done None, s') ∧
    unfinalizedBlocks_ s' = Some [] ∧
    metadata_view (world s') METADATA_UNFINALIZED_BLOCKS_KEY = Some (MText []) ∧
    metadata_view (world s') METADATA_LAST_FINALIZED_PROCESSED_KEY = Some MNull.
Proof.
  intros Hobjs Hnum Hfin Hm.
  assert (objs ≠ []) as Hne.
  { destruct Hm as [_ _ _ (r & _ & Hr & _) _]. by intros ->. }
  rewrite (init_run fuel reindex s objs f None (loaded objs f (world s))); [|done..|].
  2:{ by apply process_missed_fork. }
  destruct (reset_run (loaded objs f (world s))) as (w1 & H1 & V1).
  rewrite (bind_Done _ _ _ _ _ H1).
  destruct (resetLast_run (mkService (Some []) (Some f)
    (lastCheckedBlockHeight (loaded objs f (world s))) w1)) as (w2 & H2 & V2).
  simpl in H2. rewrite (bind_Done _ _ _ _ _ H2).
  eexists. split; [done|]. split; [done|]. simpl. split.
  - by rewrite V2, decide_False, V1, decide_True.
  - by rewrite V2, decide_True.
Qed.
End rewind.

#[local] Existing Instance none_arrive.

(** A fork of three blocks, slots 3 to 5, where the canonical chain has two; the
    common ancestor in slot 2 is one of the records. *)
Definition sim_fork : list Header :=
  [sim_block 2 "a2" "a1"; sim_block 3 "b3" "a2"; sim_block 4 "b4" "b3"; sim_block 5 "b5" "b4"].
Definition sim_final : Header := sim_block 6 "a6" "a5".

Lemma sim_missed_fork n :
  jsnum_truthy n = None → missed_fork sim_canonical 7 sim_fork sim_final n.
Proof.
  intros Hn. split; [done|by vm_compute|done| |done].
  exists (sim_block 5 "b5" "b4"), (sim_block 5 "a5" "a4"). split_and!; [done..| |by eexists].
  intros [|[|[|[|i]]]] b [= <-]; (eexists; split; [reflexivity|]); intros [[=]|[=]].
Qed.

Lemma rewind_target_canonical_witness :
  let BC := sim_client sim_canonical sim_final sim_bad_slot in
  let s := mkService (Some sim_fork) (Some sim_final) (Num 1) (∅ : sim_store) in
  ∃ o, answers (getLastCorrectFinalizedBlock 7 (sim_block 5 "a5" "a4")) s o ∧
    o = Done (Some (sim_block 1 "a1" "a0")) ∧
    on_canonical sim_canonical (sim_block 1 "a1" "a0").
Proof.
  intros BC s.
  destruct (rewind_target_canonical (SC:=sim_stable_chain sim_final) sim_canonical sim_bad_slot 7
    (sim_block 5 "a5" "a4") sim_fork sim_final (Num 1) ∅) as (o & E & H); [done|by vm_compute|done|].
  exists o. split; [exact E|]. apply answers_seq in E.
  assert (o = Done (Some (sim_block 1 "a1" "a0"))) as -> by (apply (f_equal fst) in E; vm_compute in E; done).
  split; [done|]. apply H.
Defined.

Lemma fork_without_target_dropped_witness :
  let BC := sim_client sim_canonical sim_final sim_bad_slot in
  let s := mkService (Some sim_fork) (Some sim_final) Undefined (∅ : sim_store) in
  ∃ fh, hasForked 7 s = (Done (Some fh), s) ∧
  processUnfinalizedBlockHeader (LD:=lodash_model) (MS:=sim_metadata) 7 None s = (Done None, s).
Proof.
  intros BC s.
  apply (fork_without_target_dropped (SC:=sim_stable_chain sim_final) sim_canonical sim_bad_slot).
  by apply sim_missed_fork.
Defined.

Definition sim_stored : sim_store :=
  <[METADATA_UNFINALIZED_BLOCKS_KEY := MText (stringify_header <$> sim_fork)]> ∅.

Lemma init_forgets_fork_witness :
  let BC := sim_client sim_canonical sim_final sim_bad_slot in
  let MS := sim_metadata in
  ∃ s', init (LD:=lodash_model) (MT:=sim_main_thread) (B:=SolanaBlock) 7 (fun _ => mret tt)
    (mkService None None Undefined sim_stored) = (Done None, s') ∧
    unfinalizedBlocks_ s' = Some [].
Proof.
  intros BC MS.
  destruct (init_forgets_fork (LD:=lodash_model) (B:=SolanaBlock) (MT:=sim_main_thread)
    (SC:=sim_stable_chain sim_final) sim_canonical sim_bad_slot
    (ML:=sim_metadata_laws sim_canonical sim_final sim_bad_slot)
    (RS:=sim_reliable sim_canonical sim_final sim_bad_slot)
    7 (fun _ => mret tt) (mkService None None Undefined sim_stored)
    (stringify_header <$> sim_fork) sim_final) as (s' & H & Hl & _).
  - done.
  - done.
  - done.
  - change (parse_header <$> (stringify_header <$> sim_fork)) with sim_fork.
    by apply sim_missed_fork.
  - by exists s'.
Defined.
