(* ===== verification/UnfinalizedRegister.v ===== *)
(** * What the service records

    Registration of new headers with the backfill of the slots between, the removal
    of final ones, and the copy of the records in the store. *)
From S2P Require Import Prelude JsNumber JsDate Json Types Chain Sim Unfinalized UnfinalizedInv.
From S2P Require Import UnfinalizedChain UnfinalizedFork UnfinalizedRewind.

Section register.
  Context {W : Type} `{LD : Lodash, BC : BlockchainClient W, MS : MetadataStore W, AR : Arrivals W}
    (canonical : Z → option Header) (bad_slot : jserror)
    {SC : StableChain W canonical bad_slot}.
  Local Abbreviation svc := (UnfinalizedBlocksService W).
  Local Abbreviation latest := (latest canonical).
  Local Abbreviation produced := (produced canonical).

Lemma header_or_skipped_answers h (s : svc) :
  0 ≤ h → answers (header_or_skipped h) s (Done (canonical h)).
Proof.
  intros Hh. pose proof (answers_await _ _ _ (answers_run _ _ _ (getHeader_stable canonical bad_slot h s)))
    as H.
  rewrite stable_answer_pos in H by done. unfold header_or_skipped. destruct (canonical h) as [h0|].
  - apply (answers_try _ _ _ (Done (Some h0))); [|done].
    eapply answers_bind; [exact H|]. intros s1 _. by apply answers_run.
  - eapply answers_try; [by apply answers_bind_Throw|]. intros s1 _. by apply answers_run.
Qed.

Lemma push_run h l (s : svc) :
  unfinalizedBlocks_ s = Some l → push_unfinalized h s = (Done tt, with_unfinalized (l ++ [h]) s).
Proof. intros H. destruct s as [o f c w]. simpl in H. by subst o. Qed.

Lemma records_run l (s : svc) : unfinalizedBlocks_ s = Some l → unfinalizedBlocks s = (Done l, s).
Proof. intros H. destruct s as [o f c w]. simpl in H. by subst o. Qed.

Lemma with_unfinalized_same l (s : svc) : unfinalizedBlocks_ s = Some l → with_unfinalized l s = s.
Proof. intros H. destruct s as [o f c w]. simpl in H. by subst o. Qed.

Lemma breaks_chain_true h p : parentHash h ≠ Some (blockHash p) → breaks_chain h p = true.
Proof. intros H. unfold breaks_chain. by apply bool_decide_eq_true. Qed.
Lemma breaks_chain_linked h p : parentHash h = Some (blockHash p) → breaks_chain h p = false.
Proof. intros H. unfold breaks_chain. apply bool_decide_eq_false. by intros []. Qed.

(** With the blocks since the last record, the records end with the chain's last block. *)
Lemma last_produced l p b :
  last l = Some p → latest (blockHeight p) = Some p → 0 ≤ blockHeight p < b →
  ∃ q, last (l ++ produced (blockHeight p + 1) b) = Some q ∧ latest (b - 1) = Some q.
Proof.
  intros Hl Hp H0.
  assert (∀ n : nat, ∀ a l p, Z.of_nat n = b - a → 0 ≤ a → last l = Some p →
    latest (a - 1) = Some p → ∃ q, last (l ++ produced a b) = Some q ∧ latest (b - 1) = Some q) as H.
  { clear l p Hl Hp H0. induction n as [|n IH]; intros a l0 p0 Hn Ha Hl0 Hp0.
    - rewrite produced_nil, app_nil_r by lia. replace b with a by lia. eauto.
    - rewrite produced_cons by lia.
      assert (latest (a + 1 - 1) = match canonical a with Some hd => Some hd | None => Some p0 end)
        as Hnext by (replace (a + 1 - 1) with a by lia; by rewrite latest_unfold, Hp0 by lia).
      destruct (canonical a) as [hd|]; [|by apply (IH _ _ p0); [lia|lia|..]].
      destruct (IH (a + 1) (l0 ++ [hd]) hd) as (q & Hq & ?); [lia|lia|by rewrite last_snoc|done|].
      rewrite <- app_assoc in Hq. eauto. }
  apply (H (Z.to_nat (b - (blockHeight p + 1))) _ _ p); [lia|lia|done|].
  by replace (blockHeight p + 1 - 1) with (blockHeight p) by lia.
Qed.

(** On a stable chain the backfill appends the blocks of the slots it covers, and waits. *)
Lemma backfill_waits fuel h e l p (s : svc) :
  unfinalizedBlocks_ s = Some l → last l = Some p → latest (h - 1) = Some p → 0 ≤ h →
  e < MAX_SAFE_INTEGER → e - h + 1 ≤ Z.of_nat fuel →
  ∃ s', backfillSkippedSlots fuel h e s =
    (Done None, with_unfinalized (l ++ produced h (e + 1)) s') ∧ waited s s'.
Proof.
  revert h l p s. induction fuel as [|fuel IH]; intros h l p s Hs Hl Hp H0 He Hf;
    cbn [backfillSkippedSlots]; destruct (Z.leb_spec h e) as [Hle|Hgt];
    try (exists s; by rewrite produced_nil, app_nil_r, with_unfinalized_same by (done || lia)); [lia|].
  destruct (header_or_skipped_answers h s H0) as (s1 & E1 & W1).
  rewrite (bind_Done _ _ _ _ _ E1), num_succ_exact by (unfold safe; lia).
  rewrite (produced_cons _ h) by lia.
  assert (latest h = match canonical h with Some hd => Some hd | None => Some p end) as Hnext
    by by rewrite latest_unfold, Hp by lia.
  replace h with (h + 1 - 1) in Hnext at 1 by lia.
  pose proof (waited_records _ _ W1) as Hs1. rewrite Hs in Hs1.
  destruct (canonical h) as [hd|] eqn:Hc.
  2:{ destruct (IH (h + 1) l p s1 Hs1 Hl Hnext) as (s2 & E2 & W2); [lia..|].
      exists s2. split; [exact E2|by trans s1]. }
  rewrite (bind_Done _ _ _ _ _ (records_run _ _ Hs1)).
  rewrite lodash_last_spec, Hl, breaks_chain_linked by by eapply (canonical_link (W:=W)).
  rewrite (bind_Done _ _ _ _ _ (push_run _ _ _ Hs1)).
  destruct (IH (h + 1) (l ++ [hd]) hd (with_unfinalized (l ++ [hd]) s1)) as (s2 & E2 & W2);
    [done|by rewrite last_snoc|done|lia..|].
  exists (with_unfinalized l s2). rewrite E2, <- app_assoc. split; [done|].
  apply (waited_unfinalized l) in W2. trans s1; [done|].
  by rewrite <- (with_unfinalized_same l s1 Hs1) at 1.
Qed.

(** The step of the backfill on which a fork shows: the first block after the
    last record, which is not its child. *)
Lemma backfill_fork fuel h e l p (s : svc) hd :
  unfinalizedBlocks_ s = Some l → last l = Some p → 0 ≤ h ≤ blockHeight hd →
  blockHeight hd ≤ e < MAX_SAFE_INTEGER →
  canonical (blockHeight hd) = Some hd → (∀ k, h ≤ k < blockHeight hd → canonical k = None) →
  parentHash hd ≠ Some (blockHash p) → e - h + 1 ≤ Z.of_nat fuel →
  answers (backfillSkippedSlots fuel h e) s (Done (Some hd)).
Proof.
  revert h s. induction fuel as [|fuel IH]; intros h s Hs Hl H0 He Hc Hgap Hp Hf; [lia|].
  cbn [backfillSkippedSlots]. rewrite (proj2 (Z.leb_le h e)) by lia.
  eapply answers_bind; [apply header_or_skipped_answers; lia|]. intros s1 W1.
  pose proof (waited_records _ _ W1) as Hs1. rewrite Hs in Hs1.
  destruct (decide (h = blockHeight hd)) as [->|Hne].
  - rewrite Hc. eapply answers_step; [by apply records_run|]. rewrite lodash_last_spec, Hl.
    rewrite breaks_chain_true by done. by apply answers_run.
  - rewrite Hgap, num_succ_exact by (unfold safe; lia).
    apply IH; [done|done|lia|lia|done| |done|lia]. intros k Hk. apply Hgap. lia.
Qed.

(** The outcome of the registration after the backfill reached the header's slot. *)
Lemma register_waits fuel h l p f (s : svc) :
  unfinalizedBlocks_ s = Some l → finalizedHeader_ s = Some f →
  last l = Some p → latest (blockHeight p) = Some p →
  blockHeight f < blockHeight h → blockHeight p < blockHeight h ≤ MAX_SAFE_INTEGER →
  blockHeight h - blockHeight p ≤ Z.of_nat fuel →
  let l' := l ++ produced (blockHeight p + 1) (blockHeight h) in
  ∃ q s', last l' = Some q ∧ latest (blockHeight h - 1) = Some q ∧ waited s s' ∧
  registerUnfinalizedBlock fuel h s =
    (if breaks_chain h q then mret (Some h) else push_and_save h) (with_unfinalized l' s').
Proof.
  intros Hs Hsf Hl Hp Hf Hh Hfuel l'.
  destruct (latest_Some (W:=W) _ bad_slot _ _ Hp) as (_ & H0 & _).
  assert (∃ q, last l' = Some q ∧ latest (blockHeight h - 1) = Some q) as (q & Hq & Hlq)
    by (apply last_produced; done || lia).
  assert (finalizedBlockNumber s = (Done (blockHeight f), s)) as Hn
    by (destruct s as [o o' c w]; simpl in Hsf; by subst o').
  assert (∃ s', waited s s' ∧ (if blockHeight p + 1 =? blockHeight h then mret None
     else await (backfillSkippedSlots fuel (blockHeight p + 1) (blockHeight h - 1))) s =
    (Done None, with_unfinalized l' s')) as (s' & Ws' & Eback).
  { destruct (Z.eqb_spec (blockHeight p + 1) (blockHeight h)) as [E|E].
    - exists s. split; [done|]. subst l'.
      by rewrite produced_nil, app_nil_r, with_unfinalized_same by (done || lia).
    - destruct (backfill_waits fuel (blockHeight p + 1) (blockHeight h - 1) l p s)
        as (s1 & E1 & W1); [done|done| |lia..|].
      { by replace (blockHeight p + 1 - 1) with (blockHeight p) by lia. }
      exists (meanwhile s1). split; [by apply waited_meanwhile|]. unfold await. rewrite E1.
      replace (blockHeight h - 1 + 1) with (blockHeight h) by lia. fold l'. by rewrite !meanwhile_eq. }
  exists q, s'. split_and!; [done..|]. unfold registerUnfinalizedBlock.
  rewrite (bind_Done _ _ _ _ _ Hn), (proj2 (Z.leb_gt _ _)) by lia.
  rewrite (bind_Done _ _ _ _ _ (records_run _ _ Hs)), lodash_last_spec, Hl.
  rewrite (proj2 (Z.leb_gt (blockHeight h) (blockHeight p))) by lia.
  rewrite num_succ_exact, num_pred_exact by (unfold safe; lia).
  rewrite (bind_Done _ _ _ _ _ Eback), (bind_Done _ _ _ _ _ (records_run l' (with_unfinalized l' s') eq_refl)).
  rewrite lodash_last_spec, Hq. by destruct (breaks_chain h q).
Qed.

(** ** The records while the chain is stable *)

(** The service follows the canonical chain: all its headers are canonical. *)
Definition follows (l : list Header) (f : Header) : Prop :=
  canonical (blockHeight f) = Some f ∧ blockHeight f ≤ MAX_SAFE_INTEGER ∧
  Forall (fun h => canonical (blockHeight h) = Some h) l.

(** The records after the canonical block [h] came in. *)
Definition records_after (l : list Header) (f h : Header) : list Header :=
  if blockHeight h <=? blockHeight f then l
  else match last l with
       | None => [h]
       | Some p => l ++ produced (blockHeight p + 1) (blockHeight h) ++ [h]
       end.

(** The records after the final ones were removed. *)
Definition records_kept (l : list Header) (f : Header) (c : jsnum) : list Header :=
  if jsnum_lt c (blockHeight f) then filter (fun h => blockHeight f < blockHeight h) l else l.

Lemma latest_canonical h hd : canonical h = Some hd → latest h = Some hd.
Proof.
  intros H. destruct (canonical_height (W:=W) _ _ H). by rewrite latest_unfold, H by done.
Qed.

Lemma follows_records l f h :
  follows l f → canonical (blockHeight h) = Some h → follows (records_after l f h) f.
Proof.
  intros (Hf & Hm & Hl) Hh. split_and!; [done..|]. unfold records_after.
  case_match; [done|]. destruct (last l) as [p|]; [|by constructor].
  apply Forall_app. split; [done|]. apply Forall_app. split; [|by constructor].
  apply Forall_forall. intros x (k & _ & Hk)%elem_of_produced.
  by destruct (canonical_height (W:=W) _ _ Hk) as [_ ->].
Qed.

(** The check finds nothing when the closest record is canonical, or there is none. *)
Lemma hasForked_unforked fuel l f c (w : W) :
  canonical (blockHeight f) = Some f → blockHeight f ≤ MAX_SAFE_INTEGER →
  blockHeight f + 1 ≤ Z.of_nat fuel →
  (∀ r, closest l (blockHeight f) = Some r → canonical (blockHeight r) = Some r) →
  answers (hasForked fuel) (mkService (Some l) (Some f) c w) (Done None).
Proof.
  intros Hf Hm Hfuel Hl. destruct (closest l (blockHeight f)) as [r|] eqn:Hr.
  - specialize (Hl r eq_refl). destruct (canonical_height (W:=W) _ _ Hl) as [H0 _].
    pose proof (hasForked_answers canonical bad_slot fuel l f c w r) as H. rewrite Hl in H.
    unfold fork_at in H. rewrite decide_False in H by (by intros []). by apply H.
  - unfold hasForked. set (s := mkService _ _ _ _).
    apply (answers_step _ _ _ (blockHeight f)); [done|].
    apply (answers_step _ _ _ (closest l (blockHeight f))); [done|]. rewrite Hr. by apply answers_run.
Qed.

Lemma hasForked_follows fuel l f c (w : W) :
  follows l f → blockHeight f + 1 ≤ Z.of_nat fuel →
  answers (hasForked fuel) (mkService (Some l) (Some f) c w) (Done None).
Proof.
  intros (Hf & Hm & Hl) Hfuel. apply hasForked_unforked; [done..|].
  intros r [Hin _]%find_last_Some. rewrite Forall_forall in Hl. by apply Hl.
Qed.

Section store.
  Context {ML : MetadataLaws W} {AL : ArrivalsLaws W} {RS : ReliableStore W}.

(** The store has the text of the records, or nothing when there are none. *)
Definition synced (l : list Header) (w : W) : Prop :=
  metadata_view w METADATA_UNFINALIZED_BLOCKS_KEY = Some (MText (stringify_header <$> l)) ∨
  l = [] ∧ metadata_view w METADATA_UNFINALIZED_BLOCKS_KEY = None.

(** A state with the records [l], whose finalized header was [f] or came later *)
Record after_waits (l : list Header) (f : Header) (c : jsnum) (s : svc) : Prop := {
  aw_records : unfinalizedBlocks_ s = Some l;
  aw_checked : lastCheckedBlockHeight s = c;
  aw_final : ∃ f', finalizedHeader_ s = Some f' ∧ blockHeight f ≤ blockHeight f' ∧ known f f'
}.

Lemma after_waits_waited l f c s s' : after_waits l f c s → waited s s' → after_waits l f c s'.
Proof.
  intros [H1 H2 (f' & H3 & Hle & Hk)] Hw. split.
  - by rewrite (waited_records _ _ Hw).
  - by rewrite (waited_checked _ _ Hw).
  - destruct (waited_known _ _ f' Hw H3) as (f2 & H4 & Hle2 & Hk2). exists f2.
    split_and!; [done|lia|by eapply known_trans].
Qed.

Lemma await_done {A} (m : M svc A) s a s' :
  m s = (Done a, s') → await m s = (Done a, meanwhile s').
Proof. intros E. unfold await. by rewrite E. Qed.

(** A key is written, and the service waits. *)
Lemma set_waits k v s :
  ∃ w', await (on_world (metadata_set k v)) s = (Done tt, meanwhile
      (mkService (unfinalizedBlocks_ s) (finalizedHeader_ s) (lastCheckedBlockHeight s) w')) ∧
    ∀ k', metadata_view w' k' = if decide (k = k') then Some v else metadata_view (world s) k'.
Proof.
  pose proof (reliable_set k v (world s)) as Hr.
  destruct (metadata_set k v (world s)) as [o w'] eqn:E. simpl in Hr. subst o. exists w'.
  split; [apply await_done; unfold on_world, zoom; by rewrite E|].
  by destruct (metadata_set_view _ _ _ _ _ E) as [H|[? _]].
Qed.

Lemma meanwhile_view s k : metadata_view (world (meanwhile s)) k = metadata_view (world s) k.
Proof. by apply waited_view, waited_meanwhile. Qed.

Lemma push_and_save_waits h l f c s :
  after_waits l f c s →
  ∃ s', push_and_save h s = (Done None, s') ∧ after_waits (l ++ [h]) f c s' ∧
    synced (l ++ [h]) (world s').
Proof.
  intros [H1 H2 (f' & H3 & Hle & Hk)]. unfold push_and_save.
  rewrite (bind_Done _ _ _ _ _ (push_run h l s H1)).
  rewrite (bind_Done _ _ _ _ _ (records_run (l ++ [h]) (with_unfinalized (l ++ [h]) s) eq_refl)).
  destruct (set_waits METADATA_UNFINALIZED_BLOCKS_KEY (MText (stringify_header <$> (l ++ [h])))
    (with_unfinalized (l ++ [h]) s)) as (w' & E & V).
  eexists. rewrite (bind_Done _ _ _ _ _ E). split; [done|]. split.
  - eapply after_waits_waited; [|by apply waited_meanwhile]. split; [done|done|by exists f'].
  - left. by rewrite meanwhile_view, V, decide_True.
Qed.

(** The registration of a canonical header. *)
Lemma register_canonical fuel l f h c w :
  follows l f → canonical (blockHeight h) = Some h → blockHeight h ≤ MAX_SAFE_INTEGER →
  (∀ p, last l = Some p → blockHeight p < blockHeight h) →
  blockHeight h ≤ Z.of_nat fuel →
  ∃ s', registerUnfinalizedBlock fuel h (mkService (Some l) (Some f) c w) = (Done None, s') ∧
    after_waits (records_after l f h) f c s' ∧
    (synced l w → synced (records_after l f h) (world s')).
Proof.
  intros (Hf & Hm & Hl) Hh Hmh Hlast Hfuel. set (s := mkService _ _ _ _). unfold records_after.
  assert (after_waits l f c s) as Hs by (split; [done|done|exists f; split_and!; [done|done|by left]]).
  destruct (Z.leb_spec (blockHeight h) (blockHeight f)) as [Hle|Hgt].
  { exists s. split; [|done]. unfold registerUnfinalizedBlock.
    rewrite (bind_Done finalizedBlockNumber _ _ (blockHeight f) _) by done.
    by rewrite (proj2 (Z.leb_le _ _)). }
  destruct (last l) as [p|] eqn:Hp.
  - specialize (Hlast p eq_refl).
    assert (canonical (blockHeight p) = Some p) as Hpc.
    { rewrite Forall_forall in Hl. apply Hl. apply last_Some in Hp as [l0 ->]. set_solver. }
    destruct (canonical_height (W:=W) _ _ Hpc) as [H0 _].
    destruct (register_waits fuel h l p f s eq_refl eq_refl Hp (latest_canonical _ _ Hpc) Hgt
      ltac:(lia) ltac:(lia)) as (q & s1 & Hq & Hlq & W1 & ->).
    rewrite breaks_chain_linked by by eapply (canonical_link (W:=W)).
    pose proof (after_waits_waited _ _ _ _ _ Hs W1) as [_ Hc1 Hf1].
    destruct (push_and_save_waits h (l ++ produced (blockHeight p + 1) (blockHeight h)) f c
      (with_unfinalized (l ++ produced (blockHeight p + 1) (blockHeight h)) s1)) as (s2 & E & A & S);
      [by split|]. exists s2. rewrite E. rewrite app_assoc. done.
  - apply last_None in Hp as ->. destruct (push_and_save_waits h [] f c s Hs) as (s2 & E & A & S).
    exists s2. split; [|done]. unfold registerUnfinalizedBlock.
    rewrite (bind_Done finalizedBlockNumber _ _ (blockHeight f) _) by done.
    rewrite (proj2 (Z.leb_gt _ _)) by lia.
    by rewrite (bind_Done unfinalizedBlocks _ _ [] _), lodash_last_spec by done.
Qed.

(** The removal of the records up to the finalized block [f]; a finalized header [f'] that
    arrives meanwhile is what is remembered as verified, while the store has the height of
    [f]. *)
Lemma delete_waits l f c s :
  unfinalizedBlocks_ s = Some l → lastCheckedBlockHeight s = c → finalizedHeader_ s = Some f →
  ∃ f' w', deleteFinalizedBlock s =
    (Done tt, mkService (Some (records_kept l f c)) (Some f') (Num (blockHeight f')) w') ∧
    blockHeight f ≤ blockHeight f' ∧ known f f' ∧
    (synced l (world s) → synced (records_kept l f c) w') ∧
    (jsnum_lt c (blockHeight f) = true →
     metadata_view w' METADATA_LAST_FINALIZED_PROCESSED_KEY = Some (MNumber (blockHeight f))) ∧
    (jsnum_lt c (blockHeight f) = false → f' = f).
Proof.
  intros H1 H2 H3. destruct s as [o o' c' w]. simpl in H1, H2, H3. subst o o' c'.
  unfold deleteFinalizedBlock, records_kept. set (s := mkService _ _ _ _).
  rewrite (bind_Done (gets lastCheckedBlockHeight) _ s c s) by done.
  rewrite (bind_Done finalizedBlockNumber _ s (blockHeight f) s) by done.
  destruct (jsnum_lt c (blockHeight f)); [|by exists f, w; split_and!; [|lia|left|..]].
  set (l' := filter _ l). set (s1 := mkService (Some l') (Some f) c w).
  destruct (set_waits METADATA_LAST_FINALIZED_PROCESSED_KEY (MNumber (blockHeight f)) s1)
    as (w1 & E1 & V1). set (s2 := mkService _ _ _ w1) in E1.
  destruct (set_waits METADATA_UNFINALIZED_BLOCKS_KEY (MText (stringify_header <$> l')) (meanwhile s2))
    as (w2 & E2 & V2). set (s3 := mkService _ _ _ w2) in E2.
  assert (after_waits l' f c (meanwhile s2)) as A2.
  { eapply after_waits_waited; [|by apply waited_meanwhile]. split; [done|done|].
    exists f. split_and!; [done|done|by left]. }
  assert (after_waits l' f c (meanwhile s3)) as [A3 _ (f' & A4 & Hle & Hk)].
  { eapply after_waits_waited; [|by apply waited_meanwhile]. by destruct A2. }
  destruct A2 as [A2 _ _].
  exists f', (world (meanwhile s3)). split_and!; [|done..| | |done].
  - rewrite (bind_Done _ _ _ tt (meanwhile s3)).
    + rewrite (bind_Done finalizedBlockNumber _ _ (blockHeight f') (meanwhile s3)).
      * unfold set_lastChecked, modify. by rewrite A3, A4.
      * unfold finalizedBlockNumber, finalizedHeader, mbind, M_bind, gets. by rewrite A4.
    + rewrite (bind_Done (removeFinalized _) _ s tt s1) by done.
      unfold saveLastFinalizedVerifiedHeight. rewrite (bind_Done _ _ _ _ _ E1).
      rewrite (bind_Done _ _ _ _ _ (records_run _ _ A2)). exact E2.
  - intros _. left. by rewrite meanwhile_view, V2, decide_True.
  - intros _. by rewrite meanwhile_view, V2, decide_False, meanwhile_view, V1, decide_True.
Qed.

Lemma follows_kept l f f2 f' c : follows l f → canonical (blockHeight f') = Some f' →
  blockHeight f' ≤ MAX_SAFE_INTEGER → follows (records_kept l f2 c) f'.
Proof.
  intros (_ & _ & Hall) ??. split_and!; [done..|]. unfold records_kept.
  case_match; [|done]. apply Forall_forall. intros x [_ Hx]%list_elem_of_filter.
  rewrite Forall_forall in Hall. by apply Hall.
Qed.

Definition final_ok (fuel : nat) (f : Header) : Prop :=
  canonical (blockHeight f) = Some f ∧ blockHeight f ≤ MAX_SAFE_INTEGER ∧
  blockHeight f + 1 ≤ Z.of_nat fuel.

(** A call with a block of the chain; [f2] is the finalized header when final records are
    removed, [f3] the one remembered as verified, [f4] the one at the end. *)
Lemma process_waits fuel l f header c w :
  (∀ w, Forall (final_ok fuel) (arriving w).1) → final_ok fuel f → follows l f →
  (∀ h, header = Some h → canonical (blockHeight h) = Some h ∧ blockHeight h ≤ MAX_SAFE_INTEGER ∧
     (∀ p, last l = Some p → blockHeight p < blockHeight h) ∧ blockHeight h ≤ Z.of_nat fuel) →
  let l1 := match header with Some h => records_after l f h | None => l end in
  ∃ f2 f3 f4 w', processUnfinalizedBlockHeader fuel header (mkService (Some l) (Some f) c w) =
      (Done None, mkService (Some (records_kept l1 f2 c)) (Some f4) (Num (blockHeight f3)) w') ∧
    blockHeight f ≤ blockHeight f2 ≤ blockHeight f3 ∧ blockHeight f3 ≤ blockHeight f4 ∧
    known f f2 ∧ known f2 f3 ∧ known f3 f4 ∧
    follows (records_kept l1 f2 c) f4 ∧ (synced l w → synced (records_kept l1 f2 c) w') ∧
    (jsnum_lt c (blockHeight f2) = false → f3 = f2).
Proof.
  intros Harr Hfok Hfol Hh l1. set (s := mkService _ _ _ _).
  assert (∀ f1 f2, final_ok fuel f1 → known f1 f2 → final_ok fuel f2) as Hknown.
  { intros f1 f2 H1 [->|(w0 & Hin)]; [done|]. by eapply Forall_forall in Hin; [|apply Harr]. }
  assert (∃ s1, (match header with Some h => await (registerUnfinalizedBlock fuel h) | None => mret None end) s
    = (Done None, s1) ∧ after_waits l1 f c s1 ∧ (synced l w → synced l1 (world s1)))
    as (s1 & E1 & A1 & S1).
  { destruct header as [h|].
    - destruct (Hh h eq_refl) as (H1 & H2 & H3 & H4).
      destruct (register_canonical fuel l f h c w Hfol H1 H2 H3 H4) as (s1 & E1 & A1 & S1).
      exists (meanwhile s1). split; [by apply await_done|]. split.
      + eapply after_waits_waited; [exact A1|by apply waited_meanwhile].
      + unfold synced. intros Hs%S1. by rewrite meanwhile_view.
    - exists s. split_and!; [done| |done]. split; [done|done|]. exists f. split_and!; [done|done|by left]. }
  assert (follows l1 f) as Hl1.
  { subst l1. destruct header as [h|]; [|done]. apply follows_records; [done|]. by apply Hh. }
  unfold processUnfinalizedBlockHeader. rewrite (bind_Done _ _ _ _ _ E1).
  pose proof A1 as [R1 C1 (f1 & F1 & Hle1 & Hk1)].
  pose proof (Hknown _ _ Hfok Hk1) as (Hc1 & Hm1 & Hfuel1).
  assert (answers (await (hasForked fuel)) s1 (Done None)) as (s2 & E2 & W2).
  { apply answers_await. destruct s1 as [o o' c1 w1]. simpl in R1, F1. subst o o'.
    apply hasForked_follows; [|done]. by destruct Hl1 as (_ & _ & ?). }
  rewrite (bind_Done _ _ _ _ _ E2).
  pose proof (after_waits_waited _ _ _ _ _ A1 W2) as [R2 C2 _].
  destruct (waited_known _ _ f1 W2 F1) as (f2 & F2 & Hle2 & Hk2).
  destruct (delete_waits l1 f2 c s2 R2 C2 F2) as (f3 & w3 & E3 & Hle3 & Hk3 & S3 & _ & N3).
  rewrite (bind_Done _ _ _ _ _ (await_done _ _ _ _ E3)). set (s3 := mkService _ _ _ w3).
  destruct (waited_known s3 (meanwhile s3) f3 (waited_meanwhile _ _ (reflexivity _)) eq_refl)
    as (f4 & F4 & Hle4 & Hk4).
  exists f2, f3, f4, (world (meanwhile s3)).
  assert (known f f2) as Hkf2 by by eapply known_trans.
  split_and!; [|lia|lia|lia|done|done|done| | |exact N3].
  - rewrite meanwhile_eq in F4 |- *. simpl in F4 |- *. by rewrite F4.
  - destruct (Hknown f3 f4) as (?&?&?); [|done|by eapply follows_kept]. eauto.
  - intros Hs. unfold synced. rewrite meanwhile_view. apply S3. unfold synced.
    rewrite (waited_view _ _ _ W2). by apply S1.
Qed.

(** C4: while the chain does not change, a new block of it never looks like a
    fork, whatever finalized blocks of the chain are registered while the call waits.  The
    call ends, returns nothing, adds the blocks produced since the last record and the
    new one to the records, drops those that are final by then if finality advanced, and
    leaves the store with the text of the records it had before and has now.  The height
    remembered as verified may be that of a block finalized later still. *)
Theorem process_canonical fuel l f h c (w : W) :
  (∀ w, Forall (final_ok fuel) (arriving w).1) → final_ok fuel f → follows l f →
  canonical (blockHeight h) = Some h → blockHeight h ≤ MAX_SAFE_INTEGER →
  (∀ p, last l = Some p → blockHeight p < blockHeight h) → blockHeight h ≤ Z.of_nat fuel →
  ∃ f2 f3 f4 w',
    let l' := records_kept (records_after l f h) f2 c in
    processUnfinalizedBlockHeader fuel (Some h) (mkService (Some l) (Some f) c w) =
      (Done None, mkService (Some l') (Some f4) (Num (blockHeight f3)) w') ∧
    blockHeight f ≤ blockHeight f2 ≤ blockHeight f3 ∧ blockHeight f3 ≤ blockHeight f4 ∧
    follows l' f4 ∧ (synced l w → synced l' w').
Proof.
  intros Harr Hfok Hfol Hh Hm Hlast Hfuel.
  destruct (process_waits fuel l f (Some h) c w Harr Hfok Hfol) as
    (f2 & f3 & f4 & w' & E & H1 & H2 & _ & _ & _ & H3 & H4 & _); [by intros h' [= <-]|].
  by exists f2, f3, f4, w'.
Qed.
End store.

(** ** Without arrivals *)
Context {SQ : Sequential W}.

Lemma process_follows `{ML : !MetadataLaws W, RS : !ReliableStore W} fuel l f header c (w : W) :
  follows l f → blockHeight f + 1 ≤ Z.of_nat fuel →
  (∀ h, header = Some h → canonical (blockHeight h) = Some h ∧ blockHeight h ≤ MAX_SAFE_INTEGER ∧
     (∀ p, last l = Some p → blockHeight p < blockHeight h) ∧ blockHeight h ≤ Z.of_nat fuel) →
  let l1 := match header with Some h => records_after l f h | None => l end in
  ∃ w', processUnfinalizedBlockHeader fuel header (mkService (Some l) (Some f) c w) =
    (Done None, mkService (Some (records_kept l1 f c)) (Some f) (Num (blockHeight f)) w') ∧
    follows (records_kept l1 f c) f.
Proof.
  intros Hfol Hfuel Hh l1. pose proof Hfol as (Hc & Hm & _).
  destruct (process_waits fuel l f header c w) as
    (f2 & f3 & f4 & w' & E & _ & _ & K2%known_seq & K3%known_seq & K4%known_seq & Hf' & _);
    [intros w0; by rewrite none_arriving; constructor|done|done|done|].
  subst f2 f3 f4. by exists w'.
Qed.

(** A new header that is not a child of the last canonical block before it is
    reported as the fork.  It is not recorded, the blocks produced before it are,
    and nothing is saved. *)
Theorem register_wrong_parent fuel h l p q f c (w : W) :
  last l = Some p → canonical (blockHeight p) = Some p →
  blockHeight f < blockHeight h → blockHeight p < blockHeight h ≤ MAX_SAFE_INTEGER →
  blockHeight h - blockHeight p ≤ Z.of_nat fuel →
  canonical (blockHeight q) = Some q → blockHeight q < blockHeight h →
  (∀ k, blockHeight q < k < blockHeight h → canonical k = None) →
  parentHash h ≠ Some (blockHash q) →
  registerUnfinalizedBlock fuel h (mkService (Some l) (Some f) c w) =
    (Done (Some h),
     mkService (Some (l ++ produced (blockHeight p + 1) (blockHeight h))) (Some f) c w).
Proof.
  intros Hl Hp Hf Hh Hfuel Hq Hqh Hgap Hne.
  destruct (register_waits fuel h l p f (mkService (Some l) (Some f) c w) eq_refl eq_refl Hl
    (latest_canonical _ _ Hp) Hf Hh Hfuel) as (q' & s' & _ & Hlq & ->%waited_seq & ->).
  destruct (latest_Some (W:=W) _ bad_slot _ _ Hlq) as (Hq' & Hr & Hgap').
  assert (blockHeight q' = blockHeight q) as E.
  { destruct (Z.lt_trichotomy (blockHeight q') (blockHeight q)) as [Hlt|[E|Hlt]]; [|done|].
    - rewrite Hgap' in Hq by lia. done.
    - rewrite Hgap in Hq' by lia. done. }
  rewrite E in Hq'. simplify_eq. by rewrite breaks_chain_true.
Qed.

(** When the chain has moved away from the last record, the backfill finds
    the fork at the first block produced after it, and nothing is recorded. *)
Theorem register_backfill_fork fuel h l p hd f c (w : W) :
  last l = Some p → blockHeight f < blockHeight h →
  0 ≤ blockHeight p < blockHeight hd → blockHeight hd < blockHeight h ≤ MAX_SAFE_INTEGER →
  canonical (blockHeight hd) = Some hd →
  (∀ k, blockHeight p < k < blockHeight hd → canonical k = None) →
  parentHash hd ≠ Some (blockHash p) →
  blockHeight h - blockHeight p ≤ Z.of_nat fuel →
  registerUnfinalizedBlock fuel h (mkService (Some l) (Some f) c w) =
    (Done (Some hd), mkService (Some l) (Some f) c w).
Proof.
  intros Hl Hf Hp Hh Hc Hgap Hne Hfuel. unfold registerUnfinalizedBlock.
  rewrite (bind_Done finalizedBlockNumber _ _ (blockHeight f) _) by done.
  rewrite (proj2 (Z.leb_gt _ _)) by lia.
  rewrite (bind_Done unfinalizedBlocks _ _ l _), lodash_last_spec, Hl by done.
  rewrite (proj2 (Z.leb_gt (blockHeight h) (blockHeight p))) by lia.
  rewrite num_succ_exact, num_pred_exact by (unfold safe; lia).
  rewrite (proj2 (Z.eqb_neq _ _)) by lia.
  rewrite (bind_Done _ _ _ (Some hd) (mkService (Some l) (Some f) c w)); [done|].
  rewrite await_seq. apply answers_seq, (backfill_fork _ _ _ l p); [done|done|lia|lia|done| |done|lia].
  intros k Hk. apply Hgap. lia.
Qed.
End register.

(** ** Any chain *)
Section any.
  Context {W : Type} `{LD : Lodash, BC : BlockchainClient W, MS : MetadataStore W, AR : Arrivals W}
    {SQ : Sequential W}.
  Local Abbreviation svc := (UnfinalizedBlocksService W).

(** A header at or below the last record, but above the finalized block,
    ends the process with the message naming both heights; nothing is written. *)
Theorem register_not_sequential fuel h l p f c (w : W) :
  last l = Some p → blockHeight f < blockHeight h ≤ blockHeight p →
  processUnfinalizedBlockHeader fuel (Some h) (mkService (Some l) (Some f) c w) =
    (Exit ("Unfinalized block is not sequential, lastUnfinalizedBlock='"
       +:+ pretty (blockHeight p) +:+ "', newUnfinalizedBlock='"
       +:+ pretty (blockHeight h) +:+ "'"), mkService (Some l) (Some f) c w).
Proof.
  intros Hl Hh. unfold processUnfinalizedBlockHeader. set (s := mkService _ _ _ _).
  unfold mbind at 1, M_bind at 1, await at 1, registerUnfinalizedBlock.
  rewrite (bind_Done finalizedBlockNumber _ s (blockHeight f) s) by done.
  rewrite (proj2 (Z.leb_gt _ _)) by lia.
  rewrite (bind_Done unfinalizedBlocks _ s l s), lodash_last_spec, Hl by done.
  by rewrite (proj2 (Z.leb_le (blockHeight h) (blockHeight p))) by lia.
Qed.

(** C24: the records come back from the store as they were saved, dates
    included, for every date a block can carry. *)
Theorem stored_records_roundtrip `{ML : !MetadataLaws W, RS : !ReliableStore W} l (s s1 : svc) :
  Forall (fun h => date_ok (timestamp h)) l →
  saveUnfinalizedBlocks l s = (Done tt, s1) →
  getMetadataUnfinalizedBlocks s1 = (Done l, s1).
Proof.
  intros Hl Hs. unfold getMetadataUnfinalizedBlocks.
  assert (on_world (metadata_find METADATA_UNFINALIZED_BLOCKS_KEY) s1 =
    (Done (metadata_view (world s1) METADATA_UNFINALIZED_BLOCKS_KEY), s1)) as Hf.
  { unfold on_world, zoom. rewrite reliable_find. by destruct s1. }
  rewrite bind_await, (bind_Done _ _ _ _ _ Hf).
  assert (metadata_view (world s1) METADATA_UNFINALIZED_BLOCKS_KEY =
    Some (MText (stringify_header <$> l))) as ->.
  { unfold saveUnfinalizedBlocks, on_world, zoom in Hs.
    destruct (metadata_set _ _ _) as [o w'] eqn:E. injection Hs as -> <-. simpl.
    apply metadata_set_view in E as [E|[? _]]; [|done]. by rewrite E, decide_True. }
  simpl. unfold mret, M_ret. f_equal. f_equal. rewrite <- list_fmap_compose.
  clear Hs. induction Hl as [|h l (t & Ht & Hok) Hl IH]; [done|]. simpl. f_equal; [|exact IH].
  destruct h as [? ? ? ts]; simpl in *; subst ts. unfold parse_header. simpl.
  by rewrite parse_toISOString.
Qed.
End any.

(** ** Instances *)

Lemma sim_follows :
  follows sim_canonical [sim_block 2 "a2" "a1"] (sim_block 1 "a1" "a0").
Proof. split_and!; [done|by vm_compute|by repeat constructor]. Qed.

(** The block of slot 5 comes in while slot 2 becomes final. *)
Lemma process_canonical_witness :
  let f := sim_block 1 "a1" "a0" in
  let BC := sim_client sim_canonical f sim_bad_slot in
  let AR := sim_arrivals [sim_block 2 "a2" "a1"] in
  ∃ c w', processUnfinalizedBlockHeader (LD:=lodash_model) (MS:=sim_metadata) 8
      (Some (sim_block 5 "a5" "a4"))
      (mkService (Some [sim_block 2 "a2" "a1"]) (Some f) (Num 0) (∅ : sim_store)) =
    (Done None, mkService (Some [sim_block 4 "a4" "a2"; sim_block 5 "a5" "a4"])
       (Some (sim_block 2 "a2" "a1")) c w').
Proof.
  intros f BC AR.
  assert (Forall (fun h => safe (blockHeight h)) [sim_block 2 "a2" "a1"]) as Ha
    by (constructor; [by vm_compute|constructor]).
  assert (Forall (final_ok sim_canonical 8) [sim_block 2 "a2" "a1"]) as Hok
    by (constructor; [split_and!; by vm_compute|constructor]).
  destruct (process_canonical (LD:=lodash_model) (MS:=sim_metadata) sim_canonical sim_bad_slot
    (SC:=sim_stable_chain f) (ML:=sim_metadata_laws sim_canonical f sim_bad_slot)
    (AL:=sim_arrivals_laws sim_canonical f sim_bad_slot _ Ha)
    (RS:=sim_reliable sim_canonical f sim_bad_slot)
    8 [sim_block 2 "a2" "a1"] f (sim_block 5 "a5" "a4") (Num 0) ∅) as (f2 & f3 & f4 & w' & E & _).
  - intros w. exact Hok.
  - split_and!; by vm_compute.
  - exact sim_follows.
  - done.
  - by vm_compute.
  - by intros p [= <-].
  - done.
  - exists (Num (blockHeight f3)), w'. etrans; [exact E|].
    assert (E1 := f_equal (fun r => unfinalizedBlocks_ r.2) E).
    assert (E2 := f_equal (fun r => finalizedHeader_ r.2) E).
    f_equal. f_equal; (etrans; [symmetry|vm_compute; reflexivity]); [exact E1|exact E2].
Defined.

#[local] Existing Instance none_arrive.

Lemma register_wrong_parent_witness :
  let f := sim_block 1 "a1" "a0" in
  let BC := sim_client sim_canonical f sim_bad_slot in
  let h := sim_block 5 "b5" "b4" in
  registerUnfinalizedBlock (LD:=lodash_model) (MS:=sim_metadata) 4 h
      (mkService (Some [sim_block 2 "a2" "a1"]) (Some f) (Num 0) (∅ : sim_store)) =
    (Done (Some h), mkService (Some [sim_block 2 "a2" "a1"; sim_block 4 "a4" "a2"]) (Some f)
      (Num 0) ∅).
Proof.
  intros f BC h.
  apply (register_wrong_parent (LD:=lodash_model) (MS:=sim_metadata) sim_canonical sim_bad_slot
    (SC:=sim_stable_chain f) 4 h [sim_block 2 "a2" "a1"] (sim_block 2 "a2" "a1") (sim_block 4 "a4" "a2"));
    try done. simpl. intros k Hk. lia.
Defined.

Lemma register_backfill_fork_witness :
  let f := sim_block 1 "a1" "a0" in
  let BC := sim_client sim_canonical f sim_bad_slot in
  registerUnfinalizedBlock (LD:=lodash_model) (MS:=sim_metadata) 4 (sim_block 5 "a5" "a4")
      (mkService (Some [sim_block 2 "b2" "a1"]) (Some f) (Num 0) (∅ : sim_store)) =
    (Done (Some (sim_block 4 "a4" "a2")),
     mkService (Some [sim_block 2 "b2" "a1"]) (Some f) (Num 0) ∅).
Proof.
  intros f BC.
  apply (register_backfill_fork (LD:=lodash_model) (MS:=sim_metadata) sim_canonical sim_bad_slot
    (SC:=sim_stable_chain f) 4 (sim_block 5 "a5" "a4") [sim_block 2 "b2" "a1"]
    (sim_block 2 "b2" "a1") (sim_block 4 "a4" "a2")); try done.
  simpl. intros k Hk. by replace k with 3 by lia.
Defined.

Lemma register_not_sequential_witness :
  let f := sim_block 1 "a1" "a0" in
  let s := mkService (Some [sim_block 2 "a2" "a1"]) (Some f) (Num 0) (∅ : sim_store) in
  processUnfinalizedBlockHeader (LD:=lodash_model)
    (BC:=sim_client sim_canonical f sim_bad_slot) (MS:=sim_metadata) 8
    (Some (sim_block 2 "a2" "a1")) s =
  (Exit "Unfinalized block is not sequential, lastUnfinalizedBlock='2', newUnfinalizedBlock='2'", s).
Proof.
  intros f s. etrans; [|by vm_compute].
  by apply (register_not_sequential 8 (sim_block 2 "a2" "a1") _ (sim_block 2 "a2" "a1") f).
Defined.

Lemma stored_records_roundtrip_witness :
  let f := sim_block 1 "a1" "a0" in
  let w : sim_store := <[METADATA_UNFINALIZED_BLOCKS_KEY :=
    MText (stringify_header <$> [sim_block 2 "a2" "a1"])]> ∅ in
  let s1 := mkService (Some []) (Some f) (Num 0) w in
  getMetadataUnfinalizedBlocks (MS:=sim_metadata) s1 = (Done [sim_block 2 "a2" "a1"], s1).
Proof.
  intros f w s1.
  apply (stored_records_roundtrip (MS:=sim_metadata)
    (ML:=sim_metadata_laws sim_canonical f sim_bad_slot)
    (RS:=sim_reliable sim_canonical f sim_bad_slot) _
    (mkService (Some []) (Some f) (Num 0) (∅ : sim_store)) s1); [|done].
  constructor; [|done]. exists 2000. split; [done|by vm_compute].
Defined.
