(* ===== verification/UnfinalizedAwait.v ===== *)
(** * Finality that advances during a call

    A finalized header may be registered at any await of a call.  The check for forks
    compares the records with the header that was final when it began, while the
    removal of final records that follows it uses the one that is final by then. *)
From S2P Require Import Prelude JsNumber JsDate Json Types Chain Sim Unfinalized UnfinalizedInv.
From S2P Require Import UnfinalizedChain UnfinalizedFork UnfinalizedRewind UnfinalizedRegister.

Section race.
  Context {W : Type} `{LD : Lodash, BC : BlockchainClient W, MS : MetadataStore W, AR : Arrivals W}
    (canonical : Z → option Header) (bad_slot : jserror)
    {SC : StableChain W canonical bad_slot} {ML : MetadataLaws W} {AL : ArrivalsLaws W}
    {RS : ReliableStore W}.
  Local Abbreviation svc := (UnfinalizedBlocksService W).

(** A check that found nothing, and what follows it *)
Lemma unforked_waits fuel l f c (w : W) f2 :
  let s := mkService (Some l) (Some f) c w in
  answers (hasForked fuel) s (Done None) →
  finalizedHeader_ (await (hasForked fuel) s).2 = Some f2 →
  ∃ f3 f4 w', processUnfinalizedBlockHeader fuel None s =
    (Done None, mkService (Some (records_kept l f2 c)) (Some f4) (Num (blockHeight f3)) w') ∧
    blockHeight f2 ≤ blockHeight f3 ∧ known f2 f3 ∧
    (jsnum_lt c (blockHeight f2) = true →
     metadata_view w' METADATA_LAST_FINALIZED_PROCESSED_KEY = Some (MNumber (blockHeight f2))).
Proof.
  intros s (s1 & E2 & W2)%answers_await Hf2. rewrite E2 in Hf2.
  pose proof (waited_records _ _ W2) as R2. pose proof (waited_checked _ _ W2) as C2.
  destruct (delete_waits l f2 c s1 R2 C2 Hf2) as (f3 & w3 & E3 & Hle3 & Hk3 & _ & V3 & _).
  set (s3 := mkService _ _ _ w3) in E3.
  destruct (waited_known s3 (meanwhile s3) f3 (waited_meanwhile _ _ (reflexivity _)) eq_refl)
    as (f4 & F4 & _ & _).
  exists f3, f4, (world (meanwhile s3)). split_and!; [|done|done|].
  - unfold processUnfinalizedBlockHeader. rewrite (bind_Done _ _ s None s) by done.
    rewrite (bind_Done _ _ _ _ _ E2), (bind_Done _ _ _ _ _ (await_done _ _ _ _ E3)).
    rewrite meanwhile_eq in F4 |- *. simpl in F4 |- *. by rewrite F4.
  - intros Hlt. rewrite meanwhile_view. by apply V3.
Qed.

(** A rewind goes no lower than the records and the block last verified. *)
Lemma rewind_target_above n l f h fh b :
  Forall (fun r => n ≤ blockHeight r) l → n ≤ h → canonical (blockHeight fh) = Some fh →
  rewind_target canonical bad_slot l f (Num h) fh = Done (Some b) → n ≤ blockHeight b.
Proof.
  intros Hl Hh Hfh Hb. unfold rewind_target in Hb.
  pose proof (match_back_sound canonical bad_slot fh (verifiable l f) Hfh) as Hs.
  destruct (match_back canonical bad_slot fh (verifiable l f)) as [[b'|]| | |]; try done.
  - injection Hb as <-. destruct Hs as [Hin _]. rewrite Forall_forall in Hl. apply Hl.
    by apply elem_of_reverse, list_elem_of_filter in Hin as [_ ?].
  - cbn in Hb. destruct (h =? 0); [done|]. unfold stable_answer in Hb.
    destruct (h <? 0); [done|]. destruct (canonical h) as [hd|] eqn:Hc; [|done].
    injection Hb as <-. by destruct (canonical_height (W:=W) _ _ Hc) as [_ ->].
Qed.

(** C32: a fork is lost when finality reaches its record while the check waits.  Had the
    header [f2] been registered before the call, the check would report the fork of the
    record [r]; registered at an await of the check, the call finds nothing, drops [r]
    with the other records up to [f2], which nothing has checked, and remembers them as
    verified.  No later search, after any fork and with any finalized header, rewinds
    below [f2], so the blocks of the fork stay indexed. *)
Theorem finality_race fuel l f f2 c (w : W) r hd :
  let s := mkService (Some l) (Some f) c w in
  canonical (blockHeight f) = Some f → blockHeight f < blockHeight f2 →
  canonical (blockHeight f2) = Some f2 → blockHeight f2 ≤ MAX_SAFE_INTEGER →
  blockHeight f2 + 1 ≤ Z.of_nat fuel →
  (∀ b, closest l (blockHeight f) = Some b → canonical (blockHeight b) = Some b) →
  closest l (blockHeight f2) = Some r → blockHeight f < blockHeight r →
  canonical (blockHeight r) = Some hd → blockHash hd ≠ blockHash r →
  jsnum_lt c (blockHeight f2) = true →
  finalizedHeader_ (await (hasForked fuel) s).2 = Some f2 →
  answers (hasForked fuel) (mkService (Some l) (Some f2) c w) (Done (Some hd)) ∧
  ∃ l' f3 f4 w', processUnfinalizedBlockHeader fuel None s =
    (Done None, mkService (Some l') (Some f4) (Num (blockHeight f3)) w') ∧
    r ∈ l ∧ r ∉ l' ∧
    metadata_view w' METADATA_LAST_FINALIZED_PROCESSED_KEY = Some (MNumber (blockHeight f2)) ∧
    ∀ fuel' fh f' w'' b, canonical (blockHeight fh) = Some fh → blockHeight fh ≤ MAX_SAFE_INTEGER →
      blockHeight fh + 1 ≤ Z.of_nat fuel' →
      (getLastCorrectFinalizedBlock fuel' fh
         (mkService (Some l') (Some f') (Num (blockHeight f3)) w'')).1 = Done (Some b) →
      blockHeight r ≤ blockHeight f2 ≤ blockHeight b.
Proof.
  intros s Hf Hlt Hf2 Hmax Hfuel Hlow Hr Hfr Hhd Hne Hc Harr.
  destruct (canonical_height (W:=W) _ _ Hhd) as [Hr0 _].
  pose proof (find_last_Some _ _ _ Hr) as [Hin Hle%Z.leb_le]. split.
  { pose proof (hasForked_answers canonical bad_slot fuel l f2 c w r Hf2 Hmax Hfuel Hr Hr0) as H.
    rewrite Hhd in H. unfold fork_at in H. by rewrite decide_True in H. }
  assert (answers (hasForked fuel) s (Done None)) as Hnone.
  { apply (hasForked_unforked canonical bad_slot); [done|lia|lia|done]. }
  destruct (unforked_waits fuel l f c w f2 Hnone Harr) as (f3 & f4 & w' & E & Hle3 & _ & Hv).
  exists (records_kept l f2 c), f3, f4, w'. unfold records_kept in *. rewrite Hc in *.
  split_and!; [done|done| |by apply Hv|].
  - intros [? _]%list_elem_of_filter. lia.
  - intros fuel' fh f' w'' b H1 H2 H3 Hb. split; [done|].
    destruct (getLastCorrect_answers canonical bad_slot fuel' fh
      (filter (fun h => blockHeight f2 < blockHeight h) l) f' (Num (blockHeight f3)) w'' H1 H2 H3)
      as (s' & E' & _). rewrite E' in Hb. cbn in Hb.
    eapply rewind_target_above; [|exact Hle3|exact H1|exact Hb].
    apply Forall_forall. intros x [? _]%list_elem_of_filter. lia.
Qed.
End race.

(** The records in slots 4, 5 and 7 are of a fork; slot 5 becomes final during the check,
    which compares the record in slot 2. *)
Lemma finality_race_witness :
  let f := sim_block 2 "a2" "a1" in
  let f2 := sim_block 5 "a5" "a4" in
  let l := [sim_block 2 "a2" "a1"; sim_block 4 "b4" "a2"; sim_block 5 "b5" "b4"; sim_block 7 "b7" "b5"] in
  let s := mkService (Some l) (Some f) (Num 1) (∅ : sim_store) in
  ∃ w', processUnfinalizedBlockHeader (LD:=lodash_model) (MS:=sim_metadata)
      (BC:=sim_client sim_canonical f sim_bad_slot) (AR:=sim_arrivals [f2]) 8 None s =
    (Done None, mkService (Some [sim_block 7 "b7" "b5"]) (Some f2) (Num 5) w').
Proof.
  intros f f2 l s.
  assert (Forall (fun h => safe (blockHeight h)) [f2]) as Ha
    by (constructor; [by vm_compute|constructor]).
  destruct (finality_race (LD:=lodash_model) (MS:=sim_metadata) sim_canonical sim_bad_slot
    (SC:=sim_stable_chain f) (ML:=sim_metadata_laws sim_canonical f sim_bad_slot)
    (AL:=sim_arrivals_laws sim_canonical f sim_bad_slot _ Ha)
    (RS:=sim_reliable sim_canonical f sim_bad_slot) 8 l f f2 (Num 1) ∅ (sim_block 5 "b5" "b4") f2)
    as (_ & l' & f3 & f4 & w' & E & _); [done|done|done|by vm_compute|done| |done..|].
  { intros b [= <-]. done. }
  exists w'. etrans; [exact E|].
  assert (E1 := f_equal (fun r => unfinalizedBlocks_ r.2) E).
  assert (E2 := f_equal (fun r => finalizedHeader_ r.2) E).
  assert (E3 := f_equal (fun r => lastCheckedBlockHeight r.2) E).
  f_equal. f_equal; (etrans; [symmetry|vm_compute; reflexivity]); [exact E1|exact E2|exact E3].
Defined.
