(* ===== verification/UnfinalizedRecover.v ===== *)
(** * The common ancestor of a fork

    Which block the service rewinds to after a fork, exactly: the search goes back
    one record and one canonical block at a time, so whether it meets the last
    common ancestor depends on the number of blocks that the fork and the chain
    have since. *)
From S2P Require Import Prelude JsNumber JsDate Json Types Chain Sim Unfinalized UnfinalizedInv.
From S2P Require Import UnfinalizedChain UnfinalizedFork UnfinalizedRewind UnfinalizedRegister.

(** A hash identifies a block, and the parent of a block is an earlier one. *)
Class IdentifyingHashes (canonical : Z → option Header) := {
  hash_injective : ∀ k k' c c', canonical k = Some c → canonical k' = Some c' →
    blockHash c = blockHash c' → k = k';
  hash_parent_earlier : ∀ k k' c c', canonical k = Some c → canonical k' = Some c' →
    parentHash c' = Some (blockHash c) → k < k'
}.

(** The record is the canonical block of its slot. *)
Definition is_canonical (canonical : Z → option Header) (b : Header) : Prop :=
  canonical (blockHeight b) = Some b.

(** The number of canonical blocks before a block. *)
Definition rank (canonical : Z → option Header) (b : Header) : nat :=
  length (produced canonical 0 (blockHeight b)).

Lemma produced_split canonical a b c :
  a ≤ b ≤ c → produced canonical a c = produced canonical a b ++ produced canonical b c.
Proof.
  intros H. unfold produced. rewrite <- omap_app. f_equal.
  replace (c - a) with ((b - a) + (c - b)) by lia. rewrite seqZ_app by lia.
  by replace (a + (b - a)) with b by lia.
Qed.

Section recover.
  Context {W : Type} `{LD : Lodash, BC : BlockchainClient W, MS : MetadataStore W, AR : Arrivals W}
    (canonical : Z → option Header) (bad_slot : jserror)
    {SC : StableChain W canonical bad_slot} {IH : IdentifyingHashes canonical}.
  Local Abbreviation latest := (latest canonical).
  Local Abbreviation rank := (rank canonical).
  Local Abbreviation is_canonical := (is_canonical canonical).
  Local Abbreviation match_back := (match_back canonical bad_slot).
  Local Abbreviation ancestor := (ancestor canonical).

(** ** Ranks *)
Lemma rank_lt b c :
  is_canonical b → blockHeight b < blockHeight c → (rank b < rank c)%nat.
Proof.
  intros Hb Hlt. destruct (canonical_height (W:=W) _ _ Hb) as [H0 _]. unfold rank.
  rewrite (produced_split _ 0 (blockHeight b) (blockHeight c)), length_app by lia.
  rewrite (produced_cons _ (blockHeight b)), Hb by lia. simpl. lia.
Qed.

Lemma rank_parent c p : is_canonical c → latest (blockHeight c - 1) = Some p → rank c = S (rank p).
Proof.
  intros Hc (Hp & Hle & Hgap)%(latest_Some (W:=W) canonical bad_slot). unfold rank.
  rewrite (produced_split _ 0 (blockHeight p) (blockHeight c)), length_app by lia.
  rewrite (produced_cons _ (blockHeight p)), Hp by lia. simpl.
  assert (produced canonical (blockHeight p + 1) (blockHeight c) = []) as ->; [|simpl; lia].
  apply elem_of_nil_inv. intros x (h & Hh & Hx)%elem_of_produced.
  rewrite Hgap in Hx by lia. done.
Qed.

Lemma rank_first c : is_canonical c → latest (blockHeight c - 1) = None → rank c = 0%nat.
Proof.
  intros Hc Hn. unfold rank.
  assert (produced canonical 0 (blockHeight c) = []) as ->; [|done].
  apply elem_of_nil_inv. intros x (h & Hh & Hx)%elem_of_produced.
  by rewrite (latest_None canonical _ h Hn) in Hx by lia.
Qed.

Lemma rank_inj b c : is_canonical b → is_canonical c → rank b = rank c → b = c.
Proof.
  intros Hb Hc Hr. destruct (Z.lt_trichotomy (blockHeight b) (blockHeight c)) as [H|[H|H]].
  - apply rank_lt in H; [lia|done].
  - unfold UnfinalizedRecover.is_canonical in *. congruence.
  - apply rank_lt in H; [lia|done].
Qed.

(** A canonical record matches a canonical block when it is that block or its parent. *)
Lemma matches_rank b c :
  is_canonical b → is_canonical c → matches b c ↔ rank b = rank c ∨ S (rank b) = rank c.
Proof.
  intros Hb Hc. unfold matches. split.
  - intros [Hh|Hp].
    + left. f_equal. pose proof (hash_injective _ _ _ _ Hb Hc Hh) as E.
      unfold UnfinalizedRecover.is_canonical in *. congruence.
    + right. symmetry in Hp. pose proof (hash_parent_earlier _ _ _ _ Hb Hc Hp) as Hlt.
      destruct (latest (blockHeight c - 1)) as [p|] eqn:E.
      * rewrite (rank_parent c p) by done. do 2 f_equal.
        pose proof (canonical_link canonical bad_slot _ _ _ Hc E) as Hl.
        apply (latest_Some (W:=W) canonical bad_slot) in E as (Hpc & _).
        assert (blockHeight b = blockHeight p) as Ehh by (eapply hash_injective; [done..|congruence]).
        unfold UnfinalizedRecover.is_canonical in *. congruence.
      * apply rank_lt in Hlt; [|done]. by rewrite (rank_first c) in Hlt by done; lia.
  - intros [Hr|Hr].
    + left. by rewrite (rank_inj b c).
    + right. destruct (latest (blockHeight c - 1)) as [p|] eqn:E.
      * rewrite (rank_parent c p) in Hr by done. injection Hr as Hr.
        rewrite (canonical_link canonical bad_slot _ _ _ Hc E). do 2 f_equal.
        apply (latest_Some (W:=W) canonical bad_slot) in E as (Hpc & _).
        by apply rank_inj.
      * by rewrite (rank_first c) in Hr by done.
Qed.

Lemma ancestor_rank i c :
  is_canonical c →
  match ancestor i c with
  | Some a => is_canonical a ∧ (rank a + i = rank c)%nat
  | None => (rank c < i)%nat
  end.
Proof.
  revert c. induction i as [|i IHi]; intros c Hc; simpl; [split; [done|lia]|].
  destruct (latest (blockHeight c - 1)) as [p|] eqn:E; simpl.
  - rewrite (rank_parent c p) by done.
    apply (latest_Some (W:=W) canonical bad_slot) in E as (Hp & _).
    specialize (IHi p Hp). destruct (ancestor i p); [destruct IHi; split; [done|lia]|lia].
  - rewrite (rank_first c) by done. lia.
Qed.

(** ** The search *)
Definition off_chain (b : Header) : Prop := ∀ c, is_canonical c → ¬ matches b c.

Lemma match_back_skip c xs ys :
  is_canonical c → Forall off_chain xs →
  match_back c (xs ++ ys) =
    match ancestor (length xs) c with Some c' => match_back c' ys | None => Throw bad_slot end.
Proof.
  intros Hc Hxs. revert c Hc. induction Hxs as [|x xs Hx Hxs IHx]; intros c Hc; simpl; [done|].
  rewrite decide_False by by apply Hx.
  destruct (latest (blockHeight c - 1)) as [p|] eqn:E; simpl; [|done].
  apply (latest_Some (W:=W) canonical bad_slot) in E as (Hp & _). by apply IHx.
Qed.

Lemma match_back_cons c b best :
  match_back c (b :: best) =
    if decide (matches b c) then Done (Some b)
    else match latest (blockHeight c - 1) with
         | Some c => match_back c best
         | None => Throw bad_slot
         end.
Proof. done. Qed.

(** Records that are consecutive canonical blocks, the highest first. *)
Lemma match_back_canonical c a l :
  is_canonical c → Forall is_canonical (a :: l) →
  chain (fun b p => rank b = S (rank p)) (a :: l) →
  match_back c (a :: l) =
    if decide (rank c = rank a ∨ rank c = S (rank a)) then Done (Some a)
    else if decide (S (length l) ≤ rank c)%nat then Done None else Throw bad_slot.
Proof.
  revert a c. induction l as [|b l IHl]; intros a c Hc Hl Hch;
    pose proof (Forall_inv Hl) as Ha; rewrite match_back_cons.
  all: destruct (decide (matches a c)) as [Hm|Hm]; rewrite matches_rank in Hm by done;
    [by rewrite decide_True by lia|rewrite (decide_False (P := _ ∨ _)) by lia].
  all: destruct (latest (blockHeight c - 1)) as [q|] eqn:E;
    [|by rewrite decide_False by (rewrite (rank_first c) by done; simpl; lia)].
  all: rewrite (rank_parent c q) in * by done;
    apply (latest_Some (W:=W) canonical bad_slot) in E as (Hq & _).
  - by rewrite decide_True by (simpl; lia).
  - destruct Hch as [Hab Hch].
    rewrite IHl; [|done|by eapply Forall_inv_tail|done].
    rewrite decide_False by lia. simpl. by apply decide_ext; lia.
Qed.

Lemma child_rank p b : is_canonical p → is_canonical b → child_of p b → rank b = S (rank p).
Proof.
  intros Hp Hb [Hlt Hpar].
  assert (matches p b) as Hm by (right; by rewrite Hpar).
  apply matches_rank in Hm; [|done..]. apply rank_lt in Hlt; [lia|done].
Qed.

Lemma chain_ranks l :
  chain child_of l → Forall is_canonical l →
  chain (fun b p => rank b = S (rank p)) (reverse l).
Proof.
  intros Hch Hl. apply (chain_reverse (fun p b => rank b = S (rank p))).
  induction l as [|x [|y l] IHl]; [done|done|]. destruct Hch as [Hxy Hch].
  inversion_clear Hl as [|?? Hx Hl']. split; [apply child_rank; [done|by eapply Forall_inv|done]|].
  by apply IHl.
Qed.

(** No finalized header that is registered while a call waits reaches these records. *)
Definition arrive_below (rest : list Header) : Prop :=
  ∀ w : W, Forall (fun f => Forall (fun h => blockHeight f < blockHeight h) rest) (arriving w).1.

Lemma verifiable_split low rest f :
  Forall (fun h => blockHeight h ≤ blockHeight f) low →
  Forall (fun h => blockHeight f < blockHeight h) rest →
  verifiable (low ++ rest) f = reverse low.
Proof.
  intros Hlow Hrest. unfold verifiable. rewrite filter_app, filter_all, filter_none, app_nil_r; [done| |done].
  eapply Forall_impl; [exact Hrest|]. simpl. lia.
Qed.

(** The search for the block to rewind to, after a wait in which no finalized header
    reached the records above *)
Lemma search_waits fuel hd low rest f n (w : W) s' :
  Forall (fun h => blockHeight h ≤ blockHeight f) low →
  Forall (fun h => blockHeight f < blockHeight h) rest → arrive_below rest →
  is_canonical hd → blockHeight hd ≤ MAX_SAFE_INTEGER → blockHeight hd + 1 ≤ Z.of_nat fuel →
  waited (mkService (Some (low ++ rest)) (Some f) n w) s' →
  answers (getLastCorrectFinalizedBlock fuel hd) s' (rewind_target canonical bad_slot (low ++ rest) f n hd).
Proof.
  intros Hlow Hrest Harr Hhd Hmax Hfuel Hw.
  destruct (waited_finalized _ _ _ f Harr Hw eq_refl Hrest) as (f' & Hf' & Hle & Hrest').
  pose proof (waited_records _ _ Hw) as Hl. pose proof (waited_checked _ _ Hw) as Hn.
  destruct s' as [o o' n' w']. simpl in Hl, Hn, Hf'. subst o o' n'.
  unfold UnfinalizedRecover.is_canonical in Hhd.
  destruct (canonical_height (W:=W) _ _ Hhd) as [_ Eh].
  pose proof (getLastCorrect_answers canonical bad_slot fuel hd (low ++ rest) f' n w') as H.
  unfold rewind_target in *. rewrite (verifiable_split low rest f) by done.
  rewrite (verifiable_split low rest f') in H; [by apply H| |done].
  eapply Forall_impl; [exact Hlow|]. simpl. lia.
Qed.

(** The records are those of the chain up to the common ancestor [a], then those of a
    fork up to [r], the last one that is not above the finalized block [f], then the
    rest, which finality does not reach during the call. *)
Record forked_records (fuel : nat) (l : list Header) (f : Header)
    (canon : list Header) (a : Header) (offs : list Header) (r : Header) (rest : list Header) : Prop := {
  fr_ok : blocks_ok l;
  fr_split : l = (canon ++ [a]) ++ (offs ++ [r]) ++ rest;
  fr_canonical : Forall is_canonical (canon ++ [a]);
  fr_off : Forall off_chain (offs ++ [r]);
  fr_final : is_canonical f;
  fr_safe : blockHeight f ≤ MAX_SAFE_INTEGER;
  fr_fuel : blockHeight f + 1 ≤ Z.of_nat fuel;
  fr_below : blockHeight r ≤ blockHeight f;
  fr_above : Forall (fun h => blockHeight f < blockHeight h) rest;
  fr_arrivals : arrive_below rest
}.

(** The answer when no record is found: the block of the height last verified *)
Definition last_verified (n : jsnum) : outcome (option Header) :=
  match jsnum_truthy n with
  | None => Done None
  | Some h => b ← stable_answer canonical bad_slot h; Done (Some b)
  end.

Section at_fork.
Context (fuel : nat) (l : list Header) (f : Header) (canon : list Header) (a : Header)
  (offs : list Header) (r : Header) (rest : list Header).
Context (H : forked_records fuel l f canon a offs r rest).

Lemma forked_low : Forall (fun h => blockHeight h ≤ blockHeight f) ((canon ++ [a]) ++ (offs ++ [r])).
Proof.
  destruct H as [[Hch Hsafe] -> _ _ _ _ _ Hle _ _].
  rewrite app_assoc in Hch, Hsafe. apply chain_app_l in Hch. apply Forall_app in Hsafe as [Hs _].
  pose proof (blocks_ok_last_max _ r (conj Hch Hs)) as Hmax.
  rewrite app_assoc, last_snoc in Hmax. specialize (Hmax eq_refl). rewrite <- app_assoc in Hmax.
  eapply Forall_impl; [exact Hmax|]. simpl. lia.
Qed.

Lemma forked_closest : closest l (blockHeight f) = Some r.
Proof.
  destruct H as [_ -> _ _ _ _ _ Hle Habove _]. unfold closest.
  rewrite <- (app_assoc offs), (app_assoc (canon ++ [a])). apply find_last_app; [by apply Z.leb_le|].
  eapply Forall_impl; [done|]. intros x. apply Z.leb_gt.
Qed.

Lemma forked_order : is_canonical a ∧ blockHeight a < blockHeight r.
Proof.
  destruct H as [[Hch _] -> Hcan _ _ _ _ _ _ _]. split.
  { apply Forall_app in Hcan as [_ Ha]. exact (Forall_inv Ha). }
  rewrite <- app_assoc in Hch. apply chain_app_r in Hch.
  change (chain child_of (a :: (offs ++ [r]) ++ rest)) in Hch. rewrite <- app_assoc in Hch.
  apply (chain_impl child_of (fun x y => blockHeight x < blockHeight y)) in Hch; [|by intros ?? []].
  apply chain_head in Hch; [|intros ???; lia].
  by apply Forall_app, proj2, Forall_inv in Hch.
Qed.

(** The blocks that the chain has since the common ancestor. *)
Lemma forked_rank hd :
  canonical (blockHeight r) = Some hd →
  rank hd = (rank a + length (produced canonical (blockHeight a + 1) (blockHeight r + 1)))%nat.
Proof.
  intros Hr. destruct forked_order as [Ha Hlt].
  destruct (canonical_height (W:=W) _ _ Ha) as [Ha0 _].
  destruct (canonical_height (W:=W) _ _ Hr) as [_ Eh].
  unfold UnfinalizedRecover.rank. rewrite Eh.
  pose proof (f_equal length (produced_split canonical 0 (blockHeight r) (blockHeight r + 1) ltac:(lia))) as E1.
  pose proof (f_equal length (produced_split canonical 0 (blockHeight a) (blockHeight r + 1) ltac:(lia))) as E2.
  rewrite (produced_cons _ (blockHeight r)), Hr, (produced_nil _ (blockHeight r + 1)), length_app in E1 by lia.
  rewrite (produced_cons _ (blockHeight a)), Ha, length_app in E2 by lia. simpl in *. lia.
Qed.

(** The search from the canonical block of the slot of [r] *)
Lemma forked_target hd n :
  canonical (blockHeight r) = Some hd →
  let on_fork := length (offs ++ [r]) in
  let on_chain := length (produced canonical (blockHeight a + 1) (blockHeight r + 1)) in
  rewind_target canonical bad_slot l f n hd =
    if decide (on_chain = on_fork ∨ on_chain = S on_fork) then Done (Some a)
    else if decide (length canon + 1 + on_fork ≤ rank hd)%nat then last_verified n
    else Throw bad_slot.
Proof.
  intros Hhd on_fork on_chain. pose proof H as [Hok Hl Hcan Hoff _ _ _ _ Habove _].
  pose proof (forked_rank hd Hhd) as Hr. fold on_chain in Hr.
  destruct (canonical_height (W:=W) _ _ Hhd) as [_ Eh].
  assert (is_canonical hd) as Hc by (unfold UnfinalizedRecover.is_canonical; by rewrite Eh).
  destruct forked_order as [Ha _]. unfold rewind_target.
  assert (verifiable l f = reverse (offs ++ [r]) ++ a :: reverse canon) as ->.
  { rewrite Hl, app_assoc, verifiable_split by (apply forked_low || done).
    by rewrite reverse_app, (reverse_snoc canon). }
  rewrite match_back_skip; [|done|by apply Forall_reverse].
  rewrite length_reverse. fold on_fork. pose proof (ancestor_rank on_fork hd Hc) as Hanc.
  destruct (ancestor on_fork hd) as [c|]; [destruct Hanc as [Hcc Hrc]|].
  - rewrite match_back_canonical; [|done|..].
    + rewrite length_reverse. repeat case_decide; done || lia.
    + rewrite <- (reverse_snoc canon). by apply Forall_reverse.
    + rewrite <- (reverse_snoc canon). apply chain_ranks; [|done].
      destruct Hok as [Hch _]. rewrite Hl in Hch. by apply chain_app_l in Hch.
  - repeat case_decide; done || lia.
Qed.
End at_fork.

(** C6: a call without a header, when the records are canonical up to the common
    ancestor and then of a fork up to [r], the last one that is not above the finalized
    block, and no finalized header registered during the call reaches the records after
    [r].  If the chain has a block in the slot of [r], the service finds exactly the
    ancestor when the chain has as many blocks since it, up to that slot, as the fork has,
    or one more; with another number it does not find the ancestor, though it is a
    record: it answers with the block last verified, or with nothing, which the caller
    takes for "no fork", or throws, what fetching that block throws or, when there are
    more records than blocks on the chain, the error of the RPC for slot -1.  If the chain
    skipped the slot of [r], the call throws.  Nothing is changed but by registrations. *)
Theorem rewind_to_common_ancestor fuel l f n (w : W) canon a offs r rest :
  let on_fork := length (offs ++ [r]) in
  let on_chain := length (produced canonical (blockHeight a + 1) (blockHeight r + 1)) in
  forked_records fuel l f canon a offs r rest →
  answers (processUnfinalizedBlockHeader fuel None) (mkService (Some l) (Some f) n w)
    (match canonical (blockHeight r) with
     | Some hd =>
         if decide (on_chain = on_fork ∨ on_chain = S on_fork) then Done (Some a)
         else if decide (length canon + 1 + on_fork ≤ rank hd)%nat then last_verified n
         else Throw bad_slot
     | None => Throw (skipped_error bad_slot (blockHeight f - blockHeight r))
     end).
Proof.
  intros on_fork on_chain H. pose proof H as [Hok Hl Hcan Hoff Hf Hmax Hfuel Hle Habove Harr].
  destruct (forked_order _ _ _ _ _ _ _ _ H) as [Ha Hlt].
  destruct (canonical_height (W:=W) _ _ Ha) as [Ha0 _].
  pose proof (forked_closest _ _ _ _ _ _ _ _ H) as Hcl.
  pose proof (hasForked_answers canonical bad_slot _ _ _ n w _ Hf Hmax Hfuel Hcl ltac:(lia)) as Hfork.
  apply answers_await in Hfork. unfold processUnfinalizedBlockHeader.
  apply (answers_step _ _ _ None); [done|].
  destruct (canonical (blockHeight r)) as [hd|] eqn:Hhd; [|by apply answers_bind_Throw].
  destruct (canonical_height (W:=W) _ _ Hhd) as [_ Eh].
  assert (is_canonical hd) as Hc by (unfold UnfinalizedRecover.is_canonical; by rewrite Eh).
  unfold fork_at in Hfork. rewrite decide_True in Hfork.
  2:{ intros E. apply Forall_app in Hoff as [_ Hoff]. apply Forall_inv in Hoff.
      by apply (Hoff hd Hc); left. }
  eapply answers_bind; [exact Hfork|]. intros s' Hs'.
  pose proof (forked_target _ _ _ _ _ _ _ _ H hd n Hhd) as Ht. fold on_fork on_chain in Ht.
  rewrite <- Ht. rewrite Hl, app_assoc in Hs' |- *.
  eapply search_waits; [by apply (forked_low _ _ _ _ _ _ _ _ H)|done|done|done|lia|lia|exact Hs'].
Qed.

(** ** A fork that the next header shows *)
Lemma backfill_empty fuel h e (s : UnfinalizedBlocksService W) :
  0 ≤ h → e < MAX_SAFE_INTEGER → (∀ k, h ≤ k ≤ e → canonical k = None) →
  e - h + 1 ≤ Z.of_nat fuel → answers (backfillSkippedSlots fuel h e) s (Done None).
Proof.
  revert h s. induction fuel as [|fuel IHf]; intros h s H0 He Hgap Hf; cbn [backfillSkippedSlots];
    destruct (Z.leb_spec h e) as [Hle|]; [lia|by apply answers_run| |by apply answers_run].
  eapply answers_bind; [by apply (header_or_skipped_answers canonical bad_slot)|]. intros s1 _.
  rewrite Hgap, num_succ_exact by (unfold safe; lia).
  apply IHf; [lia|done| |lia]. intros k Hk. apply Hgap. lia.
Qed.

(** The new header, or a block between it and the last record, is not the child of that. *)
Lemma register_fork fuel h l r hd f c (w : W) :
  last l = Some r → blockHeight f < blockHeight h ≤ MAX_SAFE_INTEGER → is_canonical h →
  is_canonical hd → 0 ≤ blockHeight r < blockHeight hd → blockHeight hd ≤ blockHeight h →
  (∀ k, blockHeight r < k < blockHeight hd → canonical k = None) →
  parentHash hd ≠ Some (blockHash r) → blockHeight h - blockHeight r ≤ Z.of_nat fuel →
  answers (registerUnfinalizedBlock fuel h) (mkService (Some l) (Some f) c w) (Done (Some hd)).
Proof.
  intros Hl [Hf Hmax] Hh Hhd Hr Hle Hgap Hpar Hfuel. set (s := mkService _ _ _ _).
  unfold registerUnfinalizedBlock.
  apply (answers_step _ _ _ (blockHeight f)); [done|]. rewrite (proj2 (Z.leb_gt _ _)) by lia.
  apply (answers_step _ _ _ l); [done|]. rewrite lodash_last_spec, Hl.
  rewrite (proj2 (Z.leb_gt (blockHeight h) (blockHeight r))) by lia.
  rewrite num_succ_exact, num_pred_exact by (unfold safe; lia).
  destruct (decide (blockHeight hd = blockHeight h)) as [E|E].
  - unfold UnfinalizedRecover.is_canonical in *. assert (hd = h) as -> by congruence.
    eapply (answers_bind _ _ _ None).
    + destruct (_ =? _); [by apply answers_run|]. apply answers_await, backfill_empty; [lia|lia| |lia].
      intros k Hk. apply Hgap. lia.
    + intros s1 W1. pose proof (waited_records _ _ W1) as Hs1.
      eapply answers_step; [apply (records_run l s1 Hs1)|]. rewrite lodash_last_spec, Hl.
      rewrite breaks_chain_true by done. by apply answers_run.
  - rewrite (proj2 (Z.eqb_neq _ _)) by lia. apply (answers_bind _ _ _ (Some hd)); [|intros s1 _; by apply answers_run].
    apply answers_await. apply (backfill_fork canonical bad_slot _ _ _ l r); [done|done|lia|lia|done| |done|lia].
    intros k Hk. apply Hgap. lia.
Qed.

Lemma ranks_length a l :
  chain (fun b p => rank b = S (rank p)) (a :: l) → (length l ≤ rank a)%nat.
Proof.
  revert a. induction l as [|b l IHl]; intros a; [simpl; lia|]. intros [Hab Hl%IHl]. simpl in *. lia.
Qed.

(** C7: when the last record is of a fork and the records up to the finalized block are
    canonical, a call with a new header of the chain reports the fork, provided that no
    finalized header registered during the call reaches the other records.  The call does
    not record anything, and the header it starts the search from is the first block of
    the chain after the last record.  The answer is the highest record up to the finalized
    block if that first block is its child, and otherwise the block last verified, or what
    fetching that throws; there is no answer, as if there were no fork, only if nothing was
    verified. *)
Theorem fork_reported_by_next_header fuel l f n (w : W) r h hd checked rest :
  blocks_ok l → last l = Some r → off_chain r → 0 ≤ blockHeight r →
  l = checked ++ rest → Forall (fun b => blockHeight b ≤ blockHeight f) checked →
  Forall (fun b => blockHeight f < blockHeight b) rest → arrive_below rest →
  Forall is_canonical checked →
  is_canonical h → blockHeight f < blockHeight h ≤ MAX_SAFE_INTEGER →
  is_canonical hd → blockHeight r < blockHeight hd ≤ blockHeight h →
  (∀ k, blockHeight r < k < blockHeight hd → canonical k = None) →
  blockHeight h + 1 ≤ Z.of_nat fuel →
  answers (processUnfinalizedBlockHeader fuel (Some h)) (mkService (Some l) (Some f) n w)
    (match last checked with
     | Some a => if decide (parentHash hd = Some (blockHash a)) then Done (Some a) else last_verified n
     | None => last_verified n
     end).
Proof.
  intros Hok Hlast Hoff Hr0 Hsplit Hlow Hhigh Harr Hcan Hh Hfh Hhd Hhdh Hgap Hfuel.
  pose proof (blocks_ok_last_max _ _ Hok Hlast) as Hmax.
  assert (parentHash hd ≠ Some (blockHash r)) as Hpar
    by (intros E; by apply (Hoff hd Hhd); right).
  unfold processUnfinalizedBlockHeader. eapply answers_bind.
  { apply answers_await, (register_fork _ h l r hd); done || lia. }
  intros s1 W1. apply (answers_step _ _ _ (Some hd)); [done|].
  rewrite Hsplit in W1, Hok, Hmax.
  pose proof (search_waits fuel hd checked rest f n w s1 Hlow Hhigh Harr Hhd ltac:(lia) ltac:(lia) W1) as Hans.
  unfold rewind_target in Hans. rewrite verifiable_split in Hans by done.
  assert (∀ o o', o' = o → answers (getLastCorrectFinalizedBlock fuel hd) s1 o' →
    answers (getLastCorrectFinalizedBlock fuel hd) s1 o) as Heq by (by intros o o' ->).
  refine (Heq _ _ _ Hans). clear Hans Heq W1.
  destruct Hok as [Hch _]. apply chain_app_l in Hch.
  destruct checked as [|a l0 _] using rev_ind; [done|].
  rewrite last_snoc, reverse_snoc.
  pose proof (chain_ranks _ Hch Hcan) as Hranks. rewrite reverse_snoc in Hranks.
  rewrite match_back_canonical; [|done| |done];
    [|rewrite <- reverse_snoc; by apply Forall_reverse].
  assert (is_canonical a) as Ha by (apply Forall_app in Hcan as [_ Ha]; exact (Forall_inv Ha)).
  assert (blockHeight a < blockHeight hd) as Hlt.
  { rewrite Forall_forall in Hmax. specialize (Hmax a ltac:(set_solver)). simpl in Hmax. lia. }
  pose proof (rank_lt a hd Ha Hlt) as Hrank. apply ranks_length in Hranks.
  pose proof (matches_rank a hd Ha Hhd) as Hm.
  assert (parentHash hd = Some (blockHash a) ↔ rank hd = S (rank a)) as Hiff.
  { split; intros E.
    - assert (matches a hd) as Hmm by (right; done). apply Hm in Hmm. lia.
    - assert (matches a hd) as [Hmm|Hmm] by (apply Hm; lia); [|done].
      pose proof (hash_injective _ _ _ _ Ha Hhd Hmm). lia. }
  rewrite length_reverse in *. destruct (decide (parentHash hd = _)) as [E|E]; rewrite Hiff in E.
  - by rewrite decide_True by lia.
  - by rewrite decide_False, decide_True by lia.
Qed.
End recover.

(** ** Instances *)

Definition sim_hashes : IdentifyingHashes sim_canonical.
Proof.
  split; intros k k' c c' H H' E; sim_slots; done.
Defined.

Lemma sim_off_chain b :
  blockHash b ∉ ["a0"; "a1"; "a2"; "a4"; "a5"; "a6"; "null"] → off_chain sim_canonical b.
Proof.
  intros Hb c Hc [E|E]; unfold is_canonical in Hc; apply Hb.
  - sim_slots; rewrite E; set_solver.
  - sim_slots; rewrite E; set_solver.
Qed.

(** Two blocks of a fork where the chain has two, in slots 4 and 5. *)
Definition sim_two : list Header := [sim_block 4 "b4" "a2"; sim_block 5 "b5" "b4"].
Definition sim_records : list Header := [sim_block 1 "a1" "a0"; sim_block 2 "a2" "a1"] ++ sim_two.

(** Slot 5 is final, and slot 6 becomes final during the waits of the call. *)
Lemma sim_forked_records :
  forked_records (AR:=sim_arrivals [sim_final]) sim_canonical 7 (sim_records ++ [sim_block 7 "b7" "b5"])
    (sim_block 5 "a5" "a4") [sim_block 1 "a1" "a0"] (sim_block 2 "a2" "a1") [sim_block 4 "b4" "a2"]
    (sim_block 5 "b5" "b4") [sim_block 7 "b7" "b5"].
Proof.
  split; try done.
  - split; [done|]. repeat constructor; by vm_compute.
  - repeat constructor.
  - constructor; [|constructor; [|done]]; apply sim_off_chain; set_solver.
  - repeat constructor.
  - intros w. repeat constructor.
Qed.

Lemma rewind_to_common_ancestor_witness :
  let BC := sim_client sim_canonical (sim_block 5 "a5" "a4") sim_bad_slot in
  let AR := sim_arrivals [sim_final] in
  answers (processUnfinalizedBlockHeader (LD:=lodash_model) (MS:=sim_metadata) 7 None)
    (mkService (Some (sim_records ++ [sim_block 7 "b7" "b5"])) (Some (sim_block 5 "a5" "a4")) Undefined
      (∅ : sim_store))
    (Done (Some (sim_block 2 "a2" "a1"))).
Proof.
  intros BC AR.
  exact (rewind_to_common_ancestor (LD:=lodash_model) (MS:=sim_metadata) sim_canonical sim_bad_slot
    (SC:=sim_stable_chain (sim_block 5 "a5" "a4")) (IH:=sim_hashes) 7 _ _ Undefined ∅ _ _ _ _ _
    sim_forked_records).
Defined.

(** The record in slot 3, which the chain skipped, is of a fork; the chain's next block
    is in slot 4, and the header that arrives is that of slot 5. *)
Lemma fork_reported_by_next_header_witness :
  let f := sim_block 2 "a2" "a1" in
  let BC := sim_client sim_canonical f sim_bad_slot in
  let AR := sim_arrivals [f] in
  answers (processUnfinalizedBlockHeader (LD:=lodash_model) (MS:=sim_metadata) 8
    (Some (sim_block 5 "a5" "a4")))
    (mkService (Some [sim_block 2 "a2" "a1"; sim_block 3 "b3" "a2"]) (Some f) (Num 1) (∅ : sim_store))
    (Done (Some (sim_block 2 "a2" "a1"))).
Proof.
  intros f BC AR.
  refine (fork_reported_by_next_header (LD:=lodash_model) (MS:=sim_metadata) sim_canonical sim_bad_slot
    (SC:=sim_stable_chain f) (IH:=sim_hashes) 8
    [sim_block 2 "a2" "a1"; sim_block 3 "b3" "a2"] f (Num 1) ∅ (sim_block 3 "b3" "a2")
    (sim_block 5 "a5" "a4") (sim_block 4 "a4" "a2") [sim_block 2 "a2" "a1"] [sim_block 3 "b3" "a2"]
    _ eq_refl _ _ eq_refl _ _ _ _ eq_refl _ eq_refl _ _ _).
  - split; [done|]. repeat constructor; by vm_compute.
  - apply sim_off_chain. set_solver.
  - done.
  - by repeat constructor.
  - by repeat constructor.
  - intros w. by repeat constructor.
  - by repeat constructor.
  - by vm_compute.
  - done.
  - intros k [H1 H2]. cbn in H1, H2. lia.
  - done.
Defined.
