(* ===== verification/UnfinalizedLive.v ===== *)
(** * Records are released

    Infinite executions of the unfinalized blocks service on a chain that does not
    change: finalized headers are registered between calls and while a call waits, and
    new headers are processed, in any order.  As long as finality goes on and headers
    keep coming, every record is released for good, and no call takes the chain for a
    fork. *)
From S2P Require Import Prelude JsNumber JsDate Json Types Chain Sim Unfinalized UnfinalizedInv.
From S2P Require Import UnfinalizedChain UnfinalizedFork UnfinalizedRegister.

Inductive event :=
| Finalized (f : Header)
| Process (fuel : nat) (header : option Header).

(** What is below a larger number is not above a smaller one. *)
Lemma jsnum_lt_mono c n m : n ≤ m → jsnum_lt c n = true → jsnum_lt c m = true.
Proof. destruct c as [| |z]; simpl; intros ? ?%Z.ltb_lt || intros; try done; apply Z.ltb_lt; lia. Qed.

Section live.
  Context {W : Type} `{LD : Lodash, BC : BlockchainClient W, MS : MetadataStore W, AR : Arrivals W}
    (canonical : Z → option Header) (bad_slot : jserror)
    {SC : StableChain W canonical bad_slot} {ML : MetadataLaws W} {AL : ArrivalsLaws W}
    {RS : ReliableStore W}.
  Local Abbreviation svc := (UnfinalizedBlocksService W).
  Local Abbreviation follows := (follows canonical).

Definition run_event (e : event) (s : svc) : outcome (option Header) * svc :=
  match e with
  | Finalized f => (registerFinalizedBlock f ;; mret None) s
  | Process fuel header => processUnfinalizedBlockHeader fuel header s
  end.

Definition records (s : svc) : list Header := default [] (unfinalizedBlocks_ s).
Definition finality (s : svc) : Z := from_option blockHeight (-1) (finalizedHeader_ s).

(** What the rest of the node does: the headers are the chain's, those that arrive at an
    await too, a new one is above the records, and there is fuel for the slots. *)
Definition allowed (e : event) (s : svc) : Prop :=
  match e with
  | Finalized f => canonical (blockHeight f) = Some f ∧ blockHeight f ≤ MAX_SAFE_INTEGER
  | Process fuel header =>
      (∀ w, Forall (final_ok canonical fuel) (arriving w).1) ∧
      finality s + 1 ≤ Z.of_nat fuel ∧
      ∀ h, header = Some h →
        canonical (blockHeight h) = Some h ∧ blockHeight h ≤ MAX_SAFE_INTEGER ∧
        Forall (fun r => blockHeight r < blockHeight h) (records s) ∧
        blockHeight h ≤ Z.of_nat fuel
  end.

(** What was last checked is not above finality. *)
Definition checked (f : Header) (c : jsnum) : Prop := ∀ n, c = Num n → n ≤ blockHeight f.

(** A service that follows the chain *)
Definition tracks (s : svc) : Prop := ∃ l f c w,
  s = mkService (Some l) (Some f) c w ∧ follows l f ∧ checked f c.

(** Everything up to [n] is final and not recorded, so it will never be. *)
Definition released (n : Z) (s : svc) : Prop :=
  n ≤ finality s ∧ Forall (fun r => n < blockHeight r) (records s).

Lemma released_mono n m s : n ≤ m → released m s → released n s.
Proof. intros Hn [H1 H2]. split; [lia|]. eapply Forall_impl; [exact H2|]. simpl. lia. Qed.

Definition arrived (l : list Header) (f : Header) (header : option Header) : list Header :=
  match header with Some h => records_after canonical l f h | None => l end.

Lemma arrived_keeps l f header r : r ∈ l → r ∈ arrived l f header.
Proof.
  intros Hr. destruct header as [h|]; [|done]. unfold arrived, records_after.
  case_match; [done|]. destruct (last l) eqn:E; [set_solver|].
  apply last_None in E. subst l. by apply not_elem_of_nil in Hr.
Qed.

Lemma process_run fuel header l f c (w : W) :
  follows l f → allowed (Process fuel header) (mkService (Some l) (Some f) c w) →
  ∃ f2 f3 f4 w', let l' := records_kept (arrived l f header) f2 c in
    processUnfinalizedBlockHeader fuel header (mkService (Some l) (Some f) c w) =
      (Done None, mkService (Some l') (Some f4) (Num (blockHeight f3)) w') ∧ follows l' f4 ∧
    blockHeight f ≤ blockHeight f2 ≤ blockHeight f3 ∧ blockHeight f3 ≤ blockHeight f4 ∧
    (jsnum_lt c (blockHeight f2) = false → f3 = f2).
Proof.
  intros Hl (Harr & Hfuel & Hh). cbn in Hfuel. pose proof Hl as (Hf & Hm & _).
  destruct (process_waits canonical bad_slot fuel l f header c w Harr) as
    (f2 & f3 & f4 & w' & E & H1 & H2 & _ & _ & _ & H3 & _ & H4); [done|done| |by exists f2, f3, f4, w'].
  intros h ->. destruct (Hh h eq_refl) as (Hc & Hmh & Habove & Hfuel'). cbn in Habove.
  split_and!; [done|done| |done]. intros p Hp. rewrite Forall_forall in Habove.
  apply Habove. apply last_Some in Hp as [l0 ->]. set_solver.
Qed.

(** A record that comes in is above the last one and above finality. *)
Lemma arrived_above n l f header :
  n ≤ blockHeight f → Forall (fun r => n < blockHeight r) l →
  Forall (fun r => n < blockHeight r) (arrived l f header).
Proof.
  intros Hn Hl. destruct header as [h|]; [|done]. unfold arrived, records_after.
  destruct (Z.leb_spec (blockHeight h) (blockHeight f)) as [|Hgt]; [done|].
  destruct (last l) as [p|] eqn:Hp; [|by repeat constructor; lia].
  assert (n < blockHeight p) as Hnp.
  { rewrite Forall_forall in Hl. apply Hl. apply last_Some in Hp as [l0 ->]. set_solver. }
  apply Forall_app. split; [done|]. apply Forall_app. split; [|by repeat constructor; lia].
  apply Forall_forall. intros x (k & Hk & Hx)%elem_of_produced.
  destruct (canonical_height (W:=W) _ _ Hx) as [_ ->]. lia.
Qed.

Lemma kept_above n l f2 c :
  Forall (fun r => n < blockHeight r) l → Forall (fun r => n < blockHeight r) (records_kept l f2 c).
Proof.
  intros Hl. unfold records_kept. case_match; [|done].
  apply Forall_forall. intros x [_ Hx]%list_elem_of_filter. rewrite Forall_forall in Hl. by apply Hl.
Qed.

(** ** One event *)
Lemma registerFinalized_run h l f c (w : W) :
  (registerFinalizedBlock h ;; mret (M:=M svc) (@None Header)) (mkService (Some l) (Some f) c w) =
    (Done None, mkService (Some l) (Some (if blockHeight h <=? blockHeight f then f else h)) c w).
Proof.
  unfold registerFinalizedBlock, finalizedBlockNumber, finalizedHeader, set_finalizedHeader,
    gets, modify, mbind, M_bind, mret, M_ret. simpl. by destruct (blockHeight h <=? blockHeight f).
Qed.

(** After a call the records up to the finality it began with are gone, or that was the
    height last checked. *)
Definition progress (e : event) (s s' : svc) : Prop :=
  match e with
  | Finalized f => blockHeight f ≤ finality s' ∧ lastCheckedBlockHeight s' = lastCheckedBlockHeight s
  | Process _ _ => ∃ m, lastCheckedBlockHeight s' = Num m ∧
      (released (finality s) s' ∨
       jsnum_lt (lastCheckedBlockHeight s) (finality s) = false ∧
       ∀ n, lastCheckedBlockHeight s = Num n → m = n)
  end.

Record advances (e : event) (s s' : svc) : Prop := {
  adv_tracks : tracks s';
  adv_finality : finality s ≤ finality s';
  adv_released : ∀ n, released n s → released n s';
  adv_records : ∀ r, r ∈ records s → r ∈ records s' ∨ released (blockHeight r) s';
  adv_progress : progress e s s'
}.

Lemma register_advances h s :
  tracks s → allowed (Finalized h) s →
  (run_event (Finalized h) s).1 = Done None ∧ advances (Finalized h) s (run_event (Finalized h) s).2.
Proof.
  intros (l & f & c & w & -> & (Hf & Hm & Hl) & Hc) [Hh Hmh]. simpl run_event.
  rewrite registerFinalized_run. set (f' := if _ <=? _ then f else h).
  assert (blockHeight f ≤ blockHeight f' ∧ blockHeight h ≤ blockHeight f' ∧
    canonical (blockHeight f') = Some f' ∧ blockHeight f' ≤ MAX_SAFE_INTEGER) as (H1 & H2 & H3 & H4)
    by (subst f'; destruct (Z.leb_spec (blockHeight h) (blockHeight f)); split_and!; done || lia).
  split; [done|]. split; cbn; [|done| |by left|done].
  - eexists _, _, _, _. split; [done|]. split; [done|]. intros n ->. specialize (Hc n eq_refl). lia.
  - intros n [Hn Hr]. split; [cbn in *; lia|done].
Qed.

Lemma process_advances fuel header s :
  tracks s → allowed (Process fuel header) s →
  (run_event (Process fuel header) s).1 = Done None ∧
  advances (Process fuel header) s (run_event (Process fuel header) s).2.
Proof.
  intros (l & f & c & w & -> & Hl & Hc) He. simpl run_event.
  destruct (process_run fuel header l f c w Hl He) as (f2 & f3 & f4 & w' & E & Hl' & H2 & H3 & Hsame).
  rewrite E. split; [done|]. split; cbn [fst snd]; cbn.
  - eexists _, _, _, _. split; [done|]. split; [done|]. by intros n [= <-].
  - lia.
  - intros n [Hn Hr]. split; cbn in *; [lia|]. by apply kept_above, arrived_above.
  - intros r Hr%(arrived_keeps _ f header). unfold released, records, finality, records_kept. cbn.
    destruct (jsnum_lt c (blockHeight f2)); [|by left].
    destruct (Z.lt_ge_cases (blockHeight f2) (blockHeight r));
      [left; by apply list_elem_of_filter|right; split; [lia|]].
    apply Forall_forall. intros x [Hx _]%list_elem_of_filter. lia.
  - exists (blockHeight f3). split; [done|]. unfold released, records, finality, records_kept. cbn.
    destruct (jsnum_lt c (blockHeight f2)) eqn:Hlt.
    + left. split; [lia|]. apply Forall_forall. intros x [Hx _]%list_elem_of_filter. lia.
    + right. split.
      * apply not_true_is_false. intros Hf%(jsnum_lt_mono _ _ (blockHeight f2)); [congruence|lia].
      * rewrite (Hsame eq_refl). intros n ->. specialize (Hc n eq_refl).
        apply Z.ltb_ge in Hlt. lia.
Qed.

Lemma event_advances e s :
  tracks s → allowed e s →
  (run_event e s).1 = Done None ∧ advances e s (run_event e s).2.
Proof. destruct e; [apply register_advances|apply process_advances]. Qed.

(** ** Executions *)
Record execution (σ : nat → svc) (ev : nat → event) : Prop := {
  starts : tracks (σ 0%nat);
  allows : ∀ i, allowed (ev i) (σ i);
  steps : ∀ i, σ (S i) = (run_event (ev i) (σ i)).2
}.

(** While a record is kept, finality reaches it and goes beyond the height last checked,
    and there is always a next call. *)
Record fair (σ : nat → svc) (ev : nat → event) : Prop := {
  finality_goes_on : ∀ i r, r ∈ records (σ i) →
    ∃ j, (i ≤ j)%nat ∧ blockHeight r ≤ finality (σ j) ∧
      ∀ n, lastCheckedBlockHeight (σ i) = Num n → n < finality (σ j);
  calls_go_on : ∀ i, ∃ j fuel header, (i ≤ j)%nat ∧ ev j = Process fuel header
}.

Section execution.
Context (σ : nat → svc) (ev : nat → event) (Hex : execution σ ev).

Lemma execution_tracks i : tracks (σ i).
Proof.
  induction i as [|i IH]; [apply (starts _ _ Hex)|]. rewrite (steps _ _ Hex).
  by apply event_advances, (allows _ _ Hex).
Qed.

Lemma execution_step i : advances (ev i) (σ i) (σ (S i)).
Proof. rewrite (steps _ _ Hex). apply event_advances; [apply execution_tracks|apply (allows _ _ Hex)]. Qed.

Lemma execution_later (P : svc → Prop) i j :
  (∀ k, P (σ k) → P (σ (S k))) → (i ≤ j)%nat → P (σ i) → P (σ j).
Proof. intros H. induction 1; auto. Qed.

Lemma finality_later n i j : (i ≤ j)%nat → n ≤ finality (σ i) → n ≤ finality (σ j).
Proof.
  apply (execution_later (fun s => n ≤ finality s)). intros k H.
  etrans; [exact H|apply (adv_finality _ _ _ (execution_step k))].
Qed.

Lemma released_later n i j : (i ≤ j)%nat → released n (σ i) → released n (σ j).
Proof. apply execution_later. intros k. apply (adv_released _ _ _ (execution_step k)). Qed.

Lemma kept_or_released r i j : (i ≤ j)%nat →
  r ∈ records (σ i) → r ∈ records (σ j) ∨ released (blockHeight r) (σ j).
Proof.
  intros Hij Hr. apply (execution_later (fun s => r ∈ records s ∨ released (blockHeight r) s) i);
    [|done|by left]. intros k [H|H].
  - by apply (adv_records _ _ _ (execution_step k)).
  - right. by apply (adv_released _ _ _ (execution_step k)).
Qed.

(** While the height last checked stays, or until a record that is final is released *)
Lemma checked_or_released r n i j : (i ≤ j)%nat → blockHeight r ≤ finality (σ i) →
  lastCheckedBlockHeight (σ i) = Num n →
  released (blockHeight r) (σ j) ∨ lastCheckedBlockHeight (σ j) = Num n.
Proof.
  intros Hij Hr Hn.
  apply (execution_later (fun s => blockHeight r ≤ finality s ∧
    (released (blockHeight r) s ∨ lastCheckedBlockHeight s = Num n)) i);
    [|done|by split; [|right]].
  intros k [Hf Hk]. pose proof (execution_step k) as [_ Hle Hrel _ Hprog].
  split; [lia|]. destruct Hk as [Hk|Hk]; [by left; apply Hrel|].
  unfold progress in Hprog. destruct (ev k) as [f|fuel header].
  - destruct Hprog as [_ ->]. by right.
  - destruct Hprog as (m & -> & [H|[_ Hm]]).
    + left. by eapply released_mono; [|exact H].
    + right. by rewrite (Hm n Hk).
Qed.

(** A call in which finality is above what was last checked releases what is final. *)
Lemma call_releases r n k fuel header :
  ev k = Process fuel header → lastCheckedBlockHeight (σ k) = Num n → n < finality (σ k) →
  blockHeight r ≤ finality (σ k) → released (blockHeight r) (σ (S k)).
Proof.
  intros Hk Hn Hlt Hr. pose proof (adv_progress _ _ _ (execution_step k)) as Hprog.
  rewrite Hk in Hprog. destruct Hprog as (m & _ & [H|[H _]]).
  - by eapply released_mono; [|exact H].
  - rewrite Hn in H. apply Z.ltb_ge in H. lia.
Qed.

Lemma eventually_released i r :
  fair σ ev → r ∈ records (σ i) → ∃ j, (i < j)%nat ∧ released (blockHeight r) (σ j).
Proof.
  intros [Hfin Hcalls] Hr. destruct (Hfin i r Hr) as (j1 & Hij1 & Hr1 & _).
  destruct (Hcalls j1) as (k1 & fuel1 & header1 & Hjk1 & Hk1).
  destruct (kept_or_released r i (S k1) ltac:(lia) Hr) as [Hkept|Hrel]; [|exists (S k1); split; [lia|done]].
  pose proof (adv_progress _ _ _ (execution_step k1)) as Hprog. rewrite Hk1 in Hprog.
  destruct Hprog as (n & Hn & _).
  destruct (Hfin (S k1) r Hkept) as (j2 & Hij2 & _ & Hlt). specialize (Hlt n Hn).
  destruct (Hcalls j2) as (k2 & fuel2 & header2 & Hjk2 & Hk2).
  assert (blockHeight r ≤ finality (σ (S k1))) as Hr2 by (by apply (finality_later _ j1); [lia|]).
  destruct (checked_or_released r n (S k1) k2 ltac:(lia) Hr2 Hn) as [Hrel|Hn2].
  - exists k2. split; [lia|done].
  - exists (S k2). split; [lia|]. eapply call_releases; [exact Hk2|exact Hn2| |].
    + pose proof (finality_later _ j2 k2 Hjk2 (reflexivity _)). lia.
    + apply (finality_later _ (S k1)); [lia|done].
Qed.

(** C2: in every execution against a chain that does not change, in which finalized
    headers are registered between calls and at any await of a call, while a record is
    kept finality reaches it and goes beyond the height last checked, and calls go on:
    every record is released at some time and never recorded again, and no call reports
    a fork or fails. *)
Theorem records_released :
  fair σ ev →
  (∀ i, (run_event (ev i) (σ i)).1 = Done None) ∧
  ∀ i r, r ∈ records (σ i) → ∃ j, (i < j)%nat ∧ ∀ k, (j ≤ k)%nat → r ∉ records (σ k).
Proof.
  intros Hfair. split.
  - intros i. apply event_advances; [apply execution_tracks|apply (allows _ _ Hex)].
  - intros i r Hr. destruct (eventually_released i r Hfair Hr) as (j & Hij & Hj).
    exists j. split; [done|]. intros k Hjk Hin.
    destruct (released_later _ j k Hjk Hj) as [_ H]. rewrite Forall_forall in H.
    specialize (H r Hin). lia.
Qed.
End execution.
End live.

(** ** An execution: slot 4 becomes final, then slot 5 while the call that removes the
    record of slot 4 stores the height, then slot 6. *)
Section witness.
Local Abbreviation final := (sim_block 1 "a1" "a0").
Local Instance live_client : BlockchainClient sim_store := sim_client sim_canonical final sim_bad_slot.
Local Instance live_store : MetadataStore sim_store := sim_metadata.

(** Slot 5 becomes final once a verified height is stored. *)
Local Instance live_arrivals : Arrivals sim_store := {|
  arriving w := (match w !! METADATA_LAST_FINALIZED_PROCESSED_KEY with
                 | Some _ => [sim_block 5 "a5" "a4"]
                 | None => []
                 end, w)
|}.
Local Instance live_arrivals_laws : ArrivalsLaws sim_store
  (H1:=sim_metadata_laws sim_canonical final sim_bad_slot).
Proof. split; [|done]. intros w. cbn [arriving live_arrivals fst].
  destruct (w !! METADATA_LAST_FINALIZED_PROCESSED_KEY); [|done].
  constructor; [by vm_compute|done]. Defined.

Definition sim_live_event (i : nat) : event :=
  match i with
  | 0 => Process 20 (Some (sim_block 5 "a5" "a4"))
  | 1 => Finalized (sim_block 4 "a4" "a2")
  | 3 => Finalized (sim_block 6 "a6" "a5")
  | _ => Process 20 None
  end%nat.

Definition sim_live_start : UnfinalizedBlocksService sim_store :=
  sim_service [sim_block 2 "a2" "a1"] final.

Fixpoint sim_live (i : nat) : UnfinalizedBlocksService sim_store :=
  match i with O => sim_live_start | S i => (run_event (sim_live_event i) (sim_live i)).2 end.

(** The record of slot 5, which is final, is still there after the third event. *)
Example sim_live_final_kept :
  records (sim_live 3) = [sim_block 5 "a5" "a4"] ∧ finality (sim_live 3) = 5 ∧
  lastCheckedBlockHeight (sim_live 3) = Num 5.
Proof. by vm_compute. Qed.

(** From the sixth state on nothing changes. *)
Definition sim_settled (w : sim_store) : UnfinalizedBlocksService sim_store :=
  mkService (Some []) (Some (sim_block 6 "a6" "a5")) (Num 6) w.

Lemma sim_settled_meanwhile w : meanwhile (sim_settled w) = sim_settled w.
Proof.
  unfold meanwhile, sim_settled. cbn [arriving live_arrivals fst snd world].
  by destruct (w !! METADATA_LAST_FINALIZED_PROCESSED_KEY).
Qed.

Lemma sim_settled_stays w : (run_event (Process 20 None) (sim_settled w)).2 = sim_settled w.
Proof.
  unfold run_event, processUnfinalizedBlockHeader.
  assert (await (hasForked 20) (sim_settled w) = (Done None, sim_settled w)) as E1
    by (rewrite <- (sim_settled_meanwhile w) at 2; reflexivity).
  assert (await deleteFinalizedBlock (sim_settled w) = (Done tt, sim_settled w)) as E2
    by (rewrite <- (sim_settled_meanwhile w) at 2; reflexivity).
  by rewrite (bind_Done (mret None) _ _ None _ eq_refl), (bind_Done _ _ _ _ _ E1), (bind_Done _ _ _ _ _ E2).
Qed.

Lemma sim_live_settles i : ∃ w, sim_live (5 + i) = sim_settled w.
Proof.
  induction i as [|i [w IH]].
  - eexists. vm_compute. reflexivity.
  - exists w. change (sim_live (5 + S i)) with (run_event (Process 20 None) (sim_live (5 + i))).2.
    by rewrite IH, sim_settled_stays.
Qed.

Lemma sim_live_execution : execution sim_canonical sim_live sim_live_event.
Proof.
  assert (∀ w, Forall (final_ok sim_canonical 20) (arriving w).1) as Harr.
  { intros w. cbn [arriving live_arrivals fst].
    destruct (w !! METADATA_LAST_FINALIZED_PROCESSED_KEY); [|done].
    constructor; [by vm_compute|done]. }
  split; [| |done].
  - eexists _, _, _, _. split; [reflexivity|]. split; [|by intros n [= <-]].
    split_and!; [done|by vm_compute|by repeat constructor].
  - intros [|[|[|[|[|i]]]]].
    + split_and!; [done|by vm_compute|]. intros h [= <-].
      split_and!; [done|by vm_compute|by repeat constructor|by vm_compute].
    + split; [done|by vm_compute].
    + split_and!; [done|by vm_compute|done].
    + split; [done|by vm_compute].
    + split_and!; [done|by vm_compute|done].
    + destruct (sim_live_settles i) as [w E]. simpl plus in E. rewrite E.
      split_and!; [done|by vm_compute|done].
Qed.

Lemma sim_live_fair : fair sim_live sim_live_event.
Proof.
  split.
  - assert (∀ l, forallb (fun r => blockHeight r <=? 6) l = true → ∀ r, r ∈ l → blockHeight r ≤ 6) as H.
    { intros l Hl r Hr%list_elem_of_In. rewrite forallb_forall in Hl. by apply Z.leb_le, (Hl r). }
    assert (finality (sim_live 5) = 6) as H6 by by vm_compute.
    assert (∀ i r, (i ≤ 5)%nat → forallb (fun r => blockHeight r <=? 6) (records (sim_live i)) = true →
      jsnum_lt (lastCheckedBlockHeight (sim_live i)) 6 = true →
      r ∈ records (sim_live i) → ∃ j, (i ≤ j)%nat ∧ blockHeight r ≤ finality (sim_live j) ∧
      ∀ n, lastCheckedBlockHeight (sim_live i) = Num n → n < finality (sim_live j)) as H5.
    { intros i r Hi Hl Hf Hr. exists 5%nat. rewrite H6. split_and!; [done|by eapply H|].
      intros n Hn. rewrite Hn in Hf. by apply Z.ltb_lt. }
    intros [|[|[|[|[|i]]]]] r Hr.
    1-5: apply H5; [lia|by vm_compute|by vm_compute|exact Hr].
    destruct (sim_live_settles i) as [w E]. simpl plus in E. rewrite E in Hr.
    exfalso. exact (not_elem_of_nil r Hr).
  - intros i. exists (4 + i)%nat, 20%nat, None. split; [lia|done].
Qed.

Lemma records_released_witness :
  sim_block 5 "a5" "a4" ∈ records (sim_live 3) ∧
  ∃ j, (3 < j)%nat ∧ ∀ k, (j ≤ k)%nat → sim_block 5 "a5" "a4" ∉ records (sim_live k).
Proof.
  assert (sim_block 5 "a5" "a4" ∈ records (sim_live 3)) as Hin by (vm_compute; left).
  split; [exact Hin|].
  exact (proj2 (records_released (SC:=sim_stable_chain final)
    (ML:=sim_metadata_laws sim_canonical final sim_bad_slot)
    (RS:=sim_reliable sim_canonical final sim_bad_slot) sim_canonical sim_bad_slot
    sim_live sim_live_event sim_live_execution sim_live_fair) 3%nat _ Hin).
Defined.
End witness.
