(* ===== verification/UnfinalizedPoi.v ===== *)
(** * The search over the proofs of index

    [findFinalizedUsingPOI] reads the records page by page, from a height down;
    it is the search over all the records up to that height. *)
From S2P Require Import Prelude JsNumber JsDate Json Types Chain Sim Unfinalized UnfinalizedInv.
From S2P Require Import UnfinalizedChain.
From stdpp Require Import sorting.
Local Open Scope Z_scope.

Section poi.
  Context {W : Type} `{LD : Lodash, BC : BlockchainClient W, PS : PoiStore W, AR : Arrivals W}
    {SQ : Sequential W} (canonical : Z → option Header) (bad_slot : jserror)
    {SC : StableChain W canonical bad_slot}.
  Local Abbreviation svc := (UnfinalizedBlocksService W).

(** The records in the order the store gives them, the highest first. *)
Definition poi_descending : list ProofOfIndex → Prop :=
  StronglySorted (fun a b => poi_id b < poi_id a).
Definition poi_upto (n : Z) (recs : list ProofOfIndex) : list ProofOfIndex :=
  filter (fun r => poi_id r ≤ n) recs.

(** The search for the first record that matches the chain. *)
Fixpoint poi_search (l : list ProofOfIndex) : outcome Header :=
  match l with
  | [] => Throw (JsError "Unable to find a POI block with matching block hash" None)
  | r :: l =>
      hd ← stable_answer canonical bad_slot (poi_id r);
      if decide (PoiBlock_chainBlockHash (blockHeight hd) (blockHash hd)
                   (default "" (poi_projectId r)) = poi_chainBlockHash r)
      then Done hd else poi_search l
  end.

(** A page is searched like the records it starts with. *)
Lemma poi_page_search page rest (s : svc) :
  (∀ o s', poi_page page s = (o, s') → s' = s) ∧
  poi_search (page ++ rest) =
    (match (poi_page page s).1 with
     | Done (Some h) => Done h
     | Done None => poi_search rest
     | Throw e => Throw e
     | Exit x => Exit x
     | OutOfFuel => OutOfFuel
     end).
Proof.
  induction page as [|r page [IH1 IH2]]; simpl.
  - split; [by intros o s' [= _ <-]|done].
  - pose proof (getHeader_stable canonical bad_slot (poi_id r) s) as Hg.
    destruct (stable_answer canonical bad_slot (poi_id r)) as [hd|e|x|] eqn:Ha.
    + rewrite bind_await, (bind_Done _ _ _ _ _ Hg). simpl. case_decide; [|by split].
      split; [by intros o s' [= _ <-]|done].
    + rewrite bind_await, (bind_Throw _ _ _ _ _ Hg). split; [by intros o s' [= _ <-]|done].
    + unfold stable_answer in Ha. repeat case_match; done.
    + unfold stable_answer in Ha. repeat case_match; done.
Qed.

Lemma poi_upto_next (n : Z) recs page r rest :
  poi_descending recs → poi_upto n recs = page ++ rest → last page = Some r →
  poi_upto (poi_id r - 1) recs = rest.
Proof.
  intros Hs Hu Hr. assert (poi_id r ≤ n) as Hn.
  { assert (r ∈ poi_upto n recs) as Hin.
    { rewrite Hu. apply last_Some in Hr as [l0 ->]. set_solver. }
    by apply list_elem_of_filter in Hin as [? _]. }
  assert (poi_upto (poi_id r - 1) recs = poi_upto (poi_id r - 1) (poi_upto n recs)) as ->.
  { unfold poi_upto. clear -Hn. induction recs as [|x recs IH]; [done|].
    rewrite !filter_cons. destruct (decide (poi_id x ≤ n)).
    - rewrite filter_cons. case_decide; by rewrite IH.
    - rewrite decide_False by lia. done. }
  assert (poi_descending (poi_upto n recs)) as Hd.
  { unfold poi_upto. clear - Hs. induction Hs as [|x l Hl IH Hx]; [constructor|].
    rewrite filter_cons. case_decide; [|done]. constructor; [done|].
    apply Forall_forall. intros y [_ Hy]%list_elem_of_filter. rewrite Forall_forall in Hx. auto. }
  rewrite Hu in *. clear Hu Hs. apply last_Some in Hr as [l0 ->]. rewrite <- app_assoc in Hd |- *.
  unfold poi_upto. rewrite !filter_app.
  assert (∀ y, y ∈ l0 → poi_id r < poi_id y) as H1.
  { clear -Hd. induction l0 as [|x l0 IH]; [set_solver|]. simpl in Hd.
    inversion Hd as [|?? Hd' Hx]; subst. rewrite Forall_forall in Hx. intros y [->|Hy]%elem_of_cons.
    - apply Hx. set_solver.
    - by apply IH. }
  assert (∀ y, y ∈ rest → poi_id y < poi_id r) as H2.
  { clear -Hd. induction l0 as [|x l0 IH]; simpl in Hd; inversion Hd as [|?? Hd' Hx]; subst.
    - rewrite Forall_forall in Hx. intros y Hy. apply Hx. set_solver.
    - by apply IH. }
  assert (filter (fun x => poi_id x ≤ poi_id r - 1) l0 = []) as ->.
  { clear -H1. induction l0 as [|x l0 IH]; [done|]. rewrite filter_cons, decide_False.
    - apply IH. intros y Hy. apply H1. by right.
    - specialize (H1 x ltac:(by left)). lia. }
  rewrite filter_cons, decide_False by lia. simpl.
  clear -H2. induction rest as [|x rest IH]; [done|]. rewrite filter_cons, decide_True.
  - f_equal. apply IH. intros y Hy. apply H2. by right.
  - specialize (H2 x ltac:(by left)). lia.
Qed.

(** C22: with a store that answers pages of up to [K] records, the highest first,
    the search ends with what the search over all the records up to the height
    of the header finds: the canonical header of the first record whose hash
    matches, or an error.  No record is skipped or read twice between pages. *)
Theorem findFinalizedUsingPOI_pages (getPoiBlocksBefore : Z → M W (list ProofOfIndex))
    recs (K : nat) fuel header (s : svc) :
  poi_model = Some getPoiBlocksBefore →
  (∀ n w, getPoiBlocksBefore n w = (Done (take (S K) (poi_upto n recs)), w)) →
  poi_descending recs → Forall (fun r => safe (poi_id r)) recs →
  (length recs < fuel)%nat →
  findFinalizedUsingPOI fuel header s =
    (poi_search (poi_upto (blockHeight header) recs), s).
Proof.
  intros Hm Hpage Hd Hsafe Hf. unfold findFinalizedUsingPOI. rewrite Hm.
  assert (length (poi_upto (blockHeight header) recs) < fuel)%nat as Hlen.
  { eapply Nat.le_lt_trans; [|exact Hf]. apply length_filter. }
  clear Hf Hm. revert Hlen. generalize (blockHeight header) as n.
  induction fuel as [|fuel IH]; intros n Hlen; [lia|]. cbn [poi_loop].
  assert (on_world (getPoiBlocksBefore n) s = (Done (take (S K) (poi_upto n recs)), s)) as Hp.
  { unfold on_world, zoom. rewrite Hpage. by destruct s. }
  rewrite bind_await, (bind_Done _ _ _ _ _ Hp).
  destruct (last (take (S K) (poi_upto n recs))) as [r|] eqn:Hr.
  - destruct (poi_page_search (take (S K) (poi_upto n recs)) (drop (S K) (poi_upto n recs)) s)
      as [H1 H2]. rewrite take_drop in H2. rewrite H2.
    destruct (poi_page _ s) as [o s'] eqn:E. specialize (H1 _ _ eq_refl) as ->. simpl.
    unfold mbind at 1, M_bind at 1. rewrite E. destruct o as [[h|]|e|x|]; try done.
    assert (r ∈ recs) as Hin.
    { assert (r ∈ take (S K) (poi_upto n recs)) as Ht
        by (apply last_Some in Hr as [l0 ->]; set_solver).
      assert (r ∈ poi_upto n recs) as Hu by (rewrite <- (take_drop (S K)); set_solver).
      by apply list_elem_of_filter in Hu as [_ ?]. }
    rewrite Forall_forall in Hsafe. rewrite num_pred_exact by by apply Hsafe.
    assert (poi_upto (poi_id r - 1) recs = drop (S K) (poi_upto n recs)) as Hnext.
    { by eapply poi_upto_next; [done|by rewrite take_drop|]. }
    rewrite IH, Hnext; [done|]. rewrite Hnext, length_drop.
    destruct (poi_upto n recs); simpl in *; [done|lia].
  - apply last_None in Hr. destruct (poi_upto n recs); [done|]. by simpl in Hr.
Qed.
End poi.

#[local] Existing Instance none_arrive.

Definition sim_poi_records : list ProofOfIndex :=
  [mkPoi 5 [98] None; mkPoi 4 [97; 52] None; mkPoi 2 [97; 50] None].
Definition sim_poi : PoiStore sim_store := {|
  poi_model := Some (fun n => mret (take 1 (poi_upto n sim_poi_records)));
  PoiBlock_chainBlockHash h hash p :=
    (fun c => Z.of_nat (Ascii.nat_of_ascii c)) <$> String.list_ascii_of_string hash
|}.

Lemma findFinalizedUsingPOI_pages_witness :
  let f := sim_block 6 "a6" "a5" in
  let BC := sim_client sim_canonical f sim_bad_slot in
  let s := mkService (Some []) (Some f) (Num 0) (∅ : sim_store) in
  findFinalizedUsingPOI (H:=sim_poi) 4 f s = (Done (sim_block 4 "a4" "a2"), s).
Proof.
  intros f BC s.
  apply (findFinalizedUsingPOI_pages (PS:=sim_poi) sim_canonical sim_bad_slot
    (SC:=sim_stable_chain f) (fun n => mret (take 1 (poi_upto n sim_poi_records)))
    sim_poi_records 0 4 f s).
  - done.
  - done.
  - repeat constructor.
  - repeat constructor; by vm_compute.
  - simpl. lia.
Defined.
