(* ===== verification/Filters.v ===== *)
(** * Filters of handlers

    [packages/node/src/solana/utils.solana.ts]: which blocks, transactions,
    instructions and logs reach a handler. *)
From S2P Require Import Prelude JsNumber JsString JsDate Json Types.

(** ** Interfaces

    The filter on block timestamps is the node core's, [bs58] a package.  The
    discriminator of an instruction is what the decoder says ([Decoder.v]). *)
Class BlockTimestampFilter := filterBlockTimestamp : Z → option SolanaBlockFilter → bool.

Class Base58 := {
  bs58_decode : string → outcome (list Z);
  bs58_encode : list Z → string
}.
(** Decoding inverts encoding and gives bytes, of which there are no more than
    characters. *)
Class Base58Laws `{Base58} := {
  bs58_roundtrip : ∀ l, Forall byte_ok l → bs58_decode (bs58_encode l) = Done l;
  bs58_bytes : ∀ s l, bs58_decode s = Done l → Forall byte_ok l
}.

Class DiscriminatorParser := parseDiscriminator : string → option string → outcome (list Z).

(** ** Accounts *)
Section accounts.
  Context {I L : Type}.

Definition allAccounts (tx : Tx I L) : list string :=
  accountKeys (message tx)
    ++ (match meta tx with Some m => loaded_writable m | None => [] end)
    ++ (match meta tx with Some m => loaded_readonly m | None => [] end).
End accounts.

Definition getAccountByIndex (instruction : SolanaInstruction) (i : Z) : option string :=
  js_nth (allAccounts (si_transaction instruction)) i.

Definition getProgramId (instruction : SolanaInstruction) : option string :=
  getAccountByIndex instruction (programIdIndex (si_raw instruction)).

(** ** Blocks *)
Definition filterBlocksProcessor `{BlockTimestampFilter} (block : BaseSolanaBlock)
    (filter : option SolanaBlockFilter) : bool :=
  let skipped :=
    match filter ≫= modulo with
    | Some m => negb (m =? 0) && negb (num_rem (Number (sb_blockHeight block)) m =? 0)
    | None => false
    end in
  if skipped then false
  else filterBlockTimestamp (num_mul (Number (sb_blockTime block)) 1000) filter.

(** ** Transactions *)
Definition filterTransactionsProcessor {I L} (tx : Tx I L)
    (filter : option SolanaTransactionFilter) : bool :=
  match filter with
  | None => true
  | Some filter =>
      match signerAccountKey filter with
      | Some signer =>
          if truthy_string signer then
            let sigAccounts := imap (fun idx _ => accountKeys (message tx) !! idx) (signatures tx) in
            existsb (fun account => bool_decide (account = Some signer)) sigAccounts
          else true
      | None => true
      end
  end.

(** ** Instructions *)

(** [filterAccounts.includes(account)], of an account that may be undefined *)
Definition includes (l : list string) (x : option string) : bool :=
  match x with Some x => bool_decide (x ∈ l) | None => false end.

(** The loop over [filter.accounts]; [i] is the position of the head. *)
Fixpoint accounts_match (keys : list string) (accounts : list Z) (i : nat)
    (filters : list InstructionAccountFilter) : bool :=
  match filters with
  | [] => true
  | None :: filters => accounts_match keys accounts (S i) filters
  | Some filterAccounts :: filters =>
      includes filterAccounts (accounts !! i ≫= js_nth keys)
        && accounts_match keys accounts (S i) filters
  end.

(** A JSON value is truthy unless null, false, 0 or the empty text. *)
Definition truthy_json (j : json) : bool :=
  match j with
  | JNull | JBool false | JNumber 0 | JBigInt 0 => false
  | JString s => truthy_string s
  | _ => true
  end.

Definition failed (tx : RawTransaction) : bool :=
  match meta tx ≫= err with Some e => truthy_json e | None => false end.

(** [x] when the option is a non-empty text *)
Definition truthy_text (x : option string) : option string :=
  s ← x; if truthy_string s then Some s else None.

Definition filterInstructionsProcessor `{Base58, DiscriminatorParser}
    (instruction : SolanaInstruction) (filter : option SolanaInstructionFilter) : outcome bool :=
  match filter with
  | None => Done true
  | Some filter =>
      let programId := getProgramId instruction in
      if negb (default false (if_includeFailed filter)) && failed (si_transaction instruction)
      then Done false
      else if (match truthy_text (if_programId filter) with
               | Some p => bool_decide (Some p ≠ programId)
               | None => false
               end)
      then Done false
      else if (match if_accounts filter with
               | Some filters =>
                   negb (accounts_match (accountKeys (message (si_transaction instruction)))
                           (accounts (si_raw instruction)) 0 filters)
               | None => false
               end)
      then Done false
      else match truthy_text (if_discriminator filter) with
           | Some d =>
               discriminator ← parseDiscriminator d programId;
               data ← bs58_decode (data (si_raw instruction));
               Done (indexOf data discriminator =? 0)
           | None => Done true
           end
  end.

(** ** Logs *)
Definition filterLogsProcessor (log : SolanaLogMessage) (filter : option SolanaLogFilter) : bool :=
  match filter with
  | None => true
  | Some filter =>
      match truthy_text (lf_programId filter) with
      | Some p => bool_decide (Some p = log_programId log)
      | None => true
      end
  end.

(** * Properties *)

(** What the documentation of the filters says, without the order of the tests. *)
Definition text_matches (f : option string) (x : option string) : Prop :=
  ∀ p, truthy_text f = Some p → x = Some p.

Definition accounts_ok (keys : list string) (accounts : list Z)
    (filters : list InstructionAccountFilter) : Prop :=
  ∀ i l, filters !! i = Some (Some l) →
    ∃ n key, accounts !! i = Some n ∧ js_nth keys n = Some key ∧ key ∈ l.

Lemma truthy_text_Some x s : truthy_text x = Some s ↔ x = Some s ∧ s ≠ "".
Proof.
  unfold truthy_text, truthy_string. destruct x as [t|]; simpl; [|by split; [|intros []]].
  case_bool_decide; split; try naive_solver.
Qed.

Lemma includes_spec l x : includes l x = true ↔ ∃ key, x = Some key ∧ key ∈ l.
Proof.
  destruct x as [x|]; simpl; [rewrite bool_decide_eq_true|]; naive_solver.
Qed.

Lemma accounts_match_spec keys accounts filters i :
  accounts_match keys accounts i filters = true ↔ accounts_ok keys (drop i accounts) filters.
Proof.
  unfold accounts_ok. revert i. induction filters as [|[l|] filters IH]; intros i; simpl.
  - split; [|done]. intros _ [|j]; by rewrite ?lookup_nil.
  - rewrite andb_true_iff, includes_spec, IH. split.
    + intros [(key & Hk & Hin) Hrest] [|j] l' Hj; simplify_eq/=.
      * rewrite lookup_drop, Nat.add_0_r. apply bind_Some in Hk as (n & ? & ?). eauto.
      * destruct (Hrest j l' Hj) as (n & key' & Hn & ?). exists n, key'.
        rewrite lookup_drop in Hn |- *. by rewrite Nat.add_succ_r.
    + intros H. split.
      * destruct (H 0%nat l eq_refl) as (n & key & Hn & Hk & ?). exists key. split; [|done].
        rewrite lookup_drop, Nat.add_0_r in Hn. by rewrite Hn.
      * intros j l' Hj. destruct (H (S j) l' Hj) as (n & key & Hn & ?). exists n, key.
        rewrite lookup_drop in Hn |- *. by rewrite Nat.add_succ_r in Hn.
  - rewrite IH. split; intros H.
    + intros [|j] l' Hj; simplify_eq/=. destruct (H j l' Hj) as (n & key & Hn & ?).
      exists n, key. rewrite lookup_drop in Hn |- *. by rewrite Nat.add_succ_r.
    + intros j l' Hj. destruct (H (S j) l' Hj) as (n & key & Hn & ?). exists n, key.
      rewrite lookup_drop in Hn |- *. by rewrite Nat.add_succ_r in Hn.
Qed.

(** C17: an instruction reaches the handler exactly when it is not of a failed
    transaction (unless failed ones are asked for), its program is the filter's, each
    account filter holds the key that the transaction's own list of account keys has for
    the account at its position, and its data starts with the discriminator. *)
Theorem filterInstructions_accepts `{Base58, DiscriminatorParser} instruction f :
  filterInstructionsProcessor instruction (Some f) = Done true ↔
  (failed (si_transaction instruction) = true → if_includeFailed f = Some true) ∧
  text_matches (if_programId f) (getProgramId instruction) ∧
  (∀ filters, if_accounts f = Some filters →
     accounts_ok (accountKeys (message (si_transaction instruction)))
       (accounts (si_raw instruction)) filters) ∧
  (∀ d, truthy_text (if_discriminator f) = Some d →
     ∃ disc rest, parseDiscriminator d (getProgramId instruction) = Done disc ∧
       bs58_decode (data (si_raw instruction)) = Done (disc ++ rest)).
Proof.
  unfold filterInstructionsProcessor. cbv zeta.
  assert ((negb (default false (if_includeFailed f)) && failed (si_transaction instruction) = false)
    ↔ (failed (si_transaction instruction) = true → if_includeFailed f = Some true)) as <-.
  { destruct (failed _), (if_includeFailed f) as [[]|]; naive_solver. }
  destruct (negb _ && _); [naive_solver|].
  assert ((match truthy_text (if_programId f) with
           | Some p => bool_decide (Some p ≠ getProgramId instruction)
           | None => false end = false) ↔ text_matches (if_programId f) (getProgramId instruction)) as <-.
  { unfold text_matches. destruct (truthy_text (if_programId f)) as [p|]; [|naive_solver].
    rewrite bool_decide_eq_false. split.
    - intros Hn ? [= <-]. symmetry. by apply dec_stable.
    - intros Hp []. by rewrite (Hp p). }
  destruct (match truthy_text (if_programId f) with Some _ => _ | None => _ end); [naive_solver|].
  set (keys := accountKeys _). set (accs := accounts (si_raw instruction)).
  assert ((match if_accounts f with
           | Some filters => negb (accounts_match keys accs 0 filters)
           | None => false end = false) ↔
    ∀ filters, if_accounts f = Some filters → accounts_ok keys accs filters) as <-.
  { destruct (if_accounts f) as [filters|]; [|naive_solver].
    rewrite negb_false_iff, accounts_match_spec, drop_0. naive_solver. }
  destruct (match if_accounts f with Some _ => _ | None => _ end); [naive_solver|].
  destruct (truthy_text (if_discriminator f)) as [d|]; [|naive_solver].
  split.
  - intros Hd. split_and!; [done..|]. intros ? [= <-].
    apply outcome_bind_Done_inv in Hd as (disc & Hp & Hd).
    apply outcome_bind_Done_inv in Hd as (data' & Hb & [= Hi]).
    rewrite indexOf_zero in Hi. apply is_prefix_spec in Hi as [t ->]. eauto.
  - intros (_ & _ & _ & Hd). destruct (Hd d eq_refl) as (disc & rest & -> & Hb). simpl.
    rewrite Hb. simpl. by rewrite indexOf_zero, is_prefix_refl.
Qed.

(** C37: an account that the transaction loads through an address lookup table
    never matches an account filter, whatever the filter's addresses: the test looks
    only at the transaction's own keys, while the program of the same instruction
    is looked up among all the accounts. *)
Theorem loaded_account_never_matches `{Base58, DiscriminatorParser} instruction f filters i l n :
  if_accounts f = Some filters → filters !! i = Some (Some l) →
  accounts (si_raw instruction) !! i = Some n →
  Z.of_nat (length (accountKeys (message (si_transaction instruction)))) ≤ n →
  filterInstructionsProcessor instruction (Some f) = Done false.
Proof.
  intros Hf Hi Hn Hlen. unfold filterInstructionsProcessor. cbv zeta. rewrite Hf.
  assert (accounts_match (accountKeys (message (si_transaction instruction)))
            (accounts (si_raw instruction)) 0 filters = false) as ->.
  { apply not_true_iff_false. rewrite accounts_match_spec, drop_0. intros Hok.
    destruct (Hok i l Hi) as (n' & key & Hn' & Hk & _). simplify_eq.
    unfold js_nth in Hk. case_match; [done|].
    by rewrite lookup_ge_None_2 in Hk by lia. }
  repeat case_match; done.
Qed.

(** A transaction reaches the handler exactly when the filtered key is the
    key of one of its signatures. *)
Theorem filterTransactions_accepts {I L} (tx : Tx I L) f signer :
  signerAccountKey f = Some signer → signer ≠ "" →
  filterTransactionsProcessor tx (Some f) = true ↔
  ∃ i, (i < length (signatures tx))%nat ∧ accountKeys (message tx) !! i = Some signer.
Proof.
  intros Hs Hne. unfold filterTransactionsProcessor. rewrite Hs. unfold truthy_string.
  rewrite bool_decide_true by done. rewrite existsb_exists. setoid_rewrite bool_decide_eq_true.
  split.
  - intros (x & Hin%list_elem_of_In & ->).
    apply list_elem_of_lookup in Hin as [i Hi]. rewrite list_lookup_imap in Hi.
    apply fmap_Some in Hi as (sig & Hsig & Hk). exists i. split; [|done].
    by eapply lookup_lt_Some.
  - intros (i & Hi & Hk). exists (Some signer). split; [|done].
    apply list_elem_of_In, list_elem_of_lookup. exists i. rewrite list_lookup_imap.
    apply lookup_lt_is_Some_2 in Hi as [sig ->]. simpl. by rewrite Hk.
Qed.

(** ** Instances *)

(** An encoding that keeps the bytes as characters. *)
#[local] Instance sim_base58 : Base58 := {|
  bs58_decode s := Done ((fun c => Z.of_nat (Ascii.nat_of_ascii c)) <$> String.list_ascii_of_string s);
  bs58_encode l := String.string_of_list_ascii ((fun z => Ascii.ascii_of_nat (Z.to_nat z)) <$> l)
|}.
#[local] Instance sim_discriminators : DiscriminatorParser := fun d _ => bs58_decode d.

Definition sim_tx : RawTransaction :=
  mkTx ["sig"] (mkMessage ["alice"; "program"] [] [])
    (Some (mkMeta None ["loaded"] [] None None None [])) [].
Definition sim_instruction : SolanaInstruction :=
  mkInstruction [0] (mkRawInstruction [0; 2] "claim_1" 1 None) sim_tx (mkBase 1 1 "a1" 0 "a0" []).

(** The second account of the instruction is the one asked for. *)
Lemma loaded_account_never_matches_witness :
  let f := mkInstructionFilter (Some "program") None (Some [None; Some ["loaded"]]) None in
  getAccountByIndex sim_instruction 2 = Some "loaded" ∧
  filterInstructionsProcessor sim_instruction (Some f) = Done false.
Proof.
  intros f. split; [done|].
  by apply (loaded_account_never_matches sim_instruction f [None; Some ["loaded"]] 1 ["loaded"] 2).
Defined.

Lemma filterTransactions_accepts_witness :
  filterTransactionsProcessor sim_tx (Some (mkTransactionFilter (Some "alice"))) = true.
Proof.
  apply (filterTransactions_accepts sim_tx (mkTransactionFilter (Some "alice")) "alice" eq_refl).
  - done.
  - exists 0%nat. split; [simpl; lia|done].
Defined.

Example filterInstructions_discriminator :
  filterInstructionsProcessor sim_instruction
    (Some (mkInstructionFilter None (Some "claim") (Some [Some ["alice"]]) None)) = Done true.
Proof. reflexivity. Qed.
