(* ===== verification/Blocks.v ===== *)
(** * Blocks given to handlers

    [packages/node/src/solana/block.solana.ts]: the log messages of a transaction
    with the program that wrote each, the wrapping of the raw block, and the
    header of a block. *)
From S2P Require Import Prelude JsNumber JsString JsDate Json Types.
From Stdlib Require Import Ascii.

Definition blank : ascii := " "%char.

(** ** Objects with getters

    An own property is a value or a getter; reading a getter calls the decoder, so
    the reads are recorded in the state. *)
Inductive own_property := PData (v : json) | PGetter (v : json).

Definition read_property (key : string) (p : own_property) : M (list string) json :=
  match p with
  | PData v => mret v
  | PGetter v => modify (fun reads => reads ++ [key]) ;; mret v
  end.

Fixpoint omit (input : list (string * own_property)) (keys : list string)
  : M (list string) props :=
  match input with
  | [] => mret []
  | (key, p) :: input =>
      if decide (key ∈ keys) then omit input keys
      else v ← read_property key p;
           rest ← omit input keys;
           mret ((key, v) :: rest)
  end.

(** ** Logs *)

(** [`${x}`] of a text that may be undefined *)
Definition show_undefined (x : option string) : string := default "undefined" x.

Definition unknown_mode (mode : option string) (log : string) : jserror :=
  JsError ("Unknown log mode: " +:+ show_undefined mode +:+ ", log: " +:+ log) None.

(** What the loop keeps: the messages so far and the stack of programs, whose
    last element is the program that runs. *)
Record LogState := mkLogState {
  log_res : list SolanaLogMessage;
  instructionPath : list string
}.

Definition push_log (s : LogState) (m : SolanaLogMessage) : LogState :=
  mkLogState (log_res s ++ [m]) (instructionPath s).

(** [instructionPath.pop()]: nothing when it is empty *)
Definition pop (l : list string) : list string := reverse (tail (reverse l)).

Definition wrapLog (s : LogState) (idx : Z) (log : string) : outcome LogState :=
  let programId := last (instructionPath s) in
  if startsWith "Program log:" log then
    Done (push_log s (mkLog log programId idx LogLog ResolvedNull))
  else if startsWith "Program data:" log then
    Done (push_log s (mkLog log programId idx LogData OnDemand))
  else if startsWith "Program return:" log then
    Done (push_log s (mkLog log programId idx LogOther OnDemand))
  else if startsWith "Program consumption:" log then Done s
  else if startsWith "Program" log then
    let words := split_on blank log in
    match words !! 2%nat with
    | Some mode =>
        if decide (mode = "invoke") then
          Done (mkLogState (log_res s) (instructionPath s ++ option_list (words !! 1%nat)))
        else if decide (mode = "success") then
          Done (mkLogState (log_res s) (pop (instructionPath s)))
        else if decide (mode = "consumed") then Done s
        else if decide (mode = "failed:") then
          Done (mkLogState (log_res s) (pop (instructionPath s)))
        else Throw (unknown_mode (Some mode) log)
    | None => Throw (unknown_mode None log)
    end
  else Done s.

Fixpoint wrap_lines (s : LogState) (idx : Z) (logs : list string) : outcome LogState :=
  match logs with
  | [] => Done s
  | log :: logs => s' ← wrapLog s idx log; wrap_lines s' (idx + 1) logs
  end.

(** [logs === null] is [None]. *)
Definition wrapLogs (logs : option (list string)) : outcome (option (list SolanaLogMessage)) :=
  match logs with
  | None => Done None
  | Some logs => s ← wrap_lines (mkLogState [] []) 0 logs; Done (Some (log_res s))
  end.

Definition wrapDictionaryLogs (logs : list DictionaryLog) : list SolanaLogMessage :=
  (fun l => mkLog (dl_message l) (Some (dl_programId l)) (dl_logIndex l) (dl_kind l)
              (match dl_kind l with LogLog => ResolvedNull | _ => OnDemand end)) <$> logs.

(** ** Transactions *)
Definition wrapInstruction (idx : list Z) (instruction : RawInstruction)
    (transaction : RawTransaction) (block : BaseSolanaBlock) : SolanaInstruction :=
  mkInstruction idx instruction transaction block.

(** The instructions of a list with their places appended to [prefix] *)
Definition wrap_all (prefix : list Z) (tx : RawTransaction) (block : BaseSolanaBlock)
    (l : list RawInstruction) : list SolanaInstruction :=
  imap (fun i instruction => wrapInstruction (prefix ++ [Z.of_nat i]) instruction tx block) l.

Definition transformMeta (tx : RawTransaction) (block : BaseSolanaBlock)
    (m : Meta RawInstruction DictionaryLog) : outcome (Meta SolanaInstruction SolanaLogMessage) :=
  wrapped ← (match logs m with
             | Some logs => Done (Some (wrapDictionaryLogs logs))
             | None => wrapLogs (logMessages m)
             end);
  Done (mkMeta (err m) (loaded_writable m) (loaded_readonly m)
    (Some ((fun inner => mkInner (index inner)
                           (wrap_all [index inner] tx block (inner_instructions inner)))
             <$> default [] (innerInstructions m)))
    (logMessages m) wrapped (meta_rest m)).

Definition transform_error (tx : RawTransaction) (e : jserror) : jserror :=
  JsError ("Failed to transform transaction: " +:+ show_undefined (signatures tx !! 0%nat)) (Some e).

Definition transformTransaction (block : BaseSolanaBlock) (tx : RawTransaction)
  : outcome SolanaTransaction :=
  catch
    (m ← (match meta tx with
          | Some m => m' ← transformMeta tx block m; Done (Some m')
          | None => Done None
          end);
     Done (mkTransaction
       (mkTx (signatures tx)
          (mkMessage (accountKeys (message tx))
             (wrap_all [] tx block (instructions (message tx))) (message_rest (message tx)))
          m (tx_rest tx)) block))
    (fun e => Throw (transform_error tx e)).

Definition transformBlock (block : RawSolanaBlock) : outcome SolanaBlock :=
  txs ← traverse (transformTransaction (raw_base block)) (raw_transactions block);
  Done (mkBlock (raw_base block) txs).

(** ** Headers *)
Definition solanaBlockToHeader (block : BaseSolanaBlock) (slot : option Z) : Header :=
  mkHeader (default (num_add (Number (sb_parentSlot block)) 1) slot)
    (sb_blockhash block) (Some (sb_previousBlockhash block))
    (new_Date (num_mul (Number (sb_blockTime block)) 1000)).

Definition formatBlockUtil (block : SolanaBlock) (slot : option Z) : IBlock SolanaBlock :=
  mkIBlock block (solanaBlockToHeader (block_base block) slot).

(** [toJSON] of a wrapped instruction and of a wrapped log message.  The getters
    give the value they resolve to; a property that is undefined has no text. *)
Definition instruction_properties (raw : props) (decoded : json) (i : SolanaInstruction)
  : list (string * own_property) :=
  ((fun kv => (kv.1, PData kv.2)) <$> raw) ++
  [("index", PData (JArray (JNumber <$> si_index i)));
   ("transaction", PData JNull); ("block", PData JNull); ("decodedData", PGetter decoded)].
Definition instruction_toJSON (raw : props) (decoded : json) (i : SolanaInstruction)
  : M (list string) props :=
  omit (instruction_properties raw decoded i) ["block"; "decodedData"; "transaction"].

Definition log_properties (decoded : json) (l : SolanaLogMessage) : list (string * own_property) :=
  [("message", PData (JString (log_message l)))] ++
  option_list ((fun p => ("programId", PData (JString p))) <$> log_programId l) ++
  [("logIndex", PData (JNumber (logIndex l)));
   ("type", PData (JString (match log_type l with LogLog => "log" | LogData => "data" | LogOther => "other" end)));
   ("decodedMessage", PGetter decoded)].
Definition log_toJSON (decoded : json) (l : SolanaLogMessage) : M (list string) props :=
  omit (log_properties decoded l) ["decodedMessage"].
