(* ===== verification/BlocksSpec.v ===== *)
(** * What the wrapped blocks say

    The abstract view of a transaction's log is a tree of program invocations.
    The stack machine of [wrapLogs] gives every message of the log of such a tree
    the program that was running, and its position in the log; a line it does not
    know makes the whole block fail; and the wrapping of a block loses nothing of it. *)
From S2P Require Import Prelude JsNumber JsString JsDate Json Types Blocks.
From Stdlib Require Import Sorted.
From Stdlib Require Import Ascii.

(** ** Traces of invocations *)
Inductive line :=
| LineLog (text : string)
| LineData (text : string)
| LineReturn (text : string)
| LineConsumption (text : string)
| LineConsumed (program text : string)
| LineOther (text : string).

(** A trace is a sequence of lines and calls; a call has the trace of its body
    and the error it failed with, if it failed. *)
Inductive trace :=
| TEnd
| TLine (l : line) (rest : trace)
| TCall (program depth : string) (body : trace) (error : option string) (rest : trace).

Definition line_text (l : line) : string :=
  match l with
  | LineLog t => "Program log:" +:+ t
  | LineData t => "Program data:" +:+ t
  | LineReturn t => "Program return:" +:+ t
  | LineConsumption t => "Program consumption:" +:+ t
  | LineConsumed p t => "Program " +:+ p +:+ " consumed " +:+ t
  | LineOther t => t
  end.

Definition invoke_text (p depth : string) : string := "Program " +:+ p +:+ " invoke " +:+ depth.
Definition result_text (p : string) (error : option string) : string :=
  match error with
  | None => "Program " +:+ p +:+ " success"
  | Some e => "Program " +:+ p +:+ " failed: " +:+ e
  end.

(** The log of a trace. *)
Fixpoint render (t : trace) : list string :=
  match t with
  | TEnd => []
  | TLine l rest => line_text l :: render rest
  | TCall p depth body error rest =>
      invoke_text p depth :: render body ++ result_text p error :: render rest
  end.

(** The messages of a trace whose first line has index [i], run by [top]. *)
Definition line_messages (top : option string) (i : Z) (l : line) : list SolanaLogMessage :=
  match l with
  | LineLog _ => [mkLog (line_text l) top i LogLog ResolvedNull]
  | LineData _ => [mkLog (line_text l) top i LogData OnDemand]
  | LineReturn _ => [mkLog (line_text l) top i LogOther OnDemand]
  | _ => []
  end.
Fixpoint messages (top : option string) (i : Z) (t : trace) : list SolanaLogMessage :=
  match t with
  | TEnd => []
  | TLine l rest => line_messages top i l ++ messages top (i + 1) rest
  | TCall p _ body _ rest =>
      messages (Some p) (i + 1) body
        ++ messages top (i + 1 + Z.of_nat (length (render body)) + 1) rest
  end.

(** A program's address has no blank and no colon, and lines of other kinds do
    not begin like the program's. *)
Definition address_ok (p : string) : bool := negb (has_char blank p) && negb (has_char ":" p).
Fixpoint trace_ok (t : trace) : bool :=
  match t with
  | TEnd => true
  | TLine (LineConsumed p _) rest => address_ok p && trace_ok rest
  | TLine (LineOther t) rest => negb (startsWith "Program" t) && trace_ok rest
  | TLine _ rest => trace_ok rest
  | TCall p _ body _ rest => address_ok p && trace_ok body && trace_ok rest
  end.

(** ** The stack machine *)
Lemma pop_snoc l x : pop (l ++ [x]) = l.
Proof. unfold pop. rewrite reverse_snoc. simpl. apply reverse_involutive. Qed.

Lemma startsWith_app a q s : startsWith (a +:+ q) (a +:+ s) = startsWith q s.
Proof.
  induction a as [|c a IH]; [done|]. rewrite !string_app_cons. simpl.
  by rewrite bool_decide_true.
Qed.

(** An address followed by a blank does not begin with a text that has a colon
    and no blank. *)
Lemma startsWith_address q p rest :
  has_char ":" q = true → has_char blank q = false → has_char ":" p = false →
  startsWith q (p +:+ String blank rest) = false.
Proof.
  revert p. induction q as [|d q IH]; [done|]. intros [|e p]; simpl has_char;
    rewrite ?orb_true_iff, ?orb_false_iff, ?bool_decide_eq_true, ?bool_decide_eq_false.
  - intros _ [Hd _] _. simpl. by rewrite bool_decide_false by (by apply not_eq_sym).
  - intros Hq [Hd Hb] [He Hp]. rewrite string_app_cons. simpl.
    case_bool_decide as E; [|done]. simpl. apply IH; [|done..].
    destruct Hq as [<-|?]; [by destruct (He E)|done].
Qed.

Lemma address_ok_spec p :
  address_ok p = true ↔ has_char blank p = false ∧ has_char ":" p = false.
Proof. unfold address_ok. by rewrite andb_true_iff, !negb_true_iff. Qed.

(** What a line about a program does, by its third word. *)
Definition run_mode (s : LogState) (p mode log : string) : outcome LogState :=
  if decide (mode = "invoke") then Done (mkLogState (log_res s) (instructionPath s ++ [p]))
  else if decide (mode = "success") then Done (mkLogState (log_res s) (pop (instructionPath s)))
  else if decide (mode = "consumed") then Done s
  else if decide (mode = "failed:") then Done (mkLogState (log_res s) (pop (instructionPath s)))
  else Throw (unknown_mode (Some mode) log).

Lemma wrapLog_program s i p mode ws tl :
  address_ok p = true → split_on blank tl = mode :: ws →
  let log := "Program " +:+ p +:+ String blank tl in
  wrapLog s i log = run_mode s p mode log.
Proof.
  intros [Hb Hc]%address_ok_spec Hm log.
  assert (∀ q, has_char ":" q = true → has_char blank q = false →
    startsWith ("Program " +:+ q) log = false) as Hq.
  { intros q ??. unfold log. rewrite startsWith_app. by apply startsWith_address. }
  unfold wrapLog.
  rewrite (Hq "log:" eq_refl eq_refl : startsWith "Program log:" log = false).
  rewrite (Hq "data:" eq_refl eq_refl : startsWith "Program data:" log = false).
  rewrite (Hq "return:" eq_refl eq_refl : startsWith "Program return:" log = false).
  rewrite (Hq "consumption:" eq_refl eq_refl : startsWith "Program consumption:" log = false).
  change (startsWith "Program" log) with true. cbv iota.
  assert (split_on blank log = "Program" :: p :: mode :: ws) as ->; [|done].
  change log with ("Program" +:+ String blank (p +:+ String blank tl)).
  rewrite split_on_app_sep by done. f_equal. rewrite split_on_app_sep by done. by f_equal.
Qed.

Lemma wrapLog_line s i l :
  trace_ok (TLine l TEnd) = true →
  wrapLog s i (line_text l) =
    Done (mkLogState (log_res s ++ line_messages (last (instructionPath s)) i l) (instructionPath s)).
Proof.
  intros Hok. destruct s as [res path]. destruct l as [t|t|t|t|p t|t].
  1-3: reflexivity.
  - cbn [line_messages log_res]. by rewrite app_nil_r.
  - cbn [trace_ok] in Hok. apply andb_prop in Hok as [Hok _]. cbn [line_messages log_res].
    rewrite app_nil_r. change (line_text (LineConsumed p t)) with
      ("Program " +:+ p +:+ String blank ("consumed" +:+ String blank t)).
    rewrite (wrapLog_program _ _ _ "consumed" (split_on blank t)); [done|done|].
    by rewrite split_on_app_sep.
  - cbn [trace_ok] in Hok. apply andb_prop in Hok as [Hok _]. cbn [line_messages log_res line_text].
    rewrite app_nil_r. apply negb_true_iff in Hok.
    assert (∀ q, startsWith ("Program" +:+ q) t = false) as Hq.
    { intros q. apply not_true_iff_false. intros [r ->]%startsWith_spec.
      rewrite <- string_app_assoc, startsWith_refl in Hok. done. }
    unfold wrapLog.
    rewrite (Hq " log:" : startsWith "Program log:" t = false).
    rewrite (Hq " data:" : startsWith "Program data:" t = false).
    rewrite (Hq " return:" : startsWith "Program return:" t = false).
    by rewrite (Hq " consumption:" : startsWith "Program consumption:" t = false), Hok.
Qed.

Lemma wrap_lines_trace t s i k :
  trace_ok t = true →
  wrap_lines s i (render t ++ k) =
    wrap_lines (mkLogState (log_res s ++ messages (last (instructionPath s)) i t) (instructionPath s))
      (i + Z.of_nat (length (render t))) k.
Proof.
  revert s i k. induction t as [|l rest IH|p depth body IHb error rest IHr]; intros s i k Hok.
  - simpl. rewrite app_nil_r, Z.add_0_r. by destruct s.
  - cbn [render app wrap_lines]. rewrite wrapLog_line by (destruct l; cbn [trace_ok] in *;
      rewrite ?andb_true_iff in *; tauto).
    cbn [mbind outcome_bind]. rewrite IH by (destruct l; cbn [trace_ok] in Hok;
      rewrite ?andb_true_iff in Hok; tauto).
    cbn [log_res instructionPath messages length]. rewrite <- app_assoc. f_equal. lia.
  - cbn [trace_ok] in Hok. rewrite !andb_true_iff in Hok. destruct Hok as [[Hp Hb] Hr].
    cbn [render app wrap_lines].
    change (invoke_text p depth) with ("Program " +:+ p +:+ String blank ("invoke" +:+ String blank depth)).
    rewrite (wrapLog_program _ _ _ "invoke" (split_on blank depth)) by
      (try done; by rewrite split_on_app_sep).
    unfold run_mode. rewrite <- app_assoc. rewrite decide_True by done.
    cbn [mbind outcome_bind]. rewrite IHb by done.
    cbn [log_res instructionPath]. rewrite last_snoc. cbn [app wrap_lines].
    assert (∀ s2 j, wrapLog s2 j (result_text p error) =
      Done (mkLogState (log_res s2) (pop (instructionPath s2)))) as Hres.
    { intros s2 j. destruct error as [e|].
      - change (result_text p (Some e)) with
          ("Program " +:+ p +:+ String blank ("failed:" +:+ String blank e)).
        rewrite (wrapLog_program _ _ _ "failed:" (split_on blank e)) by
          (try done; by rewrite split_on_app_sep). done.
      - change (result_text p None) with ("Program " +:+ p +:+ String blank "success").
        by rewrite (wrapLog_program _ _ _ "success" []). }
    rewrite Hres. cbn [mbind outcome_bind log_res instructionPath]. rewrite pop_snoc, IHr by done.
    cbn [log_res instructionPath messages]. rewrite <- app_assoc. f_equal.
    cbn [length]. rewrite length_app. cbn [length]. lia.
Qed.

Lemma wrap_lines_app s i l1 l2 :
  wrap_lines s i (l1 ++ l2) =
    (s' ← wrap_lines s i l1; wrap_lines s' (i + Z.of_nat (length l1)) l2).
Proof.
  revert s i. induction l1 as [|x l1 IH]; intros s i.
  - simpl. by rewrite Z.add_0_r.
  - cbn [app wrap_lines]. destruct (wrapLog s i x) as [s1| | |]; cbn [mbind outcome_bind]; try done.
    rewrite IH. destruct (wrap_lines s1 (i + 1) l1); cbn [mbind outcome_bind]; try done.
    f_equal. cbn [length]. lia.
Qed.

(** C13: the log of any tree of invocations, of any depth, with successes and
    failures, is wrapped without error: every log, data and return message is given
    the program that was running when it was written, its place in the log and its
    kind, and the other lines give none. *)
Theorem wrapLogs_trace t :
  trace_ok t = true → wrapLogs (Some (render t)) = Done (Some (messages None 0 t)).
Proof.
  intros Hok. unfold wrapLogs. rewrite <- (app_nil_r (render t)).
  by rewrite wrap_lines_trace.
Qed.

(** C36: a line about a program whose third word is not one of the four known
    ones makes the wrapping of the whole block fail, with the signature of the
    transaction; so does "Program failed to complete", which the runtime writes. *)
Theorem unknown_line_fails_block block before l tx after lines s p mode ws tl rest m :
  raw_transactions block = before ++ tx :: after →
  traverse (transformTransaction (raw_base block)) before = Done l →
  meta tx = Some m → logs m = None →
  logMessages m = Some (lines ++ ("Program " +:+ p +:+ String blank tl) :: rest) →
  wrap_lines (mkLogState [] []) 0 lines = Done s → address_ok p = true → split_on blank tl = mode :: ws →
  mode ∉ ["invoke"; "success"; "consumed"; "failed:"] →
  transformBlock block = Throw (transform_error tx
    (unknown_mode (Some mode) ("Program " +:+ p +:+ String blank tl))).
Proof.
  intros Hb Hl Hm Hlogs Hmsg Ht Hp Hmode Hun.
  unfold transformBlock. rewrite Hb, traverse_app, Hl.
  cbn [mbind outcome_bind traverse].
  assert (transformTransaction (raw_base block) tx = Throw (transform_error tx
    (unknown_mode (Some mode) ("Program " +:+ p +:+ String blank tl)))) as ->; [|done].
  unfold transformTransaction, transformMeta. rewrite Hm, Hlogs, Hmsg. unfold wrapLogs.
  rewrite wrap_lines_app, Ht. cbn [mbind outcome_bind wrap_lines].
  rewrite (wrapLog_program _ _ _ mode ws) by done.
  unfold run_mode. rewrite !decide_False by set_solver. done.
Qed.

(** ** What wrapping keeps *)

(** A wrapped instruction is the raw one with its place and links. *)
Definition wraps_instruction (tx : RawTransaction) (block : BaseSolanaBlock) (idx : list Z)
    (raw : RawInstruction) (i : SolanaInstruction) : Prop :=
  si_raw i = raw ∧ si_index i = idx ∧ si_transaction i = tx ∧ si_block i = block.

Definition wraps_list (tx : RawTransaction) (block : BaseSolanaBlock) (prefix : list Z)
    (raw : list RawInstruction) (l : list SolanaInstruction) : Prop :=
  length l = length raw ∧
  ∀ k r, raw !! k = Some r → ∃ i, l !! k = Some i ∧
    wraps_instruction tx block (prefix ++ [Z.of_nat k]) r i.

Definition wraps_transaction (block : BaseSolanaBlock) (tx : RawTransaction)
    (st : SolanaTransaction) : Prop :=
  st_block st = block ∧ signatures (st_tx st) = signatures tx ∧
  accountKeys (message (st_tx st)) = accountKeys (message tx) ∧
  wraps_list tx block [] (instructions (message tx)) (instructions (message (st_tx st))) ∧
  match meta tx, meta (st_tx st) with
  | None, None => True
  | Some m, Some m' =>
      err m' = err m ∧ loaded_writable m' = loaded_writable m ∧
      loaded_readonly m' = loaded_readonly m ∧
      ∃ inners, innerInstructions m' = Some inners ∧
        Forall2 (fun raw w => index w = index raw ∧
          wraps_list tx block [index raw] (inner_instructions raw) (inner_instructions w))
          (default [] (innerInstructions m)) inners
  | _, _ => False
  end.

Lemma wrap_all_spec prefix tx block raw :
  wraps_list tx block prefix raw (wrap_all prefix tx block raw).
Proof.
  unfold wrap_all. split; [by rewrite length_imap|]. intros k r Hk.
  eexists. rewrite list_lookup_imap, Hk. by split_and!.
Qed.

Lemma transformTransaction_spec block tx st :
  transformTransaction block tx = Done st → wraps_transaction block tx st.
Proof.
  unfold transformTransaction, catch. destruct (meta tx) as [m|] eqn:Hm.
  - unfold transformMeta. destruct (match logs m with Some _ => _ | None => _ end) as [w|e|x|];
      simpl; try done.
    intros [= <-]. unfold wraps_transaction. simpl. rewrite Hm. split_and!; try done.
    + apply wrap_all_spec.
    + eexists. split; [done|]. apply Forall2_fmap_r, Forall_Forall2_diag, Forall_forall.
      intros inner _. split; [done|]. apply wrap_all_spec.
  - simpl. intros [= <-]. unfold wraps_transaction. simpl. rewrite Hm. split_and!; try done.
    apply wrap_all_spec.
Qed.

(** A block that is wrapped keeps all of its transactions in order, and each
    keeps its signatures, accounts and error; every instruction, also the inner
    ones, is there once, with its place, its transaction and the block. *)
Theorem transformBlock_keeps block res :
  transformBlock block = Done res →
  block_base res = raw_base block ∧
  Forall2 (wraps_transaction (raw_base block)) (raw_transactions block) (transactions res).
Proof.
  intros (txs & Htxs%traverse_Forall2 & [= <-])%outcome_bind_Done_inv. split; [done|].
  eapply Forall2_impl; [exact Htxs|]. intros tx st. apply transformTransaction_spec.
Qed.

(** ** Positions *)
Lemma wrapLog_result s i log s' :
  wrapLog s i log = Done s' →
  ∃ new, log_res s' = log_res s ++ new ∧
    (new = [] ∨ ∃ m, new = [m] ∧ logIndex m = i ∧ log_message m = log).
Proof.
  unfold wrapLog, push_log. intros H. repeat case_match; simplify_eq; cbn;
    first [by exists []; rewrite app_nil_r; auto|by eexists; split; [done|]; right; eexists].
Qed.

Lemma wrap_lines_result s i lines s' :
  wrap_lines s i lines = Done s' →
  ∃ new, log_res s' = log_res s ++ new ∧ StronglySorted Z.lt (logIndex <$> new) ∧
    Forall (fun m => ∃ k, logIndex m = i + Z.of_nat k ∧ lines !! k = Some (log_message m)) new.
Proof.
  revert s i. induction lines as [|log lines IH]; intros s i; cbn [wrap_lines].
  - intros [= <-]. exists []. rewrite app_nil_r. repeat constructor.
  - intros (s1 & H1%wrapLog_result & H2%IH)%outcome_bind_Done_inv.
    destruct H1 as (n1 & E1 & H1), H2 as (n2 & E2 & Hs2 & H2). exists (n1 ++ n2).
    rewrite E2, E1, app_assoc. split; [done|].
    assert (Forall (fun m => ∃ k, logIndex m = i + Z.of_nat (S k) ∧ lines !! k = Some (log_message m)) n2)
      as H2'.
    { eapply Forall_impl; [exact H2|]. intros m (k & -> & Hk). exists k. split; [lia|done]. }
    destruct H1 as [->|(m & -> & <- & Hm)]; cbn.
    + split; [done|]. eapply Forall_impl; [exact H2'|]. intros x (k & ? & ?). by exists (S k).
    + split.
      * constructor; [done|]. apply Forall_fmap. eapply Forall_impl; [exact H2'|].
        intros x (k & Hk & _). cbn. lia.
      * constructor; [exists 0%nat; split; [lia|cbn; by f_equal]|].
        eapply Forall_impl; [exact H2'|]. intros x (k & ? & ?). by exists (S k).
Qed.

(** The messages of a log are lines of it in the order of the log: their positions
    are within the log and increase strictly, and each text is the line there. *)
Theorem wrapLogs_positions lines l :
  wrapLogs (Some lines) = Done (Some l) →
  StronglySorted Z.lt (logIndex <$> l) ∧
  Forall (fun m => 0 ≤ logIndex m < Z.of_nat (length lines) ∧
                   js_nth lines (logIndex m) = Some (log_message m)) l.
Proof.
  unfold wrapLogs. intros (s & H%wrap_lines_result & [= <-])%outcome_bind_Done_inv.
  destruct H as (new & E & Hs & H). rewrite E. cbn. split; [done|]. eapply Forall_impl; [exact H|].
  intros m (k & -> & Hk). pose proof (lookup_lt_Some _ _ _ Hk). split; [lia|].
  unfold js_nth. rewrite (proj2 (Z.ltb_ge _ _)) by lia. by replace (Z.to_nat (0 + Z.of_nat k)) with k by lia.
Qed.

(** ** Serialization *)
Lemma omit_data (raw : list (string * json)) l keys reads :
  omit (((fun kv => (kv.1, PData kv.2)) <$> raw) ++ l) keys reads =
    (rest ← omit l keys; mret (filter (fun kv => kv.1 ∉ keys) raw ++ rest)) reads.
Proof.
  induction raw as [|[k v] raw IH].
  - unfold mbind, M_bind. simpl. by destruct (omit l keys reads) as [[] ?].
  - cbn [fmap list_fmap app omit fst snd]. rewrite filter_cons. cbn [fst].
    destruct (decide (k ∈ keys)) as [Hin|Hin].
    + rewrite decide_False by auto. exact IH.
    + rewrite decide_True by done.
      rewrite (bind_Done (read_property k (PData v)) _ reads v reads) by done.
      unfold mbind, M_bind in *. rewrite IH. by destruct (omit l keys reads) as [[] ?].
Qed.

(** Serializing a wrapped instruction, which is done to measure a block,
    never reads the getter that decodes it, and leaves out its block and
    transaction. *)
Lemma instruction_toJSON_no_decode raw decoded i reads :
  instruction_toJSON raw decoded i reads =
    (Done (filter (fun kv => kv.1 ∉ ["block"; "decodedData"; "transaction"]) raw
             ++ [("index", JArray (JNumber <$> si_index i))]), reads).
Proof.
  unfold instruction_toJSON, instruction_properties. by rewrite omit_data.
Qed.

(** ** Instances *)
Definition sim_trace : trace :=
  TCall "outer" "[1]" (TLine (LineLog " Instruction: Route")
    (TCall "inner" "[2]" (TLine (LineData " AQID") TEnd) (Some "custom program error: 0x1")
      (TLine (LineConsumed "inner" "30 of 200000 compute units") TEnd))) None
    (TLine (LineOther "log truncated") TEnd).

Lemma wrapLogs_trace_witness :
  wrapLogs (Some ["Program outer invoke [1]"; "Program log: Instruction: Route";
      "Program inner invoke [2]"; "Program data: AQID";
      "Program inner failed: custom program error: 0x1";
      "Program inner consumed 30 of 200000 compute units";
      "Program outer success"; "log truncated"]) =
    Done (Some [mkLog "Program log: Instruction: Route" (Some "outer") 1 LogLog ResolvedNull;
                mkLog "Program data: AQID" (Some "inner") 3 LogData OnDemand]).
Proof. exact (wrapLogs_trace sim_trace eq_refl). Defined.

Lemma wrapLogs_positions_witness :
  let m := mkLog "Program log: b" None 1 LogLog ResolvedNull in
  StronglySorted Z.lt (logIndex <$> [m]) ∧
  Forall (fun m => 0 ≤ logIndex m < 2 ∧ js_nth ["a"; "Program log: b"] (logIndex m) = Some (log_message m)) [m].
Proof. intros m. exact (wrapLogs_positions ["a"; "Program log: b"] [m] eq_refl). Defined.

Definition sim_log_tx : RawTransaction :=
  mkTx ["sig1"] (mkMessage ["alice"; "outer"] [mkRawInstruction [0] "x" 1 None] [])
    (Some (mkMeta None [] [] None
      (Some ["Program outer invoke [1]"; "Program failed to complete: exceeded CUs meter"])
      None [])) [].
Definition sim_log_block : RawSolanaBlock := mkRawBlock (mkBase 5 100 "a5" 4 "a4" []) [sim_log_tx].

Lemma unknown_line_fails_block_witness :
  transformBlock sim_log_block =
    Throw (JsError "Failed to transform transaction: sig1" (Some
      (JsError "Unknown log mode: to, log: Program failed to complete: exceeded CUs meter" None))).
Proof.
  apply (unknown_line_fails_block sim_log_block [] [] sim_log_tx []
    ["Program outer invoke [1]"] (mkLogState [] ["outer"]) "failed" "to"
    ["complete:"; "exceeded"; "CUs"; "meter"] "to complete: exceeded CUs meter" []
    (mkMeta None [] [] None
      (Some ["Program outer invoke [1]"; "Program failed to complete: exceeded CUs meter"])
      None [])); try done. set_solver.
Defined.

Lemma transformBlock_keeps_witness :
  let b := mkRawBlock (mkBase 5 100 "a5" 4 "a4" [])
    [mkTx ["sig1"] (mkMessage ["alice"] [mkRawInstruction [0] "x" 0 None] []) None []] in
  ∃ res, transformBlock b = Done res ∧
    Forall2 (wraps_transaction (raw_base b)) (raw_transactions b) (transactions res).
Proof.
  intros b. eexists. split; [reflexivity|].
  exact (proj2 (transformBlock_keeps b _ eq_refl)).
Defined.
