(* ===== verification/BlockSize.v ===== *)
(** * The size of a block

    [packages/node/src/indexer/types.ts]: the bytes of the texts of a block's
    transactions, with the [toJSON] methods of [block.solana.ts] and the one that
    [main.ts] installs for bigints.  The characters of a string count as its UTF-8
    bytes, as those of the ASCII texts of a transaction do. *)
From S2P Require Import Prelude JsNumber JsString JsDate Json Types Blocks BlocksSpec.

(** ** Texts *)
Fixpoint has_bigint (v : json) : bool :=
  match v with
  | JBigInt _ => true
  | JArray l => existsb has_bigint l
  | JObject l => existsb (fun kv => has_bigint kv.2) l
  | _ => false
  end.

(** [JSON.stringify(v)], where [BigInt.prototype.toJSON] may be installed *)
Definition JSON_stringify (bigint_toJSON : bool) (v : json) : outcome string :=
  if has_bigint v && negb bigint_toJSON
  then Throw (TypeError "Do not know how to serialize a BigInt")
  else Done (stringify v).

(** [Buffer.byteLength(s, 'utf8')] *)
Definition byteLength (s : string) : Z := Z.of_nat (String.length s).

(** ** Values *)
Definition strings (l : list string) : json := JArray (JString <$> l).

Definition instruction_props (r : RawInstruction) : props :=
  [("accounts", JArray (JNumber <$> accounts r)); ("data", JString (data r));
   ("programIdIndex", JNumber (programIdIndex r))] ++
  option_list ((fun h => ("stackHeight", match h with Some z => JNumber z | None => JNull end)) <$> stackHeight r).

Definition base_block_json (b : BaseSolanaBlock) : json :=
  JObject ([("blockHeight", JBigInt (sb_blockHeight b)); ("blockTime", JBigInt (sb_blockTime b));
            ("blockhash", JString (sb_blockhash b)); ("parentSlot", JBigInt (sb_parentSlot b));
            ("previousBlockhash", JString (sb_previousBlockhash b))] ++ sb_rest b).

(** The properties of a message, of a transaction's meta and of a transaction, from
    the values of the parts that have a [toJSON].  A dictionary block has logs and may
    have no raw messages; with neither, both are null. *)
Definition message_json (m : Message SolanaInstruction) (ins : list json) : json :=
  JObject ([("accountKeys", strings (accountKeys m)); ("instructions", JArray ins)] ++ message_rest m).

Definition logMessages_props {I L} (m : Meta I L) : props :=
  match logMessages m, logs m with
  | Some l, _ => [("logMessages", strings l)]
  | None, None => [("logMessages", JNull)]
  | None, Some _ => []
  end.

Definition meta_json (m : Meta SolanaInstruction SolanaLogMessage) (inner : option (list json))
    (ls : option (list json)) : json :=
  JObject ([("err", default JNull (err m));
            ("loadedAddresses", JObject [("readonly", strings (loaded_readonly m));
                                         ("writable", strings (loaded_writable m))])] ++
           option_list ((fun l => ("innerInstructions", JArray l)) <$> inner) ++
           logMessages_props m ++
           [("logs", match ls with Some l => JArray l | None => JNull end)] ++ meta_rest m).

Definition inner_json (i : Inner SolanaInstruction) (ins : list json) : json :=
  JObject [("index", JNumber (index i)); ("instructions", JArray ins)].

Definition transaction_json (tx : SolanaTransaction) (message m : json) : json :=
  JObject (tx_rest (st_tx tx) ++
    [("block", base_block_json (st_block tx)); ("meta", m);
     ("transaction", JObject [("signatures", strings (signatures (st_tx tx))); ("message", message)])]).

(** ** Serialization

    The state records the getters that are read. *)
Section size.
Context (decoded_instruction : SolanaInstruction → json) (decoded_log : SolanaLogMessage → json).

Definition serialize_instruction (i : SolanaInstruction) : M (list string) json :=
  p ← instruction_toJSON (instruction_props (si_raw i)) (decoded_instruction i) i; mret (JObject p).

Definition serialize_log (l : SolanaLogMessage) : M (list string) json :=
  p ← log_toJSON (decoded_log l) l; mret (JObject p).

Definition serialize_inner (i : Inner SolanaInstruction) : M (list string) json :=
  ins ← mapM serialize_instruction (inner_instructions i); mret (inner_json i ins).

(** A property that may be undefined *)
Definition serialize_option {A} (f : A → M (list string) json) (l : option (list A))
  : M (list string) (option (list json)) :=
  match l with Some l => vs ← mapM f l; mret (Some vs) | None => mret None end.

Definition serialize_meta (m : option (Meta SolanaInstruction SolanaLogMessage)) : M (list string) json :=
  match m with
  | None => mret JNull
  | Some m =>
      inner ← serialize_option serialize_inner (innerInstructions m);
      ls ← serialize_option serialize_log (logs m);
      mret (meta_json m inner ls)
  end.

Definition serialize_transaction (tx : SolanaTransaction) : M (list string) json :=
  ins ← mapM serialize_instruction (instructions (message (st_tx tx)));
  m ← serialize_meta (meta (st_tx tx));
  mret (transaction_json tx (message_json (message (st_tx tx)) ins) m).

Definition getBlockSize (bigint_toJSON : bool) (block : SolanaBlock) : M (list string) Z :=
  sizes ← mapM (fun tx =>
    v ← serialize_transaction tx;
    text ← of_outcome (JSON_stringify bigint_toJSON v);
    mret (byteLength text)) (transactions block);
  mret (foldl num_add 0 sizes).

(** ** The values without the getters *)
Definition plain_instruction (i : SolanaInstruction) : json :=
  JObject (instruction_props (si_raw i) ++ [("index", JArray (JNumber <$> si_index i))]).

Definition plain_log (l : SolanaLogMessage) : json :=
  JObject (("message", JString (log_message l)) ::
    option_list ((fun p => ("programId", JString p)) <$> log_programId l) ++
    [("logIndex", JNumber (logIndex l));
     ("type", JString (match log_type l with LogLog => "log" | LogData => "data" | LogOther => "other" end))]).

Definition plain_meta (m : option (Meta SolanaInstruction SolanaLogMessage)) : json :=
  match m with
  | None => JNull
  | Some m =>
      meta_json m
        (map (fun i => inner_json i (map plain_instruction (inner_instructions i))) <$> innerInstructions m)
        (map plain_log <$> logs m)
  end.

Definition plain_transaction (tx : SolanaTransaction) : json :=
  transaction_json tx
    (message_json (message (st_tx tx)) (plain_instruction <$> instructions (message (st_tx tx))))
    (plain_meta (meta (st_tx tx))).

(** What reads nothing and returns *)
Definition pure_run {A} (m : M (list string) A) (a : A) : Prop := ∀ reads, m reads = (Done a, reads).

Lemma pure_bind {A B} (m : M (list string) A) (k : A → M (list string) B) a b :
  pure_run m a → pure_run (k a) b → pure_run (m ≫= k) b.
Proof. intros Hm Hk reads. rewrite (bind_Done _ _ _ _ _ (Hm reads)). apply Hk. Qed.

Lemma pure_mapM {A B} (f : A → M (list string) B) (g : A → B) l :
  (∀ x, pure_run (f x) (g x)) → pure_run (mapM f l) (g <$> l).
Proof.
  intros H. induction l as [|x l IH]; [done|]. cbn [mapM fmap list_fmap].
  eapply pure_bind; [apply H|]. by eapply pure_bind.
Qed.

Lemma pure_option {A} (f : A → M (list string) json) (g : A → json) l :
  (∀ x, pure_run (f x) (g x)) → pure_run (serialize_option f l) (map g <$> l).
Proof.
  intros H. destruct l as [l|]; [|done]. eapply pure_bind; [by apply pure_mapM|done].
Qed.

Lemma instruction_props_kept r :
  filter (fun kv => kv.1 ∉ ["block"; "decodedData"; "transaction"]) (instruction_props r) =
    instruction_props r.
Proof. unfold instruction_props. by destruct (stackHeight r). Qed.

Lemma serialize_instruction_pure i : pure_run (serialize_instruction i) (plain_instruction i).
Proof.
  eapply pure_bind; [intros reads; apply instruction_toJSON_no_decode|].
  by rewrite instruction_props_kept.
Qed.

Lemma serialize_log_pure l : pure_run (serialize_log l) (plain_log l).
Proof.
  intros reads. unfold serialize_log, log_toJSON, log_properties, plain_log.
  by destruct (log_programId l).
Qed.

Lemma serialize_transaction_pure tx : pure_run (serialize_transaction tx) (plain_transaction tx).
Proof.
  eapply pure_bind; [apply pure_mapM, serialize_instruction_pure|].
  apply (pure_bind _ _ (plain_meta (meta (st_tx tx)))); [|done].
  destruct (meta (st_tx tx)) as [m|]; [|done]. unfold serialize_meta.
  eapply pure_bind; [apply pure_option|].
  - intros i. eapply pure_bind; [apply pure_mapM, serialize_instruction_pure|done].
  - by eapply pure_bind; [apply pure_option, serialize_log_pure|].
Qed.

(** ** Sums of numbers *)
Definition total (l : list Z) : Z := foldr Z.add 0 l.

Lemma foldl_num_add l a :
  0 ≤ a → Forall (fun x => 0 ≤ x) l → a + total l ≤ MAX_SAFE_INTEGER → foldl num_add a l = a + total l.
Proof.
  intros Ha Hl. revert a Ha. induction Hl as [|x l Hx Hl IH]; intros a Ha; simpl; [lia|].
  assert (0 ≤ total l) as Ht by (clear -Hl; induction Hl; simpl; lia).
  intros H. assert (num_add a x = a + x) as ->.
  { apply js_round_exact. unfold MAX_SAFE_INTEGER in H. lia. }
  rewrite IH; lia.
Qed.

Lemma base_block_bigint tx m1 m2 : has_bigint (transaction_json tx m1 m2) = true.
Proof.
  unfold transaction_json. cbn [has_bigint]. rewrite existsb_app. cbn. by rewrite orb_true_r.
Qed.

(** C28: measuring a block in a thread whose bigints have a text returns the sum of the
    byte lengths of its transactions' texts, exact as long as it is a safe integer;
    no transaction is decoded for it, and an instruction's transaction and block are
    not written out again. *)
Theorem getBlockSize_sum block :
  let sizes := (fun tx => byteLength (stringify (plain_transaction tx))) <$> transactions block in
  pure_run (getBlockSize true block) (foldl num_add 0 sizes) ∧
  (total sizes ≤ MAX_SAFE_INTEGER → foldl num_add 0 sizes = total sizes).
Proof.
  intros sizes. split.
  - eapply pure_bind; [|done]. apply pure_mapM. intros tx.
    eapply pure_bind; [apply serialize_transaction_pure|]. unfold JSON_stringify.
    by rewrite andb_false_r.
  - intros H. apply foldl_num_add; [done| |done]. apply Forall_fmap, Forall_true.
    intros tx. unfold byteLength. cbn. lia.
Qed.

(** In a thread that does not install the text of bigints, as the worker's does not,
    measuring any block with a transaction throws. *)
Theorem getBlockSize_without_toJSON block reads :
  transactions block ≠ [] →
  getBlockSize false block reads = (Throw (TypeError "Do not know how to serialize a BigInt"), reads).
Proof.
  intros H. unfold getBlockSize. destruct (transactions block) as [|tx l]; [done|]. cbn [mapM].
  apply bind_Throw, bind_Throw. rewrite (bind_Done _ _ _ _ _ (serialize_transaction_pure tx reads)).
  apply bind_Throw. unfold JSON_stringify, of_outcome, plain_transaction. by rewrite base_block_bigint.
Qed.
End size.

(** ** Instances *)
Definition sim_size_block : SolanaBlock :=
  let base := mkBase 5 100 "a5" 4 "a4" [] in
  let raw := mkTx ["s"] (mkMessage ["k"] [mkRawInstruction [0] "x" 0 None] []) None [] in
  mkBlock base [mkTransaction (mkTx ["s"] (mkMessage ["k"]
    [mkInstruction [0] (mkRawInstruction [0] "x" 0 None) raw base] []) None []) base].

Lemma getBlockSize_without_toJSON_witness :
  getBlockSize (fun _ => JNull) (fun _ => JNull) false sim_size_block [] =
    (Throw (TypeError "Do not know how to serialize a BigInt"), []).
Proof. by apply getBlockSize_without_toJSON. Defined.

Example getBlockSize_sum_witness :
  foldl num_add 0 ((fun tx => byteLength (stringify (plain_transaction tx)))
    <$> transactions sim_size_block) = 261.
Proof.
  rewrite (proj2 (getBlockSize_sum (fun _ => JNull) (fun _ => JNull) sim_size_block)); [reflexivity|].
  vm_compute. discriminate.
Defined.
