(* ===== verification/Api.v ===== *)
(** * The RPC client of an endpoint

    [packages/node/src/solana/api.solana.ts], [api.connection.ts] and
    [api.service.solana.ts]: the calls to the chain, the errors they end with, and
    how a connection classifies them. *)
From S2P Require Import Prelude JsNumber JsString JsDate Json Types Blocks.

(** ** What is outside of the repository *)

(** The RPC client of [@solana/rpc] for an endpoint, with a timeout; block times,
    slots and heights are bigints.  A request may fail with any error. *)
Class SolanaRpc (W : Type) := {
  rpc_getGenesisHash : string → Z → M W string;
  rpc_getSlot : string → string → Z → M W Z;
  rpc_getBlockHeader : string → Z → Z → M W (option BaseSolanaBlock);
  rpc_getBlock : string → Z → Z → M W (option RawSolanaBlock)
}.

(** The codes of [@solana/errors]. *)
Class SolanaErrorCodes := {
  SERVER_ERROR_SLOT_SKIPPED : Z;
  SERVER_ERROR_LONG_TERM_STORAGE_SLOT_SKIPPED : Z
}.

(** [backoffRetry] and the event emitter of the node core, the URL parser and
    the messages and names of errors. *)
Class NodeCore (W : Type) := {
  backoffRetry : ∀ {A}, M W A → M W A;
  emit : string → M W unit;
  url_hostname : string → outcome string;
  error_message : jserror → string;
  error_name : jserror → string
}.

(** An answer of [backoffRetry] is an answer of the last run of its argument;
    emitting an event does not fail. *)
Class NodeCoreLaws (W : Type) `{NodeCore W} := {
  backoffRetry_answer : ∀ A (m : M W A) w a w',
    backoffRetry m w = (Done a, w') → ∃ w0 w1, m w0 = (Done a, w1);
  emit_done : ∀ e w, (emit e w).1 = Done tt;
  url_hostname_error : ∀ s, match url_hostname s with
                            | Done _ => True
                            | Throw e => ∃ m, e = TypeError m
                            | _ => False
                            end;
  js_error_message : ∀ m c, error_message (JsError m c) = m
}.

(** ** The client *)
Definition REQUEST_TIMEOUT : Z := 30000.

Record SolanaApi := mkApi {
  genesisBlockHash : string;
  endpoint : string;
  requestTimeout : Z;
  treatLongTermStorageSkipAsSkipped : bool
}.

Record ISolanaEndpointConfig := mkEndpointConfig {
  ec_headers : props;
  ec_requestTimeout : option Z
}.

Definition isSolanaError (e : jserror) (c : Z) : bool :=
  match e with SolanaError c' _ _ => c' =? c | _ => false end.

Definition isSkippedSlotError `{SolanaErrorCodes} (e : jserror) (treatLTS : bool) : bool :=
  isSolanaError e SERVER_ERROR_SLOT_SKIPPED
  || treatLTS && isSolanaError e SERVER_ERROR_LONG_TERM_STORAGE_SLOT_SKIPPED.

Section api.
  Context {W : Type} `{RPC : SolanaRpc W, EC : SolanaErrorCodes, NC : NodeCore W}.

(** [throw new Error(message, { cause: e })] *)
Definition rethrow {A} (message : string) (m : M W A) : M W A :=
  try_catch m (fun e => throw (JsError message (Some e))).

(** [SolanaApi.create] *)
Definition api_create (ep : string) (config : option ISolanaEndpointConfig) (treatLTS : option bool)
  : M W SolanaApi :=
  let timeout := config ≫= ec_requestTimeout in
  hash ← rethrow "Failed to get genesis hash"
           (rpc_getGenesisHash ep (default REQUEST_TIMEOUT timeout));
  mret (mkApi hash ep (default REQUEST_TIMEOUT timeout) (default true treatLTS)).

Definition getFinalizedBlockHeight (api : SolanaApi) : M W Z :=
  rethrow "Failed to get finalized height"
    (h ← rpc_getSlot (endpoint api) "finalized" (requestTimeout api); mret (Number h)).

Definition getBestBlockHeight (api : SolanaApi) : M W Z :=
  rethrow "Failed to get best height"
    (h ← rpc_getSlot (endpoint api) "confirmed" (requestTimeout api); mret (Number h)).

Definition getHeaderByHeight (api : SolanaApi) (slot : Z) : M W Header :=
  block ← try_catch (rpc_getBlockHeader (endpoint api) slot (requestTimeout api)) (fun e =>
    if isSkippedSlotError e (treatLongTermStorageSkipAsSkipped api)
    then throw BlockUnavailableError else throw e);
  match block with
  | None => throw BlockUnavailableError
  | Some block => mret (solanaBlockToHeader block (Some (Number slot)))
  end.

Definition getFinalizedBlockHeader (api : SolanaApi) : M W Header :=
  rethrow "Failed to get finalized header"
    (height ← getFinalizedBlockHeight api;
     backoffRetry (getHeaderByHeight api height)).

Definition getRuntimeChain (api : SolanaApi) : string :=
  if decide (genesisBlockHash api = "5eykt4UsFv8P8NJdTREpY1vzqKqZKvdpKuc147dw2N9d") then "mainnet"
  else if decide (genesisBlockHash api = "EKLxEB4xoEDq9AAn5HhFiP5WqdhNVc4An2HvJyzHzx7u") then "testnet;"
  else if decide (genesisBlockHash api = "EtWTRABZaYq6iMfeYKouRu166VU2xqa1wcaWoxPkrZBG") then "devnet"
  else "unknown".

Definition getGenesisHash (api : SolanaApi) : string := genesisBlockHash api.
Definition getSpecName (api : SolanaApi) : string := "solana".

(** The error to throw; parsing the endpoint's URL may itself throw. *)
Definition handleError (api : SolanaApi) (e : jserror) : outcome jserror :=
  match e with
  | SolanaError _ (Some 429) _ =>
      hostname ← url_hostname (endpoint api);
      Done (JsError ("Rate Limited at endpoint: " +:+ hostname) None)
  | _ => Done e
  end.

(** The [catch] of [fetchBlock]. *)
Definition fetchBlock_catch {A} (api : SolanaApi) (e : jserror) : M W A :=
  if isSkippedSlotError e (treatLongTermStorageSkipAsSkipped api)
  then throw BlockUnavailableError
  else e' ← of_outcome (handleError api e); throw e'.

Definition fetchBlock (api : SolanaApi) (blockNumber : Z) : M W (IBlock SolanaBlock) :=
  try_catch
    (rawBlock ← rpc_getBlock (endpoint api) blockNumber (requestTimeout api);
     match rawBlock with
     | None => throw BlockUnavailableError
     | Some rawBlock =>
         emit "fetchBlock" ;;
         block ← of_outcome (transformBlock rawBlock);
         mret (formatBlockUtil block (Some blockNumber))
     end)
    (fetchBlock_catch api).

(** [Promise.all]: the blocks in the order of the numbers, or an error.  Here the
    requests run one after the other, which is one of their schedules; [FetchBatch]
    has the others. *)
Fixpoint fetchBlocks (api : SolanaApi) (bufferBlocks : list Z) : M W (list (IBlock SolanaBlock)) :=
  match bufferBlocks with
  | [] => mret []
  | n :: rest =>
      b ← fetchBlock api n;
      bs ← fetchBlocks api rest;
      mret (b :: bs)
  end.

(** ** The connection *)
Record NetworkMeta := mkNetworkMeta { nm_chain : string; nm_specName : string; nm_genesisHash : string }.

Definition networkMeta (api : SolanaApi) : NetworkMeta :=
  mkNetworkMeta (getGenesisHash api) (getSpecName api) (getGenesisHash api).

Inductive ApiConnectionError :=
| TimeoutError (e : jserror)
| RateLimitError (e : jserror)
| DefaultApiError (name message : string).

Definition connection_handleError (e : jserror) : ApiConnectionError :=
  if startsWith "The operation was aborted due to timeout" (error_message e) then TimeoutError e
  else if startsWith "Rate Limited at endpoint" (error_message e) then RateLimitError e
  else DefaultApiError (error_name e) (error_message e).

(** ** The service *)
Definition FetchFunc : Type := SolanaApi → list Z → M W (list (IBlock SolanaBlock)).

(** [fetchBlocksBatches()] of a service whose function may not be set yet. *)
Definition fetchBlocksBatches (fetchBlocksFunction : option FetchFunc) : outcome FetchFunc :=
  match fetchBlocksFunction with
  | Some f => Done f
  | None => Throw (AssertionError "Fetch blocks function is not defined")
  end.

(** [updateBlockFetching]: the function to set; [profilerWrap] is the core's. *)
Definition updateBlockFetching (profiler : bool) (profilerWrap : FetchFunc → FetchFunc) : FetchFunc :=
  if profiler then profilerWrap fetchBlocks else fetchBlocks.

Definition connection_fetchBlocks (fetchBlocksFunction : option FetchFunc) (api : SolanaApi)
    (heights : list Z) : M W (list (IBlock SolanaBlock)) :=
  f ← of_outcome (fetchBlocksBatches fetchBlocksFunction);
  f api heights.

Definition metadataMismatchError (metadata expected actual : string) : jserror :=
  JsError ("Value of " +:+ metadata +:+
    " does not match across all endpoints. Please check that your endpoints are for the same network."
    +:+ String (Ascii.ascii_of_nat 10) (String (Ascii.ascii_of_nat 10)
      ("       Expected: " +:+ expected +:+ String (Ascii.ascii_of_nat 10)
        ("       Actual: " +:+ actual)))) None.
End api.

(** [treatLongTermStorageSkipAsSkipped] of [configure/NodeConfig.ts] *)
Definition node_treatLongTermStorageSkipAsSkipped (config : option bool) : bool := default true config.
