(* ===== verification/ApiSpec.v ===== *)
(** * What the client promises

    When a slot counts as skipped, how errors are classified, and the heights of
    the headers it returns. *)
From S2P Require Import Prelude JsNumber JsString JsDate Json Types Blocks Api.

Section spec.
  Context {W : Type} `{RPC : SolanaRpc W, EC : SolanaErrorCodes, NC : NodeCore W}
    `{NL : !NodeCoreLaws W}.

(** Wrapping a block ends with the block or an error of its own. *)
Lemma wrap_lines_cases st i l :
  (∃ st', wrap_lines st i l = Done st') ∨ ∃ e, wrap_lines st i l = Throw e.
Proof.
  revert st i. induction l as [|x l IH]; intros st i; simpl; [eauto|].
  destruct (wrapLog st i x) as [st'|e|y|] eqn:E; simpl; [apply IH|eauto|..];
    unfold wrapLog in E; repeat case_match; done.
Qed.

Lemma transformTransaction_cases b tx :
  (∃ t, transformTransaction b tx = Done t) ∨
  ∃ m c, transformTransaction b tx = Throw (JsError m c).
Proof.
  unfold transformTransaction.
  match goal with |- context [catch ?x _] => destruct x as [t|e|y|] eqn:E end; simpl; eauto.
  - exfalso. destruct (meta tx) as [m|]; [|done]. unfold transformMeta in E.
    destruct (logs m); [done|]. destruct (logMessages m) as [l|]; [|done]. unfold wrapLogs in E.
    by destruct (wrap_lines_cases (mkLogState [] []) 0 l) as [[? H]|[? H]]; rewrite H in E.
  - exfalso. destruct (meta tx) as [m|]; [|done]. unfold transformMeta in E.
    destruct (logs m); [done|]. destruct (logMessages m) as [l|]; [|done]. unfold wrapLogs in E.
    by destruct (wrap_lines_cases (mkLogState [] []) 0 l) as [[? H]|[? H]]; rewrite H in E.
Qed.

Lemma transformBlock_cases b :
  (∃ blk, transformBlock b = Done blk) ∨ ∃ m c, transformBlock b = Throw (JsError m c).
Proof.
  unfold transformBlock.
  assert ((∃ ts, traverse (transformTransaction (raw_base b)) (raw_transactions b) = Done ts) ∨
    ∃ m c, traverse (transformTransaction (raw_base b)) (raw_transactions b) = Throw (JsError m c))
    as [[ts ->]|(m & c & ->)]; [|by eauto..].
  induction (raw_transactions b) as [|tx l IH]; simpl; [eauto|].
  destruct (transformTransaction_cases (raw_base b) tx) as [[t ->]|(m & c & ->)]; simpl; [|eauto].
  destruct IH as [[ts ->]|(m & c & ->)]; simpl; eauto.
Qed.

(** The answer of the RPC says that the slot has no block. *)
Definition says_skipped (api : SolanaApi) (o : outcome (option RawSolanaBlock)) : Prop :=
  match o with
  | Done None => True
  | Throw e => isSkippedSlotError e (treatLongTermStorageSkipAsSkipped api) = true
  | _ => False
  end.

Lemma catch_unavailable {A} api e (w : W) :
  e ≠ BlockUnavailableError →
  (fetchBlock_catch (A:=A) api e w).1 = Throw BlockUnavailableError ↔
  isSkippedSlotError e (treatLongTermStorageSkipAsSkipped api) = true.
Proof.
  intros He. unfold fetchBlock_catch. destruct (isSkippedSlotError e _); [done|].
  unfold mbind, M_bind, of_outcome.
  assert (∀ e', handleError api e = Throw e' ∨ handleError api e = Done e' →
    e' ≠ BlockUnavailableError) as H.
  { pose proof (url_hostname_error (endpoint api)) as Hu. unfold handleError. intros e'.
    repeat case_match; intros [Hx|Hx]; simplify_eq; try done;
      destruct (url_hostname (endpoint api)) as [h|eu|x|]; simplify_eq/=; try done.
    by destruct Hu as [m' ->]. }
  split; [|done]. destruct (handleError api e) as [e'|e'|x|]; simpl; intros [= ->];
    by destruct (H BlockUnavailableError); auto.
Qed.

(** C21: fetching a block ends with BlockUnavailableError exactly when the RPC
    has no block for the slot or answers one of the errors that say so; a block that
    is too new, a limit on the rate of requests, or a block that cannot be wrapped are
    never taken for a skipped slot.  (The RPC client itself never throws it.) *)
Theorem fetchBlock_unavailable api n w o w1 :
  rpc_getBlock (endpoint api) n (requestTimeout api) w = (o, w1) →
  o ≠ Throw BlockUnavailableError →
  (fetchBlock api n w).1 = Throw BlockUnavailableError ↔ says_skipped api o.
Proof.
  intros Ho Hne.
  unfold fetchBlock, try_catch. unfold mbind at 1, M_bind at 1. rewrite Ho.
  destruct o as [[b|]|e|x|]; simpl.
  - pose proof (emit_done "fetchBlock" w1) as Hem.
    unfold mbind, M_bind, of_outcome. destruct (emit "fetchBlock" w1) as [oe w2]. simpl in Hem.
    subst oe. destruct (transformBlock_cases b) as [[blk ->]|(m & c & ->)]; [done|].
    rewrite catch_unavailable by done. unfold isSkippedSlotError. simpl. by rewrite andb_false_r.
  - split; [done|]. intros _. unfold fetchBlock_catch. by destruct (isSkippedSlotError _ _).
  - apply catch_unavailable. congruence.
  - done.
  - done.
Qed.

(** A request that the endpoint refuses with status 429 ends with an error
    that names the host, which the connection classifies as a limit on the rate. *)
Theorem rate_limit_classified api n w c m w1 host :
  rpc_getBlock (endpoint api) n (requestTimeout api) w = (Throw (SolanaError c (Some 429) m), w1) →
  isSkippedSlotError (SolanaError c (Some 429) m) (treatLongTermStorageSkipAsSkipped api) = false →
  url_hostname (endpoint api) = Done host →
  ∃ e, fetchBlock api n w = (Throw e, w1) ∧ connection_handleError e = RateLimitError e ∧
    error_message e = "Rate Limited at endpoint: " +:+ host.
Proof.
  intros Hr Hs Hu. exists (JsError ("Rate Limited at endpoint: " +:+ host) None).
  split_and!.
  - unfold fetchBlock, try_catch. rewrite (bind_Throw _ _ _ _ _ Hr).
    unfold fetchBlock_catch. rewrite Hs.
    unfold mbind, M_bind, of_outcome, handleError. by rewrite Hu.
  - unfold connection_handleError. rewrite js_error_message.
    change ("Rate Limited at endpoint: " +:+ host) with ("Rate Limited at endpoint" +:+ (": " +:+ host)).
    assert (startsWith "The operation was aborted due to timeout"
      ("Rate Limited at endpoint" +:+ (": " +:+ host)) = false) as -> by done.
    by rewrite startsWith_refl.
  - by rewrite js_error_message.
Qed.

(** ** Heights *)
Lemma fetchBlock_height api n w b w' :
  fetchBlock api n w = (Done b, w') → blockHeight (getHeader b) = n.
Proof.
  unfold fetchBlock, try_catch. intros H.
  destruct ((rpc_getBlock _ _ _ ≫= _) w) as [[b'|e|x|] w1] eqn:E; try done.
  - simplify_eq. apply bind_Done_inv in E as ([raw|] & w2 & _ & E); [|done].
    apply bind_Done_inv in E as ([] & w3 & _ & E).
    apply bind_Done_inv in E as (blk & w4 & _ & E). by injection E as <- <-.
  - unfold fetchBlock_catch in H. destruct (isSkippedSlotError _ _); [done|].
    unfold mbind, M_bind, of_outcome in H. by destruct (handleError api e).
Qed.

(** The blocks of a batch come back in the order asked for, one per slot, and
    each has its slot as height; a batch with a failing slot gives no block. *)
Theorem fetchBlocks_in_order api l w bs w' :
  fetchBlocks api l w = (Done bs, w') → (blockHeight ∘ getHeader) <$> bs = l.
Proof.
  revert w bs w'. induction l as [|n l IH]; intros w bs w'; cbn [fetchBlocks].
  - by intros [= <- _].
  - intros (b & w1 & Hb & H)%bind_Done_inv. apply bind_Done_inv in H as (bs' & w2 & Hbs & [= <- <-]).
    cbn [fmap list_fmap compose]. by rewrite (fetchBlock_height _ _ _ _ _ Hb), (IH _ _ _ Hbs).
Qed.

Lemma getHeaderByHeight_height api h w hd w' :
  getHeaderByHeight api h w = (Done hd, w') → blockHeight hd = Number h.
Proof.
  unfold getHeaderByHeight. intros (b & w1 & _ & H)%bind_Done_inv.
  destruct b as [b|]; [|done]. by injection H as <- <-.
Qed.

Lemma rethrow_Done {A} msg (m : M W A) w a w' :
  rethrow msg m w = (Done a, w') → m w = (Done a, w').
Proof. unfold rethrow, try_catch. by destruct (m w) as [[] ?]. Qed.

Lemma finalized_header_height api w hd w' :
  getFinalizedBlockHeader api w = (Done hd, w') → ∃ z w0 w1,
    rpc_getSlot (endpoint api) "finalized" (requestTimeout api) w0 = (Done z, w1) ∧
    blockHeight hd = Number (Number z).
Proof.
  intros H%rethrow_Done. apply bind_Done_inv in H as (h & w1 & Hh & H).
  apply rethrow_Done, bind_Done_inv in Hh as (z & w2 & Hz & [= <- <-]).
  apply backoffRetry_answer in H as (w3 & w4 & H).
  apply getHeaderByHeight_height in H. eauto.
Qed.
End spec.

(** ** Instances: an endpoint that answers by the slot *)
Definition sim_rpc_base (n : Z) : BaseSolanaBlock := mkBase n (n * 10) "hash" (n - 1) "parent" [].
Definition sim_rpc : SolanaRpc unit := {|
  rpc_getGenesisHash _ _ := mret "5eykt4UsFv8P8NJdTREpY1vzqKqZKvdpKuc147dw2N9d";
  rpc_getSlot _ _ _ := mret 9;
  rpc_getBlockHeader _ n _ :=
    if n =? 3 then throw (SolanaError (-32007) None "Slot 3 was skipped")
    else mret (Some (sim_rpc_base n));
  rpc_getBlock _ n _ :=
    if n =? 3 then throw (SolanaError (-32007) None "Slot 3 was skipped")
    else if n =? 4 then throw (SolanaError 8100002 (Some 429) "HTTP error (429)")
    else mret (Some (mkRawBlock (sim_rpc_base n) []))
|}.
Definition sim_codes : SolanaErrorCodes := {|
  SERVER_ERROR_SLOT_SKIPPED := -32007; SERVER_ERROR_LONG_TERM_STORAGE_SLOT_SKIPPED := -32009
|}.
Definition sim_core : NodeCore unit := {|
  backoffRetry A m := m;
  emit _ := mret tt;
  url_hostname u := Done u;
  error_message e := match e with
    | JsError m _ | TypeError m | AssertionError m | SolanaError _ _ m => m
    | BlockUnavailableError => "Block is unavailable"
    end;
  error_name e := "Error"
|}.
Definition sim_core_laws : NodeCoreLaws unit (H:=sim_core).
Proof.
  split; [|done..]. intros A m w a w' H. by exists w, w'.
Defined.
Definition sim_api : SolanaApi := mkApi "genesis" "rpc.example" 30000 true.

Lemma fetchBlock_unavailable_witness :
  (fetchBlock (RPC:=sim_rpc) (EC:=sim_codes) (NC:=sim_core) sim_api 3 tt).1
    = Throw BlockUnavailableError.
Proof.
  apply (fetchBlock_unavailable (RPC:=sim_rpc) (EC:=sim_codes) (NL:=sim_core_laws) sim_api 3 tt
    (Throw (SolanaError (-32007) None "Slot 3 was skipped")) tt eq_refl); done.
Defined.

Lemma rate_limit_classified_witness :
  ∃ e, fetchBlock (RPC:=sim_rpc) (EC:=sim_codes) (NC:=sim_core) sim_api 4 tt = (Throw e, tt) ∧
    connection_handleError (NC:=sim_core) e = RateLimitError e ∧
    error_message (W:=unit) (NodeCore:=sim_core) e = "Rate Limited at endpoint: rpc.example".
Proof.
  exact (rate_limit_classified (RPC:=sim_rpc) (EC:=sim_codes) (NL:=sim_core_laws) sim_api 4 tt
    8100002 "HTTP error (429)" tt "rpc.example" eq_refl eq_refl eq_refl).
Defined.

Lemma fetchBlocks_in_order_witness :
  ∃ bs, fetchBlocks (RPC:=sim_rpc) (EC:=sim_codes) (NC:=sim_core) sim_api [7; 5; 6] tt = (Done bs, tt) ∧
    (blockHeight ∘ getHeader) <$> bs = [7; 5; 6].
Proof.
  eexists. split; [reflexivity|].
  by eapply (fetchBlocks_in_order (RPC:=sim_rpc) (EC:=sim_codes) (NC:=sim_core) sim_api [7; 5; 6] tt).
Defined.
