(* ===== verification/Scenarios.v ===== *)
(** * The unit tests, run on the model

    The scenarios of [unfinalizedBlocks.service.spec.ts] and
    [api.solana.skip-slot.spec.ts], with their mocks: the model gives what the tests
    expect. *)
From S2P Require Import Prelude JsNumber JsString JsDate Json Types Chain Unfinalized Blocks Api ApiSpec.

(** ** unfinalizedBlocks.service.spec.ts *)

(** The mocked chain, which the tests change as they go, and the mocked store *)
Record MockWorld := mkMock {
  mock_meta : list (string * metadata_value);
  mock_finalizedHeight : Z;
  mock_skippedSlots : list Z;
  mock_forkedParents : list (Z * string)
}.

Definition mock_date : js_date := Some 1756336073486.
Definition hash_text (height : Z) (finalized : bool) : string :=
  "0x" +:+ pretty height +:+ (if finalized then "f" else "").
Definition headerFromHeight (height : Z) (finalized parentFinalized : bool) (parentHeight : Z) : Header :=
  mkHeader height (hash_text height finalized) (Some (hash_text parentHeight parentFinalized)) mock_date.

Fixpoint previous_slot (fuel : nat) (height : Z) (skipped : list Z) : Z :=
  match fuel with
  | O => height - 1
  | S fuel => if decide (height - 1 ∈ skipped) then previous_slot fuel (height - 1) skipped else height - 1
  end.
Definition getPreviousProducedSlot (height : Z) (skipped : list Z) : Z :=
  previous_slot (length skipped) height skipped.

Definition mock_header (w : MockWorld) (height : Z) : Header :=
  let parentHeight := getPreviousProducedSlot height (mock_skippedSlots w) in
  let header := headerFromHeight height (height <=? mock_finalizedHeight w)
                  (parentHeight <? mock_finalizedHeight w) parentHeight in
  match List.find (fun kv => kv.1 =? height) (mock_forkedParents w) with
  | Some (_, parent) => mkHeader height (blockHash header) (Some parent) mock_date
  | None => header
  end.

Definition mock_chain : BlockchainClient MockWorld := {|
  bc_getFinalizedHeader w :=
    (Done (headerFromHeight (mock_finalizedHeight w) true true
       (getPreviousProducedSlot (mock_finalizedHeight w) (mock_skippedSlots w))), w);
  bc_getHeaderForHeight height w :=
    (if decide (height ∈ mock_skippedSlots w) then Throw BlockUnavailableError
     else Done (mock_header w height), w)
|}.
Definition mock_store : MetadataStore MockWorld := {|
  metadata_set k v w := (Done tt,
    mkMock ((k, v) :: mock_meta w) (mock_finalizedHeight w) (mock_skippedSlots w) (mock_forkedParents w));
  metadata_find k w := (Done (snd <$> List.find (fun kv => bool_decide (kv.1 = k)) (mock_meta w)), w)
|}.
Definition mock_main_thread : MainThread := fun A o => o.

Section scenarios.
#[local] Existing Instances mock_chain mock_store mock_main_thread lodash_model none_arrive.
Local Abbreviation T := (M (UnfinalizedBlocksService MockWorld)).

Definition setFinalizedHeight (h : Z) : T unit :=
  on_world (modify (fun w => mkMock (mock_meta w) h (mock_skippedSlots w) (mock_forkedParents w))).
Definition setForkedParent (h : Z) (parent : string) : T unit :=
  on_world (modify (fun w => mkMock (mock_meta w) (mock_finalizedHeight w) (mock_skippedSlots w)
    ((h, parent) :: mock_forkedParents w))).
Definition new_service (finalizedHeight : Z) (skipped : list Z) : UnfinalizedBlocksService MockWorld :=
  mkService None None Undefined (mkMock [] finalizedHeight skipped []).

(** A slot bound above all that the scenarios visit *)
Definition enough : nat := 200.
Definition start : T (option Header) := init (B:=unit) enough (fun _ => mret tt).
Definition processHeight (height : Z) : T (option Header) :=
  header ← getHeaderForHeight height; processUnfinalizedBlockHeader enough (Some header).

(** [while (height <= 110)]: the first answer, with finality moved at [forkHeight] to a
    header that is registered *)
Fixpoint index_from (n : nat) (height forkHeight : Z) (registered : T Header) : T (option Header) :=
  match n with
  | O => mret None
  | S n =>
      (if height =? forkHeight
       then setFinalizedHeight forkHeight ;; h ← registered; registerFinalizedBlock h
       else mret tt) ;;
      header ← header_or_skipped height;
      rewindTo ← (match header with
                  | Some h => processUnfinalizedBlockHeader enough (Some h)
                  | None => mret None
                  end);
      match rewindTo with
      | Some h => mret (Some h)
      | None => index_from n (height + 1) forkHeight registered
      end
  end.

Definition expected_100 : Header := headerFromHeight 100 true true 99.

(** 'correctly detects forks' *)
Example detects_forks :
  ((start ;; index_from 10 101 108 (mret (headerFromHeight 108 true true 107))) (new_service 100 [])).1
    = Done (Some expected_100).
Proof. vm_compute. reflexivity. Qed.

(** 'handles block forks when there are missed slots' *)
Example detects_forks_missed_slots :
  ((start ;; index_from 10 101 108 (getHeaderForHeight 108)) (new_service 100 [103])).1
    = Done (Some expected_100).
Proof. vm_compute. reflexivity. Qed.

(** 'rebuilds the parent chain across actual and skipped slots' *)
Example rebuilds_parent_chain :
  let chain := [101; 102; 104; 105] in
  ((start ;; processHeight 101 ;; processHeight 105 ;;
    records ← unfinalizedBlocks;
    l ← getHeaderForHeight 101; m ← getHeaderForHeight 102; n ← getHeaderForHeight 104;
    o ← getHeaderForHeight 105;
    mret (bool_decide (records = [l; m; n; o]), blockHeight <$> records)) (new_service 100 [103])).1
    = Done (true, chain).
Proof. vm_compute. reflexivity. Qed.

(** 'rolls back when a backfilled slot has the wrong parent hash' *)
Example rolls_back_backfilled :
  ((start ;; processHeight 101 ;; setForkedParent 102 "0xfork" ;; processHeight 105)
    (new_service 100 [])).1 = Done (Some expected_100).
Proof. vm_compute. reflexivity. Qed.

(** 'rolls back when a new block does not connect after skipped slots' *)
Example rolls_back_new_block :
  ((start ;; processHeight 101 ;; setForkedParent 105 "0xfork" ;; processHeight 105)
    (new_service 100 [103])).1 = Done (Some expected_100).
Proof. vm_compute. reflexivity. Qed.
End scenarios.

(** ** api.solana.skip-slot.spec.ts *)
Definition mock_rpc (getBlockError : jserror) : SolanaRpc unit := {|
  rpc_getGenesisHash _ _ := mret "genesis-hash";
  rpc_getSlot _ _ _ := throw getBlockError;
  rpc_getBlockHeader _ _ _ := throw getBlockError;
  rpc_getBlock _ _ _ := throw getBlockError
|}.
Definition slot_skipped : jserror :=
  SolanaError (SERVER_ERROR_SLOT_SKIPPED (SolanaErrorCodes:=sim_codes)) None "Slot 1 was skipped".
Definition long_term_skipped : jserror :=
  SolanaError (SERVER_ERROR_LONG_TERM_STORAGE_SLOT_SKIPPED (SolanaErrorCodes:=sim_codes)) None
    "Slot 1 was skipped, or missing in long-term storage".
Definition create_and_fetch (e : jserror) (treatLTS : option bool) : outcome (IBlock SolanaBlock) :=
  ((api ← api_create (RPC:=mock_rpc e) "http://localhost" None treatLTS;
    fetchBlock (RPC:=mock_rpc e) (EC:=sim_codes) (NC:=sim_core) api 1) tt).1.

(** 'treats SERVER_ERROR_SLOT_SKIPPED as a confirmed skip' *)
Example skip_confirmed : create_and_fetch slot_skipped None = Throw BlockUnavailableError.
Proof. vm_compute. reflexivity. Qed.
(** 'treats LONG_TERM_STORAGE_SLOT_SKIPPED as a skip by default' *)
Example long_term_by_default : create_and_fetch long_term_skipped None = Throw BlockUnavailableError.
Proof. vm_compute. reflexivity. Qed.
(** 'does not treat LONG_TERM_STORAGE_SLOT_SKIPPED as a skip when disabled at startup' *)
Example long_term_disabled : create_and_fetch long_term_skipped (Some false) = Throw long_term_skipped.
Proof. vm_compute. reflexivity. Qed.
