(* ===== verification/FetchBatch.v ===== *)
(** * The requests of a batch

    [fetchBlocks] of [packages/node/src/solana/api.solana.ts] sends the requests for
    all blocks of a batch at once and waits with [Promise.all].  The answers arrive in
    any order; each resumes its own [fetchBlock], and the batch settles with the last
    block or the first failure. *)
From S2P Require Import Prelude JsNumber JsString JsDate Json Types Blocks Api ApiSpec.

(** ** Promise.all *)
Record PromiseAll (A : Type) := mkAll {
  values : list (option A);
  remainingElements : nat;
  settled : option (outcome (list A))
}.
Arguments mkAll {A} _ _ _.
Arguments values {A} _.
Arguments remainingElements {A} _.
Arguments settled {A} _.

Section promise_all.
Context {A : Type}.
Implicit Types (st : PromiseAll A) (evs : list (nat * (jserror + A))).

Definition all_new (n : nat) : PromiseAll A :=
  mkAll (replicate n None) n (match n with O => Some (Done []) | _ => None end).

(** A promise settles once. *)
Definition settle (o : outcome (list A)) st : option (outcome (list A)) :=
  match settled st with Some o' => Some o' | None => Some o end.

Definition all_resolve (i : nat) (a : A) st : PromiseAll A :=
  let vs := <[i := Some a]> (values st) in
  let r := pred (remainingElements st) in
  mkAll vs r (match r with O => settle (Done (omap id vs)) st | _ => settled st end).

Definition all_reject (e : jserror) st : PromiseAll A :=
  mkAll (values st) (remainingElements st) (settle (Throw e) st).

Definition all_event st (ev : nat * (jserror + A)) : PromiseAll A :=
  match ev.2 with inl e => all_reject e st | inr a => all_resolve ev.1 a st end.

Definition failure (ev : nat * (jserror + A)) : option jserror :=
  match ev.2 with inl e => Some e | inr _ => None end.
Definition first_failure evs : option jserror := head (omap failure evs).

Lemma first_failure_snoc evs ev :
  first_failure (evs ++ [ev]) =
    match first_failure evs with Some e => Some e | None => failure ev end.
Proof.
  unfold first_failure. rewrite omap_app. destruct (omap failure evs); [|done]. simpl.
  by destruct (failure ev).
Qed.

(** What is known while the promises of some positions have settled. *)
Record all_ok (n : nat) evs st : Prop := {
  all_length : length (values st) = n;
  all_values : ∀ i a, values st !! i = Some (Some a) ↔ (i, inr a) ∈ evs;
  all_remaining : first_failure evs = None → (remainingElements st + length evs)%nat = n;
  all_settled : settled st =
    match first_failure evs with
    | Some e => Some (Throw e)
    | None => if decide (length evs = n) then Some (Done (omap id (values st))) else None
    end
}.

Lemma all_ok_new n : all_ok n [] (all_new n).
Proof.
  split; simpl.
  - by rewrite length_replicate.
  - intros i a. split; [|by intros ?%elem_of_nil]. by intros [? _]%lookup_replicate.
  - lia.
  - by destruct n.
Qed.

Lemma all_ok_event n evs ev st :
  all_ok n evs st → ev.1 ∉ evs.*1 → (ev.1 < n)%nat → (length evs < n)%nat →
  all_ok n (evs ++ [ev]) (all_event st ev).
Proof.
  intros [Hl Hv Hr Hset] Hnew Hi Hlen. destruct ev as [i [e|a]]; simpl in Hnew, Hi.
  - split; simpl; rewrite ?first_failure_snoc, ?length_app; simpl; [done|..].
    + intros j b. rewrite Hv, elem_of_app, list_elem_of_singleton. naive_solver.
    + by destruct (first_failure evs).
    + unfold settle. rewrite Hset. destruct (first_failure evs); [done|].
      by rewrite decide_False by lia.
  - split; simpl; rewrite ?first_failure_snoc, ?length_app; simpl.
    + by rewrite length_insert.
    + intros j b. rewrite elem_of_app, list_elem_of_singleton, <- Hv.
      destruct (decide (j = i)) as [->|Hne].
      * rewrite list_lookup_insert_eq by lia. rewrite Hv.
        assert ((i, inr b) ∉ evs) by (intros Hin; apply Hnew, list_elem_of_fmap; by exists (i, inr b)).
        naive_solver.
      * rewrite list_lookup_insert_ne by done. naive_solver.
    + destruct (first_failure evs); [done|]. intros _. specialize (Hr eq_refl). lia.
    + unfold settle. rewrite Hset. destruct (first_failure evs) as [e|].
      * by destruct (pred _).
      * specialize (Hr eq_refl). rewrite (decide_False (P := length evs = n)) by lia.
        destruct (pred (remainingElements st)) eqn:E; [by rewrite decide_True by lia|].
        by rewrite decide_False by lia.
Qed.

Lemma all_ok_run n evs :
  NoDup evs.*1 → Forall (fun i => i < n)%nat evs.*1 → all_ok n evs (foldl all_event (all_new n) evs).
Proof.
  induction evs as [|ev evs IH] using rev_ind; [intros; apply all_ok_new|].
  rewrite fmap_app, foldl_app. intros Hnd Hlt. pose proof Hnd as (Hnd1 & Hnew & _)%NoDup_app.
  apply Forall_app in Hlt as [Hlt Hi%Forall_inv]. simpl.
  apply all_ok_event; [by apply IH| |done|].
  - intros Hin. apply (Hnew _ Hin). by left.
  - apply (Nat.lt_le_trans _ (length (evs ++ [ev]).*1)); [rewrite length_fmap, length_app; simpl; lia|].
    rewrite fmap_app. rewrite <- (length_seq n 0). apply submseteq_length, NoDup_submseteq; [done|].
    intros j [Hj|Hj]%elem_of_app; apply elem_of_seq; [|apply list_elem_of_singleton in Hj as ->; lia].
    rewrite Forall_forall in Hlt. specialize (Hlt j Hj). lia.
Qed.

Lemma first_failure_None evs : first_failure evs = None → ∀ ev, ev ∈ evs → failure ev = None.
Proof.
  unfold first_failure. intros H ev Hin. destruct (failure ev) as [e|] eqn:E; [|done].
  assert (e ∈ omap failure evs) as He by (apply list_elem_of_omap; eauto).
  destruct (omap failure evs); [by apply elem_of_nil in He|done].
Qed.

Lemma all_present (l : list (option A)) :
  (∀ i, (i < length l)%nat → ∃ a, l !! i = Some (Some a)) → ∃ vs, l = Some <$> vs.
Proof.
  induction l as [|x l IH]; intros H; [by exists []|].
  destruct (H 0%nat ltac:(simpl; lia)) as [a [= ->]].
  destruct IH as [vs ->]; [|by exists (a :: vs)]. intros i Hi. apply (H (S i)). simpl. lia.
Qed.

Lemma omap_present (vs : list A) : omap id (Some <$> vs) = vs.
Proof. induction vs as [|a vs IH]; [done|]. cbn. by f_equal. Qed.

(** When all have settled. *)
Lemma promise_all_settled n evs :
  evs.*1 ≡ₚ seq 0 n →
  match first_failure evs with
  | Some e => settled (foldl all_event (all_new n) evs) = Some (Throw e)
  | None => ∃ vs, settled (foldl all_event (all_new n) evs) = Some (Done vs) ∧
      length vs = n ∧ ∀ i a, vs !! i = Some a ↔ (i, inr a) ∈ evs
  end.
Proof.
  intros Hp. assert (length evs = n) as Hlen.
  { rewrite <- (length_fmap fst), Hp. apply length_seq. }
  destruct (all_ok_run n evs) as [Hl Hv _ Hset].
  { rewrite Hp. apply NoDup_seq. }
  { rewrite Hp. apply Forall_forall. intros i Hi%elem_of_seq. lia. }
  rewrite decide_True in Hset by done. destruct (first_failure evs) as [e|] eqn:Hf; [done|].
  set (st := foldl _ _ _) in *.
  destruct (all_present (values st)) as [vs Hvs].
  { intros i Hi. rewrite Hl in Hi.
    assert (i ∈ evs.*1) as (ev & -> & Hin)%list_elem_of_fmap by (rewrite Hp; apply elem_of_seq; lia).
    destruct ev as [j [e|b]]; [|exists b; by apply Hv].
    by pose proof (first_failure_None _ Hf _ Hin). }
  rewrite Hvs in Hv, Hl, Hset. rewrite omap_present in Hset. exists vs. split_and!; [done| |].
  - by rewrite length_fmap in Hl.
  - intros i b. rewrite <- Hv, list_lookup_fmap. destruct (vs !! i); naive_solver.
Qed.
End promise_all.

(** ** The batch *)

(** The answer to a request: an error, or the block of the slot if it has one. *)
Definition RpcAnswer : Type := jserror + option RawSolanaBlock.

Section batch.
Context {W : Type} `{RPC : SolanaRpc W, EC : SolanaErrorCodes, NC : NodeCore W}.

(** [fetchBlock] from the arrival of its answer on *)
Definition fetchBlock_resume (api : SolanaApi) (blockNumber : Z) (answer : RpcAnswer)
  : M W (IBlock SolanaBlock) :=
  try_catch
    (rawBlock ← (match answer with inl e => throw e | inr r => mret r end);
     match rawBlock with
     | None => throw BlockUnavailableError
     | Some rawBlock =>
         emit "fetchBlock" ;;
         block ← of_outcome (transformBlock rawBlock);
         mret (formatBlockUtil block (Some blockNumber))
     end)
    (fetchBlock_catch api).

Lemma fetchBlock_resumes api n w answer w1 :
  rpc_getBlock (endpoint api) n (requestTimeout api) w =
    (match answer with inl e => Throw e | inr r => Done r end, w1) →
  fetchBlock api n w = fetchBlock_resume api n answer w1.
Proof.
  intros H. unfold fetchBlock, fetchBlock_resume, try_catch, mbind, M_bind. rewrite H.
  by destruct answer as [e|[raw|]].
Qed.

(** The arrival of the answer to the request at a position of the batch *)
Definition fetchBlocks_arrival (api : SolanaApi) (bufferBlocks : list Z)
    (st : PromiseAll (IBlock SolanaBlock)) (i : nat) (answer : RpcAnswer)
  : M W (PromiseAll (IBlock SolanaBlock)) :=
  match bufferBlocks !! i with
  | None => mret st
  | Some num =>
      try_catch (b ← fetchBlock_resume api num answer; mret (all_resolve i b st))
        (fun e => mret (all_reject e st))
  end.

Fixpoint fetchBlocks_arrivals (api : SolanaApi) (bufferBlocks : list Z)
    (st : PromiseAll (IBlock SolanaBlock)) (arrivals : list (nat * RpcAnswer))
  : M W (PromiseAll (IBlock SolanaBlock)) :=
  match arrivals with
  | [] => mret st
  | (i, answer) :: arrivals =>
      st ← fetchBlocks_arrival api bufferBlocks st i answer;
      fetchBlocks_arrivals api bufferBlocks st arrivals
  end.

(** [Promise.all(bufferBlocks.map(async (num) => this.fetchBlock(num)))] *)
Definition fetchBlocks_concurrent (api : SolanaApi) (bufferBlocks : list Z)
    (arrivals : list (nat * RpcAnswer)) : M W (PromiseAll (IBlock SolanaBlock)) :=
  fetchBlocks_arrivals api bufferBlocks (all_new (length bufferBlocks)) arrivals.

(** What a request ends with, and why it fails. *)
Definition caught (api : SolanaApi) (e : jserror) : jserror :=
  if isSkippedSlotError e (treatLongTermStorageSkipAsSkipped api) then BlockUnavailableError
  else match handleError api e with Done e' | Throw e' => e' | _ => e end.

Definition request_result (api : SolanaApi) (n : Z) (answer : RpcAnswer)
  : jserror + IBlock SolanaBlock :=
  match answer with
  | inl e => inl (caught api e)
  | inr None => inl (caught api BlockUnavailableError)
  | inr (Some raw) =>
      match transformBlock raw with
      | Done b => inr (formatBlockUtil b (Some n))
      | Throw e => inl (caught api e)
      | _ => inl BlockUnavailableError
      end
  end.

Context `{NL : !NodeCoreLaws W}.

Lemma catch_run {A} api e (w : W) : fetchBlock_catch (A:=A) api e w = (Throw (caught api e), w).
Proof.
  unfold fetchBlock_catch, caught. destruct (isSkippedSlotError _ _); [done|].
  unfold mbind, M_bind, of_outcome, handleError. pose proof (url_hostname_error (endpoint api)) as H.
  destruct e as [| | |c [z|] m|]; try done. repeat case_match; simplify_eq/=; try done.
  all: destruct (url_hostname (endpoint api)); simplify_eq/=; done.
Qed.

Lemma resume_run api n answer w :
  ∃ w', fetchBlock_resume api n answer w =
    (match request_result api n answer with inl e => Throw e | inr b => Done b end, w').
Proof.
  unfold fetchBlock_resume, request_result, try_catch. unfold mbind, M_bind.
  destruct answer as [e|[raw|]]; cbn; [eexists; apply catch_run| |eexists; apply catch_run].
  pose proof (emit_done "fetchBlock" w) as He. destruct (emit "fetchBlock" w) as [o w1].
  simpl in He. subst o. unfold of_outcome.
  destruct (transformBlock_cases raw) as [[b ->]|(m & c & ->)]; [by eexists|].
  eexists. apply catch_run.
Qed.

(** How the requests of a batch end, in the order in which they do. *)
Definition batch_results (api : SolanaApi) (bufferBlocks : list Z) (arrivals : list (nat * RpcAnswer))
  : list (nat * (jserror + IBlock SolanaBlock)) :=
  (fun x => (x.1, request_result api (bufferBlocks !!! x.1) x.2)) <$> arrivals.

Lemma arrivals_run api nums arrivals st w :
  Forall (fun i => i < length nums)%nat arrivals.*1 →
  ∃ w', fetchBlocks_arrivals api nums st arrivals w =
    (Done (foldl all_event st (batch_results api nums arrivals)), w').
Proof.
  revert st w. induction arrivals as [|[i answer] arrivals IH]; intros st w Hi; [by eexists|].
  inversion_clear Hi as [|?? Hi' Hi'']. cbn [fetchBlocks_arrivals].
  destruct (lookup_lt_is_Some_2 nums i Hi') as [n Hn].
  assert (∃ w', fetchBlocks_arrival api nums st i answer w =
    (Done (all_event st (i, request_result api (nums !!! i) answer)), w')) as [w1 H1].
  { unfold fetchBlocks_arrival. rewrite Hn, (list_lookup_total_correct _ _ _ Hn).
    destruct (resume_run api n answer w) as [w1 H1]. unfold try_catch, mbind, M_bind. rewrite H1.
    destruct (request_result api n answer); by eexists. }
  rewrite (bind_Done _ _ _ _ _ H1). by apply IH.
Qed.

Lemma result_block api n answer b :
  request_result api n answer = inr b →
  ∃ raw blk, answer = inr (Some raw) ∧ transformBlock raw = Done blk ∧ b = formatBlockUtil blk (Some n).
Proof.
  unfold request_result. destruct answer as [e|[raw|]]; [done| |done].
  destruct (transformBlock raw) as [blk| | |] eqn:E; [|done..]. intros [= <-]. eauto.
Qed.

(** C10: the requests of a batch are answered in any order.  Once all of them are, the
    batch has ended: with the error of the failure that arrived first, as the catch of
    [fetchBlock] words it; or, if none failed, with one block per number, in the order of
    the numbers whatever the order of the answers, each the wrapping of the block that
    was answered for its own number, with that number as height. *)
Theorem fetchBlocks_any_order api nums arrivals w :
  arrivals.*1 ≡ₚ seq 0 (length nums) →
  ∃ st w', fetchBlocks_concurrent api nums arrivals w = (Done st, w') ∧
  match first_failure (batch_results api nums arrivals) with
  | Some e => settled st = Some (Throw e)
  | None => ∃ bs, settled st = Some (Done bs) ∧ blockHeight ∘ getHeader <$> bs = nums ∧
      ∀ i n answer, nums !! i = Some n → (i, answer) ∈ arrivals →
        ∃ raw blk, answer = inr (Some raw) ∧ transformBlock raw = Done blk ∧
          bs !! i = Some (formatBlockUtil blk (Some n))
  end.
Proof.
  intros Hp. set (evs := batch_results api nums arrivals).
  destruct (arrivals_run api nums arrivals (all_new (length nums)) w) as [w' Hrun].
  { rewrite Hp. apply Forall_forall. intros i Hi%elem_of_seq. lia. }
  eexists _, w'. split; [exact Hrun|]. fold evs.
  assert (evs.*1 ≡ₚ seq 0 (length nums)) as Hev.
  { unfold evs, batch_results. by rewrite <- list_fmap_compose. }
  pose proof (promise_all_settled (length nums) evs Hev) as Hall.
  destruct (first_failure evs) as [e|] eqn:Hf; [done|].
  destruct Hall as (bs & Hbs & Hlen & Hin). exists bs. split; [done|].
  assert (∀ i n answer, nums !! i = Some n → (i, answer) ∈ arrivals →
    ∃ raw blk, answer = inr (Some raw) ∧ transformBlock raw = Done blk ∧
      bs !! i = Some (formatBlockUtil blk (Some n))) as Hval.
  { intros i n answer Hn Ha.
    assert ((i, request_result api n answer) ∈ evs) as Hr.
    { apply list_elem_of_fmap. exists (i, answer). by rewrite (list_lookup_total_correct _ _ _ Hn). }
    pose proof (first_failure_None _ Hf _ Hr) as Hok. unfold failure in Hok. simpl in Hok.
    destruct (request_result api n answer) as [e|b] eqn:E; [done|]. apply Hin in Hr.
    apply result_block in E as (raw & blk & -> & Ht & ->). eauto. }
  split; [|done]. apply list_eq. intros i. rewrite list_lookup_fmap.
  destruct (nums !! i) as [n|] eqn:Hn.
  - assert (i ∈ arrivals.*1) as ([j answer] & -> & Ha)%list_elem_of_fmap.
    { rewrite Hp. apply elem_of_seq. apply lookup_lt_Some in Hn. lia. }
    destruct (Hval _ _ _ Hn Ha) as (raw & blk & _ & _ & Hb). cbn in Hb |- *. by rewrite Hb.
  - rewrite lookup_ge_None_2; [done|]. apply lookup_ge_None_1 in Hn. lia.
Qed.
End batch.

(** ** Instances: slot 7 is answered after slots 5 and 6, or slot 6 was skipped *)
Definition sim_raw (n : Z) : RawSolanaBlock := mkRawBlock (sim_rpc_base n) [].
Definition sim_arrivals : list (nat * RpcAnswer) :=
  [(1%nat, inr (Some (sim_raw 5))); (2%nat, inr (Some (sim_raw 6))); (0%nat, inr (Some (sim_raw 7)))].

Lemma fetchBlocks_any_order_witness :
  ∃ st, fetchBlocks_concurrent (EC:=sim_codes) (NC:=sim_core) sim_api [7; 5; 6] sim_arrivals tt = (Done st, tt) ∧
  ∃ bs, settled st = Some (Done bs) ∧ (blockHeight ∘ getHeader) <$> bs = [7; 5; 6].
Proof.
  destruct (fetchBlocks_any_order (EC:=sim_codes) (NL:=sim_core_laws) sim_api [7; 5; 6] sim_arrivals tt)
    as (st & [] & Hrun & bs & Hbs & Hh & _); [|by exists st; split; [|exists bs]].
  simpl. by rewrite (Permutation_app_comm [1%nat; 2%nat] [0%nat]).
Defined.
