(* ===== verification/ApiService.v ===== *)
(** * The start of the API service

    [packages/node/src/solana/api.service.solana.ts] with [api.connection.ts], and the
    rest of [api.solana.ts]: how the service comes to its connections, which client a
    connection has, and the account requests of a client.  The pool of connections is
    the node core's. *)
From S2P Require Import Prelude JsNumber JsString JsBase64 JsDate Json JsMap Types Blocks Api ApiSpec.

(** ** The rest of the client *)

(** The safe api is [undefined]. *)
Definition SolanaSafeApi : Type := unit.
Definition getSafeApi (api : SolanaApi) (blockHeight : Z) : SolanaSafeApi := tt.

(** An address is a text or an object that may have a method [toBase58]. *)
Inductive AddressLike :=
| AddressText (s : string)
| AddressObject (toBase58 : option (outcome string)).

Definition address_text (address : AddressLike) : outcome string :=
  match address with
  | AddressText s => Done s
  | AddressObject (Some toBase58) => toBase58
  | AddressObject None => Throw (TypeError "address.toBase58 is not a function")
  end.

Section client.
(** The request for an account, with the base64 text of its data, and the test of
    [@solana/addresses]. *)
Context {W : Type} (rpc_getAccountInfo : string → string → Z → M W (option string))
  (assertIsAddress : string → outcome unit).

Definition getAccountInfo (api : SolanaApi) (address : AddressLike) : M W (option (list Z)) :=
  addressStr ← of_outcome (address_text address);
  of_outcome (assertIsAddress addressStr);;
  value ← rpc_getAccountInfo (endpoint api) addressStr REQUEST_TIMEOUT;
  mret (of_base64 <$> value).

Definition api_connect (api : SolanaApi) : M W unit := throw (JsError "Not implemented: connect" None).
Definition api_disconnect (api : SolanaApi) : M W unit := mret tt.

(** The bytes of an account are those that the endpoint encoded, and an account that
    does not exist is null; the request is not made for a text that is no address. *)
Theorem getAccountInfo_bytes api address s w :
  address_text address = Done s →
  (∀ bytes w', Forall byte_ok bytes → assertIsAddress s = Done tt →
    rpc_getAccountInfo (endpoint api) s REQUEST_TIMEOUT w = (Done (Some (to_base64 bytes)), w') →
    getAccountInfo api address w = (Done (Some bytes), w')) ∧
  (∀ w', assertIsAddress s = Done tt →
    rpc_getAccountInfo (endpoint api) s REQUEST_TIMEOUT w = (Done None, w') →
    getAccountInfo api address w = (Done None, w')) ∧
  (∀ e, assertIsAddress s = Throw e → getAccountInfo api address w = (Throw e, w)).
Proof.
  intros Hs. unfold getAccountInfo, mbind, M_bind, of_outcome. rewrite Hs. split_and!.
  - intros bytes w' Hb -> ->. unfold mret, M_ret. simpl. by rewrite of_base64_to_base64.
  - by intros w' -> ->.
  - by intros e ->.
Qed.
End client.

(** ** Connections *)
Record Connection := mkConnection { unsafeApi : SolanaApi; connection_networkMeta : NetworkMeta }.

Section connection.
Context {W : Type} `{RPC : SolanaRpc W, EC : SolanaErrorCodes, NC : NodeCore W}.

Definition connection_create (ep : string) (config : option ISolanaEndpointConfig) (treatLTS : option bool)
  : M W Connection :=
  api ← api_create ep config treatLTS;
  mret (mkConnection api (networkMeta api)).

Definition connection_safeApi (height : Z) : M W unit := throw (JsError "Not Implemented: safeApi" None).
Definition apiConnect (c : Connection) : M W unit := api_connect (unsafeApi c).
Definition apiDisconnect (c : Connection) : M W unit := api_disconnect (unsafeApi c).

(** A connection that is created has a client for its endpoint with the configured
    timeout, or 30 seconds, and the configured reading of archival answers; the chain it
    reports is the genesis hash that the endpoint answered within that timeout.  If the
    endpoint does not answer, no connection is created. *)
Theorem connection_create_spec ep config treatLTS w :
  let timeout := default REQUEST_TIMEOUT (config ≫= ec_requestTimeout) in
  match rpc_getGenesisHash ep timeout w with
  | (Done hash, w') =>
      connection_create ep config treatLTS w =
        (Done (mkConnection (mkApi hash ep timeout (default true treatLTS))
                 (mkNetworkMeta hash "solana" hash)), w')
  | (Throw e, w') =>
      connection_create ep config treatLTS w =
        (Throw (JsError "Failed to get genesis hash" (Some e)), w')
  | (o, w') => ∀ c, connection_create ep config treatLTS w ≠ (Done c, w')
  end.
Proof.
  cbv zeta. unfold connection_create, api_create. cbv zeta.
  generalize (default REQUEST_TIMEOUT (config ≫= ec_requestTimeout)) as timeout. intros timeout.
  unfold rethrow, try_catch, mbind, M_bind.
  destruct (rpc_getGenesisHash ep timeout w) as [[hash|e|m|] w']; first [done|by intros c [=]].
Qed.
End connection.

(** ** The service *)

(** The network of a project, with its endpoints by address *)
Record Network := mkNetwork { net_chainId : string; net_endpoint : list (string * ISolanaEndpointConfig) }.

Record ServiceConfig := mkServiceConfig {
  primaryNetworkEndpoint : option (string * ISolanaEndpointConfig);
  profiler : bool;
  config_treatLongTermStorageSkipAsSkipped : option bool
}.

(** The fields of the service and of the project it reads; [project.network] is an
    object that is shared with the project, or reading it throws. *)
Record ServiceState (W : Type) := mkService {
  service_world : W;
  project_network : jserror + Network;
  fetchBlocksFunction : option (FetchFunc (W:=W))
}.
Arguments mkService {W} _ _ _.
Arguments service_world {W} _.
Arguments project_network {W} _.
Arguments fetchBlocksFunction {W} _.

Definition on_service_world {W A} (m : M W A) : M (ServiceState W) A :=
  zoom service_world (fun w s => mkService w (project_network s) (fetchBlocksFunction s)) m.

(** [createConnections] of the node core makes a connection for each endpoint with the
    function it is given, and knows nothing of the fields of this service. *)
Class ConnectionPool (W : Type) := {
  createConnections : Network → (string → ISolanaEndpointConfig → M (ServiceState W) Connection) →
    M (ServiceState W) unit
}.
Class ConnectionPoolLaws (W : Type) `{ConnectionPool W} := {
  createConnections_fields : ∀ (P : jserror + Network → option (FetchFunc (W:=W)) → Prop) net create,
    (∀ ep config, preserves (fun s => P (project_network s) (fetchBlocksFunction s)) (create ep config)) →
    preserves (fun s => P (project_network s) (fetchBlocksFunction s)) (createConnections net create)
}.

Section service.
Context {W : Type} `{RPC : SolanaRpc W, EC : SolanaErrorCodes, NC : NodeCore W, CP : ConnectionPool W}
  (profilerWrap : FetchFunc (W:=W) → FetchFunc (W:=W)).

(** [(network.endpoint as Record<string, IEndpointConfig>)[endpoint] = config] *)
Definition with_primary (primary : option (string * ISolanaEndpointConfig)) (network : Network) : Network :=
  match primary with
  | Some (ep, config) => mkNetwork (net_chainId network) (map_set (net_endpoint network) ep config)
  | None => network
  end.

Definition service_init (config : ServiceConfig) : M (ServiceState W) unit :=
  network ← gets project_network;
  match network with
  | inl e => exit "Failed to init api"
  | inr network =>
      let network := with_primary (primaryNetworkEndpoint config) network in
      modify (fun s => mkService (service_world s) (inr network) (fetchBlocksFunction s)) ;;
      modify (fun s => mkService (service_world s) (project_network s)
        (Some (updateBlockFetching (profiler config) profilerWrap))) ;;
      createConnections network (fun ep c => on_service_world
        (connection_create ep (Some c)
           (Some (node_treatLongTermStorageSkipAsSkipped
                    (config_treatLongTermStorageSkipAsSkipped config)))))
  end.

(** [fetchFullBlocksBatch] *)
Definition fetchFullBlocksBatch (api : SolanaApi) (batch : list Z) : M W (list (IBlock SolanaBlock)) :=
  fetchBlocks api batch.

(** [fetchBlocks] of a connection that this service created *)
Definition service_connection_fetchBlocks (c : Connection) (heights : list Z)
  : M (ServiceState W) (list (IBlock SolanaBlock)) :=
  f ← gets fetchBlocksFunction;
  on_service_world (connection_fetchBlocks f (unsafeApi c) heights).

(** [api] and [safeApi]: the client that the pool picks *)
Definition service_api (pool_api : M W SolanaApi) : M W SolanaApi := pool_api.
Definition safeApi (pool_api : M W SolanaApi) (height : Z) : M W SolanaSafeApi :=
  api ← service_api pool_api; mret (getSafeApi api height).

Lemma with_primary_endpoints primary network ep :
  map_get (net_endpoint (with_primary primary network)) ep =
    match primary with
    | Some (ep', config) => if decide (ep' = ep) then Some config else map_get (net_endpoint network) ep
    | None => map_get (net_endpoint network) ep
    end.
Proof. destruct primary as [[ep' config]|]; [|done]. apply map_get_set. Qed.

Lemma on_service_world_fields {A} (P : jserror + Network → option (FetchFunc (W:=W)) → Prop) (m : M W A) :
  preserves (fun s => P (project_network s) (fetchBlocksFunction s)) (on_service_world m).
Proof. intros s Hs. unfold on_service_world, zoom. by destruct (m (service_world s)). Qed.

(** C29: however the start of the service ends, when the project has a network the
    function that fetches blocks is set before the first connection, so no connection
    ever fails for the lack of it and each fetches with its own client; the primary
    endpoint is one of the project's endpoints, with its own configuration, and the
    others are as they were.  Without a network the process ends and nothing was done. *)
Theorem service_init_spec `{CL : !ConnectionPoolLaws W} config s o s' :
  service_init config s = (o, s') →
  match project_network s with
  | inl e => o = Exit "Failed to init api" ∧ s' = s
  | inr network =>
      (∀ c heights, service_connection_fetchBlocks c heights s' =
        on_service_world (updateBlockFetching (profiler config) profilerWrap (unsafeApi c) heights) s') ∧
      ∃ network', project_network s' = inr network' ∧ net_chainId network' = net_chainId network ∧
        ∀ ep, map_get (net_endpoint network') ep =
          match primaryNetworkEndpoint config with
          | Some (ep', c) => if decide (ep' = ep) then Some c else map_get (net_endpoint network) ep
          | None => map_get (net_endpoint network) ep
          end
  end.
Proof.
  unfold service_init. rewrite (bind_Done (gets project_network) _ s (project_network s) s) by done.
  destruct (project_network s) as [e|network] eqn:Hn; [by intros [= <- <-]|].
  set (net := with_primary _ network). unfold modify, mbind at 1 2, M_bind at 1 2. cbn.
  set (f := updateBlockFetching _ _). intros H.
  pose proof (createConnections_fields (fun n g => n = inr net ∧ g = Some f) net
    (fun ep c => on_service_world (connection_create ep (Some c)
      (Some (node_treatLongTermStorageSkipAsSkipped (config_treatLongTermStorageSkipAsSkipped config)))))
    (fun ep c => on_service_world_fields _ _)) as Hp.
  destruct (Hp (mkService (service_world s) (inr net) (Some f)) (conj eq_refl eq_refl)) as [Hnet Hf].
  rewrite H in Hnet, Hf. cbn in Hnet, Hf. split.
  - intros c heights. unfold service_connection_fetchBlocks.
    rewrite (bind_Done (gets fetchBlocksFunction) _ s' (Some f) s') by (unfold gets; by rewrite Hf). done.
  - exists net. split_and!; [done| |].
    + unfold net, with_primary. by destruct (primaryNetworkEndpoint config) as [[]|].
    + intros ep. apply with_primary_endpoints.
Qed.
End service.

(** ** Instances *)
Lemma getAccountInfo_bytes_witness :
  getAccountInfo (fun _ _ _ => mret (Some "AQID")) (fun _ => Done tt) sim_api
    (AddressObject (Some (Done "11111111111111111111111111111111"))) tt = (Done (Some [1; 2; 3]), tt).
Proof.
  refine (proj1 (getAccountInfo_bytes (fun _ _ _ => mret (Some "AQID")) (fun _ => Done tt) sim_api
    (AddressObject (Some (Done "11111111111111111111111111111111"))) "11111111111111111111111111111111" tt
    eq_refl) [1; 2; 3] tt _ eq_refl eq_refl).
  repeat (constructor; [unfold byte_ok; lia|]). constructor.
Defined.

Definition sim_pool : ConnectionPool unit := {|
  createConnections net create := for_each (net_endpoint net) (fun ec => create ec.1 ec.2 ;; mret tt)
|}.
Definition sim_pool_laws : ConnectionPoolLaws unit (H:=sim_pool).
Proof.
  split. intros P net create H. apply preserves_for_each. intros ec.
  apply preserves_bind; [apply H|intros c; apply preserves_ret].
Defined.

Definition sim_service_state : ServiceState unit :=
  mkService tt (inr (mkNetwork "5eykt" [("a.example", mkEndpointConfig [] None)])) None.

Definition sim_service_config : ServiceConfig :=
  mkServiceConfig (Some ("b.example", mkEndpointConfig [] (Some 500))) false None.
Definition sim_service_run : outcome unit * ServiceState unit :=
  service_init (RPC:=sim_rpc) (EC:=sim_codes) (NC:=sim_core) (CP:=sim_pool) id sim_service_config
    sim_service_state.

Lemma service_init_spec_witness :
  sim_service_run.1 = Done tt ∧
  ∀ c heights, service_connection_fetchBlocks c heights sim_service_run.2 =
    on_service_world (fetchBlocks (RPC:=sim_rpc) (EC:=sim_codes) (NC:=sim_core) (unsafeApi c) heights)
      sim_service_run.2.
Proof.
  split; [vm_compute; reflexivity|].
  exact (proj1 (service_init_spec (RPC:=sim_rpc) (EC:=sim_codes) (NC:=sim_core) (CP:=sim_pool)
    (CL:=sim_pool_laws) id sim_service_config sim_service_state sim_service_run.1 sim_service_run.2
    (surjective_pairing sim_service_run))).
Defined.
