(* ===== verification/Blockchain.v ===== *)
(** * The blockchain service

    [packages/node/src/blockchain.service.ts] on top of the client, as the
    implementation of the interface [BlockchainClient] that the unfinalized blocks
    service is proved against; and [indexer/worker/worker.service.ts]. *)
From S2P Require Import Prelude JsNumber JsString JsDate Json Types Chain Blocks BlockSize Api ApiSpec ApiService.

Section service.
  Context {W : Type} `{RPC : SolanaRpc W, EC : SolanaErrorCodes, NC : NodeCore W}.

(** [this.apiService.api]: the client that the pool of connections picks. *)
  Context (apiService_api : M W SolanaApi).

(** [this.apiService.fetchBlocks]: the node core's retries around the choice of
    [fetchBlocksBatches]. *)
Context (apiService_fetchBlocks : list Z → M W (list (IBlock SolanaBlock))).

Definition service_fetchBlocks (blockNums : list Z) : M W (list (IBlock SolanaBlock)) :=
  apiService_fetchBlocks blockNums.

Definition service_getFinalizedHeader : M W Header :=
  api ← apiService_api; getFinalizedBlockHeader api.

Definition service_getBestHeight : M W Z := api ← apiService_api; getBestBlockHeight api.

Definition getChainInterval : Z := 2000.

Definition getHeaderForHash (hash : string) : M W Header :=
  throw (JsError "Solana doesnt support getting blocks by hash" None).

Definition service_getHeaderForHeight (height : Z) : M W Header :=
  api ← apiService_api; getHeaderByHeight api height.

(** [fetchBlock] of a worker, and the service's use of it *)
Definition fetchBlockWorker (worker_fetchBlock : Z → Z → M W Header) (blockNum : Z) : M W Header :=
  worker_fetchBlock blockNum 0.

Definition service_getBlockSize decoded_instruction decoded_log (bigint_toJSON : bool)
    (b : IBlock SolanaBlock) : M (list string) Z :=
  getBlockSize decoded_instruction decoded_log bigint_toJSON (block b).

(** The safe api does not depend on the height, which is the block's and not its slot. *)
Definition service_getSafeApi (b : SolanaBlock) : M W SolanaSafeApi :=
  safeApi apiService_api (Number (sb_blockHeight (block_base b))).

Definition getBlockTimestamp (height : Z) : M W js_date :=
  header ← service_getHeaderForHeight height; mret (timestamp header).

#[global] Instance service_client : BlockchainClient W := {|
  bc_getFinalizedHeader := service_getFinalizedHeader;
  bc_getHeaderForHeight := service_getHeaderForHeight
|}.

(** ** The interface is implemented *)

(** The slots that the RPC names are within the safe integers. *)
Definition slots_safe : Prop := ∀ ep c t w z w',
  rpc_getSlot ep c t w = (Done z, w') → safe z.

Context {NL : NodeCoreLaws W}.

(** C23: the service meets what the unfinalized blocks service relies on: a header
    for a slot has that slot as height, also when the slot before was skipped, and
    the height of the finalized header is a safe integer, as long as the chain's
    slots are. *)
Theorem service_implements : slots_safe → BlockchainLaws W.
Proof.
  intros Hs. split.
  - intros h w hd w' Hh H. apply bind_Done_inv in H as (api & w1 & _ & H).
    apply getHeaderByHeight_height in H. by rewrite H, Number_exact.
  - intros w hd w' H. apply bind_Done_inv in H as (api & w1 & _ & H).
    apply finalized_header_height in H as (z & w2 & w3 & Hz & ->).
    apply Hs in Hz. by rewrite !Number_exact by (rewrite ?Number_exact; done).
Qed.

End service.

(** ** The worker's blocks

    The base class of the node core passes on the block without the slot it was
    fetched for; the worker keeps the slots in a map from block objects.  An object
    is its place on the heap and what it holds. *)
Record BlockObject := mkObject { address : N; content : SolanaBlock }.

Record WorkerState (W : Type) := mkWorker {
  worker_world : W;
  next_address : N;
  blockSlots : gmap N Z
}.
Arguments mkWorker {W} _ _ _.
Arguments worker_world {W} _.
Arguments next_address {W} _.
Arguments blockSlots {W} _.

Section worker.
  Context {W : Type} (apiService_fetchBlocks : list Z → M W (list (IBlock SolanaBlock))).

Definition worker_on_world {A} (m : M W A) : M (WorkerState W) A :=
  zoom worker_world (fun w s => mkWorker w (next_address s) (blockSlots s)) m.

(** A block that came from the RPC is a new object. *)
Definition allocate (b : SolanaBlock) : M (WorkerState W) BlockObject := fun s =>
  (Done (mkObject (next_address s) b),
   mkWorker (worker_world s) (N.succ (next_address s)) (blockSlots s)).

Definition fetchChainBlock (heights : Z) : M (WorkerState W) (IBlock BlockObject) :=
  blocks ← worker_on_world (apiService_fetchBlocks [heights]);
  match blocks with
  | [] => throw (TypeError "Cannot read properties of undefined (reading 'block')")
  | b :: _ =>
      o ← allocate (block b);
      modify (fun s => mkWorker (worker_world s) (next_address s)
                         (<[address o := heights]> (blockSlots s))) ;;
      mret (mkIBlock o (getHeader b))
  end.

Definition toBlockResponse (b : BlockObject) : M (WorkerState W) Header :=
  slots ← gets blockSlots;
  mret (solanaBlockToHeader (block_base (content b)) (slots !! address b)).

(** [indexBlock] of the indexer manager is what a worker does with a block; a worker's
    thread has not installed the text of bigints. *)
Definition processFetchedBlock {DS R} (indexBlock : IBlock BlockObject → list DS → M (WorkerState W) R)
    (b : IBlock BlockObject) (dataSources : list DS) : M (WorkerState W) R :=
  indexBlock b dataSources.

Definition worker_getBlockSize decoded_instruction decoded_log (b : IBlock BlockObject) : M (list string) Z :=
  getBlockSize decoded_instruction decoded_log false (content (block b)).

Lemma fetchChainBlock_inv h s b s' :
  fetchChainBlock h s = (Done b, s') →
  address (block b) = next_address s ∧ next_address s' = N.succ (next_address s) ∧
  blockSlots s' = <[next_address s := h]> (blockSlots s).
Proof.
  unfold fetchChainBlock. intros (bs & s1 & Hbs & H)%bind_Done_inv.
  destruct bs as [|b0 bs]; [done|].
  unfold worker_on_world, zoom in Hbs. destruct (apiService_fetchBlocks [h] (worker_world s)) as [o w].
  injection Hbs as -> <-. apply bind_Done_inv in H as (ob & s2 & [= <- <-] & H).
  apply bind_Done_inv in H as (u & s3 & [= <- <-] & [= <- <-]). done.
Qed.

(** C30: the header a worker reports for a block is that of the slot it was
    fetched for, whatever was fetched in between, even when the previous slot was
    skipped. *)
Theorem worker_header_height h s b s1 hs s2 :
  fetchChainBlock h s = (Done b, s1) →
  foldr (fun n st => (fetchChainBlock n st).2) s1 hs = s2 →
  (∀ n st, n ∈ hs → ∃ b' st', fetchChainBlock n st = (Done b', st')) →
  ∃ hd, toBlockResponse (block b) s2 = (Done hd, s2) ∧ blockHeight hd = h.
Proof.
  intros Hf Hs2 Htot.
  apply fetchChainBlock_inv in Hf as (Ha & Hn & Hm).
  assert (blockSlots s2 !! address (block b) = Some h ∧ (address (block b) < next_address s2)%N)
    as [Hl _].
  { subst s2. revert Htot. induction hs as [|n hs IH]; intros Htot; simpl.
    - rewrite Hm, Ha, Hn, lookup_insert_eq. split; [done|lia].
    - destruct IH as [IH1 IH2]; [intros n' st Hin; apply Htot; by right|].
      set (st := foldr _ _ _) in *.
      destruct (Htot n st ltac:(by left)) as (b' & st' & E). rewrite E. simpl.
      apply fetchChainBlock_inv in E as (_ & -> & ->).
      rewrite lookup_insert_ne by lia. split; [done|lia]. }
  eexists. unfold toBlockResponse. rewrite (bind_Done (gets blockSlots) _ s2 _ s2) by done.
  split; [done|]. by rewrite Hl.
Qed.
End worker.

(** ** Instances *)
Lemma service_implements_witness :
  ∃ hd, service_getHeaderForHeight (RPC:=sim_rpc) (EC:=sim_codes) (mret sim_api) 5 tt = (Done hd, tt) ∧
    blockHeight hd = 5.
Proof.
  eexists. split; [reflexivity|].
  assert (slots_safe (RPC:=sim_rpc)) as Hs by by intros ep c t w z w' [= <- _].
  apply (@header_at_height unit _ (service_implements (RPC:=sim_rpc) (EC:=sim_codes)
    (NC:=sim_core) (NL:=sim_core_laws) (mret sim_api) Hs) 5 tt _ tt); [by vm_compute|reflexivity].
Defined.

Definition sim_fetch (l : list Z) : M unit (list (IBlock SolanaBlock)) :=
  fetchBlocks (RPC:=sim_rpc) (EC:=sim_codes) (NC:=sim_core) sim_api l.

Lemma worker_header_height_witness :
  let s := mkWorker tt 0%N ∅ in
  ∃ b s1, fetchChainBlock sim_fetch 5 s = (Done b, s1) ∧
  ∃ hd, toBlockResponse (block b) (fetchChainBlock sim_fetch 6 s1).2 =
    (Done hd, (fetchChainBlock sim_fetch 6 s1).2) ∧ blockHeight hd = 5.
Proof.
  intros s. eexists _, _. split; [reflexivity|].
  eapply (worker_header_height sim_fetch 5 s _ _ [6]); [reflexivity|reflexivity|].
  intros n st ->%list_elem_of_singleton. destruct st as [[] na m]. eexists _, _. reflexivity.
Defined.
