(* ===== verification/Ledger.v ===== *)
(** * The fork detection over the RPC

    The unfinalized blocks service is proved against a chain that answers every
    question the same way ([StableChain]).  Here that interface is discharged by the
    blockchain service, the client and an endpoint: what is asked of the endpoints is
    what the RPC documents about the blocks of a ledger. *)
From S2P Require Import Prelude JsNumber JsString JsDate Json Types Chain Sim Unfinalized UnfinalizedInv UnfinalizedChain UnfinalizedFork UnfinalizedRecover Blocks Api ApiSpec ApiService Blockchain.

(** ** A ledger: the block of each produced slot *)
Record ledger_ok (ledger : Z → option BaseSolanaBlock) : Prop := {
  ledger_slot : ∀ h b, ledger h = Some b → 0 ≤ h ≤ MAX_SAFE_INTEGER;
  (** the slots between a block and its parent were skipped *)
  ledger_gap : ∀ h b, ledger h = Some b → 0 < h → sb_parentSlot b < h ∧
    ∀ k, sb_parentSlot b < k < h → ledger k = None;
  (** [previousBlockhash] is the hash of the block in slot [parentSlot] *)
  ledger_parent : ∀ h b p, ledger h = Some b → 0 < h → ledger (sb_parentSlot b) = Some p →
    sb_previousBlockhash b = sb_blockhash p;
  (** only the first block has no parent in the ledger *)
  ledger_first : ∀ h b, ledger h = Some b → 0 < h → ledger (sb_parentSlot b) = None →
    ∀ k, k < h → ledger k = None;
  ledger_hash : ∀ h b, ledger h = Some b → sb_blockhash b ≠ "" ∧ sb_previousBlockhash b ≠ ""
}.

(** Hashes are unique, and no block is the parent of the first one. *)
Record ledger_hashes (ledger : Z → option BaseSolanaBlock) : Prop := {
  ledger_unique : ∀ h h' b b', ledger h = Some b → ledger h' = Some b' →
    sb_blockhash b = sb_blockhash b' → h = h';
  ledger_root : ∀ h h' b b', ledger h = Some b → ledger h' = Some b' →
    (∀ k, k < h → ledger k = None) → sb_previousBlockhash b ≠ sb_blockhash b'
}.

Definition ledger_header (ledger : Z → option BaseSolanaBlock) (h : Z) : option Header :=
  (fun b => solanaBlockToHeader b (Some h)) <$> ledger h.

Section ledger.
  Context (ledger : Z → option BaseSolanaBlock) {LO : ledger_ok ledger}.
  Local Abbreviation canonical := (ledger_header ledger).

Lemma ledger_header_Some h hd :
  canonical h = Some hd → ∃ b, ledger h = Some b ∧ hd = solanaBlockToHeader b (Some h).
Proof. unfold ledger_header. destruct (ledger h) as [b|]; [|done]. intros [= <-]. eauto. Qed.

Lemma ledger_header_None h : canonical h = None ↔ ledger h = None.
Proof. unfold ledger_header. by destruct (ledger h). Qed.

(** The parent of a block is the block of the previous produced slot. *)
Lemma ledger_previous h h' b b' :
  ledger h = Some b → ledger h' = Some b' → h < h' → (∀ k, h < k < h' → ledger k = None) →
  sb_previousBlockhash b' = sb_blockhash b.
Proof.
  intros H H' Hlt Hgap. destruct (ledger_slot _ LO _ _ H) as [H0 _].
  destruct (ledger_gap _ LO _ _ H' ltac:(lia)) as [Hp Hbetween].
  destruct (ledger (sb_parentSlot b')) as [p|] eqn:Ep.
  - rewrite (ledger_parent _ LO _ _ _ H' ltac:(lia) Ep).
    destruct (Z.lt_trichotomy (sb_parentSlot b') h) as [Hs|[Hs|Hs]].
    + rewrite Hbetween in H by lia. done.
    + rewrite Hs in Ep. congruence.
    + rewrite Hgap in Ep by lia. done.
  - by rewrite (ledger_first _ LO _ _ H' ltac:(lia) Ep _ Hlt) in H.
Qed.

Lemma ledger_before_0 k : k < 0 → ledger k = None.
Proof.
  intros Hk. destruct (ledger k) as [b|] eqn:E; [|done]. apply (ledger_slot _ LO) in E. lia.
Qed.

Lemma ledger_identifying : ledger_hashes ledger → IdentifyingHashes canonical.
Proof.
  intros LH. split; intros k k' c c' (b & Hb & ->)%ledger_header_Some (b' & Hb' & ->)%ledger_header_Some;
    cbn; intros E.
  - by eapply (ledger_unique _ LH).
  - injection E as E. destruct (ledger_slot _ LO _ _ Hb') as [H0 _].
    destruct (decide (k' = 0)) as [->|Hne]; [|destruct (ledger (sb_parentSlot b')) as [p|] eqn:Ep].
    + by destruct (ledger_root _ LH _ _ _ _ Hb' Hb (ledger_before_0)).
    + rewrite (ledger_parent _ LO _ _ _ Hb' ltac:(lia) Ep) in E.
      rewrite <- (ledger_unique _ LH _ _ _ _ Ep Hb E).
      by apply (ledger_gap _ LO _ _ Hb' ltac:(lia)).
    + by destruct (ledger_root _ LH _ _ _ _ Hb' Hb (ledger_first _ LO _ _ Hb' ltac:(lia) Ep)).
Qed.
End ledger.

(** ** Endpoints that serve one ledger *)
Section rpc.
  Context {W : Type} `{RPC : SolanaRpc W, EC : SolanaErrorCodes, NC : NodeCore W, NL : !NodeCoreLaws W}
    (apiService_api : M W SolanaApi) (ledger : Z → option BaseSolanaBlock) (bad_slot : jserror)
    {LO : ledger_ok ledger}.

(** The answer to a request for the header of a slot: the block; for a skipped slot
    nothing or an error that says so; below slot 0 some other error. *)
Definition ledger_answer (treatLTS : bool) (h : Z) (o : outcome (option BaseSolanaBlock)) : Prop :=
  if h <? 0 then o = Throw bad_slot
  else match ledger h with
       | Some b => o = Done (Some b)
       | None => o = Done None ∨ ∃ e, o = Throw e ∧ isSkippedSlotError e treatLTS = true
       end.

(** Whichever endpoint the pool of connections picks, and whenever it is asked. *)
Class StableEndpoints := {
  pool_picks : ∀ w, ∃ api, apiService_api w = (Done api, w);
  endpoint_answers : ∀ w0 w1 api h w, apiService_api w0 = (Done api, w1) →
    ∃ o, rpc_getBlockHeader (endpoint api) h (requestTimeout api) w = (o, w) ∧
      ledger_answer (treatLongTermStorageSkipAsSkipped api) h o;
  bad_slot_other : bad_slot ≠ BlockUnavailableError ∧ ∀ treatLTS, isSkippedSlotError bad_slot treatLTS = false
}.

Context {SE : StableEndpoints}.
Local Abbreviation canonical := (ledger_header ledger).

Lemma getHeaderByHeight_ledger w0 w1 api h w :
  apiService_api w0 = (Done api, w1) →
  getHeaderByHeight api h w = (stable_answer canonical bad_slot h, w).
Proof.
  intros Hpool. destruct (endpoint_answers _ _ _ h w Hpool) as (o & Ho & Hans).
  unfold getHeaderByHeight, mbind, M_bind, try_catch. rewrite Ho.
  unfold ledger_answer in Hans. unfold stable_answer, ledger_header.
  destruct (h <? 0).
  - subst o. destruct bad_slot_other as [_ ->]. done.
  - destruct (ledger h) as [b|] eqn:Hb.
    + subst o. cbn. rewrite Number_exact; [done|]. unfold safe.
      apply (ledger_slot _ LO) in Hb. unfold MAX_SAFE_INTEGER in *. lia.
    + destruct Hans as [->|(e & -> & ->)]; done.
Qed.

(** C8: when the endpoints serve one ledger, whose blocks name the slot and the hash
    of their parents, the blockchain service is the stable chain that the detection of
    forks, the registration of blocks and the search for the common ancestor are proved
    against, whichever endpoint each request goes to and however it says that a slot was
    skipped; and a finalized header that it gives is the ledger's block of that slot.  When
    the ledger's hashes are unique they identify the headers. *)
Theorem service_stable_chain :
  StableChain W (H:=service_client apiService_api) canonical bad_slot ∧
  (∀ w hd w', service_getFinalizedHeader apiService_api w = (Done hd, w') →
    canonical (blockHeight hd) = Some hd) ∧
  (ledger_hashes ledger → IdentifyingHashes canonical).
Proof.
  split_and!; [split| |by apply ledger_identifying].
  - intros h w. cbn. unfold service_getHeaderForHeight. destruct (pool_picks w) as [api Hapi].
    rewrite (bind_Done _ _ _ _ _ Hapi). by eapply getHeaderByHeight_ledger.
  - apply bad_slot_other.
  - intros h hd (b & Hb & ->)%ledger_header_Some. split; [|done]. apply (ledger_slot _ LO) in Hb. lia.
  - intros h h' hd hd' (b & Hb & ->)%ledger_header_Some (b' & Hb' & ->)%ledger_header_Some Hlt Hgap.
    cbn. f_equal. eapply ledger_previous; [done..|]. intros k Hk. by apply ledger_header_None, Hgap.
  - intros h hd (b & Hb & ->)%ledger_header_Some. by destruct (ledger_hash _ LO _ _ Hb).
  - intros h hd (b & Hb & ->)%ledger_header_Some. eexists. split; [done|]. by apply (ledger_hash _ LO _ _ Hb).
  - intros w hd w' H. apply bind_Done_inv in H as (api & w1 & Hapi & H). apply rethrow_Done in H.
    apply bind_Done_inv in H as (h & w2 & _ & H). apply backoffRetry_answer in H as (w3 & w4 & H).
    rewrite (getHeaderByHeight_ledger _ _ _ _ _ Hapi) in H. unfold stable_answer in H.
    destruct (h <? 0); [done|]. destruct (canonical h) as [hd'|] eqn:E; [|done].
    injection H as <- <-. pose proof E as (b & _ & ->)%ledger_header_Some. exact E.
Qed.
End rpc.

(** ** Instances: slot 3 was skipped, and slots after 6 are not produced yet *)
Definition sim_ledger_block (n parent : Z) (hash previous : string) : BaseSolanaBlock :=
  mkBase n 1700000000 hash parent previous [].
Definition sim_ledger (h : Z) : option BaseSolanaBlock :=
  match h with
  | 0 => Some (sim_ledger_block 0 0 "a0" "1111")
  | 1 => Some (sim_ledger_block 1 0 "a1" "a0")
  | 2 => Some (sim_ledger_block 2 1 "a2" "a1")
  | 4 => Some (sim_ledger_block 3 2 "a4" "a2")
  | _ => None
  end.
Definition sim_ledger_rpc : SolanaRpc unit := {|
  rpc_getGenesisHash _ _ := mret "5eykt4UsFv8P8NJdTREpY1vzqKqZKvdpKuc147dw2N9d";
  rpc_getSlot _ _ _ := mret 4;
  rpc_getBlockHeader _ n _ :=
    if n <? 0 then throw sim_bad_slot else
    if n =? 3 then throw (SolanaError (-32007) None "Slot 3 was skipped") else mret (sim_ledger n);
  rpc_getBlock _ n _ := mret ((fun b => mkRawBlock b []) <$> sim_ledger n)
|}.

Ltac ledger_slots :=
  repeat match goal with
  | H : sim_ledger ?h = Some _ |- _ =>
      unfold sim_ledger in H; repeat (case_match; simplify_eq/=)
  end.

Lemma sim_ledger_ok : ledger_ok sim_ledger.
Proof.
  split.
  - intros h b H. ledger_slots; unfold MAX_SAFE_INTEGER; lia.
  - intros h b H H0. ledger_slots; (split; [lia|]); intros k Hk; try lia.
    by replace k with 3 by lia.
  - intros h b p H H0 Hp. ledger_slots; try lia; by simplify_eq/=.
  - intros h b H H0 Hp. ledger_slots; try lia; done.
  - intros h b H. by ledger_slots.
Qed.

Definition sim_endpoints :
  StableEndpoints (RPC:=sim_ledger_rpc) (EC:=sim_codes) (mret sim_api) sim_ledger sim_bad_slot.
Proof.
  split.
  - intros []. by exists sim_api.
  - intros w0 w1 api h [] [= <- _]. unfold ledger_answer. cbn. destruct (h <? 0); [by eexists|].
    destruct (Z.eqb_spec h 3) as [->|].
    + eexists. split; [done|]. right. by eexists.
    + eexists. split; [done|]. destruct (sim_ledger h); [done|by left].
  - split; [done|]. by intros [].
Defined.

(** A record of a fork in slot 2, with the chain final up to slot 4. *)
#[local] Existing Instance none_arrive.
Lemma service_stable_chain_witness :
  let BC := service_client (RPC:=sim_ledger_rpc) (EC:=sim_codes) (NC:=sim_core) (mret sim_api) in
  ∃ f, bc_getFinalizedHeader tt = (Done f, tt) ∧
  let s := Unfinalized.mkService (Some [sim_block 1 "a1" "a0"; sim_block 2 "b2" "a1"]) (Some f) Undefined tt in
  hasForked 6 s = (Done (ledger_header sim_ledger 2), s).
Proof.
  intros BC. eexists. split; [reflexivity|]. intros s.
  destruct (service_stable_chain (RPC:=sim_ledger_rpc) (EC:=sim_codes) (NL:=sim_core_laws)
    (mret sim_api) sim_ledger sim_bad_slot (LO:=sim_ledger_ok) (SE:=sim_endpoints)) as (SC & Hfin & _).
  apply (hasForked_stable (SC:=SC) (ledger_header sim_ledger) sim_bad_slot 6 _ _ Undefined tt
    (sim_block 2 "b2" "a1")); [|by vm_compute|done..].
  by apply (Hfin tt _ tt).
Defined.
