(* ===== verification/Dictionary.v ===== *)
(** * The dictionary

    [packages/node/src/indexer/dictionary/v2/solanaDictionaryV2.ts] and
    [dictionary.service.ts]: the query that the handlers' filters become, and the
    blocks of the answer. *)
From S2P Require Import Prelude JsNumber JsString JsDate Json Types Filters Blocks.

Definition MIN_FETCH_LIMIT : Z := 200.

(** ** Conditions *)
Record LogConditions := mkLogConditions { lc_programIds : option (list string) }.
Record TxConditions := mkTxConditions { tc_signerAccountKeys : option (list string) }.
Record InstructionConditions := mkInstructionConditions {
  ic_accounts : option (list InstructionAccountFilter);
  ic_programIds : option (list string);
  ic_discriminators : option (list string);
  ic_isCommitted : option bool
}.

Record QueryEntry := mkQueryEntry {
  qe_logs : option (list LogConditions);
  qe_instructions : option (list InstructionConditions);
  qe_transactions : option (list TxConditions)
}.

Definition empty_entry : QueryEntry := mkQueryEntry None None None.

(** [JSON.stringify] of the conditions: the properties that are set, in the order
    in which the program sets them. *)
Definition json_strings (l : list string) : json := JArray (JString <$> l).
Definition json_field {A} (name : string) (f : A → json) (x : option A) : props :=
  match x with Some x => [(name, f x)] | None => [] end.

Definition log_json (c : LogConditions) : json :=
  JObject (json_field "programIds" json_strings (lc_programIds c)).
Definition tx_json (c : TxConditions) : json :=
  JObject (json_field "signerAccountKeys" json_strings (tc_signerAccountKeys c)).
Definition account_json (a : InstructionAccountFilter) : json :=
  match a with Some l => json_strings l | None => JNull end.
Definition instruction_json (c : InstructionConditions) : json :=
  JObject (json_field "accounts" (fun l => JArray (account_json <$> l)) (ic_accounts c)
    ++ json_field "programIds" json_strings (ic_programIds c)
    ++ json_field "discriminators" json_strings (ic_discriminators c)
    ++ json_field "isCommitted" JBool (ic_isCommitted c)).

Definition txFilterToDictionaryCondition (filter : SolanaTransactionFilter) : TxConditions :=
  mkTxConditions ((fun k => [k]) <$> truthy_text (signerAccountKey filter)).

Definition logFilterToDictionaryCondition (filter : SolanaLogFilter) : LogConditions :=
  mkLogConditions ((fun p => [p]) <$> truthy_text (lf_programId filter)).

Definition PROGRAM_REQUIRED : string :=
  "programId is required to be set when a discriminator is provided".

Definition instructionFilterToDictionaryCondition `{DiscriminatorParser}
    (filter : SolanaInstructionFilter) : outcome InstructionConditions :=
  discriminators ←
    (match truthy_text (if_discriminator filter) with
     | Some d =>
         match truthy_text (if_programId filter) with
         | None => Throw (JsError PROGRAM_REQUIRED None)
         | Some p => disc ← parseDiscriminator d (Some p); Done (Some ["0x" +:+ to_hex disc])
         end
     | None => Done None
     end);
  Done (mkInstructionConditions (if_accounts filter)
          ((fun p => [p]) <$> truthy_text (if_programId filter)) discriminators
          (if default false (if_includeFailed filter) then None else Some true)).

(** [Object.values(filter).filter((v) => v !== undefined).length] is not 0 *)
Definition tx_filter_set (f : SolanaTransactionFilter) : bool := bool_decide (is_Some (signerAccountKey f)).
Definition log_filter_set (f : SolanaLogFilter) : bool := bool_decide (is_Some (lf_programId f)).
Definition instruction_filter_set (f : SolanaInstructionFilter) : bool :=
  bool_decide (is_Some (if_programId f)) || bool_decide (is_Some (if_discriminator f))
    || bool_decide (is_Some (if_accounts f)) || bool_decide (is_Some (if_includeFailed f)).

(** [xs ??= []; xs.push(x)] *)
Definition push_option {A} (xs : option (list A)) (x : A) : option (list A) := Some (default [] xs ++ [x]).

(** One handler: the conditions with its own added, or [None] for [return {}]. *)
Definition add_handler `{DiscriminatorParser} (e : QueryEntry) (h : SubqlHandler)
  : outcome (option QueryEntry) :=
  match handler_filter h with
  | FBlock None | FTransaction None | FInstruction None | FLog None | FCustom _ None => Done None
  | FBlock (Some f) => match modulo f with None => Done None | Some _ => Done (Some e) end
  | FTransaction (Some f) =>
      Done (Some (if tx_filter_set f
        then mkQueryEntry (qe_logs e) (qe_instructions e)
               (push_option (qe_transactions e) (txFilterToDictionaryCondition f))
        else e))
  | FInstruction (Some f) =>
      if instruction_filter_set f then
        c ← instructionFilterToDictionaryCondition f;
        Done (Some (mkQueryEntry (qe_logs e) (push_option (qe_instructions e) c) (qe_transactions e)))
      else Done (Some e)
  | FLog (Some f) =>
      Done (Some (if log_filter_set f
        then mkQueryEntry (push_option (qe_logs e) (logFilterToDictionaryCondition f))
               (qe_instructions e) (qe_transactions e)
        else e))
  | FCustom _ (Some _) => Done (Some e)
  end.

Fixpoint add_handlers `{DiscriminatorParser} (e : QueryEntry) (hs : list SubqlHandler)
  : outcome (option QueryEntry) :=
  match hs with
  | [] => Done (Some e)
  | h :: hs =>
      r ← add_handler e h;
      match r with Some e => add_handlers e hs | None => Done None end
  end.

(** An absent or empty list is deleted, a list loses its duplicates. *)
Definition sanitise_list `{Lodash} {A} (f : A → json) (l : option (list A)) : option (list A) :=
  match l with
  | None | Some [] => None
  | Some l => Some (lodash_uniqBy (fun x => stringify (f x)) l)
  end.
Definition sanitiseDictionaryConditions `{Lodash} (e : QueryEntry) : QueryEntry :=
  mkQueryEntry (sanitise_list log_json (qe_logs e)) (sanitise_list instruction_json (qe_instructions e))
    (sanitise_list tx_json (qe_transactions e)).

(** The two loops go over the handlers of all the datasources in order. *)
Definition buildDictionaryV2QueryEntry `{Lodash, DiscriminatorParser} (dataSources : list SubqlDatasource)
  : outcome QueryEntry :=
  r ← add_handlers (mkQueryEntry (Some []) None (Some [])) (concat (ds_handlers <$> dataSources));
  match r with
  | Some e => Done (sanitiseDictionaryConditions e)
  | None => Done empty_entry
  end.

(** ** Blocks of the answer *)

(** A path into a response; a wildcard stands for the elements of an array. *)
Inductive KeyPathItem := Key (name : string) | KEYPATH_WILDCARD.
Definition KeyPath : Type := list KeyPathItem.

(** [@solana/rpc-transformers]: the transformer that gives a block of the answer the
    types of an RPC block, integers becoming bigints except at the allowed paths, and
    the paths within an inner instruction and a message that it allows for [getBlock]. *)
Class RpcTransformers (R : Type) := {
  getDefaultResponseTransformerForSolanaRpc : list KeyPath → R → outcome RawSolanaBlock;
  innerInstructionsConfigs : list KeyPath;
  messageConfig : list KeyPath
}.

Section response.
Context {R : Type} `{RT : RpcTransformers R}.

Definition in_transaction (l : KeyPath) : KeyPath := Key "transactions" :: KEYPATH_WILDCARD :: l.
Definition in_meta (l : KeyPath) : KeyPath := in_transaction (Key "meta" :: l).

Definition allowedNumericKeyPaths : list KeyPath :=
  [in_meta [Key "preTokenBalances"; KEYPATH_WILDCARD; Key "accountIndex"];
   in_meta [Key "preTokenBalances"; KEYPATH_WILDCARD; Key "uiTokenAmount"; Key "decimals"];
   in_meta [Key "postTokenBalances"; KEYPATH_WILDCARD; Key "accountIndex"];
   in_meta [Key "postTokenBalances"; KEYPATH_WILDCARD; Key "uiTokenAmount"; Key "decimals"];
   in_meta [Key "rewards"; KEYPATH_WILDCARD; Key "commission"]] ++
  ((fun c => in_meta ([Key "innerInstructions"; KEYPATH_WILDCARD] ++ c)) <$> innerInstructionsConfigs) ++
  ((fun c => in_transaction ([Key "transaction"; Key "message"] ++ c)) <$> messageConfig) ++
  [[Key "rewards"; KEYPATH_WILDCARD; Key "commission"]].

Definition parseBlock (block : R) : outcome SolanaBlock :=
  rpcBlock ← getDefaultResponseTransformerForSolanaRpc allowedNumericKeyPaths block;
  transformBlock rpcBlock.

Record DictionaryResponse := mkResponse {
  batchBlocks : list (IBlock SolanaBlock);
  lastBufferedHeight : option Z
}.

Definition convertResponseBlocks (blocks : option (list R)) : outcome DictionaryResponse :=
  blocks ← traverse (fun b => blk ← parseBlock b; Done (formatBlockUtil blk None)) (default [] blocks);
  match last blocks with
  | None => Done (mkResponse [] None)
  | Some b => Done (mkResponse blocks (Some (blockHeight (getHeader b))))
  end.
End response.

(** ** The dictionary of an endpoint *)

(** The parts of a block that are asked for with each kind of match *)
Record FieldSelector := mkFieldSelector {
  fs_blockHeader : bool;
  fs_logs_transaction : bool;
  fs_instructions_transaction : bool;
  fs_transactions_log : bool;
  fs_transactions_instructions : bool
}.

Section dictionary_v2.
(** [DictionaryV2] of the node core: its constructor, [init], and [getData], which asks
    the endpoint for the blocks of a range that match the query. *)
Context {W D Resp : Type} (super : string → string → D) (super_init : D → M W unit)
  (super_getData : D → Z → Z → Z → FieldSelector → M W (option Resp)).

Definition dictionary_new (endpoint chainId : string) : D := super endpoint chainId.

Definition dictionary_create (endpoint chainId : string) : M W D :=
  let dictionary := dictionary_new endpoint chainId in
  super_init dictionary ;;
  mret dictionary.

Definition buildDictionaryQueryEntries `{Lodash, DiscriminatorParser} (dataSources : list SubqlDatasource)
  : outcome QueryEntry := buildDictionaryV2QueryEntry dataSources.

Definition getData (d : D) (startBlock endBlock : Z) (limit : option Z) : M W (option Resp) :=
  super_getData d startBlock endBlock (default MIN_FETCH_LIMIT limit)
    (mkFieldSelector true true true true true).
End dictionary_v2.

(** ** The service *)
Section dictionary_service.
  (** The endpoints that the node core finds, and what creating a dictionary for
      one does: it asks the endpoint for its metadata, and may fail. *)
  Context {W D : Type} (getDictionaryEndpoints : M W (list string))
    (createDictionary : string → M W D) (core_init : list D → M W unit).

Fixpoint create_dictionaries (endpoints : list string) (dictionariesV2 : list D) : M W (list D) :=
  match endpoints with
  | [] => mret dictionariesV2
  | endpoint :: endpoints =>
      d ← try_catch (d ← createDictionary endpoint; mret (Some d)) (fun e => mret None);
      create_dictionaries endpoints (dictionariesV2 ++ option_list d)
  end.

Definition initDictionaries (project : bool) : M W unit :=
  if project then
    endpoints ← getDictionaryEndpoints;
    dictionariesV2 ← create_dictionaries endpoints [];
    core_init dictionariesV2
  else throw (JsError "Project in Dictionary service not initialized " None).
End dictionary_service.
