(* ===== verification/DictionarySpec.v ===== *)
(** * What the dictionary query asks for

    The query has exactly the conditions of the handlers, each once; a handler
    with an empty filter asks for nothing although it accepts everything; and the
    heights of the answer are not always slots. *)
From S2P Require Import Prelude JsNumber JsString JsDate Json Types Chain Filters Blocks Api ApiSpec Dictionary.

(** ** Conditions of handlers *)
Inductive condition :=
| CondLog (c : LogConditions)
| CondInstruction (c : InstructionConditions)
| CondTransaction (c : TxConditions).

Definition entry_has (e : QueryEntry) (c : condition) : Prop :=
  match c with
  | CondLog c => c ∈ default [] (qe_logs e)
  | CondInstruction c => c ∈ default [] (qe_instructions e)
  | CondTransaction c => c ∈ default [] (qe_transactions e)
  end.

Definition entry_unique (e : QueryEntry) : Prop :=
  NoDup (default [] (qe_logs e)) ∧ NoDup (default [] (qe_instructions e)) ∧
  NoDup (default [] (qe_transactions e)).

(** A handler the dictionary can be used with: it has a filter, and a block
    handler's filter has a modulo. *)
Definition usable (h : SubqlHandler) : bool :=
  match handler_filter h with
  | FBlock None | FTransaction None | FInstruction None | FLog None | FCustom _ None => false
  | FBlock (Some f) => bool_decide (is_Some (modulo f))
  | _ => true
  end.

Section spec.
Context `{LD : Lodash, DP : DiscriminatorParser}.

(** The condition a handler asks for, if its filter has a property. *)
Definition contributes (h : SubqlHandler) : outcome (option condition) :=
  match handler_filter h with
  | FTransaction (Some f) => Done (if tx_filter_set f
      then Some (CondTransaction (txFilterToDictionaryCondition f)) else None)
  | FInstruction (Some f) => if instruction_filter_set f
      then c ← instructionFilterToDictionaryCondition f; Done (Some (CondInstruction c))
      else Done None
  | FLog (Some f) => Done (if log_filter_set f
      then Some (CondLog (logFilterToDictionaryCondition f)) else None)
  | _ => Done None
  end.

Definition add_condition (e : QueryEntry) (c : option condition) : QueryEntry :=
  match c with
  | None => e
  | Some (CondLog c) =>
      mkQueryEntry (push_option (qe_logs e) c) (qe_instructions e) (qe_transactions e)
  | Some (CondInstruction c) =>
      mkQueryEntry (qe_logs e) (push_option (qe_instructions e) c) (qe_transactions e)
  | Some (CondTransaction c) =>
      mkQueryEntry (qe_logs e) (qe_instructions e) (push_option (qe_transactions e) c)
  end.

Lemma add_handler_usable e h :
  usable h = true → add_handler e h = (c ← contributes h; Done (Some (add_condition e c))).
Proof.
  unfold usable, add_handler, contributes. destruct (handler_filter h) as [[f|]|[f|]|[f|]|[f|]|k [f|]];
    try done.
  - destruct (modulo f); [done|]. by intros ?%bool_decide_eq_true.
  - by destruct (tx_filter_set f).
  - destruct (instruction_filter_set f); [|done].
    by destruct (instructionFilterToDictionaryCondition f).
  - by destruct (log_filter_set f).
Qed.

Lemma entry_has_add e c c' : entry_has (add_condition e c) c' ↔ entry_has e c' ∨ c = Some c'.
Proof.
  destruct c as [[c|c|c]|], c' as [c'|c'|c']; simpl; rewrite ?elem_of_app, ?list_elem_of_singleton;
    naive_solver.
Qed.

Lemma add_handlers_exact hs e e' c :
  Forall (fun h => usable h = true) hs → add_handlers e hs = Done (Some e') →
  entry_has e' c ↔ entry_has e c ∨ ∃ h, h ∈ hs ∧ contributes h = Done (Some c).
Proof.
  intros Hu. revert e. induction Hu as [|h hs Hh Hu IH]; intros e; cbn [add_handlers].
  - intros [= <-]. split; [by left|]. intros [?|(h & ?%not_elem_of_nil & _)]; done.
  - rewrite add_handler_usable by done.
    destruct (contributes h) as [oc|?|?|] eqn:Hc; cbn [mbind outcome_bind]; try done.
    intros He. rewrite (IH _ He), entry_has_add. split.
    + intros [[?| ->]|(h' & ? & ?)]; [by left|right..].
      * exists h. split; [by left|done].
      * exists h'. split; [by right|done].
    + intros [?|(h' & [->|Hin]%elem_of_cons & Hh')]; [by do 2 left| |right; eauto].
      left; right. congruence.
Qed.

Lemma add_handlers_usable hs e :
  Forall (fun h => usable h = true) hs →
  match add_handlers e hs with Done None => False | _ => True end.
Proof.
  intros Hu. revert e. induction Hu as [|h hs Hh Hu IH]; intros e; cbn [add_handlers]; [done|].
  rewrite add_handler_usable by done.
  destruct (contributes h); cbn [mbind outcome_bind]; try done. apply IH.
Qed.

Lemma add_handler_unusable e h : usable h = false → add_handler e h = Done None.
Proof.
  unfold usable, add_handler. destruct (handler_filter h) as [[f|]|[f|]|[f|]|[f|]|k [f|]]; try done.
  intros H%bool_decide_eq_false. destruct (modulo f); [|done]. exfalso. by apply H.
Qed.

Lemma add_handlers_unusable hs e e' :
  add_handlers e hs = Done (Some e') → Forall (fun h => usable h = true) hs.
Proof.
  revert e. induction hs as [|h hs IH]; intros e; cbn [add_handlers]; [by constructor|].
  destruct (usable h) eqn:Hu; [|by rewrite add_handler_unusable].
  rewrite add_handler_usable by done. destruct (contributes h); cbn [mbind outcome_bind]; try done.
  intros H%IH. by constructor.
Qed.

(** ** Duplicates *)
Lemma json_strings_inj l1 l2 : json_strings l1 = json_strings l2 → l1 = l2.
Proof.
  intros [= H]. revert l2 H. induction l1 as [|x l1 IH]; intros [|y l2]; simpl; try done.
  intros [= -> H]. f_equal. by apply IH.
Qed.

Lemma account_json_inj a b : account_json a = account_json b → a = b.
Proof.
  destruct a, b; simpl; try done. intros H%json_strings_inj. by subst.
Qed.

Lemma json_map_inj {A} (f : A → json) l1 l2 :
  (∀ x y, f x = f y → x = y) → JArray (f <$> l1) = JArray (f <$> l2) → l1 = l2.
Proof.
  intros Hf [= H]. revert l2 H. induction l1 as [|x l1 IH]; intros [|y l2]; simpl; try done.
  intros [= Hx H]. f_equal; [by apply Hf|by apply IH].
Qed.

Lemma no_num_strings l : no_num (json_strings l) = true.
Proof. cbn. induction l; [done|]. by simpl. Qed.

Lemma no_num_accounts l : no_num (JArray (account_json <$> l)) = true.
Proof.
  cbn [no_num]. apply forallb_forall. intros j Hj%list_elem_of_In.
  apply list_elem_of_fmap in Hj as ([a|] & -> & _); [apply no_num_strings|done].
Qed.

Definition key_inj {A} (f : A → json) : Prop := ∀ x y, stringify (f x) = stringify (f y) → x = y.

Lemma key_inj_intro {A} (f : A → json) :
  (∀ x, no_num (f x) = true) → (∀ x y, f x = f y → x = y) → key_inj f.
Proof. intros Hn Hf x y H. by apply Hf, stringify_inj. Qed.

Lemma log_json_inj : key_inj log_json.
Proof.
  apply key_inj_intro.
  - intros [[p|]]; cbn; [|done]. change (forallb no_num _) with (no_num (json_strings p)).
    by rewrite no_num_strings.
  - intros [[p|]] [[q|]]; cbn; intros H; simplify_eq; try done.
    repeat f_equal. by apply json_strings_inj; unfold json_strings; f_equal.
Qed.

Lemma tx_json_inj : key_inj tx_json.
Proof.
  apply key_inj_intro.
  - intros [[p|]]; cbn; [|done]. change (forallb no_num _) with (no_num (json_strings p)).
    by rewrite no_num_strings.
  - intros [[p|]] [[q|]]; cbn; intros H; simplify_eq; try done.
    repeat f_equal. by apply json_strings_inj; unfold json_strings; f_equal.
Qed.

Lemma json_field_cons {A} name (f : A → json) (x y : option A) r1 r2 :
  (∀ a b, f a = f b → a = b) → name ∉ r1.*1 → name ∉ r2.*1 →
  json_field name f x ++ r1 = json_field name f y ++ r2 → x = y ∧ r1 = r2.
Proof.
  intros Hf H1 H2. destruct x as [x|], y as [y|]; simpl.
  - intros [= E ->]. split; [f_equal; by apply Hf|done].
  - intros <-. exfalso. apply H2. simpl. by left.
  - intros ->. exfalso. apply H1. simpl. by left.
  - done.
Qed.

Lemma json_field_names {A} name (f : A → json) x : (json_field name f x).*1 ⊆ [name].
Proof. destruct x; simpl; set_solver. Qed.

Lemma instruction_json_inj : key_inj instruction_json.
Proof.
  apply key_inj_intro.
  - intros [a p d i]. unfold instruction_json. cbn [no_num ic_accounts ic_programIds ic_discriminators
      ic_isCommitted]. rewrite !forallb_app.
    assert (∀ n (x : option (list string)), forallb (fun kv => no_num kv.2) (json_field n json_strings x) = true)
      as Hs by (intros n [l|]; cbn [json_field forallb snd]; [by rewrite no_num_strings|done]).
    rewrite !Hs. destruct a as [a|], i as [i|]; cbn [json_field forallb snd];
      rewrite ?no_num_accounts; done.
  - intros [a p d i] [a' p' d' i'] [= H].
    cbn [ic_accounts ic_programIds ic_discriminators ic_isCommitted] in H.
    assert (∀ n m, n ≠ m → ∀ A (f : A → json) x, n ∉ (json_field m f x).*1) as Hd.
    { intros n m Hnm A f x Hin. apply json_field_names in Hin. set_solver. }
    apply json_field_cons in H as [-> H];
      [|intros ??; by apply json_map_inj, account_json_inj
       |rewrite !fmap_app, !not_elem_of_app; split_and!; by apply Hd..].
    apply json_field_cons in H as [-> H];
      [|apply json_strings_inj|rewrite !fmap_app, !not_elem_of_app; split_and!; by apply Hd..].
    apply json_field_cons in H as [-> H]; [|apply json_strings_inj|by apply Hd..].
    destruct i, i'; simplify_eq/=; done.
Qed.

Lemma sanitise_list_spec {A} (f : A → json) l :
  key_inj f →
  (∀ x, x ∈ default [] (sanitise_list f l) ↔ x ∈ default [] l) ∧
  NoDup (default [] (sanitise_list f l)).
Proof.
  intros Hf. unfold sanitise_list. destruct l as [[|y l]|]; simpl; [split; [done|constructor]| |split; [done|constructor]].
  rewrite lodash_uniqBy_spec. split.
  - intros x. split; [apply elem_of_uniq_keys|]. intros Hx.
    destruct (uniq_keys_covers (fun x => stringify (f x)) [] (y :: l) x Hx) as (z & Hz & E); [set_solver|].
    apply Hf in E. by subst.
  - destruct (uniq_keys_NoDup (fun x => stringify (f x)) [] (y :: l)) as [Hn _].
    by eapply NoDup_fmap_1.
Qed.

Lemma sanitise_has e c : entry_has (sanitiseDictionaryConditions e) c ↔ entry_has e c.
Proof.
  destruct c; simpl; apply sanitise_list_spec;
    [apply log_json_inj|apply instruction_json_inj|apply tx_json_inj].
Qed.

(** C14: what the query asks for, when it can be made.  When every handler has a filter,
    and every block handler a filter with a modulo, it asks exactly for the conditions of
    the handlers whose filter has a property: none is lost when duplicates are removed,
    none is asked for twice, and none is invented.  As soon as one handler has no filter,
    or is a block handler with a timestamp only, the query is empty. *)
Theorem dictionary_query_exact dataSources e :
  let handlers := concat (ds_handlers <$> dataSources) in
  buildDictionaryV2QueryEntry dataSources = Done e →
  entry_unique e ∧
  (Forall (fun h => usable h = true) handlers →
   ∀ c, entry_has e c ↔ ∃ h, h ∈ handlers ∧ contributes h = Done (Some c)) ∧
  (¬ Forall (fun h => usable h = true) handlers → e = empty_entry).
Proof.
  intros handlers (r & Hr & He)%outcome_bind_Done_inv. fold handlers in Hr. destruct r as [e0|].
  - injection He as <-. split_and!.
    + split_and!; simpl; apply sanitise_list_spec;
        [apply log_json_inj|apply instruction_json_inj|apply tx_json_inj].
    + intros Hu c. rewrite sanitise_has, (add_handlers_exact _ _ _ c Hu Hr). split; [|by right].
      intros [H|H]; [|done]. destruct c; cbn in H; set_solver.
    + intros Hu. by apply add_handlers_unusable in Hr.
  - injection He as <-. split_and!; [by split_and!; constructor| |done]. intros Hu.
    pose proof (add_handlers_usable _ (mkQueryEntry (Some []) None (Some [])) Hu) as H.
    by rewrite Hr in H.
Qed.

(** C38: a transaction handler whose filter is empty accepts every transaction, yet
    it asks the dictionary for nothing: the query is the same without it, so when
    another handler asks for something, blocks that only this one needs are never
    fetched. *)
Theorem empty_filter_not_queried dataSources dataSources' hs1 h hs2 :
  concat (ds_handlers <$> dataSources) = hs1 ++ h :: hs2 →
  concat (ds_handlers <$> dataSources') = hs1 ++ hs2 →
  handler_filter h = FTransaction (Some (mkTransactionFilter None)) →
  buildDictionaryV2QueryEntry dataSources = buildDictionaryV2QueryEntry dataSources' ∧
  ∀ tx : RawTransaction, filterTransactionsProcessor tx (Some (mkTransactionFilter None)) = true.
Proof.
  intros H1 H2 Hh. split; [|done]. unfold buildDictionaryV2QueryEntry. rewrite H1, H2. f_equal.
  clear H1 H2. generalize (mkQueryEntry (Some []) None (Some [])) as e.
  induction hs1 as [|h1 hs1 IH]; intros e; cbn [app add_handlers].
  - unfold add_handler at 1. by rewrite Hh.
  - destruct (add_handler e h1) as [[e'|]|?|?|]; cbn [mbind outcome_bind]; [|done..].
    by apply IH.
Qed.
End spec.

(** ** Heights of the answer *)

(** A block of the answer as it was sent, and as it is handed on *)
Definition height_from_parent `{RT : RpcTransformers R} (r : R) (b : IBlock SolanaBlock) : Prop :=
  ∃ raw, getDefaultResponseTransformerForSolanaRpc allowedNumericKeyPaths r = Done raw ∧
    transformBlock raw = Done (block b) ∧
    (safe (sb_parentSlot (raw_base raw)) → blockHeight (getHeader b) = sb_parentSlot (raw_base raw) + 1).

(** C39: the blocks of a dictionary answer, in its order, all get the slot of their parent
    plus one as height, since the answer does not give their slots, and the height up to
    which the answer is said to reach is that of the last one.  The client of the RPC gives
    the block it fetches for slot [s] the height [s]; so a block of the answer that is in
    slot [s], with the slot before it skipped, has a smaller height than the same block
    from the RPC. *)
Theorem dictionary_height_from_parent `{RT : RpcTransformers R} {W}
    `{RPC : SolanaRpc W, EC : SolanaErrorCodes, NC : NodeCore W} rs resp :
  convertResponseBlocks (Some rs) = Done resp →
  Forall2 height_from_parent rs (batchBlocks resp) ∧
  lastBufferedHeight resp = (fun b => blockHeight (getHeader b)) <$> last (batchBlocks resp) ∧
  ∀ r b s api (w : W) b' w', height_from_parent r b →
    safe (sb_parentSlot (block_base (block b))) → sb_parentSlot (block_base (block b)) + 1 < s →
    fetchBlock api s w = (Done b', w') → blockHeight (getHeader b) < blockHeight (getHeader b').
Proof.
  intros (bs & Hbs%traverse_Forall2 & H)%outcome_bind_Done_inv. simpl in Hbs.
  assert (∀ raw blk, transformBlock raw = Done blk → block_base blk = raw_base raw) as Hbase.
  { intros raw blk Hblk. by apply outcome_bind_Done_inv in Hblk as (ts & _ & [= <-]). }
  split_and!.
  - assert (batchBlocks resp = bs) as -> by (destruct bs as [|b bs] using rev_ind;
      [by injection H as <-|rewrite last_snoc in H; by injection H as <-]).
    eapply Forall2_impl; [exact Hbs|]. intros r b (blk & Hblk & [= <-])%outcome_bind_Done_inv.
    apply outcome_bind_Done_inv in Hblk as (raw & Hraw & Hblk). exists raw.
    split_and!; [done|done|]. intros Hs. simpl. rewrite (Hbase raw blk Hblk).
    by rewrite Number_exact, num_succ_exact.
  - destruct (last bs) as [b|] eqn:E; injection H as <-; simpl; by rewrite ?E.
  - intros r b s api w b' w' (raw & _ & Hblk & Hh) Hs Hlt Hf.
    rewrite (Hbase _ _ Hblk) in Hs, Hlt. rewrite (fetchBlock_height _ _ _ _ _ Hf), (Hh Hs). done.
Qed.

(** ** Instances *)
#[local] Instance dict_discriminators : DiscriminatorParser := fun d _ => Done [1; 255].

Definition sim_log_handler : SubqlHandler := mkHandler "onLog" (FLog (Some (mkLogFilter (Some "prog")))).
Definition sim_instruction_handler : SubqlHandler := mkHandler "onSwap"
  (FInstruction (Some (mkInstructionFilter (Some "prog") (Some "swap") None None))).
Definition sim_any_tx_handler : SubqlHandler :=
  mkHandler "onTx" (FTransaction (Some (mkTransactionFilter None))).
Definition sim_ds (hs : list SubqlHandler) : SubqlDatasource :=
  mkDatasource "solana/Runtime" "./dist/index.js" hs None None.

Lemma dictionary_query_exact_witness :
  let dss := [sim_ds [sim_log_handler; sim_instruction_handler]; sim_ds [sim_log_handler]] in
  let unusable := [sim_ds [sim_log_handler; mkHandler "onBlock" (FBlock (Some (mkBlockFilter None (Some "* * * * *"))))]] in
  (∃ e, buildDictionaryV2QueryEntry dss = Done e ∧ entry_unique e ∧
    e = mkQueryEntry (Some [mkLogConditions (Some ["prog"])])
          (Some [mkInstructionConditions None (Some ["prog"]) (Some ["0x01ff"]) (Some true)]) None) ∧
  ∀ e, buildDictionaryV2QueryEntry unusable = Done e → e = empty_entry.
Proof.
  intros dss unusable. split.
  - eexists. split; [reflexivity|]. split; [|reflexivity].
    exact (proj1 (dictionary_query_exact dss _ eq_refl)).
  - intros e He. apply (proj2 (proj2 (dictionary_query_exact unusable e He))).
    intros H. by apply Forall_cons in H as [_ [? _]%Forall_cons].
Defined.

(** The log handler's condition is all that is asked for. *)
Lemma empty_filter_not_queried_witness :
  buildDictionaryV2QueryEntry [sim_ds [sim_log_handler; sim_any_tx_handler]] =
    Done (mkQueryEntry (Some [mkLogConditions (Some ["prog"])]) None None).
Proof.
  exact (proj1 (empty_filter_not_queried [sim_ds [sim_log_handler; sim_any_tx_handler]]
    [sim_ds [sim_log_handler]] [sim_log_handler] sim_any_tx_handler [] eq_refl eq_refl eq_refl)).
Defined.

Definition sim_transformers : RpcTransformers RawSolanaBlock := {|
  getDefaultResponseTransformerForSolanaRpc _ r := Done r;
  innerInstructionsConfigs := [];
  messageConfig := []
|}.

(** Slot 9, whose parent is in slot 7. *)
Lemma dictionary_height_from_parent_witness :
  let r := mkRawBlock (mkBase 5 100 "a9" 7 "a7" []) [] in
  ∃ resp b, convertResponseBlocks (RT:=sim_transformers) (Some [r]) = Done resp ∧
    batchBlocks resp = [b] ∧ blockHeight (getHeader b) = 8 ∧ lastBufferedHeight resp = Some 8.
Proof.
  intros r. eexists _, _. split; [reflexivity|]. split; [reflexivity|].
  destruct (dictionary_height_from_parent (RT:=sim_transformers) (RPC:=sim_rpc) (EC:=sim_codes)
    (NC:=sim_core) [r] _ eq_refl) as (H & Hlast & _).
  apply Forall2_cons in H as [(raw & [= <-] & _ & H) _]. split.
  - apply H. by vm_compute.
  - exact Hlast.
Defined.
