(* ===== verification/Datasources.v ===== *)
(** * Kinds of datasource and dynamic datasources

    [packages/common-solana/src/project/utils.ts], [packages/node/src/utils/project.ts]
    and [updateDynamicDs] of [packages/node/src/blockchain.service.ts]: a datasource
    that is created while the project runs is a copy of a template, into whose
    filters the arguments of its creation are merged. *)
From S2P Require Import Prelude JsNumber JsString Json JsMap Types Filters Dictionary.

(** ** Datasource objects, as the manifest has them: filters are plain objects *)
Record DsHandler := mkDsHandler { dh_handler : string; dh_kind : string; dh_filter : option props }.

Record DsProcessor := mkDsProcessor { dp_file : string; dp_options : option props }.

Record DsObject := mkDsObject {
  do_kind : string;
  do_file : string;
  do_handlers : list DsHandler;
  do_assets : option (list (string * string));
  do_processor : option DsProcessor
}.

Definition isCustomDs (ds : DsObject) : bool :=
  bool_decide (do_kind ds ≠ SolanaDatasourceKind_Runtime) && bool_decide (is_Some (do_processor ds)).

Definition isRuntimeDs (ds : DsObject) : bool := bool_decide (do_kind ds = SolanaDatasourceKind_Runtime).

Definition handler_kinds : list string :=
  handler_kind_string <$> [KBlock; KTransaction; KInstruction; KLog].

Definition isBaseHandler (h : DsHandler) : bool := bool_decide (dh_kind h ∈ handler_kinds).
Definition isCustomHandler (h : DsHandler) : bool := negb (isBaseHandler h).

(** The kind of handler a processor of a custom datasource builds on *)
Definition isBlockHandlerProcessor (baseHandlerKind : string) : bool :=
  bool_decide (baseHandlerKind = handler_kind_string KBlock).
Definition isTransactionHandlerProcessor (baseHandlerKind : string) : bool :=
  bool_decide (baseHandlerKind = handler_kind_string KTransaction).
Definition isInstructionHandlerProcessor (baseHandlerKind : string) : bool :=
  bool_decide (baseHandlerKind = handler_kind_string KInstruction).
Definition isLogHandlerProcessor (baseHandlerKind : string) : bool :=
  bool_decide (baseHandlerKind = handler_kind_string KLog).

(** ** Dynamic datasources *)

(** [{ ...handler, filter: { ...handler.filter, ...params.args } }] *)
Definition merge_filter (args : option props) (h : DsHandler) : DsHandler :=
  mkDsHandler (dh_handler h) (dh_kind h) (Some (spread (dh_filter h) args)).

Definition merge_handlers (args : option props) (ds : DsObject) : DsObject :=
  mkDsObject (do_kind ds) (do_file ds) (merge_filter args <$> do_handlers ds) (do_assets ds)
    (do_processor ds).

(** [dsObj.processor.options = { ...dsObj.processor.options, ...params.args }] *)
Definition merge_options (args : option props) (ds : DsObject) : DsObject :=
  mkDsObject (do_kind ds) (do_file ds) (do_handlers ds) (do_assets ds)
    ((fun p => mkDsProcessor (dp_file p) (Some (spread (dp_options p) args))) <$> do_processor ds).

Definition dynamic_ds_error (errors : list string) : jserror :=
  JsError ("Dynamic ds is invalid" +:+ String newline (join_on newline errors)) None.

Section dynamic.
  (** [validateSync(plainToClass(SolanaRuntimeDataSourceImpl, dsObj), ...)]: the
      texts of the errors.  It works on a copy, and may throw. *)
  Context (validateSync : DsObject → outcome (list string)).

(** The state is the object the caller passed. *)
Definition updateDynamicDs (args : option props) : M DsObject unit :=
  dsObj ← get;
  if isCustomDs dsObj then modify (merge_options args)
  else if isRuntimeDs dsObj then
    modify (merge_handlers args) ;;
    parsedDs ← get;
    errors ← of_outcome (validateSync parsedDs);
    match errors with
    | [] => mret tt
    | _ => throw (dynamic_ds_error errors)
    end
  else mret tt.

(** ** The typed view of a handler that the filters and the dictionary have *)
Definition json_text (j : json) : option string := match j with JString s => Some s | _ => None end.

Definition transaction_filter (f : props) : SolanaTransactionFilter :=
  mkTransactionFilter (map_get f "signerAccountKey" ≫= json_text).
Definition log_filter (f : props) : SolanaLogFilter :=
  mkLogFilter (map_get f "programId" ≫= json_text).

(** A handler object is a typed handler, here of the kinds whose filters are texts. *)
Definition views (o : DsHandler) (h : SubqlHandler) : Prop :=
  handler h = dh_handler o ∧
  ((dh_kind o = handler_kind_string KTransaction ∧
      handler_filter h = FTransaction (transaction_filter <$> dh_filter o)) ∨
   (dh_kind o = handler_kind_string KLog ∧ handler_filter h = FLog (log_filter <$> dh_filter o))).

(** ** Properties *)



Lemma runtime_not_custom ds : isRuntimeDs ds = true → isCustomDs ds = false.
Proof.
  unfold isRuntimeDs, isCustomDs. rewrite bool_decide_eq_true. intros ->.
  rewrite bool_decide_false; [done|]. by intros H.
Qed.

Lemma updateDynamicDs_run args ds :
  isRuntimeDs ds = true →
  updateDynamicDs args ds =
    (errors ← validateSync (merge_handlers args ds);
     match errors with [] => Done tt | _ => Throw (dynamic_ds_error errors) end, merge_handlers args ds).
Proof.
  intros Hr. unfold updateDynamicDs, mbind, M_bind, get.
  rewrite (runtime_not_custom _ Hr), Hr. unfold modify, of_outcome.
  destruct (validateSync (merge_handlers args ds)) as [[|e es]| | |] eqn:E; reflexivity.
Qed.


(** A transaction or log handler without a filter keeps the dictionary from
    being used, since it needs every block.  A dynamic datasource without arguments
    gives it an empty filter, which still accepts everything but asks the
    dictionary for nothing: the blocks it needs may never be fetched. *)
Theorem dynamic_handler_not_queried `{DiscriminatorParser} ds ds' o h e :
  updateDynamicDs None ds = (Done tt, ds') → isRuntimeDs ds = true →
  o ∈ do_handlers ds → dh_filter o = None → views o h →
  add_handler e h = Done None ∧
  ∃ o' h', o' ∈ do_handlers ds' ∧ views o' h' ∧ handler h' = handler h ∧
    add_handler e h' = Done (Some e) ∧
    (∀ (tx : RawTransaction) f, handler_filter h' = FTransaction f → filterTransactionsProcessor tx f = true) ∧
    (∀ log f, handler_filter h' = FLog f → filterLogsProcessor log f = true).
Proof.
  intros Hu Hr Ho Hf [Hn Hv].
  assert (ds' = merge_handlers None ds) as ->.
  { rewrite (updateDynamicDs_run _ _ Hr) in Hu. by injection Hu. }
  rewrite Hf in Hv. split.
  { unfold add_handler. by destruct Hv as [[_ ->]|[_ ->]]. }
  exists (merge_filter None o). destruct Hv as [[Hk Hv]|[Hk Hv]].
  - exists (mkHandler (dh_handler o) (FTransaction (Some (mkTransactionFilter None)))).
    split; [by apply list_elem_of_fmap_2|]. split.
    { split; [done|]. left. simpl. by rewrite Hf. }
    split_and!; [done|done| |done]. by intros tx f [= <-].
  - exists (mkHandler (dh_handler o) (FLog (Some (mkLogFilter None)))).
    split; [by apply list_elem_of_fmap_2|]. split.
    { split; [done|]. right. simpl. by rewrite Hf. }
    split_and!; [done|done|done|]. by intros log f [= <-].
Qed.
End dynamic.

(** ** Instances *)
Definition sim_template : DsObject :=
  mkDsObject "solana/Runtime" "./dist/index.js"
    [mkDsHandler "onTx" "solana/TransactionHandler" None] None None.


Lemma dynamic_handler_not_queried_witness :
  add_handler (H:=fun _ _ => Done []) empty_entry (mkHandler "onTx" (FTransaction None)) = Done None ∧
  ∃ o' h', o' ∈ do_handlers (updateDynamicDs (fun _ => Done []) None sim_template).2 ∧ views o' h' ∧
    add_handler (H:=fun _ _ => Done []) empty_entry h' = Done (Some empty_entry).
Proof.
  destruct (dynamic_handler_not_queried (H:=fun _ _ => Done []) (fun _ => Done []) sim_template
    (merge_handlers None sim_template)
    (mkDsHandler "onTx" "solana/TransactionHandler" None) (mkHandler "onTx" (FTransaction None)) empty_entry)
    as (H1 & o' & h' & Ho & Hv & _ & H2 & _); [reflexivity|done|by left|done| |].
  - split; [done|]. by left.
  - split; [exact H1|]. exists o', h'. split; [exact Ho|]. split; [exact Hv|exact H2].
Defined.
