(* ===== verification/Idl.v ===== *)
(** * IDLs and their discriminators

    [packages/common-solana/src/codegen/idl.ts].  The Codama library, which gives
    the nodes of a program from its IDL, is a parameter. *)
From S2P Require Import Prelude JsNumber JsString Json Types Filters.

(** ** Nodes *)
Inductive ValueNode :=
| NumberValueNode (n : Z)
| BytesValueNode (encoding data : string)
| OtherValueNode (kind : string).

Record ArgumentNode := mkArgument { arg_name : string; defaultValue : option ValueNode }.
Record InstructionNode := mkInstructionNode {
  in_name : string;
  in_arguments : list ArgumentNode
}.
Record DefinedTypeNode := mkDefinedType { dt_name : string; dt_type : json }.
Record RootNode := mkRootNode {
  program_name : string;
  publicKey : string;
  program_instructions : list InstructionNode;
  definedTypes : list DefinedTypeNode
}.

Record IdlEvent := mkIdlEvent { ev_name : string; ev_discriminator : list Z }.

(** An IDL file is Anchor's, with its [metadata] (whose [spec] may be absent) and
    events, or a Codama root node. *)
Inductive Idl :=
| AnchorIdl (metadata : option (option string)) (events : option (list IdlEvent)) (content : json)
| RootNodeIdl (root : RootNode).

(** ** Libraries *)

(** [codama_rootNodeFromAnchor] is [createFromRoot(rootNodeFromAnchor(idl)).getRoot()],
    [codama_createFromRoot] is [createFromRoot(idl).getRoot()]; encoders of
    [@solana/codecs-strings]; SHA-256 of [node:crypto]. *)
Class Codama := {
  codama_rootNodeFromAnchor : Idl → outcome RootNode;
  codama_createFromRoot : Idl → outcome RootNode;
  camelCase : string → string;
  pascalCase : string → string;
  encode_utf8 : string → list Z;
  encode_base16 : string → outcome (list Z);
  encode_base58 : string → outcome (list Z);
  encode_base64 : string → outcome (list Z);
  sha256 : string → list Z
}.

(** A root node is its own root, and is no Anchor IDL. *)
Class CodamaLaws `{Codama} := {
  root_of_root : ∀ r, codama_createFromRoot (RootNodeIdl r) = Done r;
  anchor_of_root : ∀ r, ∃ r', codama_rootNodeFromAnchor (RootNodeIdl r) = Done r' ∧ publicKey r' = ""
}.

Section idl.
Context `{CD : Codama}.

Definition isRootNode (idl : Idl) : bool :=
  match idl with RootNodeIdl r => truthy_string (publicKey r) | AnchorIdl _ _ _ => false end.

Definition isAnchorIdl (idl : Idl) : bool := negb (isRootNode idl).

(** Reading [spec] of an absent [metadata] throws; a root node without a public
    key has no metadata. *)
Definition isAnchorIdlV01 (idl : Idl) : outcome bool :=
  if isAnchorIdl idl then
    match idl with
    | AnchorIdl (Some spec) _ _ => Done (bool_decide (spec = Some "0.1.0"))
    | _ => Throw (TypeError "Cannot read properties of undefined (reading 'spec')")
    end
  else Done false.

Definition parseIdl (idl : Idl) : outcome RootNode :=
  codama ← codama_rootNodeFromAnchor idl;
  if decide (publicKey codama = "") then codama_createFromRoot idl else Done codama.

Definition getBytesFromBytesValueNode (encoding data : string) : outcome (list Z) :=
  if decide (encoding = "utf8") then Done (encode_utf8 data)
  else if decide (encoding = "base16") then encode_base16 data
  else if decide (encoding = "base58") then encode_base58 data
  else encode_base64 data.

Definition getInstructionDiscriminatorBytes (node : InstructionNode) : outcome (list Z) :=
  match List.find (fun arg => bool_decide (arg_name arg = "discriminator")) (in_arguments node) with
  | None => Throw (JsError ("Instruction " +:+ in_name node +:+ " does not have a discriminator") None)
  | Some discArg =>
      match defaultValue discArg with
      | Some (NumberValueNode n) => Done [n mod 256]
      | Some (BytesValueNode encoding data) => getBytesFromBytesValueNode encoding data
      | None => Throw (JsError ("Unable to find discriminator for instruction " +:+ in_name node) None)
      | Some (OtherValueNode kind) =>
          Throw (JsError ("Unable to handle unknown discriminator type " +:+ kind) None)
      end
  end.

Definition findInstructionDiscriminatorByName (rootNode : RootNode) (name : string)
  : option (list Z) :=
  match List.find (fun inst => bool_decide (in_name inst = name)
                     || bool_decide (in_name inst = camelCase name))
          (program_instructions rootNode) with
  | None => None
  | Some inst =>
      match getInstructionDiscriminatorBytes inst with
      | Done bytes => Some bytes
      | _ => None
      end
  end.

(** The first 8 bytes of the hash of the event's name *)
Definition getDiscriminator (name : string) : list Z := take 8 (sha256 ("event:" +:+ name)).
End idl.
