(* ===== verification/Decoder.v ===== *)
(** * The decoder

    [packages/node/src/solana/decoder.ts] and the [Memoize] decorator of
    [utils/decorators.ts]. *)
From S2P Require Import Prelude JsNumber JsString JsBase64 Json Types Filters Idl.
From Stdlib Require Import Ascii.

(** ** Decoding *)

(** The codec of a node ([@codama/dynamic-codecs]) reads a buffer into the
    properties of an object; [isHex] of [@subql/utils]. *)
Inductive EncodableNode := EInstruction (i : InstructionNode) | EType (t : DefinedTypeNode).
Definition node_name (n : EncodableNode) : string :=
  match n with EInstruction i => in_name i | EType t => dt_name t end.

Class DecoderLibraries := {
  codec_decode : RootNode → EncodableNode → list Z → outcome props;
  isHex : string → bool
}.

Section decode.
Context `{CD : Codama, B58 : Base58, DL : DecoderLibraries}.

Definition findInstructionForData (rootNode : RootNode) (data : list Z) : option InstructionNode :=
  List.find (fun inst =>
    match getInstructionDiscriminatorBytes inst with
    | Done bytes => indexOf data bytes =? 0
    | _ => false
    end) (program_instructions rootNode).

(** Base58 is tried first. *)
Definition basedToBuffer (input : string) : list Z :=
  match bs58_decode input with
  | Done bytes => bytes
  | _ => of_base64 input
  end.

Definition decodeData (idl : Idl) (data : string)
    (getEncodableNode : RootNode → list Z → option EncodableNode) : outcome (option DecodedData) :=
  root ← parseIdl idl;
  let buffer := basedToBuffer data in
  match getEncodableNode root buffer with
  | None => Done None
  | Some node =>
      catch
        (decoded ← codec_decode root node buffer;
         Done (Some (mkDecodedData (node_name node)
           (filter (fun kv => kv.1 ≠ "discriminator") decoded))))
        (fun _ => Done None)
  end.

Definition decodeInstruction (idl : Idl) (data : string) : outcome (option DecodedData) :=
  decodeData idl data (fun root buffer => EInstruction <$> findInstructionForData root buffer).

Definition decodeLog (idl : Idl) (message : string) : outcome (option DecodedData) :=
  let msgData := replace_first "Program data: " "" message in
  let msgBuffer := basedToBuffer msgData in
  if negb (isAnchorIdl idl) then
    if Z.of_nat (length msgBuffer) <? 8 then Done None
    else
      let logDisc := take 8 msgBuffer in
      decodeData idl (to_base64 (drop 8 msgBuffer)) (fun root _ =>
        EType <$> List.find (fun t =>
          (indexOf logDisc (getDiscriminator (dt_name t)) =? 0)
          || (indexOf logDisc (getDiscriminator (pascalCase (dt_name t))) =? 0)) (definedTypes root))
  else
    v01 ← isAnchorIdlV01 idl;
    if negb v01 then Throw (JsError "Only Anchor IDL v0.1.0 is supported for decoding logs" None)
    else
      let events := match idl with AnchorIdl _ (Some events) _ => events | _ => [] end in
      match List.find (fun e => indexOf msgBuffer (ev_discriminator e) =? 0) events with
      | None => Throw (JsError "Unable to find event for log data" None)
      | Some event =>
          let input := to_base64 (drop (length (ev_discriminator event)) msgBuffer) in
          decodeData idl input (fun root _ =>
            EType <$> List.find (fun t => bool_decide (dt_name t = ev_name event)
                                 || bool_decide (dt_name t = camelCase (ev_name event)))
                        (definedTypes root))
      end.

(** ** The decoder object *)

(** The IDLs by program, where a file may hold null, and the files they are read from *)
Record DecoderState (W : Type) := mkDecoder {
  idls : gmap string (option Idl);
  files : W
}.
Arguments mkDecoder {W} _ _.
Arguments idls {W} _.
Arguments files {W} _.

Definition getIdlFromChain : outcome (option Idl) :=
  Throw (JsError "Not implemented: getIdlFromChain" None).

(** [this.idls[programId]], of a program that may be undefined *)
Definition idl_of (m : gmap string (option Idl)) (programId : option string) : option Idl :=
  mjoin (m !! default "undefined" programId).

(** [this.idls[programId] ?? (await this.getIdlFromChain(programId))] *)
Definition idl_or_chain (m : gmap string (option Idl)) (programId : option string)
  : outcome (option Idl) :=
  match idl_of m programId with Some idl => Done (Some idl) | None => getIdlFromChain end.

(** The undecorated [parseDiscriminator]. *)
Definition parseDiscriminator_body (m : gmap string (option Idl)) (input : string)
    (programId : option string) : outcome (list Z) :=
  if isHex input then Done (of_hex (replace_first "0x" "" input))
  else match idl_of m programId with
       | None => Throw (JsError ("Unable to find IDL for program " +:+ default "undefined" programId) None)
       | Some idl =>
           root ← parseIdl idl;
           match findInstructionDiscriminatorByName root input with
           | None => bs58_decode input
           | Some discriminator => Done discriminator
           end
       end.

(** [JSON.stringify(args)] *)
Definition cache_key (input : string) (programId : option string) : string :=
  stringify (JArray [JString input; match programId with Some p => JString p | None => JNull end]).

(** [Memoize]: the decorator runs once, when the class is declared, and makes the one
    cache of the method, which all objects of the class share; the key is the text of
    the arguments without [this].  A result is cached unless the method threw; none of
    the decorated methods is asynchronous. *)
Definition memoize {T A} (originalMethod : T → outcome A) (key : string) (this : T)
  : M (gmap string A) A :=
  cache ← get;
  match cache !! key with
  | Some r => mret r
  | None =>
      result ← of_outcome (originalMethod this);
      modify (<[key := result]>) ;;
      mret result
  end.

(** The decorated [parseDiscriminator] of a decoder with these IDLs *)
Definition parseDiscriminator_memo (input : string) (programId : option string)
  : gmap string (option Idl) → M (gmap string (list Z)) (list Z) :=
  memoize (fun this => parseDiscriminator_body this input programId) (cache_key input programId).

Section decoder.
Context {W : Type} (readFile : string → M W string) (json_parse : string → outcome (option Idl)).

Definition on_files {A} (m : M W A) : M (DecoderState W) A :=
  zoom files (fun w s => mkDecoder (idls s) w) m.

Definition load_error (name file : string) : jserror :=
  JsError ("Failed to load datasource IDL " +:+ name +:+ ":" +:+ file) None.

(** One asset: nothing if its IDL is there *)
Definition loadIdl (name file : string) : M (DecoderState W) unit :=
  try_catch
    (m ← gets idls;
     match idl_of m (Some name) with
     | Some _ => mret tt
     | None =>
         raw ← on_files (readFile file);
         idl ← of_outcome (json_parse raw);
         modify (fun s => mkDecoder (<[name := idl]> (idls s)) (files s))
     end)
    (fun _ => throw (load_error name file)).

(** [loadIdls], of the assets of a datasource *)
Definition loadIdls (assets : option (list (string * string))) : M (DecoderState W) unit :=
  for_each (default [] assets) (fun asset => loadIdl asset.1 asset.2).
End decoder.

Definition decodeInstructionRaw (m : gmap string (option Idl)) (instruction : RawInstruction)
    (transaction : RawTransaction) : outcome (option DecodedData) :=
  catch
    (let programId := js_nth (allAccounts transaction) (programIdIndex instruction) in
     idl ← idl_or_chain m programId;
     match idl with
     | None => Done None
     | Some idl => decodeInstruction idl (data instruction)
     end)
    (fun _ => Done None).

Definition decoder_decodeInstruction (m : gmap string (option Idl)) (instruction : SolanaInstruction)
  : outcome (option DecodedData) :=
  decodeInstructionRaw m (si_raw instruction) (si_transaction instruction).

Definition decoder_decodeLog (m : gmap string (option Idl)) (log : SolanaLogMessage)
  : outcome (option DecodedData) :=
  catch
    (idl ← idl_or_chain m (log_programId log);
     match idl with
     | None => Done None
     | Some idl => decodeLog idl (log_message log)
     end)
    (fun _ => Done None).
End decode.
Arguments mkDecoder {W} _ _.
Arguments idls {W} _.
Arguments files {W} _.
