(* ===== verification/DecoderSpec.v ===== *)
(** * What the decoder promises

    What the shared cache of discriminators answers; loading never replaces an IDL; data is
    decoded by the instruction whose discriminator it starts with, and the mistake of
    trying base58 before base64. *)
From S2P Require Import Prelude JsNumber JsString JsBase64 Json Types Filters Idl Decoder.
From Stdlib Require Import Ascii.

Section spec.
Context `{CD : Codama, B58 : Base58, DL : DecoderLibraries}.

(** ** The cache *)

Lemma cache_key_inj i p i' p' : cache_key i p = cache_key i' p' → i = i' ∧ p = p'.
Proof.
  intros H. apply stringify_inj in H; [|by destruct p|by destruct p'].
  by destruct p, p'; simplify_eq.
Qed.

(** A call of [parseDiscriminator] on a decoder with these IDLs *)
Record ParseCall := mkCall {
  call_idls : gmap string (option Idl);
  call_input : string;
  call_program : option string
}.

(** What the undecorated method gives. *)
Definition own_result (c : ParseCall) : outcome (list Z) :=
  parseDiscriminator_body (call_idls c) (call_input c) (call_program c).

(** The cache after calls of the decorated method, on whatever decoders, in this order *)
Fixpoint cache_after (calls : list ParseCall) (cache : gmap string (list Z)) : gmap string (list Z) :=
  match calls with
  | [] => cache
  | c :: calls =>
      cache_after calls (parseDiscriminator_memo (call_input c) (call_program c) (call_idls c) cache).2
  end.

(** The call has these arguments and the method does not throw. *)
Definition answered (input : string) (p : option string) (c : ParseCall) : bool :=
  bool_decide (call_input c = input ∧ call_program c = p) &&
  match own_result c with Done _ => true | _ => false end.

Lemma parse_memo_run input p m cache :
  parseDiscriminator_memo input p m cache =
    match cache !! cache_key input p with
    | Some v => (Done v, cache)
    | None => (parseDiscriminator_body m input p,
        match parseDiscriminator_body m input p with
        | Done v => <[cache_key input p := v]> cache
        | _ => cache
        end)
    end.
Proof.
  unfold parseDiscriminator_memo, memoize, get, modify, of_outcome, mbind, M_bind.
  destruct (cache !! _); [done|]. by destruct (parseDiscriminator_body m input p).
Qed.

(** The entry of a key is the result of the first call that could set it. *)
Lemma cache_after_lookup input p calls cache :
  cache_after calls cache !! cache_key input p =
    match cache !! cache_key input p with
    | Some v => Some v
    | None => match List.find (answered input p) calls with
              | Some c => match own_result c with Done v => Some v | _ => None end
              | None => None
              end
    end.
Proof.
  revert cache. induction calls as [|c calls IH]; intros cache; cbn [cache_after List.find].
  { by destruct (cache !! _). }
  rewrite IH, parse_memo_run. unfold answered at 2.
  destruct (decide (call_input c = input ∧ call_program c = p)) as [[<- <-]|Hne].
  - rewrite bool_decide_true by done. cbn [andb]. destruct (cache !! _) eqn:E; simpl; [by rewrite E|].
    change (parseDiscriminator_body (call_idls c) (call_input c) (call_program c)) with (own_result c).
    destruct (own_result c) as [v| | |] eqn:Eo; [by rewrite lookup_insert_eq, Eo|by rewrite E..].
  - rewrite bool_decide_false by done. cbn [andb].
    assert (cache_key (call_input c) (call_program c) ≠ cache_key input p) as Hk
      by (intros E; by apply Hne, cache_key_inj).
    destruct (cache !! cache_key (call_input c) _); simpl; [done|].
    destruct (parseDiscriminator_body _ _ _); simpl; by rewrite ?lookup_insert_ne.
Qed.

(** C18: the decorated method has one cache for all decoders, and the first call decides:
    after any calls, on any decoders, a call gives what the earliest call with the same
    input and program that did not throw got from the IDLs that its decoder had then; only
    if there was none does it give what its own decoder's IDLs say, errors included.  So
    the cache cannot be seen where all calls for a program find the same IDL, and
    otherwise a decoder may be answered from another one's IDL, or from one it replaced. *)
Theorem memoize_first_call calls m input p :
  let result := (parseDiscriminator_memo input p m (cache_after calls ∅)).1 in
  result = match List.find (answered input p) calls with
           | Some c => own_result c
           | None => parseDiscriminator_body m input p
           end ∧
  ((∀ c, c ∈ calls → call_input c = input → call_program c = p → idl_of (call_idls c) p = idl_of m p) →
   result = parseDiscriminator_body m input p).
Proof.
  intros result.
  assert (result = match List.find (answered input p) calls with
                   | Some c => own_result c
                   | None => parseDiscriminator_body m input p
                   end) as Hresult.
  { unfold result. rewrite parse_memo_run, cache_after_lookup, lookup_empty.
    destruct (List.find _ _) as [c|] eqn:E; [|done]. apply find_some in E as [_ Hc].
    apply andb_true_iff in Hc as [_ Hc]. by destruct (own_result c). }
  split; [done|]. intros Hsame. rewrite Hresult. destruct (List.find _ _) as [c|] eqn:E; [|done].
  apply find_some in E as [Hin%list_elem_of_In [Hargs%bool_decide_eq_true _]%andb_true_iff].
  destruct Hargs as [Hi Hp]. unfold own_result, parseDiscriminator_body. rewrite Hi, Hp.
  by rewrite (Hsame c Hin Hi Hp).
Qed.

(** ** Loading *)

(** The IDLs that are there stay. *)
Definition idls_grow (m m' : gmap string (option Idl)) : Prop :=
  ∀ p idl, idl_of m p = Some idl → idl_of m' p = Some idl.

#[global] Instance idls_grow_preorder : PreOrder idls_grow.
Proof. split; [by intros m p idl|]. intros m1 m2 m3 H1 H2 p idl H. by apply H2, H1. Qed.

Lemma idls_grow_insert (m : gmap string (option Idl)) name idl :
  idl_of m (Some name) = None → idls_grow m (<[name := idl]> m).
Proof.
  intros Hn p i Hp. unfold idl_of in *. simpl in *.
  destruct (decide (default "undefined" p = name)) as [<-|Hne]; [by rewrite Hn in Hp|].
  by rewrite lookup_insert_ne.
Qed.

Lemma idl_of_entry (m : gmap string (option Idl)) name idl :
  idl_of m (Some name) = Some idl → is_Some (m !! name).
Proof. unfold idl_of. simpl. by destruct (m !! name). Qed.

(** What loading may do to the state: IDLs and entries stay. *)
Definition loads {W} (s s' : DecoderState W) : Prop :=
  idls_grow (idls s) (idls s') ∧
  ∀ n, is_Some (idls s !! n) → is_Some (idls s' !! n).

#[global] Instance loads_preorder {W} : PreOrder (@loads W).
Proof.
  split; [done|]. intros s1 s2 s3 [G1 K1] [G2 K2].
  split; [by etrans|by auto].
Qed.

Lemma loadIdl_spec {W} (readFile : string → M W string) json_parse name file (s : DecoderState W) :
  wp (loadIdl readFile json_parse name file)
    (fun o s' => loads s s' ∧ (o = Done tt → is_Some (idls s' !! name))) s.
Proof.
  assert (∀ w', loads s (mkDecoder (idls s) w')) as Hsame by done.
  apply wp_try, wp_bind, wp_gets. simpl.
  destruct (idl_of (idls s) (Some name)) as [i|] eqn:Ei.
  - apply wp_ret. split; [done|]. intros _. by eapply idl_of_entry.
  - apply wp_bind. unfold on_files, zoom, wp at 1. destruct (readFile file (files s)) as [o w]. simpl.
    destruct o as [raw|e|x|]; simpl; [|by split..].
    apply wp_bind. unfold of_outcome, wp at 1. simpl.
    destruct (json_parse raw) as [idl|e|x|]; simpl; [|by split..].
    apply wp_modify. simpl. split.
    + split; [by apply idls_grow_insert|]. intros n [v Hv]. simpl.
      destruct (decide (n = name)) as [->|]; [rewrite lookup_insert_eq|
        rewrite lookup_insert_ne by done]; eauto.
    + intros _. rewrite lookup_insert_eq. eauto.
Qed.

(** Loading the IDLs of a datasource never replaces one that is loaded, also when a file cannot be read or parsed; when it
    succeeds, every asset has an entry. *)
Theorem loadIdls_grows {W} (readFile : string → M W string) json_parse assets (s : DecoderState W) :
  wp (loadIdls readFile json_parse (Some assets))
    (fun o s' => loads s s' ∧
       (o = Done tt → ∀ name file, (name, file) ∈ assets → is_Some (idls s' !! name))) s.
Proof.
  unfold loadIdls. simpl default. revert s. induction assets as [|[name file] assets IH]; intros s.
  { apply wp_ret. split; [done|]. intros _ n f Hin. by apply not_elem_of_nil in Hin. }
  apply wp_bind. eapply wp_mono; [apply loadIdl_spec|]. intros o s1 [H1 H2]. simpl in *.
  destruct o as [[]|e|x|]; simpl; try (split; [done|intros [=]]).
  eapply wp_mono; [apply IH|]. intros o s2 [H3 H4]. split; [by etrans|].
  intros Ho n f [[= -> ->]|Hin]%elem_of_cons; [|by eapply H4].
  destruct H3 as [_ H3]. by apply H3, H2.
Qed.

(** ** Decoding *)

Lemma find_first {A} (p : A → bool) l1 x l2 :
  Forall (fun y => p y = false) l1 → p x = true → List.find p (l1 ++ x :: l2) = Some x.
Proof. intros H Hx. induction H as [|y l Hy H IH]; simpl; [by rewrite Hx|by rewrite Hy]. Qed.

Lemma find_none {A} (p : A → bool) l : Forall (fun y => p y = false) l → List.find p l = None.
Proof. intros H. induction H as [|y l Hy H IH]; simpl; [done|by rewrite Hy]. Qed.

(** The instruction has no discriminator that the data starts with. *)
Definition other_instruction (data : list Z) (i : InstructionNode) : Prop :=
  ∀ d, getInstructionDiscriminatorBytes i = Done d → is_prefix d data = false.

(** What is left of decoded properties. *)
Definition without_discriminator (p : props) : props := filter (fun kv => kv.1 ≠ "discriminator") p.

(** C15: the base58 text of an instruction's data is decoded by the first
    instruction of the IDL whose discriminator the data starts with, and the
    discriminator is left out of the result. *)
Theorem decodeInstruction_selects `{BL : !Base58Laws} idl root l1 inst l2 disc payload p :
  parseIdl idl = Done root → program_instructions root = l1 ++ inst :: l2 →
  getInstructionDiscriminatorBytes inst = Done disc →
  Forall (other_instruction (disc ++ payload)) l1 → Forall byte_ok (disc ++ payload) →
  codec_decode root (EInstruction inst) (disc ++ payload) = Done p →
  decodeInstruction idl (bs58_encode (disc ++ payload)) =
    Done (Some (mkDecodedData (in_name inst) (without_discriminator p))).
Proof.
  intros Hr Hl Hd Hl1 Hb Hp. unfold decodeInstruction, decodeData. rewrite Hr. simpl.
  unfold basedToBuffer. rewrite bs58_roundtrip by done. unfold findInstructionForData. rewrite Hl.
  rewrite find_first.
  - simpl. by rewrite Hp.
  - eapply Forall_impl; [exact Hl1|]. intros i Hi. simpl.
    destruct (getInstructionDiscriminatorBytes i) as [d| | |] eqn:E; try done.
    rewrite indexOf_zero. by apply Hi.
  - by rewrite Hd, indexOf_zero, is_prefix_refl.
Qed.

Definition is_v01 (idl : Idl) (events : list IdlEvent) : Prop :=
  ∃ content, idl = AnchorIdl (Some (Some "0.1.0")) (Some events) content.

Lemma decodeLog_v01 idl events bytes :
  is_v01 idl events → 
  decodeLog idl ("Program data: " +:+ to_base64 bytes) =
    match List.find (fun e => is_prefix (ev_discriminator e) (basedToBuffer (to_base64 bytes))) events with
    | None => Throw (JsError "Unable to find event for log data" None)
    | Some event =>
        decodeData idl (to_base64 (drop (length (ev_discriminator event)) (basedToBuffer (to_base64 bytes))))
          (fun root _ => EType <$> List.find (fun t => bool_decide (dt_name t = ev_name event)
              || bool_decide (dt_name t = camelCase (ev_name event))) (definedTypes root))
    end.
Proof.
  intros [content ->]. unfold decodeLog. rewrite replace_first_prefix.
  change (("" +:+ to_base64 bytes)) with (to_base64 bytes). simpl.
  assert (∀ l, List.find (fun e => indexOf (basedToBuffer (to_base64 bytes)) (ev_discriminator e) =? 0) l
    = List.find (fun e => is_prefix (ev_discriminator e) (basedToBuffer (to_base64 bytes))) l) as ->.
  { induction l as [|e l IH]; simpl; [done|]. by rewrite indexOf_zero, IH. }
  done.
Qed.

(** C16: with an Anchor IDL of version 0.1.0, the log of an event is decoded by
    the type of the first event whose discriminator its data starts with, from the
    data after the discriminator, provided neither base64 text happens to be a
    base58 text too. *)
Theorem decodeLog_selects idl events e1 event e2 payload root t1 t t2 err1 err2 p :
  is_v01 idl events → events = e1 ++ event :: e2 →
  Forall (fun e => is_prefix (ev_discriminator e) (ev_discriminator event ++ payload) = false) e1 →
  Forall byte_ok (ev_discriminator event ++ payload) →
  bs58_decode (to_base64 (ev_discriminator event ++ payload)) = Throw err1 →
  bs58_decode (to_base64 payload) = Throw err2 →
  parseIdl idl = Done root → definedTypes root = t1 ++ t :: t2 →
  Forall (fun t => dt_name t ≠ ev_name event ∧ dt_name t ≠ camelCase (ev_name event)) t1 →
  dt_name t = ev_name event ∨ dt_name t = camelCase (ev_name event) →
  codec_decode root (EType t) payload = Done p →
  decodeLog idl ("Program data: " +:+ to_base64 (ev_discriminator event ++ payload)) =
    Done (Some (mkDecodedData (dt_name t) (without_discriminator p))).
Proof.
  intros Hv -> He Hb H1 H2 Hr Ht Ht1 Htn Hp. rewrite (decodeLog_v01 _ _ _ Hv).
  assert (basedToBuffer (to_base64 (ev_discriminator event ++ payload)) =
    ev_discriminator event ++ payload) as ->.
  { unfold basedToBuffer. rewrite H1. by apply of_base64_to_base64. }
  rewrite find_first by (done || apply is_prefix_refl). rewrite drop_app_length.
  unfold decodeData. rewrite Hr. simpl. rewrite Ht, find_first.
  - unfold basedToBuffer. rewrite H2, of_base64_to_base64; [|by apply Forall_app in Hb as [_ ?]].
    simpl. by rewrite Hp.
  - eapply Forall_impl; [exact Ht1|]. intros u [Hu1 Hu2]. simpl.
    by rewrite !bool_decide_false.
  - apply orb_true_iff. rewrite !bool_decide_eq_true. done.
Qed.


End spec.

(** ** Instances *)

(** Base58 as Bitcoin writes it. *)
Definition base58_alphabet : string := "123456789ABCDEFGHJKLMNPQRSTUVWXYZabcdefghijkmnopqrstuvwxyz".
Fixpoint string_index (c : ascii) (i : Z) (s : string) : option Z :=
  match s with
  | EmptyString => None
  | String d s => if decide (c = d) then Some i else string_index c (i + 1) s
  end.
Fixpoint big_endian (fuel : nat) (n : Z) (acc : list Z) : list Z :=
  match fuel with
  | O => acc
  | S fuel => if n =? 0 then acc else big_endian fuel (n / 256) (n mod 256 :: acc)
  end.
Fixpoint leading_zeros (l : list Z) : nat :=
  match l with 0 :: l => S (leading_zeros l) | _ => O end.
Definition base58_decode (s : string) : outcome (list Z) :=
  digits ← traverse (fun c => match string_index c 0 base58_alphabet with
      | Some d => Done d
      | None => Throw (JsError "Non-base58 character" None)
      end) (String.list_ascii_of_string s);
  let zeros := leading_zeros digits in
  Done (replicate zeros 0 ++ big_endian (length digits) (foldl (fun acc d => acc * 58 + d) 0 digits) []).

(** A text encoding in which every text that it writes begins with a hash, and
    which reads any other text as base58. *)
Definition hash : ascii := "#"%char.
#[local] Instance dec_base58 : Base58 := {|
  bs58_decode s := match s with
    | String c t => if decide (c = hash)
        then Done ((fun c => Z.of_nat (nat_of_ascii c)) <$> String.list_ascii_of_string t)
        else base58_decode s
    | EmptyString => base58_decode s
    end;
  bs58_encode l := String hash
    (String.string_of_list_ascii ((fun z => ascii_of_nat (Z.to_nat z)) <$> l))
|}.

Lemma big_endian_bytes fuel n acc : Forall byte_ok acc → Forall byte_ok (big_endian fuel n acc).
Proof.
  revert n acc. induction fuel as [|fuel IH]; intros n acc Ha; simpl; [done|].
  case_match; [done|]. apply IH. constructor; [|done]. apply Z.mod_pos_bound. lia.
Qed.

Lemma base58_decode_bytes s l : base58_decode s = Done l → Forall byte_ok l.
Proof.
  unfold base58_decode. intros (d & _ & [= <-])%outcome_bind_Done_inv.
  apply Forall_app. split; [|by apply big_endian_bytes].
  apply Forall_replicate. by unfold byte_ok.
Qed.

#[local] Instance dec_base58_laws : Base58Laws.
Proof.
  split.
  - intros l Hl. simpl. f_equal.
    rewrite String.list_ascii_of_string_of_list_ascii, <- list_fmap_compose.
    induction Hl as [|b l Hb Hl IH]; [done|]. simpl. f_equal; [|exact IH].
    rewrite nat_ascii_embedding; unfold byte_ok in Hb; lia.
  - intros [|c t] l; simpl; [apply base58_decode_bytes|]. case_decide; [|apply base58_decode_bytes].
    intros [= <-]. apply Forall_fmap, Forall_forall. intros x _. unfold byte_ok, compose.
    pose proof (nat_ascii_bounded x). lia.
Qed.

Definition sim_event : IdlEvent := mkIdlEvent "Swap" [0; 16; 131; 16; 81; 135; 34; 75].
Definition sim_swap : InstructionNode :=
  mkInstructionNode "swap" [mkArgument "discriminator" (Some (NumberValueNode 7))].
Definition sim_root : RootNode :=
  mkRootNode "amm" "prog" [mkInstructionNode "broken" []; sim_swap] [mkDefinedType "Swap" JNull].
Definition sim_idl : Idl := AnchorIdl (Some (Some "0.1.0")) (Some [sim_event]) JNull.
#[local] Instance dec_codama : Codama := {|
  codama_rootNodeFromAnchor idl := Done (match idl with
    | AnchorIdl _ _ _ => sim_root | RootNodeIdl r => mkRootNode (program_name r) "" [] [] end);
  codama_createFromRoot idl := match idl with
    | RootNodeIdl r => Done r | AnchorIdl _ _ _ => Throw (TypeError "not a root node") end;
  camelCase s := s; pascalCase s := s;
  encode_utf8 s := []; encode_base16 s := Done (of_hex s);
  encode_base58 s := base58_decode s; encode_base64 s := Done (of_base64 s);
  sha256 s := []
|}.
#[local] Instance dec_libraries : DecoderLibraries := {|
  codec_decode root node buffer :=
    Done [("discriminator", JNumber 0); ("bytes", JString (to_hex buffer))];
  isHex s := startsWith "0x" s
|}.

(** Two decoders with different IDLs for one program: in the second [swap] is 9. *)
Definition sim_swap9 : InstructionNode :=
  mkInstructionNode "swap" [mkArgument "discriminator" (Some (NumberValueNode 9))].
Definition sim_idl9 : Idl := RootNodeIdl (mkRootNode "amm" "prog" [sim_swap9] []).

Lemma memoize_first_call_witness :
  let other := {["prog" := Some sim_idl]} in
  let own := {["prog" := Some sim_idl9]} in
  (parseDiscriminator_memo "swap" (Some "prog") own (cache_after [mkCall other "swap" (Some "prog")] ∅)).1
    = Done [7] ∧
  parseDiscriminator_body own "swap" (Some "prog") = Done [9] ∧
  (parseDiscriminator_memo "swap" (Some "prog") own (cache_after [mkCall own "swap" (Some "prog")] ∅)).1
    = Done [9].
Proof.
  intros other own. split_and!.
  - exact (proj1 (memoize_first_call [mkCall other "swap" (Some "prog")] own "swap" (Some "prog"))).
  - reflexivity.
  - refine (proj2 (memoize_first_call [mkCall own "swap" (Some "prog")] own "swap" (Some "prog")) _).
    intros c Hc _ _. apply list_elem_of_singleton in Hc as ->. reflexivity.
Defined.

Lemma decodeInstruction_selects_witness :
  decodeInstruction sim_idl (bs58_encode [7; 1; 2]) =
    Done (Some (mkDecodedData "swap" [("bytes", JString "070102")])).
Proof.
  apply (decodeInstruction_selects sim_idl sim_root [mkInstructionNode "broken" []] sim_swap []
    [7] [1; 2] [("discriminator", JNumber 0); ("bytes", JString "070102")]); try done.
  - by repeat constructor.
  - by repeat constructor.
Defined.

Lemma decodeLog_selects_witness :
  decodeLog sim_idl ("Program data: " +:+ to_base64 (ev_discriminator sim_event ++ [255; 240])) =
    Done (Some (mkDecodedData "Swap" [("bytes", JString "fff0")])).
Proof.
  apply (decodeLog_selects sim_idl [sim_event] [] sim_event [] [255; 240] sim_root []
    (mkDefinedType "Swap" JNull) [] (JsError "Non-base58 character" None)
    (JsError "Non-base58 character" None)
    [("discriminator", JNumber 0); ("bytes", JString "fff0")]); try done.
  - by eexists.
  - by repeat constructor.
  - by left.
Defined.


