(* ===== verification/Indexer.v ===== *)
(** * The indexer manager

    [packages/node/src/indexer/indexer.manager.ts]: the order in which the contents
    of a block reach the handlers of the datasources, and what happens to a datum
    before a handler gets it. *)
From S2P Require Import Prelude JsNumber JsString JsDate Json JsMap Types Filters Blocks Idl Decoder ApiService Datasources.

(** What a handler is given. *)
Inductive HandlerInput :=
| InBlock (b : SolanaBlock)
| InTransaction (t : SolanaTransaction)
| InInstruction (i : SolanaInstruction)
| InLog (l : SolanaLogMessage).

Definition input_kind (d : HandlerInput) : SolanaHandlerKind :=
  match d with
  | InBlock _ => KBlock | InTransaction _ => KTransaction
  | InInstruction _ => KInstruction | InLog _ => KLog
  end.

Section manager.
  (** [indexData] of the base class: the handlers of one datasource on one datum. *)
  Context {W : Type} `{LD : Lodash} (indexData : HandlerInput → SubqlDatasource → M W unit).

Definition index_all (dataSources : list SubqlDatasource) (d : HandlerInput) : M W unit :=
  for_each dataSources (indexData d).

Definition indexBlockContent (block : SolanaBlock) (dss : list SubqlDatasource) : M W unit :=
  index_all dss (InBlock block).
Definition indexTransaction (tx : SolanaTransaction) (dss : list SubqlDatasource) : M W unit :=
  index_all dss (InTransaction tx).
Definition indexInstruction (i : SolanaInstruction) (dss : list SubqlDatasource) : M W unit :=
  index_all dss (InInstruction i).
Definition indexLog (l : SolanaLogMessage) (dss : list SubqlDatasource) : M W unit :=
  index_all dss (InLog l).

(** [Object.entries] of an array: the elements with their positions *)
Fixpoint for_each_entry {A} (idx : Z) (l : list A) (f : Z → A → M W unit) : M W unit :=
  match l with
  | [] => mret tt
  | x :: l => f idx x ;; for_each_entry (idx + 1) l f
  end.

Definition index_transaction_content (tx : SolanaTransaction) (dss : list SubqlDatasource) : M W unit :=
  indexTransaction tx dss ;;
  let groups := lodash_groupBy index (default [] (meta (st_tx tx) ≫= innerInstructions)) in
  for_each_entry 0 (instructions (message (st_tx tx))) (fun idx instruction =>
    indexInstruction instruction dss ;;
    for_each (default [] (groups idx)) (fun inner =>
      for_each (inner_instructions inner) (fun i => indexInstruction i dss))) ;;
  for_each (default [] (meta (st_tx tx) ≫= logs)) (fun l => indexLog l dss).

Definition indexBlockData (block : SolanaBlock) (dss : list SubqlDatasource) : M W unit :=
  indexBlockContent block dss ;;
  for_each (transactions block) (fun tx => index_transaction_content tx dss).
End manager.

(** [indexBlock]: the base class's walk, which calls [indexBlockData] and asks for the
    block's safe api when a handler needs it *)
Definition indexBlock {W R} (internalIndexBlock : IBlock SolanaBlock → list SubqlDatasource →
      M W SolanaSafeApi → M W R)
    (getSafeApi : SolanaBlock → M W SolanaSafeApi) (b : IBlock SolanaBlock)
    (dataSources : list SubqlDatasource) : M W R :=
  internalIndexBlock b dataSources (getSafeApi (block b)).

(** [ProcessorTypeMap]: does a processor of a custom datasource build on this kind? *)
Definition ProcessorTypeMap (kind : SolanaHandlerKind) : string → bool :=
  match kind with
  | KBlock => isBlockHandlerProcessor
  | KTransaction => isTransactionHandlerProcessor
  | KInstruction => isInstructionHandlerProcessor
  | KLog => isLogHandlerProcessor
  end.

Lemma ProcessorTypeMap_spec kind base :
  ProcessorTypeMap kind base = true ↔ base = handler_kind_string kind.
Proof. by destruct kind; apply bool_decide_eq_true. Qed.

(** ** A datum and a handler *)

(** [getFilterTypeMap]: the filter test of a kind *)
Definition filter_input `{BlockTimestampFilter, Base58, DiscriminatorParser}
    (d : HandlerInput) (f : HandlerFilter) : outcome bool :=
  match d, f with
  | InBlock b, FBlock f => Done (filterBlocksProcessor (block_base b) f)
  | InTransaction t, FTransaction f => Done (filterTransactionsProcessor (st_tx t) f)
  | InInstruction i, FInstruction f => filterInstructionsProcessor i f
  | InLog l, FLog f => Done (filterLogsProcessor l f)
  | _, _ => Done false
  end.

(** [prepareFilteredData]: the IDLs of the datasource are loaded, then the datum is
    decoded ([DataIDLParser]).  The result of the decoding is kept by the datum. *)
Section prepare.
  Context {W : Type} `{CD : Codama, B58 : Base58, DL : DecoderLibraries}
    (readFile : string → M W string) (json_parse : string → outcome (option Idl)).

Definition preload (d : HandlerInput) : M (DecoderState W) (option DecodedData) :=
  m ← gets idls;
  match d with
  | InBlock _ | InTransaction _ => mret None
  | InInstruction i => of_outcome (decoder_decodeInstruction m i)
  | InLog l => match decodedMessage l with
               | ResolvedNull => mret None
               | OnDemand => of_outcome (decoder_decodeLog m l)
               end
  end.

(** [getDsProcessor]: what a sandbox is given of the decoder *)
Record SandboxDecoder := mkSandboxDecoder {
  sandbox_decodeInstruction : RawInstruction → RawTransaction → M (DecoderState W) (option DecodedData);
  sandbox_decodeLogs : option (list string) → outcome (option (list SolanaLogMessage))
}.
Definition sandbox_decoder : SandboxDecoder := {|
  sandbox_decodeInstruction i tx := m ← gets idls; of_outcome (decodeInstructionRaw m i tx);
  sandbox_decodeLogs := wrapLogs
|}.
Definition getDsProcessor {DS API Sandbox} (sandbox_getDsProcessor : DS → SolanaSafeApi → API → SandboxDecoder → Sandbox)
    (ds : DS) (safeApi : SolanaSafeApi) (api : API) : Sandbox :=
  sandbox_getDsProcessor ds safeApi api sandbox_decoder.

Definition prepareFilteredData (d : HandlerInput) (ds : SubqlDatasource)
  : M (DecoderState W) (HandlerInput * option DecodedData) :=
  loadIdls readFile json_parse (ds_assets ds) ;;
  decoded ← preload d;
  mret (d, decoded).
End prepare.

(** * The order of a block *)

(** The inner instructions of the instruction at [idx]. *)
Definition inner_at (inner : list (Inner SolanaInstruction)) (idx : Z) : list SolanaInstruction :=
  concat (inner_instructions <$> filter (fun i => index i = idx) inner).

Definition instruction_order (inner : list (Inner SolanaInstruction)) (l : list SolanaInstruction)
  : list SolanaInstruction :=
  concat (imap (fun k i => i :: inner_at inner (Z.of_nat k)) l).

Definition transaction_order (tx : SolanaTransaction) : list HandlerInput :=
  InTransaction tx
    :: (InInstruction <$> instruction_order (default [] (meta (st_tx tx) ≫= innerInstructions))
          (instructions (message (st_tx tx))))
    ++ (InLog <$> default [] (meta (st_tx tx) ≫= logs)).

Definition block_order (block : SolanaBlock) : list HandlerInput :=
  InBlock block :: concat (transaction_order <$> transactions block).

Section order.
  Context {W : Type} `{LD : Lodash}.
  Implicit Types m : M W unit.

(** Programs with the same runs. *)
Definition runs_as {A} (m1 m2 : M W A) : Prop := ∀ s, m1 s = m2 s.
#[global] Instance runs_as_equiv {A} : Equivalence (@runs_as A).
Proof.
  split; [done|by intros m1 m2 H s|]. intros m1 m2 m3 H1 H2 s. by rewrite H1.
Qed.

Lemma runs_bind {A C} (m1 m2 : M W A) (k1 k2 : A → M W C) :
  runs_as m1 m2 → (∀ a, runs_as (k1 a) (k2 a)) → runs_as (m1 ≫= k1) (m2 ≫= k2).
Proof.
  intros H1 H2 s. unfold mbind, M_bind. rewrite H1. destruct (m2 s) as [[] ?]; [apply H2|done..].
Qed.

Lemma for_each_app {A} (l1 l2 : list A) (f : A → M W unit) :
  runs_as (for_each (l1 ++ l2) f) (for_each l1 f ;; for_each l2 f).
Proof.
  induction l1 as [|x l1 IH]; intros s; [done|]. cbn [app for_each].
  unfold mbind, M_bind in *. destruct (f x s) as [[] s1]; done.
Qed.

Lemma for_each_fmap {A C} (g : A → C) (l : list A) (f : C → M W unit) :
  for_each (g <$> l) f = for_each l (fun x => f (g x)).
Proof. induction l as [|x l IH]; [done|]. cbn [fmap list_fmap for_each]. by rewrite <- IH. Qed.

Lemma for_each_runs {A} (l : list A) (f g : A → M W unit) :
  (∀ x, runs_as (f x) (g x)) → runs_as (for_each l f) (for_each l g).
Proof.
  intros H. induction l as [|x l IH]; [done|]. cbn [for_each]. by apply runs_bind.
Qed.

Lemma for_each_concat {A} (ls : list (list A)) (f : A → M W unit) :
  runs_as (for_each (concat ls) f) (for_each ls (fun l => for_each l f)).
Proof.
  induction ls as [|l ls IH]; [done|]. cbn [concat for_each].
  etrans; [apply for_each_app|]. by apply runs_bind.
Qed.

Context (indexData : HandlerInput → SubqlDatasource → M W unit).

(** A list of data against all the datasources. *)
Definition index_list (dss : list SubqlDatasource) (l : list HandlerInput) : M W unit :=
  for_each l (index_all indexData dss).

Lemma groupBy_inner inner idx dss :
  runs_as (for_each (default [] (lodash_groupBy index inner idx)) (fun i =>
      for_each (inner_instructions i) (fun i => indexInstruction indexData i dss)))
    (index_list dss (InInstruction <$> inner_at inner idx)).
Proof.
  rewrite lodash_groupBy_spec. unfold index_list. rewrite for_each_fmap.
  unfold inner_at. rewrite for_each_concat, for_each_fmap.
  by destruct (filter _ inner).
Qed.

Lemma entries_order inner l k dss :
  runs_as (for_each_entry (Z.of_nat k) l (fun idx instruction =>
      indexInstruction indexData instruction dss ;;
      for_each (default [] (lodash_groupBy index inner idx)) (fun i =>
        for_each (inner_instructions i) (fun i => indexInstruction indexData i dss))))
    (index_list dss (InInstruction <$>
       concat (imap (fun j i => i :: inner_at inner (Z.of_nat (k + j))) l))).
Proof.
  revert k. induction l as [|i l IH]; intros k; [done|]. cbn [for_each_entry imap concat].
  rewrite Nat.add_0_r. unfold index_list. rewrite fmap_app. rewrite for_each_app.
  apply runs_bind.
  - cbn [fmap list_fmap for_each]. apply runs_bind; [done|]. intros _. apply groupBy_inner.
  - intros _. replace (Z.of_nat k + 1) with (Z.of_nat (S k)) by lia. rewrite IH. unfold index_list.
    assert (imap (fun j i => i :: inner_at inner (Z.of_nat (S k + j))) l =
      imap ((fun j i => i :: inner_at inner (Z.of_nat (k + j))) ∘ S) l) as ->; [|done].
    apply imap_ext. intros j x _. unfold compose. by rewrite Nat.add_succ_r.
Qed.

(** The data of a block reach every datasource in the order of execution: the
    block, then each transaction followed by its instructions, each of them with its
    inner instructions after it, and then the logs; an error ends the block there.
    This is the plain walk over one list. *)
Theorem indexBlockData_order block dss :
  runs_as (indexBlockData indexData block dss) (index_list dss (block_order block)).
Proof.
  unfold indexBlockData, index_list, block_order. cbn [for_each].
  apply runs_bind; [done|]. intros _. rewrite for_each_concat, for_each_fmap.
  apply for_each_runs. intros tx. unfold index_transaction_content, transaction_order.
  cbn [for_each]. apply runs_bind; [done|]. intros _.
  rewrite for_each_app. apply runs_bind.
  - change 0 with (Z.of_nat 0). apply (entries_order _ _ 0 dss).
  - intros _. by rewrite for_each_fmap.
Qed.

End order.

Lemma inner_at_split inner (k n : nat) :
  inner_at inner (Z.of_nat k) ++
    concat (inner_instructions <$> filter (fun i => Z.of_nat (S k) ≤ index i < Z.of_nat (S k + n)) inner) ≡ₚ
  concat (inner_instructions <$> filter (fun i => Z.of_nat k ≤ index i < Z.of_nat (k + S n)) inner).
Proof.
  unfold inner_at. induction inner as [|y inner IH]; [done|]. rewrite !filter_cons.
  repeat case_decide; try lia; cbn [fmap list_fmap concat app].
  - by rewrite <- app_assoc, IH.
  - by rewrite (Permutation_app_swap_app _ (inner_instructions y)), IH.
  - exact IH.
Qed.

(** When every group of inner instructions belongs to an instruction of the
    transaction, each inner instruction is indexed exactly once, and the outer
    ones too. *)
Theorem inner_instructions_once inner l :
  Forall (fun i => 0 ≤ index i < Z.of_nat (length l)) inner →
  instruction_order inner l ≡ₚ l ++ concat (inner_instructions <$> inner).
Proof.
  intros Hin. unfold instruction_order.
  assert (∀ k : nat, concat (imap (fun j i => i :: inner_at inner (Z.of_nat (k + j))) l) ≡ₚ
    l ++ concat (inner_instructions <$>
      filter (fun i => Z.of_nat k ≤ index i < Z.of_nat (k + length l)) inner)) as H.
  { clear Hin. induction l as [|x l IH]; intros k; cbn [imap concat length].
    - assert (filter (fun i : Inner SolanaInstruction => Z.of_nat k ≤ index i < Z.of_nat (k + 0)) inner = [])
        as ->; [|done].
      induction inner as [|y inner IHi]; [done|]. rewrite filter_cons, decide_False by lia. done.
    - assert (imap ((fun j i => i :: inner_at inner (Z.of_nat (k + j))) ∘ S) l =
        imap (fun j i => i :: inner_at inner (Z.of_nat (S k + j))) l) as ->
        by (apply imap_ext; intros j y _; unfold compose; by rewrite Nat.add_succ_r).
      rewrite (IH (S k)), Nat.add_0_r. cbn [app]. constructor.
      rewrite app_assoc, (Permutation_app_comm _ l), <- app_assoc. f_equiv.
      by rewrite inner_at_split. }
  specialize (H 0%nat). simpl in H. rewrite H. f_equiv. f_equiv. f_equiv.
  clear H. induction Hin as [|y inner Hy Hin IH]; [done|].
  rewrite filter_cons, decide_True by lia. by rewrite IH.
Qed.

(** ** Instances *)
Lemma inner_instructions_once_witness :
  instruction_order [mkInner 1 [sim_instruction; sim_instruction]; mkInner 0 [sim_instruction]]
      [sim_instruction; sim_instruction] ≡ₚ
    [sim_instruction; sim_instruction] ++ [sim_instruction; sim_instruction] ++ [sim_instruction].
Proof.
  apply (inner_instructions_once
    [mkInner 1 [sim_instruction; sim_instruction]; mkInner 0 [sim_instruction]]).
  repeat constructor; simpl; lia.
Defined.
