(* ===== verification/IndexSpec.v ===== *)
(** * From the answer of the RPC to the handlers

    The composition of the client, the wrapping of blocks and the indexer manager:
    every transaction, instruction and log of a raw block reaches every datasource,
    once and in the order of execution. *)
From S2P Require Import Prelude JsNumber JsString JsDate Json JsMap Types Blocks BlocksSpec Api ApiSpec FetchBatch Datasources Filters Idl Decoder Indexer.

(** ** What a raw block holds, in the order of execution *)
Inductive RawDatum :=
| RawBlockDatum
| RawTransactionDatum (tx : RawTransaction)
| RawInstructionDatum (tx : RawTransaction) (place : list Z) (i : RawInstruction)
| RawLogDatum (l : SolanaLogMessage).

(** The inner instructions of the instruction at [k], in the groups that name it *)
Definition raw_inner (tx : RawTransaction) (groups : list (Inner RawInstruction)) (k : Z)
  : list RawDatum :=
  concat ((fun g => imap (fun j r => RawInstructionDatum tx [index g; Z.of_nat j] r) (inner_instructions g))
    <$> filter (fun g => index g = k) groups).

Definition raw_groups (tx : RawTransaction) : list (Inner RawInstruction) :=
  default [] (meta tx ≫= innerInstructions).

(** The messages of a transaction: those of a dictionary, or those read from its log *)
Definition raw_logs (tx : RawTransaction) : list SolanaLogMessage :=
  match meta tx with
  | None => []
  | Some m =>
      match logs m with
      | Some l => wrapDictionaryLogs l
      | None => match wrapLogs (logMessages m) with Done (Some l) => l | _ => [] end
      end
  end.

Definition raw_transaction_order (tx : RawTransaction) : list RawDatum :=
  RawTransactionDatum tx
    :: concat (imap (fun k r => RawInstructionDatum tx [Z.of_nat k] r :: raw_inner tx (raw_groups tx) (Z.of_nat k))
         (instructions (message tx)))
    ++ (RawLogDatum <$> raw_logs tx).

Definition raw_block_order (raw : RawSolanaBlock) : list RawDatum :=
  RawBlockDatum :: concat (raw_transaction_order <$> raw_transactions raw).

(** The input of a handler that stands for a raw datum of a block *)
Definition carries (base : BaseSolanaBlock) (d : RawDatum) (input : HandlerInput) : Prop :=
  match d, input with
  | RawBlockDatum, InBlock b => block_base b = base
  | RawTransactionDatum tx, InTransaction st => wraps_transaction base tx st
  | RawInstructionDatum tx place r, InInstruction i => i = wrapInstruction place r tx base
  | RawLogDatum l, InLog l' => l = l'
  | _, _ => False
  end.

Lemma Forall2_concat {A C} (R : A → C → Prop) ls ks :
  Forall2 (Forall2 R) ls ks → Forall2 R (concat ls) (concat ks).
Proof. induction 1; [constructor|]. by apply Forall2_app. Qed.

Lemma Forall2_imap {A C D} (R : C → D → Prop) (f : nat → A → C) (g : nat → A → D) l :
  (∀ k a, R (f k a) (g k a)) → Forall2 R (imap f l) (imap g l).
Proof.
  revert f g. induction l as [|a l IH]; intros f g H; [constructor|]. cbn [imap].
  constructor; [done|]. apply IH. intros k x. apply H.
Qed.

Lemma imap_imap {A C D} (g : nat → C → D) (h : nat → A → C) l :
  imap g (imap h l) = imap (fun k a => g k (h k a)) l.
Proof. revert g h. induction l as [|a l IH]; intros g h; [done|]. cbn [imap]. f_equal. apply IH. Qed.

Lemma fmap_concat {A C} (f : A → C) (ls : list (list A)) : fmap (M:=list) f (concat ls) = concat (fmap (M:=list) (fmap (M:=list) f) ls).
Proof. induction ls as [|l ls IH]; [done|]. cbn [concat fmap list_fmap]. by rewrite fmap_app, IH. Qed.

Section order.
Context (base : BaseSolanaBlock) (tx : RawTransaction).

Lemma group_carried prefix l :
  Forall2 (carries base) (imap (fun j r => RawInstructionDatum tx (prefix ++ [Z.of_nat j]) r) l)
    (InInstruction <$> wrap_all prefix tx base l).
Proof. unfold wrap_all. rewrite fmap_imap. by apply Forall2_imap. Qed.

Definition wrap_group (g : Inner RawInstruction) : Inner SolanaInstruction :=
  mkInner (index g) (wrap_all [index g] tx base (inner_instructions g)).

Lemma inner_carried groups k :
  Forall2 (carries base) (raw_inner tx groups k) (InInstruction <$> inner_at (wrap_group <$> groups) k).
Proof.
  unfold raw_inner, inner_at. rewrite fmap_concat. apply Forall2_concat.
  induction groups as [|g groups IH]; [constructor|]. cbn [fmap list_fmap].
  rewrite !filter_cons. cbn [wrap_group index]. case_decide; [|exact IH].
  cbn [fmap list_fmap]. constructor; [|exact IH]. apply (group_carried [index g]).
Qed.

Lemma instructions_carried groups l :
  Forall2 (carries base)
    (concat (imap (fun k r => RawInstructionDatum tx [Z.of_nat k] r :: raw_inner tx groups (Z.of_nat k)) l))
    (InInstruction <$> instruction_order (wrap_group <$> groups) (wrap_all [] tx base l)).
Proof.
  unfold instruction_order, wrap_all. rewrite fmap_concat. apply Forall2_concat.
  rewrite imap_imap, fmap_imap. apply Forall2_imap. intros k r.
  constructor; [done|]. apply inner_carried.
Qed.

Lemma transaction_carried st :
  transformTransaction base tx = Done st →
  Forall2 (carries base) (raw_transaction_order tx) (transaction_order st).
Proof.
  intros H. constructor; [by apply transformTransaction_spec|].
  unfold transformTransaction, catch, raw_groups, raw_logs in *.
  destruct (meta tx) as [m|]; simpl in *.
  - unfold transformMeta in H.
    assert (∀ l, Forall2 (carries base) (RawLogDatum <$> l) (InLog <$> l)) as Hlogs
      by (intros l; apply Forall2_fmap, Forall_Forall2_diag, Forall_forall; done).
    assert (∀ w, (match logs m with Some l => Done (Some (wrapDictionaryLogs l)) | None => wrapLogs (logMessages m) end)
      = Done w → default [] w = match logs m with Some l => wrapDictionaryLogs l
        | None => match wrapLogs (logMessages m) with Done (Some l) => l | _ => [] end end) as Hw.
    { intros w. destruct (logs m); [by intros [= <-]|]. intros ->. by destruct w. }
    destruct (match logs m with Some _ => _ | None => _ end) as [w| | |]; simplify_eq/=.
    apply Forall2_app; [apply instructions_carried|]. by rewrite <- (Hw w eq_refl).
  - simplify_eq/=. apply Forall2_app; [apply (instructions_carried [])|constructor].
Qed.
End order.

Lemma block_carried raw res :
  transformBlock raw = Done res →
  Forall2 (carries (raw_base raw)) (raw_block_order raw) (block_order res).
Proof.
  intros (txs & Htxs%traverse_Forall2 & [= <-])%outcome_bind_Done_inv. constructor; [done|].
  apply Forall2_concat, Forall2_fmap. eapply Forall2_impl; [exact Htxs|].
  intros tx st. apply transaction_carried.
Qed.

(** ** The composition *)
Section pipeline.
  Context {W : Type} `{RPC : SolanaRpc W, EC : SolanaErrorCodes, NC : NodeCore W, LD : Lodash}
    `{NL : !NodeCoreLaws W}
    (indexData : HandlerInput → SubqlDatasource → M W unit).

(** A slot is fetched and its block is indexed. *)
Definition fetch_and_index (api : SolanaApi) (n : Z) (dss : list SubqlDatasource) : M W unit :=
  b ← fetchBlock api n; indexBlockData indexData (block b) dss.

(** C9: what the RPC answers for a slot reaches the handlers whole: if the block can be
    wrapped, indexing it is the plain walk over a list of inputs that stand, one for one,
    for what the raw block holds in the order of execution (the block; each transaction;
    its instructions, each followed by the inner instructions of the groups that name
    it, with their places; its log messages), each input given to all datasources before
    the next one, and an error ends the walk there.  If it cannot be wrapped, no handler
    sees anything of it. *)
Theorem raw_block_indexed api n dss w raw w1 :
  rpc_getBlock (endpoint api) n (requestTimeout api) w = (Done (Some raw), w1) →
  ∃ w2, match transformBlock raw with
  | Done res => ∃ inputs, Forall2 (carries (raw_base raw)) (raw_block_order raw) inputs ∧
      fetch_and_index api n dss w = index_list indexData dss inputs w2
  | _ => ∃ e, fetch_and_index api n dss w = (Throw e, w2)
  end.
Proof.
  intros Hr. unfold fetch_and_index. rewrite (bind_ext _ (fun _ => fetchBlock_resume api n (inr (Some raw)) w1)
    _ (fun b => indexBlockData indexData (block b) dss) w); [|by apply fetchBlock_resumes|done].
  destruct (resume_run api n (inr (Some raw)) w1) as [w2 H2]. exists w2.
  unfold mbind, M_bind. rewrite H2. unfold request_result.
  destruct (transformBlock_cases raw) as [[res Hres]|(m & c & Hres)]; rewrite Hres; [|by eexists].
  exists (block_order res). split; [by apply block_carried|]. apply indexBlockData_order.
Qed.
End pipeline.

(** ** Instances *)
Definition sim_full_tx : RawTransaction :=
  mkTx ["sig1"] (mkMessage ["alice"; "outer"; "token"]
      [mkRawInstruction [0] "x" 1 None; mkRawInstruction [0] "y" 2 None] [])
    (Some (mkMeta None [] [] (Some [mkInner 0 [mkRawInstruction [0] "z" 2 (Some (Some 2))]])
      (Some ["Program outer invoke [1]"; "Program log: hello"; "Program outer success"])
      None [])) [].
Definition sim_full_block : RawSolanaBlock := mkRawBlock (mkBase 5 100 "a5" 4 "a4" []) [sim_full_tx].
Definition sim_full_rpc : SolanaRpc unit := {|
  rpc_getGenesisHash _ _ := mret "genesis";
  rpc_getSlot _ _ _ := mret 9;
  rpc_getBlockHeader _ n _ := mret None;
  rpc_getBlock _ n _ := mret (Some sim_full_block)
|}.

Example sim_full_order :
  raw_block_order sim_full_block =
    [RawBlockDatum; RawTransactionDatum sim_full_tx;
     RawInstructionDatum sim_full_tx [0] (mkRawInstruction [0] "x" 1 None);
     RawInstructionDatum sim_full_tx [0; 0] (mkRawInstruction [0] "z" 2 (Some (Some 2)));
     RawInstructionDatum sim_full_tx [1] (mkRawInstruction [0] "y" 2 None);
     RawLogDatum (mkLog "Program log: hello" (Some "outer") 1 LogLog ResolvedNull)].
Proof. reflexivity. Qed.

Lemma raw_block_indexed_witness :
  let indexData (d : HandlerInput) (ds : SubqlDatasource) : M unit unit := mret tt in
  ∃ w2 inputs, Forall2 (carries (raw_base sim_full_block)) (raw_block_order sim_full_block) inputs ∧
    fetch_and_index (RPC:=sim_full_rpc) (EC:=sim_codes) (NC:=sim_core) indexData sim_api 6 [] tt
      = index_list indexData [] inputs w2.
Proof.
  intros indexData.
  destruct (raw_block_indexed (RPC:=sim_full_rpc) (EC:=sim_codes) (NL:=sim_core_laws) indexData sim_api 6
    [] tt sim_full_block tt eq_refl) as [w2 H].
  exists w2. exact H.
Defined.
