(* ===== verification/Codegen.v ===== *)
(** * Code generation

    [packages/common-solana/src/codegen/codegen.ts]: the check that the
    discriminators of a project's handlers are instructions of its IDLs, and the
    generation of interfaces for each IDL.  The file system, the renderer of codama
    and the template engine are parameters. *)
From S2P Require Import Prelude JsNumber JsString Json JsMap Types Filters Idl Decoder DecoderSpec.

Definition CODAMA_PATH : string := "/src/types/program-interfaces".
Definition IDL_PATH : string := "/src/types/handler-inputs".

Definition NO_IDL_FILE : string :=
  "Datasource has a handler with a discriminator but no IDL file reference".
Definition no_instruction (discriminator : string) : string :=
  "Datasource has a handler with a discriminator " +:+ discriminator
    +:+ " but no matching instruction found in IDL".

(** [ds.assets?.get(programId)]; the keys of a map are distinct. *)
Definition asset_file (assets : option (list (string * string))) (programId : string) : option string :=
  snd <$> List.find (fun a => bool_decide (a.1 = programId)) (default [] assets).

(** [!handler.filter] *)
Definition has_filter (h : SubqlHandler) : bool :=
  match handler_filter h with
  | FBlock None | FTransaction None | FInstruction None | FLog None | FCustom _ None => false
  | _ => true
  end.

Section codegen.
  Context {W : Type} `{CD : Codama} (path_join : list string → string)
    (readFile : string → M W string) (json_parse : string → outcome (option Idl)).

(** An IDL that is null has no properties to read. *)
Definition parseIdlFromFile (path : string) : M W RootNode :=
  idlStr ← readFile path;
  idlJSON ← of_outcome (json_parse idlStr);
  match idlJSON with
  | Some idl => of_outcome (parseIdl idl)
  | None => throw (TypeError "Cannot read properties of null")
  end.

(** The body of the loop for an instruction handler: the issues it adds *)
Definition instruction_issues (ds : SubqlDatasource) (projectPath : string) (f : SolanaInstructionFilter)
  : M W (list string) :=
  match truthy_text (if_discriminator f), truthy_text (if_programId f) with
  | Some discriminator, Some programId =>
      match asset_file (ds_assets ds) programId with
      | None => mret [NO_IDL_FILE]
      | Some file =>
          root ← parseIdlFromFile (path_join [projectPath; file]);
          match findInstructionDiscriminatorByName root discriminator with
          | None => mret [no_instruction discriminator]
          | Some _ => mret []
          end
      end
  | _, _ => mret []
  end.

(** [for (const handler of ds.mapping.handlers)]; a handler without a filter breaks
    out of it. *)
Fixpoint handlers_issues (ds : SubqlDatasource) (projectPath : string) (hs : list SubqlHandler)
    (issues : list string) : M W (list string) :=
  match hs with
  | [] => mret issues
  | h :: hs =>
      if has_filter h then
        new ← (match handler_filter h with
               | FInstruction (Some f) => instruction_issues ds projectPath f
               | _ => mret []
               end);
        handlers_issues ds projectPath hs (issues ++ new)
      else mret issues
  end.

Fixpoint datasources_issues (dataSources : list SubqlDatasource) (projectPath : string)
    (issues : list string) : M W (list string) :=
  match dataSources with
  | [] => mret issues
  | ds :: dataSources =>
      issues ← handlers_issues ds projectPath (ds_handlers ds) issues;
      datasources_issues dataSources projectPath issues
  end.

Definition validateDiscriminators (dataSources : list SubqlDatasource) (projectPath : string) : M W unit :=
  issues ← datasources_issues dataSources projectPath [];
  match issues with
  | [] => mret tt
  | _ => throw (AssertionError (join_on newline issues))
  end.

Definition allAssets (dataSources : list SubqlDatasource) : list (string * string) :=
  new_Map (concat (omap ds_assets dataSources)).

(** ** Generation *)

Section generation.
(** [idl.accept(renderVisitor(output, ...))], the files of a directory, and the
    template that is rendered to a path from a name and the instructions. *)
Context (render : string → RootNode → M W unit) (glob : string → M W (list string))
  (writeFile : string → string → M W unit)
  (renderTemplate : string → string → list string → M W unit).

Definition import_of (package : string) : string :=
  join_on newline ["import {"; "  combineCodec,"; "  getEnumDecoder,"; "  getEnumEncoder,";
    "  type FixedSizeCodec,"; "  type FixedSizeDecoder,"; "  type FixedSizeEncoder,";
    "} from '" +:+ package +:+ "';"].

Definition fixTypeImports (output : string) : M W unit :=
  paths ← glob (output +:+ "/types/*.ts");
  for_each paths (fun path =>
    content ← readFile path;
    writeFile path (replace_first (import_of "@solana/kit") (import_of "@solana/codecs") content)).

Definition generate_asset (projectPath name file : string) : M W unit :=
  idl ← parseIdlFromFile (path_join [projectPath; file]);
  let output := path_join [projectPath; CODAMA_PATH; name] in
  render output idl ;;
  fixTypeImports output ;;
  renderTemplate (path_join [projectPath; IDL_PATH; name +:+ ".ts"]) name
    (pascalCase ∘ in_name <$> program_instructions idl).

(** The assets of a datasource are a map or an object, whose entries these are. *)
Definition generateIDLInterfaces (dataSources : list SubqlDatasource) (projectPath : string) : M W unit :=
  validateDiscriminators
    (filter (fun ds => ds_kind ds = SolanaDatasourceKind_Runtime) dataSources) projectPath ;;
  for_each (allAssets dataSources) (fun a => generate_asset projectPath a.1 a.2).

End generation.

(** * Properties *)

(** The handlers that the loop of a datasource reaches. *)
Fixpoint reached (hs : list SubqlHandler) : list SubqlHandler :=
  match hs with
  | [] => []
  | h :: hs => if has_filter h then h :: reached hs else []
  end.

Lemma concat_nil {A} (ls : list (list A)) : concat ls = [] ↔ Forall (fun l => l = []) ls.
Proof.
  induction ls as [|l ls IH]; simpl; [by split|]. rewrite Forall_cons, <- IH.
  destruct l; naive_solver.
Qed.

Section files.
(** What reading and parsing the files of the project gives, which is an IDL or an error
    and does not change meanwhile. *)
Context (projectPath : string) (file_at : string → outcome RootNode).
Context (Hfiles : ∀ file w, parseIdlFromFile (path_join [projectPath; file]) w = (file_at file, w)).
Context (Hends : ∀ file, (∃ root, file_at file = Done root) ∨ ∃ e, file_at file = Throw e).

(** The discriminator and the program that are checked for a handler *)
Definition to_check (h : SubqlHandler) : option (string * string) :=
  match handler_filter h with
  | FInstruction (Some f) =>
      d ← truthy_text (if_discriminator f); p ← truthy_text (if_programId f); Some (d, p)
  | _ => None
  end.

(** What the check is for: the discriminator is the name of an instruction of the
    program's IDL, which the datasource has and which can be read. *)
Definition names_instruction (ds : SubqlDatasource) (h : SubqlHandler) : Prop :=
  ∀ d p, to_check h = Some (d, p) →
    ∃ file root, asset_file (ds_assets ds) p = Some file ∧ file_at file = Done root ∧
      is_Some (findInstructionDiscriminatorByName root d).

(** The issues of a handler as a function of the project *)
Definition issues_of (ds : SubqlDatasource) (h : SubqlHandler) : outcome (list string) :=
  match to_check h with
  | Some (d, p) =>
      match asset_file (ds_assets ds) p with
      | None => Done [NO_IDL_FILE]
      | Some file =>
          root ← file_at file;
          Done (match findInstructionDiscriminatorByName root d with
                | None => [no_instruction d]
                | Some _ => []
                end)
      end
  | None => Done []
  end.

Lemma handler_issues_run ds h w :
  (match handler_filter h with
   | FInstruction (Some f) => instruction_issues ds projectPath f
   | _ => mret []
   end) w = (issues_of ds h, w).
Proof.
  unfold issues_of, to_check, instruction_issues.
  destruct (handler_filter h) as [| |[f|]| |]; try done.
  destruct (truthy_text _) as [d|]; [|done]. destruct (truthy_text _) as [p|]; [|done]. simpl.
  destruct (asset_file _ p) as [file|]; [|done]. unfold mbind, M_bind. rewrite Hfiles.
  destruct (file_at file) as [root| | |]; try done. simpl.
  by destruct (findInstructionDiscriminatorByName root d).
Qed.

(** The handlers that are checked, with their datasources, in order *)
Definition checks (dss : list SubqlDatasource) : list (SubqlDatasource * SubqlHandler) :=
  concat ((fun ds => (ds,.) <$> reached (ds_handlers ds)) <$> dss).

Definition issues_at (c : SubqlDatasource * SubqlHandler) : outcome (list string) := issues_of c.1 c.2.

Lemma handlers_issues_run ds hs issues w :
  handlers_issues ds projectPath hs issues w =
    (new ← traverse issues_at ((ds,.) <$> reached hs); Done (issues ++ concat new), w).
Proof.
  revert issues. induction hs as [|h hs IH]; intros issues; cbn [handlers_issues reached].
  { cbn. by rewrite app_nil_r. }
  destruct (has_filter h) eqn:Ef; [|cbn; by rewrite app_nil_r].
  unfold mbind at 1, M_bind at 1. rewrite handler_issues_run. cbn [fmap list_fmap traverse].
  change (issues_at (ds, h)) with (issues_of ds h).
  destruct (issues_of ds h) as [new| | |]; try done. rewrite IH. cbn [mbind outcome_bind].
  destruct (traverse issues_at _) as [ls| | |]; try done. cbn. by rewrite <- app_assoc.
Qed.

Lemma datasources_issues_run dss issues w :
  datasources_issues dss projectPath issues w =
    (new ← traverse issues_at (checks dss); Done (issues ++ concat new), w).
Proof.
  revert issues. induction dss as [|ds dss IH]; intros issues; cbn [datasources_issues].
  { cbn. by rewrite app_nil_r. }
  unfold checks. cbn [fmap list_fmap concat]. rewrite traverse_app.
  unfold mbind at 1, M_bind at 1. rewrite handlers_issues_run.
  destruct (traverse issues_at ((ds,.) <$> _)) as [ls| | |]; try done. cbn [mbind outcome_bind].
  rewrite IH. unfold checks. destruct (traverse issues_at (concat _)) as [ls'| | |]; try done. cbn.
  by rewrite concat_app, app_assoc.
Qed.

Lemma elem_of_checks dss ds h :
  (ds, h) ∈ checks dss ↔ ds ∈ dss ∧ h ∈ reached (ds_handlers ds).
Proof.
  unfold checks. rewrite list_elem_of_In, in_concat. setoid_rewrite <- list_elem_of_In. split.
  - intros (l & (ds' & -> & Hds)%list_elem_of_fmap & (h' & [= -> ->] & Hh)%list_elem_of_fmap). done.
  - intros [Hds Hh]. exists ((ds,.) <$> reached (ds_handlers ds)).
    split; [by apply (list_elem_of_fmap_2 (fun ds => (ds,.) <$> reached (ds_handlers ds)))|].
    by apply list_elem_of_fmap_2.
Qed.

Lemma issues_of_nil ds h : issues_of ds h = Done [] ↔ names_instruction ds h.
Proof.
  unfold issues_of, names_instruction. destruct (to_check h) as [[d p]|]; [|by split].
  transitivity (∃ file root, asset_file (ds_assets ds) p = Some file ∧ file_at file = Done root ∧
    is_Some (findInstructionDiscriminatorByName root d)); [|by split; [intros H ?? [= <- <-]|eauto]].
  destruct (asset_file _ p) as [file|]; [|split; [done|by intros (? & ? & [=] & _)]].
  destruct (file_at file) as [root|e|x|] eqn:Ef; simpl;
    [|split; [done|intros (? & ? & [= <-] & E & _); congruence]..].
  split.
  - intros H. exists file, root. split_and!; [done|done|].
    by destruct (findInstructionDiscriminatorByName root d).
  - intros (? & ? & [= <-] & E & [b Hb]). rewrite Ef in E. injection E as <-. by rewrite Hb.
Qed.

(** The check of a handler ends with issues, or with the error of its file. *)
Lemma issues_of_ends ds h :
  (∃ l, issues_of ds h = Done l) ∨
  ∃ d p file e, to_check h = Some (d, p) ∧ asset_file (ds_assets ds) p = Some file ∧
    file_at file = Throw e ∧ issues_of ds h = Throw e.
Proof.
  unfold issues_of. destruct (to_check h) as [[d p]|] eqn:Eh; [|by left; eauto].
  destruct (asset_file _ p) as [file|] eqn:Ef; [|by left; eauto].
  destruct (Hends file) as [[root E]|[e E]]; rewrite E; simpl; [left; eauto|right].
  by exists d, p, file, e.
Qed.

Lemma traverse_issues l :
  (∃ ls, traverse issues_at l = Done ls ∧ Forall2 (fun c i => issues_at c = Done i) l ls) ∨
  ∃ ds h d p file e, (ds, h) ∈ l ∧ to_check h = Some (d, p) ∧
    asset_file (ds_assets ds) p = Some file ∧ file_at file = Throw e ∧ traverse issues_at l = Throw e.
Proof.
  induction l as [|[ds h] l IH]; [left; by exists []|]. cbn [traverse].
  destruct (issues_of_ends ds h) as [[i Hi]|(d & p & file & e & H1 & H2 & H3 & H4)].
  - change (issues_at (ds, h)) with (issues_of ds h). rewrite Hi. simpl.
    destruct IH as [(ls & -> & Hls)|(ds' & h' & d & p & file & e & Hin & H1 & H2 & H3 & ->)].
    + left. exists (i :: ls). split; [done|by constructor].
    + right. exists ds', h', d, p, file, e. split_and!; [by right|done..].
  - right. exists ds, h, d, p, file, e. split_and!; [by left|done..|].
    change (issues_at (ds, h)) with (issues_of ds h). by rewrite H4.
Qed.

(** C31: the check passes exactly when every handler that its loops reach, that is
    those of a datasource before the first without a filter, has no discriminator with a
    program to check, or one that is the name of an instruction of its program's IDL,
    which the datasource has and which can be read; a discriminator that is given in hex
    or base58 is a name to it like any other.  Otherwise it fails: with an assertion whose
    message is the list of all issues, or with the error of reading or parsing the IDL
    file of a handler it reaches. *)
Theorem validateDiscriminators_passes dss w :
  (validateDiscriminators dss projectPath w = (Done tt, w) ↔
     ∀ ds h, ds ∈ dss → h ∈ reached (ds_handlers ds) → names_instruction ds h) ∧
  (validateDiscriminators dss projectPath w ≠ (Done tt, w) →
     (∃ issues, Forall2 (fun c i => issues_of c.1 c.2 = Done i) (checks dss) issues ∧
        validateDiscriminators dss projectPath w =
          (Throw (AssertionError (join_on newline (concat issues))), w)) ∨
     ∃ ds h d p file e, ds ∈ dss ∧ h ∈ reached (ds_handlers ds) ∧ to_check h = Some (d, p) ∧
       asset_file (ds_assets ds) p = Some file ∧ file_at file = Throw e ∧
       validateDiscriminators dss projectPath w = (Throw e, w)).
Proof.
  assert (∀ o, traverse issues_at (checks dss) = o → validateDiscriminators dss projectPath w =
    (ls ← o; match concat ls with [] => Done tt | l => Throw (AssertionError (join_on newline l)) end, w))
    as Hrun.
  { intros o <-. unfold validateDiscriminators, mbind at 1, M_bind. rewrite datasources_issues_run.
    destruct (traverse issues_at (checks dss)) as [ls| | |]; [|done..]. cbn. by destruct (concat ls). }
  assert ((∀ ds h, ds ∈ dss → h ∈ reached (ds_handlers ds) → names_instruction ds h) ↔
    Forall (fun c => issues_at c = Done []) (checks dss)) as ->.
  { rewrite Forall_forall. split.
    - intros H [ds h] [Hds Hh]%elem_of_checks. by apply issues_of_nil, H.
    - intros H ds h Hds Hh. apply issues_of_nil, (H (ds, h)). by apply elem_of_checks. }
  destruct (traverse_issues (checks dss)) as [(ls & Hls & Hall)|(ds & h & d & p & file & e & Hin & H)].
  - rewrite (Hrun _ Hls). cbn [mbind outcome_bind]. split.
    + transitivity (concat ls = []); [by destruct (concat ls)|].
      rewrite concat_nil. clear Hls Hrun. induction Hall as [|c i l ls Hc _ IH]; [by split; constructor|].
      rewrite !Forall_cons, IH, Hc. naive_solver.
    + intros Hne. left. exists ls. split; [exact Hall|]. by destruct (concat ls).
  - destruct H as (H1 & H2 & H3 & H4). rewrite (Hrun _ H4). split.
    + split; [done|]. rewrite Forall_forall. intros Hnil. specialize (Hnil (ds, h) Hin).
      change (issues_of ds h = Done []) in Hnil. unfold issues_of in Hnil.
      by rewrite H1, H2, H3 in Hnil.
    + intros _. right. apply elem_of_checks in Hin as [Hds Hh]. by exists ds, h, d, p, file, e.
Qed.
End files.

(** A handler without a filter ends the check of its datasource: whatever
    handlers come after it, with whatever discriminators, the result is the same. *)
Theorem validate_stops_at_unfiltered l1 ds ds' l2 hs1 h hs2 hs2' projectPath w :
  has_filter h = false → ds_handlers ds = hs1 ++ h :: hs2 → ds_handlers ds' = hs1 ++ h :: hs2' →
  ds_assets ds = ds_assets ds' →
  validateDiscriminators (l1 ++ ds :: l2) projectPath w =
  validateDiscriminators (l1 ++ ds' :: l2) projectPath w.
Proof.
  intros Hh H1 H2 Ha.
  assert (∀ issues w, handlers_issues ds projectPath (ds_handlers ds) issues w =
    handlers_issues ds' projectPath (ds_handlers ds') issues w) as Hds.
  { rewrite H1, H2. clear H1 H2 w. induction hs1 as [|h1 hs1 IH]; intros issues w;
      cbn [app handlers_issues]; [by rewrite Hh|].
    destruct (has_filter h1); [|done].
    assert (instruction_issues ds projectPath = instruction_issues ds' projectPath) as ->
      by (unfold instruction_issues; by rewrite Ha).
    apply bind_ext; [done|]. intros new w1. apply IH. }
  unfold validateDiscriminators. apply bind_ext; [|done]. generalize (@nil string) as issues.
  revert w. induction l1 as [|d l1 IH]; intros w issues; cbn [app datasources_issues].
  - by apply bind_ext.
  - apply bind_ext; [done|]. intros issues' w1. apply IH.
Qed.

(** ** Assets *)

(** Interfaces are generated once for each program that a datasource has an IDL
    for, also when several have one; the file is then that of the last datasource. *)
Theorem allAssets_spec dataSources :
  NoDup (allAssets dataSources).*1 ∧
  ∀ name file, (name, file) ∈ allAssets dataSources ↔
    last_entry (concat (omap ds_assets dataSources)) name = Some file.
Proof. apply new_Map_spec. Qed.

End codegen.

(** ** Instances *)
Definition sim_join (l : list string) : string := join_on (Ascii.ascii_of_nat 47) l.
Definition sim_readFile (path : string) : M unit string := mret path.
Definition sim_json_parse (text : string) : outcome (option Idl) := Done (Some sim_idl).
Definition sim_swap_handler (discriminator : string) : SubqlHandler :=
  mkHandler "onSwap"
    (FInstruction (Some (mkInstructionFilter (Some "prog") (Some discriminator) None None))).
Definition sim_idl_ds (hs : list SubqlHandler) : SubqlDatasource :=
  mkDatasource "solana/Runtime" "./dist/index.js" hs (Some [("prog", "prog.json")]) None.

Lemma sim_files file w :
  parseIdlFromFile (CD:=dec_codama) sim_readFile sim_json_parse (sim_join ["p"; file]) w =
    (Done sim_root, w).
Proof. done. Qed.

Lemma validateDiscriminators_passes_witness :
  (∃ w, validateDiscriminators (CD:=dec_codama) sim_join sim_readFile sim_json_parse
     [sim_idl_ds [sim_swap_handler "swap"]] "p" tt = (Done tt, w)) ∧
  ¬ validateDiscriminators (CD:=dec_codama) sim_join sim_readFile sim_json_parse
     [sim_idl_ds [sim_swap_handler "0x07"]] "p" tt = (Done tt, tt).
Proof.
  split; [by eexists|]. intros H.
  refine (_ (proj1 (proj1 (validateDiscriminators_passes (CD:=dec_codama) sim_join sim_readFile
    sim_json_parse "p" (fun _ => Done sim_root) sim_files (fun _ => or_introl (ex_intro _ _ eq_refl))
    [sim_idl_ds [sim_swap_handler "0x07"]] tt)) H)).
  intros Hnames. destruct (Hnames _ (sim_swap_handler "0x07") ltac:(by left) ltac:(by left)
    "0x07" "prog" eq_refl) as (file & root & _ & [= <-] & [b Hb]). by vm_compute in Hb.
Defined.

Lemma validate_stops_at_unfiltered_witness :
  validateDiscriminators (CD:=dec_codama) sim_join sim_readFile sim_json_parse
    [sim_idl_ds [mkHandler "onTx" (FTransaction None); sim_swap_handler "swop"]] "p" tt =
  validateDiscriminators (CD:=dec_codama) sim_join sim_readFile sim_json_parse
    [sim_idl_ds [mkHandler "onTx" (FTransaction None)]] "p" tt.
Proof.
  apply (validate_stops_at_unfiltered (CD:=dec_codama) sim_join sim_readFile sim_json_parse
    [] _ _ [] [] (mkHandler "onTx" (FTransaction None)) [sim_swap_handler "swop"] []); reflexivity.
Defined.
