(* ===== verification/Manifest.v ===== *)
(** * The project manifest

    [packages/common-solana/src/project]: the classes of [models.ts] and
    [versioned/v1_0_0/model.ts] as data (the rules that decorate each property), the
    transformations they define, [ProjectManifestVersioned.ts] and [load.ts]; and
    [node/src/configure/SubqueryProject.ts].  The libraries class-validator and
    class-transformer, which read the decorators, and the base classes of
    [@subql/common] are parameters. *)
From S2P Require Import Prelude JsNumber JsString Json JsMap Types Datasources.
From Stdlib Require Import Ascii.

(** ** Classes and values *)
Inductive ClassName :=
| BlockFilter | TransactionFilter | InstructionFilter | LogFilter
| BlockHandler | TransactionHandler | InstructionHandler | LogHandler | CustomHandler
| SolanaMapping | CustomMapping | FileReferenceImpl
| RuntimeDataSourceBase | CustomDataSourceBase
| SolanaRuntimeDataSourceImpl | SolanaCustomDataSourceImpl
| RuntimeDatasourceTemplateImpl | CustomDatasourceTemplateImpl
| SolanaRunnerNodeImpl | SolanaRunnerSpecsImpl
| ProjectNetworkDeploymentV1_0_0 | SolanaEndpointConfig | ProjectNetworkV1_0_0
| DeploymentV1_0_0 | ProjectManifestV1_0_0Impl
(** a class of [@subql/common] *)
| External (name : string).
#[global] Instance ClassName_eq_dec : EqDecision ClassName.
Proof. solve_decision. Defined.

(** A value: an object is plain or an instance of a class. *)
Inductive value :=
| VNull
| VBool (b : bool)
| VNumber (z : Z)
| VString (s : string)
| VArray (l : list value)
| VObject (class : option ClassName) (l : list (string * value))
| VMap (l : list (string * value)).

(** Induction through arrays *)
Definition value_rec_deep (P : value → Prop)
    (Hnull : P VNull) (Hbool : ∀ b, P (VBool b)) (Hnum : ∀ z, P (VNumber z)) (Hstr : ∀ s, P (VString s))
    (Harr : ∀ l, Forall P l → P (VArray l))
    (Hobj : ∀ c l, P (VObject c l)) (Hmap : ∀ l, P (VMap l)) : ∀ v, P v :=
  fix go v := match v with
  | VNull => Hnull
  | VBool b => Hbool b
  | VNumber z => Hnum z
  | VString s => Hstr s
  | VArray l => Harr l ((fix go_list (l : list value) : Forall P l :=
      match l with [] => Forall_nil_2 _ | x :: l => Forall_cons_2 _ x l (go x) (go_list l) end) l)
  | VObject c l => Hobj c l
  | VMap l => Hmap l
  end.

(** [o.k] of an object, [undefined] being [None] *)
Definition get_prop (v : value) (k : string) : option value :=
  match v with VObject _ l => map_get l k | _ => None end.

(** ** Rules *)
Inductive Rule :=
| IsOptional
| IsDefined (message : string)
| ValidateIf (condition : list (string * value) → bool)
| IsString | IsBoolean | IsArray | IsObject | IsNotEmpty | IsPositive
| Equals (s : string)
| IsIn (values : list string) (message : string)
(** the values of an enum, and the groups of the rule *)
| IsEnum (values groups : list string)
| IsNetworkEndpoint (c : ClassName)
| ValidateNested (each : bool).

(** [@Type(() => c)], with a [discriminator] a table from kinds to classes, for a
    property declared as a map the class of its entries *)
Inductive TypeRule :=
| TypeClass (c : ClassName)
| TypeByKind (default : ClassName) (subTypes : list (string * ClassName))
| TypeMap (c : ClassName).

(** The functions given to [@Transform] *)
Inductive TransformRule := MapHandlers | TrimChainId | NetworkDeployment.

Record Property := mkProperty {
  pr_name : string;
  pr_rules : list Rule;
  pr_type : option TypeRule;
  pr_transform : option TransformRule
}.
Definition prop (name : string) (rules : list Rule) : Property := mkProperty name rules None None.
Definition typed_prop (name : string) (t : TypeRule) (rules : list Rule) : Property :=
  mkProperty name rules (Some t) None.

Definition handler_kind_values : list string :=
  handler_kind_string <$> [KBlock; KTransaction; KInstruction; KLog].

Definition PROGRAM_ID_REQUIRED : string := "programId is required if discriminator is set".

(** ** [models.ts] *)
Definition handler_class (filter : list Property) (kind : SolanaHandlerKind) : list Property :=
  filter ++ [prop "kind" [IsEnum handler_kind_values [handler_kind_string kind]];
             prop "handler" [IsString]].

Definition datasource_properties (c : ClassName) : list Property :=
  match c with
  | RuntimeDataSourceBase =>
      [prop "kind" [IsEnum [SolanaDatasourceKind_Runtime] [SolanaDatasourceKind_Runtime]];
       typed_prop "mapping" (TypeClass SolanaMapping) [ValidateNested false];
       typed_prop "assets" (TypeMap FileReferenceImpl) [ValidateNested true; IsOptional]]
  | FileReferenceImpl => [prop "file" [IsString]]
  | CustomDataSourceBase =>
      [prop "kind" [IsString];
       typed_prop "mapping" (TypeClass CustomMapping) [ValidateNested false];
       typed_prop "assets" (TypeMap FileReferenceImpl) [ValidateNested true];
       typed_prop "processor" (TypeClass FileReferenceImpl) [IsObject]]
  | _ => []
  end.

Definition model_properties (c : ClassName) : list Property :=
  match c with
  | TransactionFilter => [prop "signerAccountKey" [IsOptional; IsString]]
  | InstructionFilter =>
      [prop "programId"
         [ValidateIf (fun o => bool_decide (is_Some (map_get o "discriminator")));
          IsDefined PROGRAM_ID_REQUIRED; IsString];
       prop "discriminator" [IsOptional; IsString];
       prop "accounts" [IsOptional; IsArray];
       prop "includeFalied" [IsOptional; IsBoolean]]
  | LogFilter => [prop "programId" [IsOptional; IsString]]
  | BlockHandler =>
      handler_class [typed_prop "filter" (TypeClass BlockFilter) [IsObject; IsOptional]] KBlock
  | TransactionHandler =>
      handler_class [typed_prop "filter" (TypeClass TransactionFilter)
                       [IsOptional; ValidateNested false]] KTransaction
  | InstructionHandler =>
      handler_class [typed_prop "filter" (TypeClass InstructionFilter)
                       [IsOptional; ValidateNested false]] KInstruction
  | LogHandler =>
      handler_class [typed_prop "filter" (TypeClass LogFilter)
                       [IsOptional; ValidateNested false]] KLog
  | CustomHandler =>
      [prop "kind" [IsString]; prop "handler" [IsString]; prop "filter" [IsObject; IsOptional]]
  | SolanaMapping =>
      [mkProperty "handlers" [IsArray; ValidateNested false] None (Some MapHandlers);
       prop "file" [IsString]]
  | CustomMapping =>
      [typed_prop "handlers" (TypeClass CustomHandler) [IsArray; ValidateNested false];
       prop "file" [IsString]]
  | _ => datasource_properties c
  end.

(** ** [versioned/v1_0_0/model.ts] *)
Definition SOLANA_NODE_NAME : string := "@subql/node-solana".
Definition NODE_NAME_MESSAGE : string :=
  "Runner Solana node name is incorrect, supposed to be '" +:+ SOLANA_NODE_NAME +:+ "'".

Definition datasource_kinds : TypeRule :=
  TypeByKind SolanaCustomDataSourceImpl [("solana/Runtime", SolanaRuntimeDataSourceImpl)].
Definition template_kinds : TypeRule :=
  TypeByKind CustomDatasourceTemplateImpl [("solana/Runtime", RuntimeDatasourceTemplateImpl)].

Definition v1_properties (c : ClassName) : list Property :=
  match c with
  | SolanaRunnerNodeImpl => [prop "name" [IsIn [SOLANA_NODE_NAME] NODE_NAME_MESSAGE]]
  | RuntimeDatasourceTemplateImpl | CustomDatasourceTemplateImpl => [prop "name" [IsString]]
  | SolanaRunnerSpecsImpl =>
      [typed_prop "node" (TypeClass SolanaRunnerNodeImpl) [IsObject; ValidateNested false];
       typed_prop "query" (TypeClass (External "RunnerQueryBaseModel")) [IsObject; ValidateNested false]]
  | ProjectNetworkDeploymentV1_0_0 =>
      [mkProperty "chainId" [IsNotEmpty; IsString] None (Some TrimChainId);
       prop "bypassBlocks" [IsOptional; IsArray]]
  | SolanaEndpointConfig => [prop "batchSize" [IsOptional; IsPositive]]
  | ProjectNetworkV1_0_0 => [prop "endpoint" [IsOptional; IsNetworkEndpoint SolanaEndpointConfig]]
  | DeploymentV1_0_0 =>
      [mkProperty "network" [ValidateNested false] (Some (TypeClass ProjectNetworkDeploymentV1_0_0))
         (Some NetworkDeployment);
       typed_prop "runner" (TypeClass SolanaRunnerSpecsImpl) [IsObject; ValidateNested false];
       typed_prop "dataSources" datasource_kinds [IsArray; ValidateNested false];
       typed_prop "templates" template_kinds [IsOptional; IsArray; ValidateNested false]]
  | ProjectManifestV1_0_0Impl =>
      [prop "specVersion" [Equals "1.0.0"];
       typed_prop "dataSources" datasource_kinds [];
       typed_prop "network" (TypeClass ProjectNetworkV1_0_0) [];
       prop "name" [IsString]; prop "version" [IsString];
       typed_prop "schema" (TypeClass (External "FileType")) [ValidateNested false];
       typed_prop "templates" template_kinds [IsOptional; IsArray; ValidateNested false];
       typed_prop "runner" (TypeClass SolanaRunnerSpecsImpl) [IsObject; ValidateNested false];
       typed_prop "parent" (TypeClass (External "ParentProjectModel")) [IsOptional; IsObject]]
  | _ => []
  end.

(** [extends] *)
Definition parent_class (c : ClassName) : option ClassName :=
  match c with
  | BlockFilter => Some (External "BlockFilterImpl")
  | RuntimeDataSourceBase | CustomDataSourceBase => Some (External "BaseDataSource")
  | SolanaRuntimeDataSourceImpl => Some RuntimeDataSourceBase
  | SolanaCustomDataSourceImpl => Some CustomDataSourceBase
  | RuntimeDatasourceTemplateImpl => Some SolanaRuntimeDataSourceImpl
  | CustomDatasourceTemplateImpl => Some SolanaCustomDataSourceImpl
  | SolanaRunnerNodeImpl => Some (External "RunnerNodeImpl")
  | SolanaEndpointConfig => Some (External "CommonEndpointConfig")
  | ProjectNetworkV1_0_0 => Some (External "CommonProjectNetworkV1_0_0")
  | DeploymentV1_0_0 => Some (External "BaseDeploymentV1_0_0")
  | ProjectManifestV1_0_0Impl => Some (External "ProjectManifestBaseImpl")
  | _ => None
  end.

(** The initial values of properties *)
Definition initial (c : ClassName) : list (string * value) :=
  match c with
  | SolanaRunnerNodeImpl => [("name", VString SOLANA_NODE_NAME)]
  | ProjectNetworkV1_0_0 => [("endpoint", VObject None [])]
  | ProjectManifestV1_0_0Impl => [("specVersion", VString "1.0.0")]
  | _ => []
  end.

(** ** JavaScript on values *)
Definition truthy_value (v : option value) : bool :=
  match v with
  | None | Some VNull => false
  | Some (VBool b) => b
  | Some (VNumber z) => negb (z =? 0)
  | Some (VString s) => truthy_string s
  | Some _ => true
  end.

(** [String(v)]; null and undefined are empty in the text of an array. *)
Fixpoint js_String (v : value) : string :=
  match v with
  | VNull => "null"
  | VBool b => show_bool b
  | VNumber z => pretty z
  | VString s => s
  | VArray l => join_on ","%char (map (fun v => match v with VNull => "" | _ => js_String v end) l)
  | VObject _ _ => "[object Object]"
  | VMap _ => "[object Map]"
  end.
Definition show_value (v : option value) : string :=
  match v with None => "undefined" | Some v => js_String v end.

(** ** The libraries *)

(** class-transformer's [plainToClass] (also called [plainToInstance]), and
    class-validator's [validateSync] with its two options, which gives the texts of
    the errors; the properties of the base classes of [@subql/common], their initial
    values, and what its rule for endpoints accepts. *)
Class Decorators := {
  external_properties : string → list Property;
  external_initial : string → list (string * value);
  plainToClass : ClassName → value → outcome value;
  validateSync : bool → bool → value → list string;
  network_endpoint_ok : ClassName → value → bool
}.

Section manifest.
Context `{DE : Decorators}.

Definition own_properties (c : ClassName) : list Property :=
  match c with External name => external_properties name | _ => model_properties c ++ v1_properties c end.
Definition own_initial (c : ClassName) : list (string * value) :=
  match c with External name => external_initial name | _ => initial c end.

(** A class and its ancestors; the longest chain of [parent_class] has four classes. *)
Fixpoint ancestry (n : nat) (c : ClassName) : list ClassName :=
  c :: match n, parent_class c with S n, Some p => ancestry n p | _, _ => [] end.

Definition properties (c : ClassName) : list Property := concat (own_properties <$> ancestry 3 c).
Definition initial_values (c : ClassName) : list (string * value) :=
  concat (own_initial <$> reverse (ancestry 3 c)).

Definition named (k : string) (l : list Property) : list Property :=
  filter (fun p => pr_name p = k) l.
Definition type_of (c : ClassName) (k : string) : option TypeRule :=
  head (omap pr_type (named k (properties c))).
Definition transform_of (c : ClassName) (k : string) : option TransformRule :=
  head (omap pr_transform (named k (properties c))).

(** *** Conversion of a property's value *)

(** An object, or each object of an array *)
Fixpoint each (f : value → outcome value) (v : value) : outcome value :=
  match v with
  | VObject _ _ => f v
  | VArray l => vs ← traverse (each f) l; Done (VArray vs)
  | _ => Done v
  end.

Definition kind_class (default : ClassName) (subTypes : list (string * ClassName)) (o : value) : ClassName :=
  match get_prop o "kind" with
  | Some (VString k) => match map_get subTypes k with Some c => c | None => default end
  | _ => default
  end.

Definition on_entries (f : value → outcome value) (l : list (string * value))
  : outcome (list (string * value)) :=
  traverse (fun kv => v ← f kv.2; Done (kv.1, v)) l.

Definition by_type (t : option TypeRule) (v : value) : outcome value :=
  match t with
  | None => Done v
  | Some (TypeClass c) => each (plainToClass c) v
  | Some (TypeByKind default subTypes) => each (fun o => plainToClass (kind_class default subTypes o) o) v
  | Some (TypeMap c) =>
      match v with
      | VObject _ l => entries ← on_entries (each (plainToClass c)) l; Done (VMap entries)
      | _ => Done v
      end
  end.

(** [SolanaMapping.handlers]: each handler becomes an instance of the class of its kind. *)
Definition kind_handler_class (kind : option value) : outcome ClassName :=
  match kind with
  | Some (VString k) =>
      if decide (k = handler_kind_string KLog) then Done LogHandler
      else if decide (k = handler_kind_string KInstruction) then Done InstructionHandler
      else if decide (k = handler_kind_string KTransaction) then Done TransactionHandler
      else if decide (k = handler_kind_string KBlock) then Done BlockHandler
      else Throw (JsError ("handler " +:+ k +:+ " not supported") None)
  | _ => Throw (JsError ("handler " +:+ show_value kind +:+ " not supported") None)
  end.

Definition handler_instance (handler : value) : outcome value :=
  match handler with
  | VNull => Throw (TypeError "Cannot read properties of null (reading 'kind')")
  | _ => c ← kind_handler_class (get_prop handler "kind"); plainToClass c handler
  end.

Definition map_handlers (v : value) : outcome value :=
  match v with
  | VArray handlers => hs ← traverse handler_instance handlers; Done (VArray hs)
  | VNull => Throw (TypeError "Cannot read properties of null (reading 'map')")
  | _ => Throw (TypeError "handlers.map is not a function")
  end.

Definition trim_chainId (v : value) : outcome value :=
  match v with
  | VString s => Done (VString (trim s))
  | VNull => Throw (TypeError "Cannot read properties of null (reading 'trim')")
  | _ => Throw (TypeError "value.trim is not a function")
  end.

(** [DeploymentV1_0_0.network]: the genesis hash is the chain's id if none is set. *)
Definition chainId_of_genesis (l : list (string * value)) : list (string * value) :=
  match map_get l "genesisHash" with
  | Some g => if truthy_value (Some g) && negb (truthy_value (map_get l "chainId"))
              then map_set l "chainId" g else l
  | None => l
  end.

Definition network_deployment (v : value) : outcome value :=
  match v with
  | VNull => Throw (TypeError "Cannot read properties of null (reading 'genesisHash')")
  | VObject c l => plainToClass ProjectNetworkDeploymentV1_0_0 (VObject c (chainId_of_genesis l))
  | _ => each (plainToClass ProjectNetworkDeploymentV1_0_0) v
  end.

Definition run_transform (t : option TransformRule) (v : value) : outcome value :=
  match t with
  | None => Done v
  | Some MapHandlers => map_handlers v
  | Some TrimChainId => trim_chainId v
  | Some NetworkDeployment => network_deployment v
  end.

(** ** Validation of a datasource *)
Definition validateObject (object : value) (errorMessage : string) : outcome unit :=
  match validateSync true true object with
  | [] => Done tt
  | errors => Throw (JsError (errorMessage +:+ String newline (join_on newline errors)) None)
  end.

Definition runtime_ds_validate (ds : value) : outcome unit :=
  validateObject ds "failed to validate runtime datasource.".
Definition custom_ds_validate (ds : value) : outcome unit :=
  validateObject ds "failed to validate custom datasource.".

(** ** Versions of the manifest *)
Definition SOLANA_SUPPORTED_VERSIONS : list (string * ClassName) := [("1.0.0", ProjectManifestV1_0_0Impl)].

(** What an object literal inherits *)
Definition Object_prototype : list string :=
  ["constructor"; "toString"; "toLocaleString"; "valueOf"; "hasOwnProperty"; "isPrototypeOf";
   "propertyIsEnumerable"; "__proto__"; "__defineGetter__"; "__defineSetter__";
   "__lookupGetter__"; "__lookupSetter__"].

Definition VERSION_NOT_SUPPORTED : string := "specVersion not supported for project manifest file".

(** The constructor of [SolanaProjectManifestVersioned], which gives its [_impl].  A
    version that names an inherited member finds that: [Object] makes a plain copy,
    the others cannot be constructed. *)
Definition manifest_versioned (projectManifest : value) : outcome value :=
  match projectManifest with
  | VNull => Throw (TypeError "Cannot read properties of null (reading 'specVersion')")
  | _ =>
      let version := show_value (get_prop projectManifest "specVersion") in
      match map_get SOLANA_SUPPORTED_VERSIONS version with
      | Some klass => plainToClass klass projectManifest
      | None =>
          if decide (version = "constructor") then Done projectManifest
          else if decide (version ∈ Object_prototype) then Throw (TypeError "not a constructor")
          else Throw (JsError VERSION_NOT_SUPPORTED None)
      end
  end.

Section versioned.
(** [validate] and [deployment.toYaml] of the base class in [@subql/common] *)
Context (base_validate : value → outcome unit) (deployment_toYaml : value → outcome string).

(** A plain copy has none of the methods of a manifest. *)
Definition impl_method {A} (impl : value) (missing : string) (f : value → outcome A) : outcome A :=
  match impl with
  | VObject (Some _) _ => f impl
  | _ => Throw (TypeError missing)
  end.
Definition versioned_validate (impl : value) : outcome unit :=
  impl_method impl "this._impl.validate is not a function" base_validate.
Definition toDeployment (impl : value) : outcome string :=
  impl_method impl "this._impl.deployment.toYaml is not a function" deployment_toYaml.

Definition manifestIsV1_0_0 (manifest : value) : bool :=
  match get_prop manifest "specVersion" with Some (VString s) => bool_decide (s = "1.0.0") | _ => false end.
Definition isV1_0_0 (impl : value) : bool := manifestIsV1_0_0 impl.
Definition asV1_0_0 (impl : value) : value := impl.
Definition manifest_dataSources (impl : value) : option value := get_prop impl "dataSources".
Definition manifest_schema (impl : value) : outcome (option value) :=
  match get_prop impl "schema" with
  | None | Some VNull => Throw (TypeError "Cannot read properties of undefined (reading 'file')")
  | Some schema => Done (get_prop schema "file")
  end.
Definition manifest_specVersion (impl : value) : option value := get_prop impl "specVersion".
Definition manifest_description (impl : value) : option value := get_prop impl "description".
Definition manifest_repository (impl : value) : option value := get_prop impl "repository".

(** [load.ts] *)
Definition parseSolanaProjectManifest (raw : value) : outcome value :=
  projectManifest ← manifest_versioned raw;
  versioned_validate projectManifest;;
  Done projectManifest.

(** [SubqueryProject.ts]: what the node core is given to create the project *)
Record CreateOptions (R : Type) := mkCreateOptions {
  parseManifest : value → outcome value;
  co_path : string;
  rawManifest : value;
  reader : R;
  co_root : string;
  nodeSemver : string;
  blockHandlerKind : string;
  networkOverrides : option (list (string * value));
  co_isRuntimeDs : DsObject → bool;
  co_isCustomDs : DsObject → bool
}.
Arguments mkCreateOptions {R} _ _ _ _ _ _ _ _ _ _.

Definition createSubQueryProject {W R P} (create : CreateOptions R → M W P) (packageVersion path : string)
    (rawManifest : value) (reader : R) (root : string) (networkOverrides : option (list (string * value)))
  : M W P :=
  create (mkCreateOptions
    (fun raw => m ← parseSolanaProjectManifest raw; Done (asV1_0_0 m))
    path rawManifest reader root packageVersion (handler_kind_string KBlock) networkOverrides
    isRuntimeDs isCustomDs).
End versioned.
End manifest.
