(* ===== verification/ManifestLaws.v ===== *)
(** * The libraries that read the decorators

    The documented behaviour of class-transformer and class-validator, as laws of
    the interface of [Manifest.v], and an instance that meets them. *)
From S2P Require Import Prelude JsNumber JsString Json JsMap Types Manifest.

Section laws.
Context `{DE : Decorators}.

(** ** class-transformer

    Each property of the source is converted to its declared type and then given to
    its transform; the result has the initial values of the class below them. *)
Definition convert_property (c : ClassName) (kv : string * value) : outcome (string * value) :=
  v ← by_type (type_of c kv.1) kv.2;
  v ← run_transform (transform_of c kv.1) v;
  Done (kv.1, v).

Definition instance_of (c : ClassName) (l : list (string * value)) : outcome value :=
  fields ← traverse (convert_property c) l;
  Done (VObject (Some c) (spread (Some (initial_values c)) (Some fields))).

(** ** class-validator *)
Definition rules (c : ClassName) (k : string) : list Rule := concat (pr_rules <$> named k (properties c)).

Definition is_null (v : option value) : bool := match v with None | Some VNull => true | _ => false end.

(** The rules of a property are skipped when one of the conditions fails. *)
Definition applies (l : list (string * value)) (v : option value) (rs : list Rule) : bool :=
  forallb (fun r => match r with
                    | IsOptional => negb (is_null v)
                    | ValidateIf condition => condition l
                    | _ => true
                    end) rs.

(** One rule on a value.  No groups are asked for, so a rule with groups applies. *)
Definition rule_ok (v : option value) (r : Rule) : bool :=
  match r, v with
  | (IsOptional | ValidateIf _), _ => true
  | IsDefined _, _ => negb (is_null v)
  | IsString, Some (VString _) => true
  | IsBoolean, Some (VBool _) => true
  | IsArray, Some (VArray _) => true
  | IsObject, Some (VObject _ _ | VMap _) => true
  | IsNotEmpty, Some (VString s) => truthy_string s
  | IsNotEmpty, _ => negb (is_null v)
  | IsPositive, Some (VNumber z) => 0 <? z
  | Equals s, Some (VString s') => bool_decide (s' = s)
  | (IsIn values _ | IsEnum values _), Some (VString s) => bool_decide (s ∈ values)
  | IsNetworkEndpoint c, Some v => network_endpoint_ok c v
  | ValidateNested _, _ => true
  | _, _ => false
  end.

Definition nested_rule (rs : list Rule) : bool :=
  existsb (fun r => match r with ValidateNested _ => true | _ => false end) rs.

(** A property of an instance, [check] being the validation of nested values *)
Definition property_ok (check : value → bool) (c : ClassName) (l : list (string * value))
    (k : string) (v : option value) : bool :=
  let rs := rules c k in
  negb (applies l v rs) ||
    forallb (rule_ok v) rs && match v with Some v => negb (nested_rule rs) || check v | None => true end.

(** A nested value: absent values pass, primitive ones and plain objects do not; an
    instance has no property without a rule, and its properties pass their rules, the
    declared ones also when they are absent. *)
Fixpoint valid (v : value) : bool :=
  match v with
  | VNull => true
  | VArray l => forallb valid l
  | VMap l => forallb (fun kv => valid kv.2) l
  | VObject (Some c) l =>
      forallb (fun kv => negb (bool_decide (length (rules c kv.1) = 0%nat))
                         && property_ok valid c l kv.1 (Some kv.2)) l
      && forallb (fun p => bool_decide (is_Some (map_get l (pr_name p)))
                           || property_ok valid c l (pr_name p) None) (properties c)
  | _ => false
  end.
End laws.

Class DecoratorLaws `{Decorators} := {
  plainToClass_object : ∀ c cl l, plainToClass c (VObject cl l) = instance_of c l;
  validateSync_object : ∀ c l,
    validateSync true true (VObject (Some c) l) = [] ↔ valid (VObject (Some c) l) = true;
  (** [BaseDataSource] declares none of the properties of a datasource's contents. *)
  base_datasource : Forall (fun p => pr_name p ∉ ["kind"; "mapping"; "assets"])
    (external_properties "BaseDataSource");
  base_datasource_initial : external_initial "BaseDataSource" = []
}.

(** ** An instance

    The base classes declare nothing here.  Conversion recurs from a class to the
    classes of its properties, which have a lower rank, so a rank of levels is
    enough fuel. *)
Definition sim_base (P : ClassName → value → outcome value) (V : value → list string) : Decorators := {|
  external_properties := fun _ => [];
  external_initial := fun _ => [];
  plainToClass := P;
  validateSync := fun _ _ => V;
  network_endpoint_ok := fun _ _ => true
|}.

Definition sim_conversion (P : ClassName → value → outcome value) : Decorators := sim_base P (fun _ => []).

Fixpoint sim_plain (n : nat) (c : ClassName) (v : value) : outcome value :=
  match n, v with
  | S n, VObject _ l => instance_of (DE:=sim_conversion (sim_plain n)) c l
  | _, _ => Done v
  end.

Definition sim_validate (v : value) : list string :=
  if valid (DE:=sim_conversion (fun _ => Done)) v then [] else ["an error"].

Definition sim_decorators : Decorators := sim_base (sim_plain 6) sim_validate.

Definition rank (c : ClassName) : nat :=
  match c with
  | BlockHandler | TransactionHandler | InstructionHandler | LogHandler | CustomMapping
  | SolanaRunnerSpecsImpl => 1
  | SolanaMapping => 2
  | RuntimeDataSourceBase | CustomDataSourceBase | SolanaRuntimeDataSourceImpl
  | SolanaCustomDataSourceImpl | RuntimeDatasourceTemplateImpl | CustomDatasourceTemplateImpl => 3
  | DeploymentV1_0_0 | ProjectManifestV1_0_0Impl => 4
  | _ => 0
  end%nat.

Definition type_classes (t : TypeRule) : list ClassName :=
  match t with
  | TypeClass c | TypeMap c => [c]
  | TypeByKind d subTypes => d :: subTypes.*2
  end.
Definition transform_classes (t : TransformRule) : list ClassName :=
  match t with
  | MapHandlers => [BlockHandler; TransactionHandler; InstructionHandler; LogHandler]
  | TrimChainId => []
  | NetworkDeployment => [ProjectNetworkDeploymentV1_0_0]
  end.
(** The classes that converting an instance of [c] asks for *)
Definition used_classes (p : Property) : list ClassName :=
  default [] (type_classes <$> pr_type p) ++ default [] (transform_classes <$> pr_transform p).

Lemma rank_decreases P V c :
  Forall (fun p => Forall (fun c' => (rank c' < rank c)%nat) (used_classes p))
    (properties (DE:=sim_base P V) c).
Proof. destruct c; repeat constructor. Qed.

Section congruence.
Context (P Q : ClassName → value → outcome value) (V : value → list string).

Lemma traverse_ext {A B} (f g : A → outcome B) l :
  Forall (fun x => f x = g x) l → traverse f l = traverse g l.
Proof. induction 1 as [|x l Hx _ IH]; simpl; [done|]. by rewrite Hx, IH. Qed.

Lemma each_ext f g v : (∀ v, f v = g v) → each f v = each g v.
Proof.
  intros H. induction v as [| | | |l IH| |] using value_rec_deep; simpl; try done.
  by rewrite (traverse_ext _ _ _ IH).
Qed.

Local Abbreviation DP := (sim_base P V).
Local Abbreviation DQ := (sim_base Q V).

Definition agree (cs : list ClassName) : Prop := Forall (fun c => ∀ v, P c v = Q c v) cs.

Lemma kind_class_used d subTypes o : kind_class d subTypes o ∈ d :: subTypes.*2.
Proof.
  unfold kind_class. destruct (get_prop o "kind") as [[| | |k| | |]|]; try by left.
  destruct (map_get subTypes k) as [c|] eqn:E; [|by left]. right.
  apply list_elem_of_fmap. exists (k, c). split; [done|by apply map_get_elem].
Qed.

Lemma by_type_ext t v :
  agree (default [] (type_classes <$> t)) → by_type (DE:=DP) t v = by_type (DE:=DQ) t v.
Proof.
  unfold agree. rewrite Forall_forall. destruct t as [[c|d subs|c]|]; simpl; intros H; [| | |done].
  - apply each_ext, H. by left.
  - apply each_ext. intros o. apply H, kind_class_used.
  - destruct v as [| | | | |cl l|]; try done. unfold on_entries.
    rewrite (traverse_ext _ (fun kv => v ← each (plainToClass (Decorators:=DQ) c) kv.2; Done (kv.1, v)));
      [done|].
    apply Forall_forall. intros kv _. rewrite (each_ext _ (Q c)); [done|]. apply H. by left.
Qed.

Lemma run_transform_ext t v :
  agree (default [] (transform_classes <$> t)) →
  run_transform (DE:=DP) t v = run_transform (DE:=DQ) t v.
Proof.
  unfold agree. rewrite Forall_forall. destruct t as [[| |]|]; simpl; intros H; [|done| |done].
  - destruct v as [| | | |l| |]; try done. simpl.
    rewrite (traverse_ext _ (handler_instance (DE:=DQ))); [done|].
    apply Forall_forall. intros h _. unfold handler_instance. destruct h; try done.
    all: destruct (kind_handler_class _) as [c| | |] eqn:E; try done; simpl; apply H.
    all: unfold kind_handler_class in E; repeat case_match; simplify_eq; set_solver.
  - destruct v as [| | | |l| |]; try done; simpl; [|apply H; by left].
    rewrite (traverse_ext _ (each (Q ProjectNetworkDeploymentV1_0_0))); [done|].
    apply Forall_forall. intros x _. apply each_ext. intros w. apply H. by left.
Qed.

Lemma head_omap_elem {A B} (f : A → option B) l x : head (omap f l) = Some x → ∃ a, a ∈ l ∧ f a = Some x.
Proof.
  induction l as [|a l IH]; simpl; [done|]. destruct (f a) as [b|] eqn:E.
  - intros [= ->]. exists a. split; [by left|done].
  - intros (a' & Ha & Hf)%IH. exists a'. split; [by right|done].
Qed.

Lemma instance_of_ext c l :
  (∀ c' v, (rank c' < rank c)%nat → P c' v = Q c' v) →
  instance_of (DE:=DP) c l = instance_of (DE:=DQ) c l.
Proof.
  intros H. unfold instance_of. rewrite (traverse_ext _ (convert_property (DE:=DQ) c)); [done|].
  apply Forall_forall. intros [k v] _. unfold convert_property. simpl.
  pose proof (rank_decreases P V c) as Hr. rewrite Forall_forall in Hr.
  assert (∀ p, p ∈ properties (DE:=DP) c → agree (used_classes p)) as Hag.
  { intros p Hp. unfold agree. eapply Forall_impl; [by apply Hr|]. intros c' Hc' w. by apply H. }
  assert (agree (default [] (type_classes <$> type_of (DE:=DP) c k))) as Ht.
  { destruct (type_of (DE:=DP) c k) as [t|] eqn:E; [|constructor].
    apply head_omap_elem in E as (p & [_ Hp]%list_elem_of_filter & Hpt).
    specialize (Hag p Hp). unfold agree, used_classes in Hag. rewrite Hpt in Hag.
    by apply Forall_app in Hag as [? _]. }
  assert (agree (default [] (transform_classes <$> transform_of (DE:=DP) c k))) as Htr.
  { destruct (transform_of (DE:=DP) c k) as [t|] eqn:E; [|constructor].
    apply head_omap_elem in E as (p & [_ Hp]%list_elem_of_filter & Hpt).
    specialize (Hag p Hp). unfold agree, used_classes in Hag. rewrite Hpt in Hag.
    by apply Forall_app in Hag as [_ ?]. }
  change (type_of (DE:=DQ) c k) with (type_of (DE:=DP) c k).
  change (transform_of (DE:=DQ) c k) with (transform_of (DE:=DP) c k).
  rewrite (by_type_ext _ v Ht). destruct (by_type (DE:=DQ) _ v) as [w| | |]; try done. simpl.
  by rewrite (run_transform_ext _ w Htr).
Qed.
End congruence.

Lemma sim_plain_stable n c v : (rank c < n)%nat → sim_plain n c v = sim_plain (S n) c v.
Proof.
  revert c v. induction n as [|n IH]; intros c v Hn; [lia|].
  destruct v as [| | | | |cl l|]; try done.
  change (instance_of (DE:=sim_base (sim_plain n) (fun _ => [])) c l =
    instance_of (DE:=sim_base (sim_plain (S n)) (fun _ => [])) c l).
  apply instance_of_ext. intros c' w Hc. apply IH. lia.
Qed.

#[global] Instance sim_decorator_laws : DecoratorLaws (H:=sim_decorators).
Proof.
  split; [|intros c l|constructor|done].
  - intros c cl l. change (sim_plain 6 c (VObject cl l) =
      instance_of (DE:=sim_base (sim_plain 6) sim_validate) c l).
    rewrite sim_plain_stable by (destruct c; simpl; lia). reflexivity.
  - change (sim_validate (VObject (Some c) l) = [] ↔
      valid (DE:=sim_conversion (fun _ => Done)) (VObject (Some c) l) = true).
    unfold sim_validate. by destruct (valid _).
Qed.
