(* ===== verification/ManifestSpec.v ===== *)
(** * What a manifest that validates is

    What a runtime datasource is that passes [validate], what cannot pass, which
    versions are read, and the chain's id of a deployment. *)
From S2P Require Import Prelude JsNumber JsString Json JsMap Types Manifest ManifestLaws.

(** ** Instances and their properties *)

(** A value as a manifest file has it: no maps, and the keys of an object distinct *)
Fixpoint raw (v : value) : bool :=
  match v with
  | VArray l => forallb raw l
  | VObject _ l => bool_decide (NoDup l.*1) && forallb (fun kv => raw kv.2) l
  | VMap _ => false
  | _ => true
  end.

Lemma raw_object c l : raw (VObject c l) = true → NoDup l.*1 ∧ ∀ k v, map_get l k = Some v → raw v = true.
Proof.
  cbn [raw]. intros [H1%bool_decide_eq_true H2]%andb_true_iff. split; [done|].
  intros k v Hk%map_get_elem. rewrite forallb_forall in H2.
  by apply (H2 (k, v)), list_elem_of_In.
Qed.

Section instances.
Context `{DE : Decorators} `{DL : !DecoratorLaws}.

Definition converted (c : ClassName) (l fl : list (string * value)) : Prop :=
  Forall2 (fun kv kv' => convert_property c kv = Done kv') l fl.

Lemma convert_property_key c kv kv' : convert_property c kv = Done kv' → kv'.1 = kv.1.
Proof.
  unfold convert_property. intros (v & _ & H)%outcome_bind_Done_inv.
  by apply outcome_bind_Done_inv in H as (w & _ & [= <-]).
Qed.

Lemma converted_keys c l fl : converted c l fl → fl.*1 = l.*1.
Proof.
  induction 1 as [|kv kv' l fl H _ IH]; [done|]. rewrite !fmap_cons, IH.
  by rewrite (convert_property_key _ _ _ H).
Qed.

Lemma instance_converted c cl l i :
  NoDup l.*1 → initial_values c = [] → plainToClass c (VObject cl l) = Done i →
  ∃ fl, i = VObject (Some c) fl ∧ converted c l fl.
Proof.
  intros Hl Hi. rewrite plainToClass_object. unfold instance_of.
  intros (fl & Hfl & [= <-])%outcome_bind_Done_inv. apply traverse_Forall2 in Hfl.
  exists fl. split; [|done]. unfold spread. rewrite Hi. simpl.
  by rewrite new_Map_NoDup by by rewrite (converted_keys c l).
Qed.

Lemma converted_get c l fl k :
  converted c l fl →
  match map_get l k with
  | None => map_get fl k = None
  | Some v => ∃ v', convert_property c (k, v) = Done (k, v') ∧ map_get fl k = Some v'
  end.
Proof.
  induction 1 as [|[k1 v1] [k2 v2] l fl H _ IH]; [done|]. simpl.
  pose proof (convert_property_key _ _ _ H) as E. simpl in E. subst k2.
  case_decide as Hk; [|exact IH]. subst k1. by exists v2.
Qed.

Lemma valid_get c fl k v :
  valid (VObject (Some c) fl) = true → map_get fl k = Some v →
  rules c k ≠ [] ∧ property_ok valid c fl k (Some v) = true.
Proof.
  cbn [valid]. intros [H _]%andb_true_iff Hk%map_get_elem.
  rewrite forallb_forall in H. specialize (H (k, v) (proj1 (list_elem_of_In _ _) Hk)). simpl in H.
  apply andb_true_iff in H as [H1 H2]. split; [|done].
  intros E. rewrite E in H1. by rewrite bool_decide_true in H1.
Qed.

Lemma valid_absent c fl p :
  valid (VObject (Some c) fl) = true → p ∈ properties c → map_get fl (pr_name p) = None →
  property_ok valid c fl (pr_name p) None = true.
Proof.
  cbn [valid]. intros [_ H]%andb_true_iff Hp Hk. rewrite forallb_forall in H.
  specialize (H p (proj1 (list_elem_of_In _ _) Hp)). rewrite Hk in H.
  rewrite bool_decide_false in H by (intros [? [=]]). done.
Qed.

(** ** What is well typed *)
Definition is_text (v : value) : Prop := ∃ s, v = VString s.
Definition is_array (v : value) : Prop := ∃ l, v = VArray l.
Definition is_flag (v : value) : Prop := ∃ b, v = VBool b.
Definition maybe (P : value → Prop) (v : option value) : Prop :=
  is_null v = false → ∃ w, v = Some w ∧ P w.
Definition only_keys (ks : list string) (l : list (string * value)) : Prop :=
  ∀ k v, map_get l k = Some v → k ∈ ks.

Definition filter_typed (kind : SolanaHandlerKind) (l : list (string * value)) : Prop :=
  match kind with
  | KBlock => True
  | KTransaction => only_keys ["signerAccountKey"] l ∧ maybe is_text (map_get l "signerAccountKey")
  | KLog => only_keys ["programId"] l ∧ maybe is_text (map_get l "programId")
  | KInstruction =>
      only_keys ["programId"; "discriminator"; "accounts"; "includeFalied"] l ∧
      maybe is_text (map_get l "discriminator") ∧
      (map_get l "discriminator" ≠ None → ∃ p, map_get l "programId" = Some (VString p)) ∧
      maybe is_array (map_get l "accounts") ∧ maybe is_flag (map_get l "includeFalied")
  end.

(** An absent filter, a filter, or an array of filters, which the rules let pass *)
Fixpoint filter_value (P : list (string * value) → Prop) (v : value) : Prop :=
  match v with
  | VNull => True
  | VObject _ l => P l
  | VArray l => foldr (fun v rest => filter_value P v ∧ rest) True l
  | _ => False
  end.

Record handler_typed (h : value) (kind : SolanaHandlerKind) (l : list (string * value)) : Prop := {
  handler_object : ∃ c, h = VObject c l;
  handler_keys : only_keys ["filter"; "kind"; "handler"] l;
  handler_kind_value : map_get l "kind" = Some (VString (handler_kind_string kind));
  handler_name : ∃ name, map_get l "handler" = Some (VString name);
  handler_filter_value : ∀ f, map_get l "filter" = Some f → filter_value (filter_typed kind) f
}.

Record mapping_typed (m : list (string * value)) : Prop := {
  mapping_keys : only_keys ["handlers"; "file"] m;
  mapping_file : ∃ file, map_get m "file" = Some (VString file);
  mapping_handlers : ∃ hs, map_get m "handlers" = Some (VArray hs) ∧
    Forall (fun h => ∃ kind l, handler_typed h kind l) hs
}.

(** ** Classes without types: what is validated is the source *)
Definition untyped (c : ClassName) : Prop :=
  initial_values c = [] ∧ ∀ k, type_of c k = None ∧ transform_of c k = None.

Lemma untyped_instance c cl l i :
  untyped c → NoDup l.*1 → plainToClass c (VObject cl l) = Done i → i = VObject (Some c) l.
Proof.
  intros [Hi Ht] Hl H. apply instance_converted in H as (fl & -> & H); [|done..]. do 2 f_equal.
  induction H as [|[k v] kv' l fl Hkv _ IH]; [done|]. unfold convert_property in Hkv. simpl in Hkv.
  destruct (Ht k) as [E1 E2]. rewrite E1 in Hkv. simpl in Hkv. rewrite E2 in Hkv.
  injection Hkv as <-. f_equal. apply IH. by inversion Hl.
Qed.

Lemma named_Forall (P : Property → Prop) k l : Forall P l → Forall P (named k l).
Proof. intros H. apply Forall_forall. intros p [_ Hp]%list_elem_of_filter. by eapply Forall_forall. Qed.

Lemma untyped_properties c :
  initial_values c = [] → Forall (fun p => pr_type p = None ∧ pr_transform p = None) (properties c) →
  untyped c.
Proof.
  intros Hi H. split; [done|]. intros k. unfold type_of, transform_of.
  induction (named_Forall _ k _ H) as [|p l [E1 E2] _ [IH1 IH2]]; [done|]. simpl. by rewrite E1, E2.
Qed.

Lemma untyped_filters :
  untyped TransactionFilter ∧ untyped InstructionFilter ∧ untyped LogFilter.
Proof. split_and!; (apply untyped_properties; [done|by repeat constructor]). Qed.

(** A property with rules is declared. *)
Lemma rules_declared c k : rules c k ≠ [] → k ∈ pr_name <$> properties c.
Proof.
  unfold rules. intros H. destruct (named k (properties c)) as [|p l] eqn:E; [done|].
  assert (p ∈ named k (properties c)) as Hp by (rewrite E; by left).
  apply list_elem_of_filter in Hp as [<- Hp]. by apply list_elem_of_fmap_2.
Qed.

Lemma valid_keys c fl :
  valid (VObject (Some c) fl) = true → only_keys (pr_name <$> properties c) fl.
Proof. intros H k v Hk. eapply rules_declared, valid_get; done. Qed.

(** A rule that a value has passed, where the property's rules are known *)
Lemma property_ok_maybe check c l k v :
  rules c k = [IsOptional; IsString] → property_ok check c l k v = true → maybe is_text v.
Proof.
  unfold property_ok, maybe. intros -> H Hn. simpl in H. rewrite Hn in H. simpl in H.
  destruct v as [[| | |s| | |]|]; try done. eexists; split; [done|by exists s].
Qed.

(** The outcome of the rules of a declared property, present or not *)
Lemma valid_property c fl p :
  valid (VObject (Some c) fl) = true → p ∈ properties c →
  property_ok valid c fl (pr_name p) (map_get fl (pr_name p)) = true.
Proof.
  intros H Hp. destruct (map_get fl (pr_name p)) as [v|] eqn:E; [by eapply valid_get|by apply valid_absent].
Qed.

Lemma filter_valid kind c l :
  (kind, c) ∈ [(KTransaction, TransactionFilter); (KInstruction, InstructionFilter); (KLog, LogFilter)] →
  valid (VObject (Some c) l) = true → filter_typed kind l.
Proof.
  intros Hc H. pose proof (valid_keys _ _ H) as Hk.
  assert (∀ p, p ∈ properties c → property_ok valid c l (pr_name p) (map_get l (pr_name p)) = true) as Hp
    by (intros p; by apply valid_property).
  set_unfold in Hc. destruct Hc as [[= -> ->]|[[= -> ->]|[[= -> ->]|[]]]]; simpl.
  - split; [exact Hk|]. apply (property_ok_maybe valid TransactionFilter l "signerAccountKey"); [reflexivity|].
    apply (Hp (prop "signerAccountKey" [IsOptional; IsString])). by left.
  - assert (∀ k, k ∈ ["programId"; "discriminator"; "accounts"; "includeFalied"] →
      property_ok valid InstructionFilter l k (map_get l k) = true) as Hq.
    { intros k Hin. change (k ∈ pr_name <$> properties InstructionFilter) in Hin.
      apply list_elem_of_fmap in Hin as (p & -> & Hin). by apply Hp. }
    split; [exact Hk|]. split_and!.
    + apply (property_ok_maybe valid InstructionFilter l "discriminator"); [reflexivity|].
      apply Hq. set_solver.
    + intros Hd. specialize (Hq "programId" ltac:(set_solver)). unfold property_ok in Hq.
      simpl in Hq. rewrite bool_decide_true in Hq by (by apply not_eq_None_Some). simpl in Hq.
      destruct (map_get l "programId") as [[| | |s| | |]|]; try done. by exists s.
    + specialize (Hq "accounts" ltac:(set_solver)). intros Hn. unfold property_ok in Hq. simpl in Hq.
      rewrite Hn in Hq. destruct (map_get l "accounts") as [[| | | |a| |]|]; try done.
      eexists; split; [done|by exists a].
    + specialize (Hq "includeFalied" ltac:(set_solver)). intros Hn. unfold property_ok in Hq. simpl in Hq.
      rewrite Hn in Hq. destruct (map_get l "includeFalied") as [[|b| | | | |]|]; try done.
      eexists; split; [done|by exists b].
  - split; [exact Hk|]. apply (property_ok_maybe valid LogFilter l "programId"); [reflexivity|].
    apply (Hp (prop "programId" [IsOptional; IsString])). by left.
Qed.

Definition filter_class (kind : SolanaHandlerKind) : ClassName :=
  match kind with
  | KBlock => BlockFilter | KTransaction => TransactionFilter
  | KInstruction => InstructionFilter | KLog => LogFilter
  end.
Definition kind_class_of (kind : SolanaHandlerKind) : ClassName :=
  match kind with
  | KBlock => BlockHandler | KTransaction => TransactionHandler
  | KInstruction => InstructionHandler | KLog => LogHandler
  end.

(** A filter that was converted and is valid is well typed, at any depth of arrays. *)
Lemma converted_filter kind v v' :
  kind ≠ KBlock → raw v = true → each (plainToClass (filter_class kind)) v = Done v' → valid v' = true →
  filter_value (filter_typed kind) v.
Proof.
  intros Hk. revert v'. induction v as [|b|z|s|l IH|c l|l] using value_rec_deep; intros v' Hr He Hv;
    simpl in He; try (by injection He as <-).
  - apply outcome_bind_Done_inv in He as (vs & Hvs & [= <-]). apply traverse_Forall2 in Hvs.
    cbn [raw] in Hr. cbn [valid] in Hv. cbn [filter_value].
    induction Hvs as [|x y l vs Hxy Hvs IHl]; [done|]. inversion IH as [|? ? Hx Hl]; subst.
    simpl in Hr, Hv. apply andb_true_iff in Hr as [Hr1 Hr2], Hv as [Hv1 Hv2]. simpl.
    split; [by eapply Hx|by apply IHl].
  - pose proof (raw_object _ _ Hr) as [Hl _]. destruct untyped_filters as (U1 & U2 & U3).
    destruct kind; [done| | |]; simpl in He;
      apply untyped_instance in He as ->; try done; cbn [filter_value];
      (eapply filter_valid; [|done]); set_solver.
Qed.

(** The properties of a handler's class *)
Lemma handler_types kind k :
  type_of (kind_class_of kind) k =
    (if decide (k = "filter") then Some (TypeClass (filter_class kind)) else None) ∧
  transform_of (kind_class_of kind) k = None.
Proof.
  destruct kind; unfold type_of, transform_of, named; cbn [kind_class_of properties];
  (destruct (decide (k = "filter")) as [->|H1]; [by split|]);
  (destruct (decide (k = "kind")) as [->|H2]; [by split|]);
  (destruct (decide (k = "handler")) as [->|H3]; [by split|]);
  cbn; rewrite !decide_False by congruence; by split.
Qed.

Lemma handler_rules kind :
  rules (kind_class_of kind) "handler" = [IsString] ∧
  rules (kind_class_of kind) "kind" = [IsEnum handler_kind_values [handler_kind_string kind]] ∧
  (kind ≠ KBlock → rules (kind_class_of kind) "filter" = [IsOptional; ValidateNested false]).
Proof. destruct kind; by split_and!. Qed.

Lemma kind_handler_class_inv kind c :
  kind_handler_class kind = Done c →
  ∃ k, c = kind_class_of k ∧ kind = Some (VString (handler_kind_string k)).
Proof.
  unfold kind_handler_class. destruct kind as [[| | |s| | |]|]; try done.
  repeat case_decide; subst; intros [= <-];
    [by exists KLog|by exists KInstruction|by exists KTransaction|by exists KBlock].
Qed.

(** What [each] makes of an object or array is not null. *)
Lemma each_not_null c v v' : each (plainToClass c) v = Done v' → is_null (Some v') = true → v = VNull.
Proof.
  destruct v as [|b|z|s|l|cl l|l]; simpl; try (by intros [= <-]).
  - by intros (vs & _ & [= <-])%outcome_bind_Done_inv.
  - rewrite plainToClass_object. unfold instance_of. by intros (fl & _ & [= <-])%outcome_bind_Done_inv.
Qed.

Lemma handler_filter_ok kind l f f' :
  raw f = true → each (plainToClass (filter_class kind)) f = Done f' →
  property_ok valid (kind_class_of kind) l "filter" (Some f') = true →
  filter_value (filter_typed kind) f.
Proof.
  intros Hr He H. destruct (decide (kind = KBlock)) as [->|Hk].
  - unfold property_ok in H. cbn in H. destruct f as [|b|z|s|a|cl o|o]; try done; simpl in He;
      try (injection He as <-; done).
    apply outcome_bind_Done_inv in He as (vs & _ & [= <-]). done.
  - destruct (handler_rules kind) as (_ & _ & R). unfold property_ok in H. rewrite (R Hk) in H.
    cbn [applies forallb] in H. destruct (is_null (Some f')) eqn:En.
    + by rewrite (each_not_null _ _ _ He En).
    + eapply converted_filter; [done..|]. exact H.
Qed.

Lemma handler_valid h i :
  raw h = true → handler_instance h = Done i → valid i = true → ∃ kind l, handler_typed h kind l.
Proof.
  intros Hr Hi Hv. unfold handler_instance in Hi.
  assert (∃ cls l, h = VObject cls l) as (cls & l & ->) by (destruct h; try done; eauto).
  apply outcome_bind_Done_inv in Hi as (c & Hc & Hi).
  apply kind_handler_class_inv in Hc as (kind & -> & Hkind). simpl in Hkind.
  pose proof (raw_object _ _ Hr) as [Hnd Hraw].
  apply instance_converted in Hi as (fl & -> & Hconv); [|done|by destruct kind].
  destruct (handler_rules kind) as (R1 & R2 & R3).
  exists kind, l. split.
  - by eexists.
  - intros k v Hk. pose proof (converted_get _ _ _ k Hconv) as Hget. rewrite Hk in Hget.
    destruct Hget as (v' & _ & Hv'). pose proof (valid_keys _ _ Hv _ _ Hv') as H. by destruct kind.
  - done.
  - pose proof (valid_property _ _ (prop "handler" [IsString]) Hv ltac:(destruct kind; set_solver)) as H.
    cbn [pr_name prop] in H. unfold property_ok in H. rewrite R1 in H. simpl in H.
    pose proof (converted_get _ _ _ "handler" Hconv) as Hget.
    destruct (map_get l "handler") as [v|]; [|by rewrite Hget in H].
    destruct Hget as (v' & Hc & Hv'). rewrite Hv' in H. unfold convert_property in Hc. simpl in Hc.
    destruct (handler_types kind "handler") as [E1 E2]. rewrite E1 in Hc. simpl in Hc.
    rewrite E2 in Hc. injection Hc as ->. destruct v' as [| | |s| | |]; try done. by exists s.
  - intros f Hf. pose proof (converted_get _ _ _ "filter" Hconv) as Hget. rewrite Hf in Hget.
    destruct Hget as (v' & Hc & Hv'). unfold convert_property in Hc. simpl in Hc.
    destruct (handler_types kind "filter") as [E1 E2]. rewrite E1 in Hc. simpl in Hc.
    apply outcome_bind_Done_inv in Hc as (w & Hw & Hc). rewrite E2 in Hc. injection Hc as ->.
    apply (handler_filter_ok kind fl f v'); [by eapply Hraw|done|].
    by apply (valid_get _ _ _ _ Hv Hv').
Qed.

(** ** Mappings and datasources *)
Lemma mapping_types k :
  type_of SolanaMapping k = None ∧
  transform_of SolanaMapping k = (if decide (k = "handlers") then Some MapHandlers else None).
Proof.
  unfold type_of, transform_of, named.
  destruct (decide (k = "handlers")) as [->|H1]; [by split|].
  destruct (decide (k = "file")) as [->|H2]; [by split|].
  cbn. rewrite !decide_False by congruence. by split.
Qed.

(** The value of a property after its conversion *)
Lemma converted_property c l fl k v t tr :
  converted c l fl → map_get l k = Some v → type_of c k = t → transform_of c k = tr →
  ∃ w v', by_type t v = Done w ∧ run_transform tr w = Done v' ∧ map_get fl k = Some v'.
Proof.
  intros Hconv Hk <- <-. pose proof (converted_get _ _ _ k Hconv) as Hget. rewrite Hk in Hget.
  destruct Hget as (v' & Hc & Hv'). unfold convert_property in Hc. simpl in Hc.
  apply outcome_bind_Done_inv in Hc as (w & Hw & Hc).
  apply outcome_bind_Done_inv in Hc as (w' & Hw' & [= <-]). eauto.
Qed.

Lemma converted_absent c l fl k : converted c l fl → map_get l k = None → map_get fl k = None.
Proof. intros Hconv Hk. pose proof (converted_get _ _ _ k Hconv) as Hget. by rewrite Hk in Hget. Qed.

Lemma mapping_valid cl m i :
  raw (VObject cl m) = true → plainToClass SolanaMapping (VObject cl m) = Done i → valid i = true →
  mapping_typed m.
Proof.
  intros Hr Hi Hv. pose proof (raw_object _ _ Hr) as [Hnd Hraw].
  apply instance_converted in Hi as (fl & -> & Hconv); [|done..].
  assert (∀ p, p ∈ properties SolanaMapping →
    property_ok valid SolanaMapping fl (pr_name p) (map_get fl (pr_name p)) = true) as Hp
    by (intros p; by apply valid_property).
  split.
  - intros k v Hk. destruct (mapping_types k) as [E1 E2].
    destruct (converted_property _ _ _ k v _ _ Hconv Hk E1 E2) as (w & v' & _ & _ & Hv').
    exact (valid_keys _ _ Hv _ _ Hv').
  - specialize (Hp (prop "file" [IsString]) ltac:(set_solver)). cbn in Hp.
    destruct (map_get m "file") as [v|] eqn:E.
    + destruct (mapping_types "file") as [E1 E2].
      destruct (converted_property _ _ _ "file" v _ _ Hconv E E1 E2) as (w & v' & Hw & Hv' & Hf).
      injection Hw as <-. injection Hv' as <-. rewrite Hf in Hp.
      destruct v as [| | |s| | |]; try done. by exists s.
    + by rewrite (converted_absent _ _ _ _ Hconv E) in Hp.
  - specialize (Hp (mkProperty "handlers" [IsArray; ValidateNested false] None (Some MapHandlers))
      ltac:(set_solver)). cbn [pr_name] in Hp.
    destruct (map_get m "handlers") as [v|] eqn:E;
      [|by rewrite (converted_absent _ _ _ _ Hconv E) in Hp].
    destruct (mapping_types "handlers") as [E1 E2].
    destruct (converted_property _ _ _ "handlers" v _ _ Hconv E E1 E2) as (w & v' & Hw & Hv' & Hf).
    injection Hw as <-. destruct v as [| | | |hs| |]; try done. exists hs. split; [done|].
    apply outcome_bind_Done_inv in Hv' as (is' & His & [= <-]). apply traverse_Forall2 in His.
    rewrite Hf in Hp. change (property_ok valid SolanaMapping fl "handlers" (Some (VArray is')))
      with (forallb valid is') in Hp.
    assert (forallb raw hs = true) as Hrs by exact (Hraw "handlers" (VArray hs) E).
    clear -DL His Hp Hrs. induction His as [|h i hs is' Hi _ IH]; [done|].
    simpl in Hp, Hrs. apply andb_true_iff in Hp as [Hp1 Hp2], Hrs as [Hr1 Hr2].
    constructor; [by eapply handler_valid|by apply IH].
Qed.

(** The declared properties of a datasource; the base class has none of them. *)
Lemma datasource_rules k :
  k ∈ ["kind"; "mapping"; "assets"] →
  named k (properties SolanaRuntimeDataSourceImpl) = named k (model_properties RuntimeDataSourceBase).
Proof.
  intros Hk. unfold properties. cbn [ancestry parent_class fmap list_fmap own_properties concat].
  unfold named. rewrite !filter_app. cbn [v1_properties model_properties datasource_properties]. rewrite !filter_nil.
  assert (filter (fun p => pr_name p = k) (external_properties "BaseDataSource") = []) as ->.
  { induction base_datasource as [|p l Hp _ IH]; [done|].
    rewrite filter_cons_False; [done|]. by intros <-. }
  by rewrite !app_nil_r.
Qed.

(** A runtime datasource of a manifest that becomes an instance and passes [validate] *)
Definition accepted (ds : value) : Prop :=
  ∃ i, plainToClass SolanaRuntimeDataSourceImpl ds = Done i ∧ runtime_ds_validate i = Done tt.

Lemma validated i l :
  i = VObject (Some SolanaRuntimeDataSourceImpl) l → runtime_ds_validate i = Done tt → valid i = true.
Proof.
  intros -> H. apply validateSync_object. unfold runtime_ds_validate, validateObject in H.
  by destruct (validateSync true true (VObject (Some SolanaRuntimeDataSourceImpl) l)).
Qed.

Lemma accepted_mapping cl o m :
  raw (VObject cl o) = true → accepted (VObject cl o) → map_get o "mapping" = Some m →
  ∃ i, each (plainToClass SolanaMapping) m = Done i ∧ valid i = true.
Proof.
  intros Hr (i & Hi & Hval) Hm. pose proof (raw_object _ _ Hr) as [Hnd Hraw].
  assert (initial_values SolanaRuntimeDataSourceImpl = []) as Hinit.
  { unfold initial_values. cbn. by rewrite base_datasource_initial. }
  apply instance_converted in Hi as (fl & -> & Hconv); [|done..].
  apply (validated _ fl eq_refl) in Hval.
  pose proof (datasource_rules "mapping" ltac:(set_solver)) as Hn.
  destruct (converted_property _ _ _ "mapping" m (Some (TypeClass SolanaMapping)) None Hconv Hm)
    as (w & v' & Hw & Hv' & Hf);
    [unfold type_of; by rewrite Hn|unfold transform_of; by rewrite Hn|].
  injection Hv' as <-. exists w. split; [exact Hw|].
  destruct (valid_get _ _ _ _ Hval Hf) as [_ H]. unfold property_ok, rules in H. rewrite Hn in H.
  exact H.
Qed.

(** C11: a runtime datasource that its [validate] accepts and whose mapping is an object
    has a well-typed mapping: a file, and an array of handlers, each with one of the four
    kinds, a function name, and no other property than a filter.  The filter of a
    transaction, instruction or log handler has no properties but those for which its class
    has rules, so that one with the documented includeFailed or topics is not accepted;
    they have values of their types, except that the program of an instruction filter is a
    text only when there is a discriminator, and may be any value otherwise.  Of the
    filter of a block handler the rules say nothing but that it is an object or an array. *)
Theorem accepted_datasource_typed cl o cm m :
  raw (VObject cl o) = true → accepted (VObject cl o) →
  map_get o "mapping" = Some (VObject cm m) → mapping_typed m.
Proof.
  intros Hr Ha Hm. destruct (accepted_mapping _ _ _ Hr Ha Hm) as (i & Hi & Hv).
  eapply mapping_valid; [|exact Hi|exact Hv]. exact (proj2 (raw_object _ _ Hr) _ _ Hm).
Qed.

(** A property for which the class of a filter has no rule keeps its datasource from
    being accepted. *)
Lemma undeclared_filter_property cl o cm m hs ch h kind cf f k v :
  raw (VObject cl o) = true → map_get o "mapping" = Some (VObject cm m) →
  map_get m "handlers" = Some (VArray hs) → VObject ch h ∈ hs →
  map_get h "kind" = Some (VString (handler_kind_string kind)) → kind ≠ KBlock →
  map_get h "filter" = Some (VObject cf f) → map_get f k = Some v →
  k ∉ pr_name <$> model_properties (filter_class kind) → ¬ accepted (VObject cl o).
Proof.
  intros Hr Hm Hhs Hh Hk Hblock Hf Hv Hout Ha.
  destruct (accepted_mapping _ _ _ Hr Ha Hm) as (i & Hi & Hval).
  assert (mapping_typed m) as Ht.
  { eapply mapping_valid; [|exact Hi|exact Hval]. exact (proj2 (raw_object _ _ Hr) _ _ Hm). }
  destruct (mapping_handlers _ Ht) as (hs' & Hhs' & Hall). simplify_eq.
  rewrite Forall_forall in Hall. destruct (Hall _ Hh) as (kind' & l & Htyped).
  destruct (handler_object _ _ _ Htyped) as (c & [= <- <-]).
  pose proof (handler_kind_value _ _ _ Htyped) as Hk'. rewrite Hk in Hk'. injection Hk' as Hk'.
  assert (kind' = kind) as -> by by destruct kind, kind'.
  apply Hout. pose proof (handler_filter_value _ _ _ Htyped _ Hf) as Hft.
  destruct kind; [done| | |]; destruct Hft as [Hkeys _]; exact (Hkeys _ _ Hv).
Qed.

(** ** Versions *)

(** Reading a manifest gives an instance of version 1.0.0 that has passed validation,
    or fails; any other version that is not the name of an inherited member is
    reported as not supported. *)
Theorem parse_manifest_versions base_validate l :
  let version := show_value (map_get l "specVersion") in
  (∀ m, parseSolanaProjectManifest base_validate (VObject None l) = Done m →
    version = "1.0.0" ∧ plainToClass ProjectManifestV1_0_0Impl (VObject None l) = Done m ∧
    base_validate m = Done tt) ∧
  (version ≠ "1.0.0" → version ∉ Object_prototype →
    parseSolanaProjectManifest base_validate (VObject None l) = Throw (JsError VERSION_NOT_SUPPORTED None)).
Proof.
  intros version. unfold parseSolanaProjectManifest, manifest_versioned. cbn [get_prop]. fold version.
  unfold SOLANA_SUPPORTED_VERSIONS. cbn [map_get]. split.
  - intros m (i & Hi & H)%outcome_bind_Done_inv. apply outcome_bind_Done_inv in H as ([] & Hval & [= <-]).
    repeat case_decide; try done; [|by injection Hi as <-]. subst version.
    rewrite plainToClass_object in Hi |- *. split_and!; [done|done|].
    unfold instance_of in Hi. by apply outcome_bind_Done_inv in Hi as (fl & _ & [= <-]).
  - intros Hv Hp. rewrite decide_False by congruence.
    rewrite decide_False by (intros E; apply Hp; rewrite E; by left). by rewrite decide_False.
Qed.

(** ** The chain's id of a deployment *)

Lemma instance_get c cl l i k v t tr :
  NoDup l.*1 → plainToClass c (VObject cl l) = Done i → map_get l k = Some v →
  type_of c k = t → transform_of c k = tr →
  ∃ fl w v', i = VObject (Some c) fl ∧ by_type t v = Done w ∧ run_transform tr w = Done v' ∧
    map_get fl k = Some v'.
Proof.
  intros Hl. rewrite plainToClass_object. unfold instance_of.
  intros (fl & Hfl & [= <-])%outcome_bind_Done_inv Hk Ht Htr. apply traverse_Forall2 in Hfl.
  destruct (converted_property c l fl k v t tr Hfl Hk Ht Htr) as (w & v' & Hw & Hv' & Hg).
  eexists _, w, v'. split_and!; [done..|]. unfold spread.
  rewrite new_Map_app; [by simpl; rewrite Hg|]. simpl. by rewrite (converted_keys c l).
Qed.

Lemma network_types k :
  type_of ProjectNetworkDeploymentV1_0_0 k = None ∧
  transform_of ProjectNetworkDeploymentV1_0_0 k =
    (if decide (k = "chainId") then Some TrimChainId else None).
Proof.
  unfold type_of, transform_of, named.
  destruct (decide (k = "chainId")) as [->|H1]; [by split|].
  destruct (decide (k = "bypassBlocks")) as [->|H2]; [by split|].
  cbn. rewrite !decide_False by congruence. by split.
Qed.

(** A network's conversion trims the chain's id and keeps the rest. *)
Lemma network_instance cl n i :
  NoDup n.*1 → plainToClass ProjectNetworkDeploymentV1_0_0 (VObject cl n) = Done i →
  ∃ fl, i = VObject (Some ProjectNetworkDeploymentV1_0_0) fl ∧ fl.*1 = n.*1 ∧
    (∀ k, k ≠ "chainId" → map_get fl k = map_get n k) ∧
    match map_get n "chainId" with
    | None => map_get fl "chainId" = None
    | Some v => ∃ s, v = VString s ∧ map_get fl "chainId" = Some (VString (trim s))
    end.
Proof.
  intros Hn (fl & -> & Hfl)%instance_converted; [|done..].
  exists fl. split_and!; [done|by eapply converted_keys| |].
  - intros k Hk. pose proof (converted_get _ _ _ k Hfl) as H. destruct (map_get n k) as [v|]; [|done].
    destruct H as (v' & Hc & ->). unfold convert_property in Hc. cbn [fst snd] in Hc.
    destruct (network_types k) as [E1 E2]. rewrite decide_False in E2 by done.
    rewrite E1, E2 in Hc. by injection Hc as ->.
  - pose proof (converted_get _ _ _ "chainId" Hfl) as H. destruct (map_get n "chainId") as [v|]; [|done].
    destruct H as (v' & Hc & ->). change (convert_property _ ("chainId", v)) with
      (w ← trim_chainId v; Done ("chainId", w)) in Hc.
    apply outcome_bind_Done_inv in Hc as (w & Hw & [= ->]). destruct v as [| | |s| | |]; try done.
    injection Hw as <-. by exists s.
Qed.

Lemma chainId_of_genesis_keys l : NoDup l.*1 → NoDup (chainId_of_genesis l).*1.
Proof. intros H. unfold chainId_of_genesis. repeat case_match; [|done..]. by apply map_set_keys. Qed.

(** C27: when a deployment is converted, whose objects have distinct keys as those of a
    parsed file do, the chain's id of its network becomes the trimmed text that it is, or,
    where it is missing or blank, the trimmed genesis hash if there is one that is not the
    empty text. *)
Theorem deployment_chain_id cl o cn n i :
  NoDup o.*1 → NoDup n.*1 → map_get o "network" = Some (VObject cn n) →
  plainToClass DeploymentV1_0_0 (VObject cl o) = Done i →
  ∃ fl net, i = VObject (Some DeploymentV1_0_0) fl ∧
    map_get fl "network" = Some (VObject (Some ProjectNetworkDeploymentV1_0_0) net) ∧
    (∀ s, map_get n "chainId" = Some (VString s) → trim s ≠ "" →
      map_get net "chainId" = Some (VString (trim s))) ∧
    (∀ g, map_get n "genesisHash" = Some (VString g) → g ≠ "" →
      (∀ v, map_get n "chainId" = Some v → ∃ s, v = VString s ∧ trim s = "") →
      map_get net "chainId" = Some (VString (trim g))).
Proof.
  intros Ho Hn Hnet Hi.
  destruct (instance_get _ _ _ _ "network" _ (Some (TypeClass ProjectNetworkDeploymentV1_0_0))
    (Some NetworkDeployment) Ho Hi Hnet eq_refl eq_refl) as (fl & w & v' & -> & Hw & Hv' & Hg).
  cbn [by_type each] in Hw. apply network_instance in Hw as (l1 & -> & Hk1 & Hrest1 & Hc1); [|done].
  cbn [run_transform network_deployment] in Hv'.
  apply network_instance in Hv' as (l2 & -> & Hk2 & Hrest2 & Hc2);
    [|apply chainId_of_genesis_keys; by rewrite Hk1].
  exists fl, l2. split_and!; [done|done| |].
  - intros s Hs Ht. rewrite Hs in Hc1. destruct Hc1 as (s' & [= <-] & Hc1).
    assert (chainId_of_genesis l1 = l1) as E.
    { unfold chainId_of_genesis. rewrite Hc1. simpl. unfold truthy_string.
      rewrite (bool_decide_true _ Ht). destruct (map_get l1 "genesisHash") as [v|]; [|done].
      simpl. by rewrite andb_false_r. }
    rewrite E, Hc1 in Hc2. destruct Hc2 as (s' & [= <-] & ->). by rewrite trim_idem.
  - intros g Hgen Hne Hblank. rewrite <- (Hrest1 "genesisHash" ltac:(done)) in Hgen.
    assert (chainId_of_genesis l1 = map_set l1 "chainId" (VString g)) as E.
    { unfold chainId_of_genesis. rewrite Hgen. simpl. unfold truthy_string.
      rewrite (bool_decide_true _ Hne). simpl. destruct (map_get n "chainId") as [v|].
      - destruct Hc1 as (s & -> & ->). destruct (Hblank _ eq_refl) as (s' & [= <-] & ->). done.
      - by rewrite Hc1. }
    rewrite E, map_get_set in Hc2. simpl in Hc2. by destruct Hc2 as (s' & [= <-] & ->).
Qed.
End instances.

(** ** Concrete manifests *)
Section witnesses.
Local Existing Instance sim_decorators.

Definition sample_handler (filter : list (string * value)) : value :=
  VObject None [("handler", VString "handleInstruction");
                ("kind", VString (handler_kind_string KInstruction));
                ("filter", VObject None filter)].
Definition sample_mapping (filter : list (string * value)) : list (string * value) :=
  [("file", VString "./dist/index.js"); ("handlers", VArray [sample_handler filter])].
Definition sample_datasource (filter : list (string * value)) : list (string * value) :=
  [("kind", VString SolanaDatasourceKind_Runtime);
   ("mapping", VObject None (sample_mapping filter));
   ("assets", VObject None [("idl", VObject None [("file", VString "./idl.json")])])].

Definition sample_filter : list (string * value) :=
  [("programId", VString "JUP6LkbZbjS1jKKwapdHNy74zcZ3tLUZoi5QNyVTaV4");
   ("discriminator", VString "route"); ("accounts", VArray [VNull; VString "A"])].

Lemma accepted_datasource_typed_witness : mapping_typed (sample_mapping sample_filter).
Proof.
  apply (accepted_datasource_typed None (sample_datasource sample_filter) None).
  - vm_compute; reflexivity.
  - eexists. split; vm_compute; reflexivity.
  - reflexivity.
Defined.

Definition sample_deployment : list (string * value) :=
  [("specVersion", VString "1.0.0");
   ("network", VObject None [("chainId", VString "  ");
                             ("genesisHash", VString " 5eykt4UsFv8P8NJdTREpY1vzqKqZKvdpKuc147dw2N9d")])].
Definition sample_network : list (string * value) :=
  [("chainId", VString "  "); ("genesisHash", VString " 5eykt4UsFv8P8NJdTREpY1vzqKqZKvdpKuc147dw2N9d")].

Lemma deployment_chain_id_witness : ∃ i fl net,
  plainToClass DeploymentV1_0_0 (VObject None sample_deployment) = Done i ∧
  i = VObject (Some DeploymentV1_0_0) fl ∧
  map_get fl "network" = Some (VObject (Some ProjectNetworkDeploymentV1_0_0) net) ∧
  map_get net "chainId" = Some (VString "5eykt4UsFv8P8NJdTREpY1vzqKqZKvdpKuc147dw2N9d").
Proof.
  assert (∃ i, plainToClass DeploymentV1_0_0 (VObject None sample_deployment) = Done i) as [i Hi]
    by (eexists; vm_compute; reflexivity).
  destruct (deployment_chain_id None sample_deployment None sample_network i) as (fl & net & Hf & Hn & _ & H).
  - by apply (bool_decide_unpack _).
  - by apply (bool_decide_unpack _).
  - reflexivity.
  - exact Hi.
  - exists i, fl, net. split_and!; [exact Hi|exact Hf|exact Hn|].
    refine (H " 5eykt4UsFv8P8NJdTREpY1vzqKqZKvdpKuc147dw2N9d" _ _ _); [reflexivity|discriminate|].
    intros v Hv. injection Hv as <-. exists "  ". split; reflexivity.
Defined.

Lemma parse_manifest_versions_witness :
  parseSolanaProjectManifest (fun _ => Done tt) (VObject None [("specVersion", VString "0.2.0")])
    = Throw (JsError VERSION_NOT_SUPPORTED None).
Proof.
  refine (proj2 (parse_manifest_versions (fun _ => Done tt) [("specVersion", VString "0.2.0")]) _ _).
  - vm_compute. discriminate.
  - by apply (bool_decide_unpack _).
Defined.
End witnesses.
