(* ===== verification/ManifestComplete.v ===== *)
(** * Manifests that are accepted

    The converse of the typing of runtime datasources: one that is well typed becomes
    an instance and passes the validation. *)
From S2P Require Import Prelude JsNumber JsString Json JsMap Types Manifest ManifestLaws ManifestSpec.

Section complete.
Context `{DE : Decorators} `{DL : !DecoratorLaws}.

(** ** Instances *)
Lemma instance_total c cl l :
  NoDup l.*1 → initial_values c = [] → (∀ kv, kv ∈ l → ∃ kv', convert_property c kv = Done kv') →
  ∃ fl, plainToClass c (VObject cl l) = Done (VObject (Some c) fl) ∧ converted c l fl.
Proof.
  intros Hnd Hi Hconv.
  assert (∃ fl, traverse (convert_property c) l = Done fl) as [fl Hfl].
  { clear Hnd. induction l as [|kv l IH]; [by eexists|].
    destruct (Hconv kv ltac:(by left)) as [kv' Hkv]. destruct IH as [fl Hfl].
    { intros x Hx. apply Hconv. by right. }
    exists (kv' :: fl). simpl. by rewrite Hkv, Hfl. }
  exists fl. assert (converted c l fl) as Hc by by apply traverse_Forall2. split; [|done].
  rewrite plainToClass_object. unfold instance_of. rewrite Hfl. simpl. unfold spread. rewrite Hi.
  simpl. by rewrite new_Map_NoDup by by rewrite (converted_keys c l).
Qed.

Lemma valid_intro c fl :
  NoDup fl.*1 →
  (∀ k v, map_get fl k = Some v → rules c k ≠ [] ∧ property_ok valid c fl k (Some v) = true) →
  (∀ p, p ∈ properties c → map_get fl (pr_name p) = None →
     property_ok valid c fl (pr_name p) None = true) →
  valid (VObject (Some c) fl) = true.
Proof.
  intros Hnd Hgot Habsent. cbn [valid]. apply andb_true_iff. split; apply forallb_forall.
  - intros [k v] Hin%list_elem_of_In. apply elem_map_get in Hin; [|done].
    destruct (Hgot k v Hin) as [Hr Hok]. cbn [fst snd]. rewrite Hok, andb_true_r.
    rewrite bool_decide_false; [done|]. by intros ?%length_zero_iff_nil.
  - intros p Hp%list_elem_of_In. apply orb_true_iff.
    destruct (map_get fl (pr_name p)) eqn:E; [left; by apply bool_decide_eq_true|right].
    by apply Habsent.
Qed.

(** A property whose value is converted to one that its rules accept. *)
Definition good_property (c : ClassName) (k : string) (v : value) : Prop :=
  ∃ v', convert_property c (k, v) = Done (k, v') ∧ rules c k ≠ [] ∧
    ∀ fl, property_ok valid c fl k (Some v') = true.

Lemma convert_plain c k v :
  type_of c k = None → transform_of c k = None → convert_property c (k, v) = Done (k, v).
Proof. intros H1 H2. unfold convert_property. cbn [fst snd]. by rewrite H1, H2. Qed.

Lemma convert_by c k v t tr w v' :
  type_of c k = t → transform_of c k = tr → by_type t v = Done w → run_transform tr w = Done v' →
  convert_property c (k, v) = Done (k, v').
Proof. intros <- <- Hw Hv. unfold convert_property. cbn [fst snd]. rewrite Hw. simpl. by rewrite Hv. Qed.

Lemma instance_accepted c cl l :
  NoDup l.*1 → initial_values c = [] → (∀ k v, map_get l k = Some v → good_property c k v) →
  (∀ p fl, p ∈ properties c → map_get l (pr_name p) = None →
     property_ok valid c fl (pr_name p) None = true) →
  ∃ i, plainToClass c (VObject cl l) = Done i ∧ valid i = true.
Proof.
  intros Hnd Hi Hgood Habsent. destruct (instance_total c cl l Hnd Hi) as (fl & Hfl & Hconv).
  { intros [k v] Hin%elem_map_get; [|done]. destruct (Hgood k v Hin) as (v' & Hv' & _). eauto. }
  exists (VObject (Some c) fl). split; [done|].
  assert (∀ k, map_get l k = None ↔ map_get fl k = None) as Hnone.
  { intros k. pose proof (converted_get _ _ _ k Hconv) as Hg. destruct (map_get l k); [|by rewrite Hg].
    destruct Hg as (v' & _ & ->). done. }
  apply valid_intro; [by rewrite (converted_keys _ _ _ Hconv)|..].
  - intros k v Hk. pose proof (converted_get _ _ _ k Hconv) as Hg.
    destruct (map_get l k) as [v0|] eqn:E; [|congruence]. destruct Hg as (v1 & Hc & Hv1).
    destruct (Hgood k v0 E) as (v' & Hv' & Hr & Hok).
    rewrite Hv1 in Hk. rewrite Hv' in Hc. simplify_eq. auto.
  - intros p Hp Hk%Hnone. by apply Habsent.
Qed.

(** ** Filters *)
Lemma maybe_text_ok check c l k v :
  rules c k = [IsOptional; IsString] → maybe is_text v → property_ok check c l k v = true.
Proof.
  intros Hr Hv. unfold property_ok. rewrite Hr. cbn. destruct (is_null v) eqn:E; [done|].
  destruct (Hv E) as (w & -> & s & ->). done.
Qed.

Lemma filter_accepted kind l :
  kind ≠ KBlock → NoDup l.*1 → filter_typed kind l →
  valid (VObject (Some (filter_class kind)) l) = true.
Proof.
  intros Hk Hnd Ht.
  assert (∀ k, k ∈ pr_name <$> properties (filter_class kind) →
    rules (filter_class kind) k ≠ [] ∧
    property_ok valid (filter_class kind) l k (map_get l k) = true) as Hok.
  { intros k Hin. destruct kind; [done| | |]; simpl in Ht.
    - apply list_elem_of_singleton in Hin as ->. destruct Ht as [_ Ht]. split; [done|].
      by apply maybe_text_ok.
    - destruct Ht as (_ & Hd & Hp & Ha & Hf). 
      change (k ∈ ["programId"; "discriminator"; "accounts"; "includeFalied"]) in Hin.
      repeat (apply elem_of_cons in Hin as [->|Hin]); [..|by apply elem_of_nil in Hin]; (split; [by vm_compute|]).
      + unfold property_ok. simpl. destruct (map_get l "discriminator") as [d|] eqn:E.
        * destruct (Hp ltac:(done)) as [p ->]. by rewrite bool_decide_true by eauto.
        * by rewrite bool_decide_false by (by intros [? [=]]).
      + by apply maybe_text_ok.
      + unfold property_ok. cbn. destruct (is_null _) eqn:E; [done|].
        by destruct (Ha E) as (w & -> & x & ->).
      + unfold property_ok. cbn. destruct (is_null _) eqn:E; [done|].
        by destruct (Hf E) as (w & -> & x & ->).
    - apply list_elem_of_singleton in Hin as ->. destruct Ht as [_ Ht]. split; [done|].
      by apply maybe_text_ok. }
  apply valid_intro; [done| |].
  - intros k v Hv. destruct (Hok k) as [Hr H]; [|by rewrite <- Hv].
    destruct kind; [done| | |]; simpl in Ht; destruct Ht as [Hkeys _]; exact (Hkeys k v Hv).
  - intros p Hp Hv. destruct (Hok (pr_name p)) as [_ H]; [by apply list_elem_of_fmap_2|].
    by rewrite Hv in H.
Qed.

(** A filter that is absent, or an object; that of a block handler is one that the class
    of the core converts. *)
Definition filter_plain (kind : SolanaHandlerKind) (f : option value) : Prop :=
  match f with
  | None | Some VNull => True
  | Some (VObject c l) =>
      match kind with KBlock => ∃ i, plainToClass BlockFilter (VObject c l) = Done i | _ => True end
  | _ => False
  end.

Lemma filter_untyped kind : kind ≠ KBlock → untyped (filter_class kind).
Proof. destruct untyped_filters as (?&?&?). by destruct kind. Qed.

Lemma filter_converts kind f :
  raw f = true → filter_plain kind (Some f) → filter_value (filter_typed kind) f →
  ∃ w, each (plainToClass (filter_class kind)) f = Done w ∧
    ∀ fl, property_ok valid (kind_class_of kind) fl "filter" (Some w) = true.
Proof.
  intros Hr Hp Ht. destruct f as [| | | | |c l|]; try done.
  { exists VNull. split; [done|]. by destruct kind. }
  destruct (decide (kind = KBlock)) as [->|Hk].
  - destruct Hp as [i Hi]. exists i. split; [done|]. intros fl.
    rewrite plainToClass_object in Hi. unfold instance_of in Hi.
    by apply outcome_bind_Done_inv in Hi as (x & _ & [= <-]).
  - pose proof (raw_object _ _ Hr) as [Hnd _]. pose proof (filter_untyped kind Hk) as [Hi Hu].
    destruct (instance_total (filter_class kind) c l Hnd Hi) as (fl & Hfl & _).
    { intros [k v] _. exists (k, v). by apply convert_plain; apply Hu. }
    exists (VObject (Some (filter_class kind)) fl). split; [done|]. intros fl'.
    apply untyped_instance in Hfl; [|by apply filter_untyped|done]. injection Hfl as ->.
    destruct (handler_rules kind) as (_ & _ & R). unfold property_ok. rewrite (R Hk).
    cbn [applies forallb is_null negb andb orb rule_ok nested_rule existsb].
    by apply filter_accepted.
Qed.

(** ** Handlers *)
Lemma handler_class_names kind :
  pr_name <$> properties (kind_class_of kind) = ["filter"; "kind"; "handler"].
Proof. by destruct kind. Qed.

Lemma handler_accepted h kind l :
  raw h = true → handler_typed h kind l → filter_plain kind (map_get l "filter") →
  ∃ i, handler_instance h = Done i ∧ valid i = true.
Proof.
  intros Hr [(c & ->) Hkeys Hkind (name & Hname) Hfilter] Hplain.
  pose proof (raw_object _ _ Hr) as [Hnd Hraw]. destruct (handler_rules kind) as (R1 & R2 & R3).
  destruct (instance_accepted (kind_class_of kind) c l Hnd) as (i & Hi & Hv); [by destruct kind|..].
  - intros k v Hk. destruct (handler_types kind k) as [E1 E2]. pose proof (Hkeys _ _ Hk) as Hin.
    apply elem_of_cons in Hin as [->|Hin]; [|apply elem_of_cons in Hin as [->|Hin];
      [|apply list_elem_of_singleton in Hin as ->]]; simplify_eq.
    + destruct (filter_converts kind v) as (w & Hw & Hok); [exact (Hraw _ _ Hk)|by rewrite Hk in Hplain|
        by apply Hfilter|].
      exists w. split_and!; [by eapply convert_by|by destruct kind|done].
    + eexists. split_and!; [by apply convert_plain|by rewrite R2|].
      intros fl. unfold property_ok. rewrite R2. by destruct kind.
    + eexists. split_and!; [by apply convert_plain|by rewrite R1|].
      intros fl. unfold property_ok. by rewrite R1.
  - intros p fl Hp Hk. apply (list_elem_of_fmap_2 pr_name) in Hp. rewrite handler_class_names in Hp.
    apply elem_of_cons in Hp as [E|Hp]; [|apply elem_of_cons in Hp as [E|Hp];
      [|apply list_elem_of_singleton in Hp as E]]; rewrite E in *; [by destruct kind|congruence..].
  - exists i. split; [|done]. unfold handler_instance. cbn [get_prop]. rewrite Hkind. by destruct kind.
Qed.

(** ** Mappings *)
Definition handlers_plain (hs : list value) : Prop :=
  Forall (fun h => ∀ kind l, handler_typed h kind l → filter_plain kind (map_get l "filter")) hs.

Lemma handlers_accepted hs :
  forallb raw hs = true → Forall (fun h => ∃ kind l, handler_typed h kind l) hs → handlers_plain hs →
  ∃ is', traverse handler_instance hs = Done is' ∧ forallb valid is' = true.
Proof.
  intros Hr Ht Hp. induction Ht as [|h hs (kind & l & Hh) _ IH]; [by exists []|].
  simpl in Hr. apply andb_true_iff in Hr as [Hr1 Hr2]. inversion_clear Hp as [|?? Hp1 Hp2].
  destruct (handler_accepted h kind l Hr1 Hh (Hp1 _ _ Hh)) as (i & Hi & Hv).
  destruct (IH Hr2 Hp2) as (is' & His & Hvs). exists (i :: is'). simpl. rewrite Hi. simpl. rewrite His.
  simpl. by rewrite Hv, Hvs.
Qed.

Lemma mapping_rules :
  rules SolanaMapping "file" = [IsString] ∧ rules SolanaMapping "handlers" = [IsArray; ValidateNested false] ∧
  pr_name <$> properties SolanaMapping = ["handlers"; "file"].
Proof. done. Qed.

Lemma mapping_accepted c m hs :
  raw (VObject c m) = true → mapping_typed m → map_get m "handlers" = Some (VArray hs) →
  handlers_plain hs → ∃ i, plainToClass SolanaMapping (VObject c m) = Done i ∧ valid i = true.
Proof.
  intros Hr [Hkeys (file & Hfile) (hs' & Hhs' & Htyped)] Hhs Hplain.
  rewrite Hhs in Hhs'. injection Hhs' as <-.
  pose proof (raw_object _ _ Hr) as [Hnd Hraw]. destruct mapping_rules as (R1 & R2 & Rn).
  destruct (handlers_accepted hs) as (is' & His & Hvs); [exact (Hraw _ _ Hhs)|done..|].
  apply instance_accepted; [done|done|..].
  - intros k v Hk. destruct (mapping_types k) as [E1 E2]. pose proof (Hkeys _ _ Hk) as Hin.
    apply elem_of_cons in Hin as [->|Hin]; [|apply list_elem_of_singleton in Hin as ->]; simplify_eq.
    + exists (VArray is'). split_and!; [eapply convert_by; [exact E1|exact E2|done|]|by rewrite R2|].
      * cbn [run_transform map_handlers]. by rewrite His.
      * intros fl. unfold property_ok. rewrite R2. exact Hvs.
    + eexists. split_and!; [by apply convert_plain|by rewrite R1|].
      intros fl. unfold property_ok. by rewrite R1.
  - intros p fl Hp Hk. apply (list_elem_of_fmap_2 pr_name) in Hp. rewrite Rn in Hp.
    apply elem_of_cons in Hp as [E|Hp]; [|apply list_elem_of_singleton in Hp as E]; rewrite E in *;
      simplify_eq.
Qed.

(** ** Assets *)
Definition asset_typed (v : value) : Prop :=
  ∃ c l file, v = VObject c l ∧ only_keys ["file"] l ∧ map_get l "file" = Some (VString file).
Definition assets_typed (v : value) : Prop :=
  match v with
  | VNull => True
  | VObject _ l => Forall (fun kv => asset_typed kv.2) l
  | _ => False
  end.

Lemma untyped_file : untyped FileReferenceImpl.
Proof. apply untyped_properties; [done|by repeat constructor]. Qed.

Lemma asset_accepted v :
  raw v = true → asset_typed v → ∃ i, each (plainToClass FileReferenceImpl) v = Done i ∧ valid i = true.
Proof.
  intros Hr (c & l & file & -> & Hkeys & Hfile). pose proof (raw_object _ _ Hr) as [Hnd _].
  destruct (instance_total FileReferenceImpl c l Hnd eq_refl) as (fl & Hfl & _).
  { intros [k v] _. exists (k, v). by apply convert_plain; apply untyped_file. }
  exists (VObject (Some FileReferenceImpl) fl). split; [done|].
  apply untyped_instance in Hfl; [|apply untyped_file|done]. injection Hfl as ->.
  apply valid_intro; [done| |].
  - intros k v Hk. pose proof (Hkeys _ _ Hk) as ->%list_elem_of_singleton. rewrite Hfile in Hk.
    by injection Hk as <-.
  - intros p Hp Hk. apply list_elem_of_singleton in Hp as ->. cbn in Hk. congruence.
Qed.

Lemma assets_accepted v :
  raw v = true → assets_typed v →
  ∃ w, by_type (Some (TypeMap FileReferenceImpl)) v = Done w ∧
    ∀ fl, property_ok valid SolanaRuntimeDataSourceImpl fl "assets" (Some w) = true.
Proof.
  assert (rules SolanaRuntimeDataSourceImpl "assets" = [ValidateNested true; IsOptional]) as R
    by (unfold rules; by rewrite datasource_rules by set_solver).
  intros Hr Ht. unfold property_ok. rewrite R.
  destruct v as [| | | | |c l|]; try done; [by exists VNull|]. cbn [by_type].
  assert (∃ es, on_entries (each (plainToClass FileReferenceImpl)) l = Done es ∧
    forallb (fun kv => valid kv.2) es = true) as (es & -> & Hes); [|by exists (VMap es)].
  cbn [raw] in Hr. apply andb_true_iff in Hr as [_ Hr]. cbn in Ht.
  induction Ht as [|[k v] l Hv _ IH]; [by exists []|]. simpl in Hr.
  apply andb_true_iff in Hr as [Hr1 Hr2]. destruct (IH Hr2) as (es & Hes & Hvs).
  destruct (asset_accepted v Hr1 Hv) as (i & Hi & Hvi). exists ((k, i) :: es).
  unfold on_entries in *. cbn [traverse fst snd]. rewrite Hi. cbn [mbind outcome_bind].
  rewrite Hes. cbn. by rewrite Hvi.
Qed.

(** ** Datasources *)
Record datasource_typed (o : list (string * value)) : Prop := {
  ds_keys_typed : only_keys ["kind"; "mapping"; "assets"] o;
  ds_kind_typed : map_get o "kind" = Some (VString SolanaDatasourceKind_Runtime);
  ds_mapping_typed : ∃ c m hs, map_get o "mapping" = Some (VObject c m) ∧ mapping_typed m ∧
    map_get m "handlers" = Some (VArray hs) ∧ handlers_plain hs;
  ds_assets_typed : ∀ v, map_get o "assets" = Some v → assets_typed v
}.

(** The properties of the base class (blocks to start and to end at) may be left out. *)
Definition base_optional : Prop := ∀ p fl,
  p ∈ external_properties "BaseDataSource" →
  property_ok valid SolanaRuntimeDataSourceImpl fl (pr_name p) None = true.

Lemma datasource_types :
  type_of SolanaRuntimeDataSourceImpl "kind" = None ∧
  type_of SolanaRuntimeDataSourceImpl "mapping" = Some (TypeClass SolanaMapping) ∧
  type_of SolanaRuntimeDataSourceImpl "assets" = Some (TypeMap FileReferenceImpl) ∧
  ∀ k, k ∈ ["kind"; "mapping"; "assets"] → transform_of SolanaRuntimeDataSourceImpl k = None.
Proof.
  unfold type_of, transform_of. split_and!.
  1-3: by rewrite datasource_rules by set_solver.
  intros k Hk. rewrite datasource_rules by done.
  apply elem_of_cons in Hk as [->|Hk]; [done|]. apply elem_of_cons in Hk as [->|Hk]; [done|].
  by apply list_elem_of_singleton in Hk as ->.
Qed.

Lemma datasource_initial : initial_values SolanaRuntimeDataSourceImpl = [].
Proof. unfold initial_values. cbn. by rewrite base_datasource_initial. Qed.

Lemma datasource_properties_names p :
  p ∈ properties SolanaRuntimeDataSourceImpl →
  pr_name p ∈ ["kind"; "mapping"; "assets"] ∨ p ∈ external_properties "BaseDataSource".
Proof.
  assert (properties SolanaRuntimeDataSourceImpl =
    model_properties RuntimeDataSourceBase ++ external_properties "BaseDataSource") as ->
    by (unfold properties; cbn; by rewrite app_nil_r).
  intros [Hp|Hp]%elem_of_app; [left|by right]. exact (list_elem_of_fmap_2 pr_name _ _ Hp).
Qed.

Lemma instance_validates cl o :
  (∃ i, plainToClass SolanaRuntimeDataSourceImpl (VObject cl o) = Done i ∧ valid i = true) →
  accepted (VObject cl o).
Proof.
  intros (i & Hi & Hv). exists i. split; [done|].
  assert (∃ c l, i = VObject (Some c) l) as (c & l & ->).
  { rewrite plainToClass_object in Hi. unfold instance_of in Hi.
    apply outcome_bind_Done_inv in Hi as (x & _ & [= <-]). by eexists _, _. }
  unfold runtime_ds_validate, validateObject. by rewrite (proj2 (validateSync_object _ _)).
Qed.

(** C12: a runtime datasource that is well typed is accepted: with the kind of a runtime
    datasource, a mapping with a file and an array of handlers, each with one of the four
    kinds, a name, and a filter, if any, of its kind's properties and types, with assets,
    if any, that each name a file, and nothing else, it becomes an instance and passes
    [validate]. *)
Theorem typed_datasource_accepted cl o :
  raw (VObject cl o) = true → base_optional → datasource_typed o → accepted (VObject cl o).
Proof.
  intros Hr Hbase [Hkeys Hkind (cm & m & hs & Hm & Hmt & Hhs & Hplain) Hassets].
  pose proof (raw_object _ _ Hr) as [Hnd Hraw]. destruct datasource_types as (T1 & T2 & T3 & Tr).
  destruct (mapping_accepted cm m hs) as (i & Hi & Hvi); [exact (Hraw _ _ Hm)|done..|].
  apply instance_validates, instance_accepted; [done|exact datasource_initial|..].
  - intros k v Hk. pose proof (Hkeys _ _ Hk) as Hin. pose proof (Tr k Hin) as Ek.
    assert (rules SolanaRuntimeDataSourceImpl k =
      concat (pr_rules <$> named k (model_properties RuntimeDataSourceBase))) as R
      by (unfold rules; by rewrite datasource_rules).
    apply elem_of_cons in Hin as [->|Hin]; [|apply elem_of_cons in Hin as [->|Hin];
      [|apply list_elem_of_singleton in Hin as ->]]; simplify_eq.
    + eexists. split_and!; [by apply convert_plain|by rewrite R|].
      intros fl. unfold property_ok. by rewrite R.
    + exists i. split_and!; [eapply convert_by; [exact T2|exact Ek|exact Hi|done]|by rewrite R|].
      intros fl. unfold property_ok. by rewrite R.
    + destruct (assets_accepted v (Hraw _ _ Hk) (Hassets _ Hk)) as (w & Hw & Hok).
      exists w. split_and!; [by eapply convert_by|by rewrite R|done].
  - intros p fl Hp Hk. apply datasource_properties_names in Hp as [Hin|Hp]; [|by apply Hbase].
    apply elem_of_cons in Hin as [E|Hin]; [|apply elem_of_cons in Hin as [E|Hin];
      [|apply list_elem_of_singleton in Hin as E]]; rewrite E in *; simplify_eq.
    unfold property_ok, rules. by rewrite datasource_rules by set_solver.
Qed.
End complete.

(** ** A concrete datasource *)
Section witness.
Local Existing Instance sim_decorators.

Lemma keys_of l m : forallb (fun kv => bool_decide (kv.1 ∈ l)) m = true → only_keys l m.
Proof.
  intros H k v Hk%map_get_elem. rewrite forallb_forall in H.
  apply (bool_decide_eq_true_1 _ (H (k, v) (proj1 (list_elem_of_In _ _) Hk))).
Qed.

Lemma sample_handler_typed :
  handler_typed (sample_handler sample_filter) KInstruction
    [("handler", VString "handleInstruction");
     ("kind", VString (handler_kind_string KInstruction)); ("filter", VObject None sample_filter)].
Proof.
  split; [by eexists|by apply keys_of|done|by eexists|].
  intros f [= <-]. split_and!; [by apply keys_of|..].
  - intros _. by repeat eexists.
  - by eexists.
  - intros _. by repeat eexists.
  - done.
Qed.

Lemma typed_datasource_accepted_witness :
  accepted (VObject None (sample_datasource sample_filter)).
Proof.
  apply typed_datasource_accepted.
  - vm_compute. reflexivity.
  - intros p fl Hp. exfalso. exact (not_elem_of_nil p Hp).
  - split; [by apply keys_of|reflexivity| |].
    + eexists None, _, _. split_and!; [reflexivity| |reflexivity|].
      * split; [by apply keys_of|by eexists|]. eexists. split; [reflexivity|].
        constructor; [|constructor]. eexists _, _. exact sample_handler_typed.
      * constructor; [|constructor]. intros kind l [(c & [= _ <-]) _ Hk _ _].
        cbn in Hk. destruct kind; done.
    + intros v [= <-]. constructor; [|constructor]. eexists _, _, _.
      split_and!; [reflexivity|by apply keys_of|reflexivity].
Defined.
End witness.
