(* ===== verification/ProjectChange.v ===== *)
(** * Loading the IDLs of several datasources at once

    [onProjectChange] of [packages/node/src/blockchain.service.ts] starts [loadIdls]
    of [solana/decoder.ts] for every datasource under one [Promise.all], and then for
    every template.  The loops share the decoder's store of IDLs and give way to each
    other where they await a file.  Each loop is a thread; a step of the system is a
    step of one of them. *)
From S2P Require Import Prelude JsNumber JsString Json JsMap Types Filters Idl Decoder DecoderSpec Codegen.
From stdpp Require Import relations.

Abbreviation store := (gmap string (option Idl)).
Abbreviation assets := (list (string * string)).

(** A loop between two of its points of interest: before the test of the next asset,
    waiting for a file, or ended by an error. *)
Inductive Loader :=
| Checking (rest : assets)
| Reading (name file : string) (rest : assets)
| Failed (name file : string).

#[global] Instance Loader_eq_dec : EqDecision Loader.
Proof. solve_decision. Defined.

Definition start (ds_assets : option assets) : Loader := Checking (default [] ds_assets).
Definition finished (ls : list Loader) : Prop := Forall (fun l => l = Checking []) ls.

Section load.
  (** What a file holds, which may be the JSON null; none if reading or parsing it
      throws.  The files do not change meanwhile. *)
  Context (file_idl : string → option (option Idl)).

(** One loop: [if (this.idls[name]) continue], the call of [readFile], and what
    follows when it answers. *)
Inductive loader_step : store → Loader → store → Loader → Prop :=
| step_skip m name file rest idl :
    idl_of m (Some name) = Some idl →
    loader_step m (Checking ((name, file) :: rest)) m (Checking rest)
| step_read m name file rest :
    idl_of m (Some name) = None →
    loader_step m (Checking ((name, file) :: rest)) m (Reading name file rest)
| step_loaded m name file rest idl :
    file_idl file = Some idl →
    loader_step m (Reading name file rest) (<[name := idl]> m) (Checking rest)
| step_failed m name file rest :
    file_idl file = None →
    loader_step m (Reading name file rest) m (Failed name file).

Inductive step : store * list Loader → store * list Loader → Prop :=
| step_loader m ls i l m' l' :
    ls !! i = Some l → loader_step m l m' l' → step (m, ls) (m', <[i := l']> ls).

(** [Promise.all(dss.map((ds) => loadIdls(ds)))]: done when all are, rejected with the
    first error. *)
Inductive load_all (dss : list (option assets)) (m : store) : outcome unit → store → Prop :=
| all_loaded m' ls :
    rtc step (m, start <$> dss) (m', ls) → finished ls → load_all dss m (Done tt) m'
| one_failed m' ls name file :
    rtc step (m, start <$> dss) (m', ls) → Failed name file ∈ ls →
    load_all dss m (Throw (load_error name file)) m'.

Inductive onProjectChange (dataSources templates : list (option assets)) (m : store)
  : outcome unit → store → Prop :=
| project_changed m1 o m2 :
    load_all dataSources m (Done tt) m1 → load_all templates m1 o m2 →
    onProjectChange dataSources templates m o m2
| project_rejected e m1 :
    load_all dataSources m (Throw e) m1 → onProjectChange dataSources templates m (Throw e) m1.

(** ** A loop alone is [loadIdls] *)

Definition at_state {W} (s : DecoderState W) (m : store) : DecoderState W := mkDecoder m (files s).

(** [readFile] and [JSON.parse] give what the files hold. *)
Definition reads {W} (readFile : string → M W string) (json_parse : string → outcome (option Idl)) : Prop :=
  ∀ f w, match file_idl f with
         | Some idl => (raw ← readFile f; of_outcome (json_parse raw)) w = (Done idl, w)
         | None => ∃ e, (raw ← readFile f; of_outcome (json_parse raw)) w = (Throw e, w)
         end.

Definition alone (a b : store * Loader) : Prop := loader_step a.1 a.2 b.1 b.2.

Lemma loadIdl_run {W} (readFile : string → M W string) json_parse name file (s : DecoderState W) :
  reads readFile json_parse → idl_of (idls s) (Some name) = None →
  loadIdl readFile json_parse name file s =
    match file_idl file with
    | Some idl => (Done tt, at_state s (<[name := idl]> (idls s)))
    | None => (Throw (load_error name file), s)
    end.
Proof.
  intros Hr Hn. specialize (Hr file (files s)). destruct s as [m w]. cbn [idls files] in *.
  unfold loadIdl, try_catch, mbind, M_bind, gets, on_files, zoom, of_outcome in *. cbn [idls files].
  rewrite Hn. cbn in *. destruct (readFile file w) as [[raw|e|x|] w1]; cbn in *.
  - destruct (json_parse raw) as [idl|e|x|]; destruct (file_idl file) as [idl'|]; try done;
      try (by destruct Hr as (? & ?)).
    + by injection Hr as -> ->.
    + by destruct Hr as (e' & [= -> ->]).
  - destruct (file_idl file) as [idl'|]; [done|]. by destruct Hr as (e' & [= -> ->]).
  - destruct (file_idl file) as [idl'|]; [done|]. by destruct Hr as (e' & [=]).
  - destruct (file_idl file) as [idl'|]; [done|]. by destruct Hr as (e' & [=]).
Qed.

(** One loop that runs alone is [loadIdls]: it ends with the same store, by
    returning or with the same error. *)
Theorem loader_alone {W} (readFile : string → M W string) json_parse (l : assets) (s : DecoderState W) :
  reads readFile json_parse →
  ∃ m' l', rtc alone (idls s, Checking l) (m', l') ∧
    ((loadIdls readFile json_parse (Some l) s = (Done tt, at_state s m') ∧ l' = Checking []) ∨
     ∃ name file, loadIdls readFile json_parse (Some l) s = (Throw (load_error name file), at_state s m') ∧
       l' = Failed name file).
Proof.
  intros Hr. unfold loadIdls. unfold default, id. revert s.
  induction l as [|[name file] l IH]; intros s.
  { exists (idls s), (Checking []). split; [done|]. left. by destruct s. }
  cbn [for_each fst snd]. destruct (idl_of (idls s) (Some name)) as [i|] eqn:Ei.
  - destruct (IH s) as (m' & l' & Hrun & H). exists m', l'. split.
    { eapply rtc_l; [|exact Hrun]. by eapply step_skip. }
    assert (loadIdl readFile json_parse name file s = (Done tt, s)) as E.
    { unfold loadIdl, try_catch, mbind, M_bind, gets. by rewrite Ei. }
    rewrite (bind_Done _ _ _ _ _ E). exact H.
  - pose proof (loadIdl_run readFile json_parse name file s Hr Ei) as E.
    destruct (file_idl file) as [idl|] eqn:Ef.
    + destruct (IH (at_state s (<[name := idl]> (idls s)))) as (m' & l' & Hrun & H).
      exists m', l'. split; [|by rewrite (bind_Done _ _ _ _ _ E)].
      apply (rtc_l _ _ (idls s, Reading name file l)); [by apply step_read|].
      eapply rtc_l; [|exact Hrun]. by eapply step_loaded.
    + exists (idls s), (Failed name file). split.
      { apply (rtc_l _ _ (idls s, Reading name file l)); [by apply step_read|]. apply rtc_once. by apply step_failed. }
      right. exists name, file. split; [|done]. rewrite (bind_Throw _ _ _ _ _ E). by destruct s.
Qed.

(** ** All schedules *)

Definition pending (l : Loader) : assets :=
  match l with
  | Checking rest => rest
  | Reading name file rest => (name, file) :: rest
  | Failed _ _ => []
  end.

(** What the store holds once the assets are loaded: the IDLs that were there, and
    for the other programs those of their files. *)
Definition store_after (m : store) (l : assets) (m' : store) : Prop :=
  ∀ n, (idl_of m (Some n) ≠ None → m' !! n = m !! n) ∧
    (idl_of m (Some n) = None →
       (∀ f, (n, f) ∈ l → m' !! n = file_idl f) ∧
       ((∀ f, (n, f) ∉ l) → m' !! n = m !! n)).

(** The files named for one program hold the same. *)
Definition consistent (l : assets) : Prop :=
  ∀ n f f', (n, f) ∈ l → (n, f') ∈ l → file_idl f = file_idl f'.

(** The program has its IDL. *)
Definition settled (l : assets) (m : store) (n : string) : Prop :=
  idl_of m (Some n) ≠ None ∨ ∃ f, (n, f) ∈ l ∧ is_Some (file_idl f) ∧ m !! n = file_idl f.

Record load_inv (m0 : store) (l : assets) (s : store * list Loader) : Prop := {
  inv_store : ∀ n, s.1 !! n = m0 !! n ∨
    (idl_of m0 (Some n) = None ∧ ∃ f, (n, f) ∈ l ∧ is_Some (file_idl f) ∧ s.1 !! n = file_idl f);
  inv_pending : ∀ x a, x ∈ s.2 → a ∈ pending x → a ∈ l;
  inv_reading : ∀ n f rest, Reading n f rest ∈ s.2 → idl_of m0 (Some n) = None;
  inv_failed : ∀ n f, Failed n f ∈ s.2 → (n, f) ∈ l ∧ file_idl f = None;
  inv_settled : ∀ n f, (n, f) ∈ l →
    (∃ n' f', Failed n' f' ∈ s.2) ∨ (∃ x, x ∈ s.2 ∧ (n, f) ∈ pending x) ∨ settled l s.1 n
}.

Lemma insert_elem {A} (l : list A) i x y z :
  l !! i = Some x → z ∈ <[i := y]> l → z = y ∨ z ∈ l.
Proof.
  intros Hi (j & Hj)%list_elem_of_lookup. destruct (decide (i = j)) as [<-|Hne].
  - rewrite list_lookup_insert_eq in Hj by (by eapply lookup_lt_Some). left. congruence.
  - rewrite list_lookup_insert_ne in Hj by done. right. by eapply list_elem_of_lookup_2.
Qed.

Lemma elem_insert {A} (l : list A) i x y :
  l !! i = Some x → y ∈ <[i := y]> l ∧ ∀ z, z ∈ l → z = x ∨ z ∈ <[i := y]> l.
Proof.
  intros Hi. split.
  - apply (list_elem_of_lookup_2 _ i). apply list_lookup_insert_eq. by eapply lookup_lt_Some.
  - intros z (j & Hj)%list_elem_of_lookup. destruct (decide (i = j)) as [<-|Hne]; [left; congruence|].
    right. apply (list_elem_of_lookup_2 _ j). by rewrite list_lookup_insert_ne.
Qed.

Lemma idl_of_lookup m m' n : m !! n = m' !! n → idl_of m (Some n) = idl_of m' (Some n).
Proof. unfold idl_of. simpl. by intros ->. Qed.

Lemma settled_insert l m n name f idl :
  (name, f) ∈ l → file_idl f = Some idl → settled l m n → settled l (<[name := idl]> m) n.
Proof.
  intros Hl Hf Hs. destruct (decide (n = name)) as [->|Hne].
  - right. exists f. rewrite Hf, lookup_insert_eq. eauto.
  - unfold settled in *. rewrite (idl_of_lookup _ m), lookup_insert_ne; [done|done|].
    by rewrite lookup_insert_ne.
Qed.

(** What one step does to the thread that takes it. *)
Lemma loader_step_inv m x m' y m0 l ls :
  loader_step m x m' y → load_inv m0 l (m, ls) → x ∈ ls →
  (∀ a, a ∈ pending y → a ∈ pending x) ∧
  (∀ n, m' !! n = m !! n ∨ (idl_of m0 (Some n) = None ∧
     ∃ f, (n, f) ∈ l ∧ is_Some (file_idl f) ∧ m' !! n = file_idl f)) ∧
  (∀ n, settled l m n → settled l m' n) ∧
  (∀ n f, (n, f) ∈ pending x → (n, f) ∈ pending y ∨ settled l m' n ∨ ∃ n' f', y = Failed n' f') ∧
  (∀ n f rest, y = Reading n f rest → idl_of m0 (Some n) = None) ∧
  (∀ n f, y = Failed n f → (n, f) ∈ l ∧ file_idl f = None).
Proof.
  intros Hstep [Hst Hp Hr Hfl Hs] Hx. simpl in *.
  destruct Hstep as [m name file rest idl Hi|m name file rest Hi|m name file rest idl Hf|m name file rest Hf];
    simpl in *.
  - split_and!; [set_solver|by left|done| |done|done].
    intros n f [[= -> ->]|Hin]%elem_of_cons; [|by left]. right. left. left. by rewrite Hi.
  - split_and!; [done|by left|done|by left| |done].
    intros n f r [= <- <- <-]. destruct (Hst name) as [E|[? _]]; [|done].
    by rewrite <- (idl_of_lookup _ _ _ E).
  - pose proof (Hp _ (name, file) Hx ltac:(by left)) as Hl.
    split_and!; [set_solver| | | |done|done].
    + intros n. destruct (decide (n = name)) as [->|Hne].
      * right. split; [by eapply Hr|]. exists file. rewrite lookup_insert_eq, Hf. eauto.
      * left. by rewrite lookup_insert_ne.
    + intros n Hn. by eapply settled_insert.
    + intros n f [[= -> ->]|Hin]%elem_of_cons; [|by left]. right. left. right. exists file.
      rewrite lookup_insert_eq, Hf. eauto.
  - split_and!; [set_solver|by left|done|by eauto|done|].
    intros n f [= <- <-]. split; [|done]. by apply (Hp _ _ Hx); left.
Qed.

Lemma load_inv_step m0 l s s' : step s s' → load_inv m0 l s → load_inv m0 l s'.
Proof.
  intros [m ls i x m' y Hi Hstep] Hinv.
  assert (x ∈ ls) as Hx by by eapply list_elem_of_lookup_2.
  destruct (loader_step_inv _ _ _ _ _ _ _ Hstep Hinv Hx) as (Hpy & Hm & Hse & Hpx & Hry & Hfy).
  destruct Hinv as [Hst Hp Hr Hfl Hs]. simpl in *.
  destruct (elem_insert ls i x y Hi) as [Hy Hrest]. split; simpl.
  - intros n. destruct (Hm n) as [E|?]; [|by right]. rewrite E. apply Hst.
  - intros z a [->|Hz]%(insert_elem _ _ _ _ _ Hi) Ha; [|by eapply Hp]. by apply (Hp x), Hpy.
  - intros n f rest [<-|Hz]%(insert_elem _ _ _ _ _ Hi); [by eapply Hry|by eapply Hr].
  - intros n f [<-|Hz]%(insert_elem _ _ _ _ _ Hi); [by apply Hfy|by apply Hfl].
  - intros n f Hin. destruct (Hs n f Hin) as [(n' & f' & Hf)|[(z & Hz & Hpz)|Hset]].
    + destruct (Hrest _ Hf) as [<-|Hf']; [by inversion Hstep|]. left. by exists n', f'.
    + destruct (Hrest _ Hz) as [->|Hz']; [|right; left; by exists z].
      destruct (Hpx _ _ Hpz) as [Hpy'|[Hset|(n' & f' & ->)]].
      * right. left. by exists y.
      * by right; right.
      * left. by exists n', f'.
    + right. right. by apply Hse.
Qed.

Lemma list_elem_of_concat {A} (x : A) ls : x ∈ concat ls ↔ ∃ l, x ∈ l ∧ l ∈ ls.
Proof.
  induction ls as [|l ls IH]; simpl; [set_solver|]. rewrite elem_of_app, IH.
  setoid_rewrite elem_of_cons. naive_solver.
Qed.

Lemma load_inv_start m dss : load_inv m (concat (default [] <$> dss)) (m, start <$> dss).
Proof.
  split; simpl.
  - by left.
  - intros x a (d & -> & Hd)%list_elem_of_fmap Ha. apply list_elem_of_concat. exists (default [] d).
    split; [exact Ha|]. by apply list_elem_of_fmap_2.
  - by intros n f rest (d & [=] & _)%list_elem_of_fmap.
  - by intros n f (d & [=] & _)%list_elem_of_fmap.
  - intros n f (a & Ha & (d & -> & Hd)%list_elem_of_fmap)%list_elem_of_concat. right. left.
    exists (start d). split; [by apply list_elem_of_fmap_2|done].
Qed.

Lemma load_inv_runs m dss s :
  rtc step (m, start <$> dss) s → load_inv m (concat (default [] <$> dss)) s.
Proof.
  revert s. apply rtc_ind_r; [apply load_inv_start|]. intros s s' _ Hs. by apply load_inv_step.
Qed.

Lemma load_all_store dss m m' :
  consistent (concat (default [] <$> dss)) → load_all dss m (Done tt) m' →
  store_after m (concat (default [] <$> dss)) m'.
Proof.
  set (l := concat _). intros Hc H. inversion H as [m1 ls Hrun Hfin|]; subst.
  destruct (load_inv_runs _ _ _ Hrun) as [Hst Hp Hr Hfl Hs]. fold l in Hst, Hs. simpl in *.
  intros n. split.
  - intros Hn. by destruct (Hst n) as [E|[? _]].
  - intros Hn. split.
    + intros f Hf. unfold finished in Hfin. rewrite Forall_forall in Hfin.
      destruct (Hs n f Hf) as [(n' & f' & Hx%Hfin)|[(x & ->%Hfin & Hx)|Hset]];
        [done|by apply not_elem_of_nil in Hx|].
      assert (∀ f', (n, f') ∈ l → m' !! n = file_idl f' → m' !! n = file_idl f) as Hsame
        by (intros f' Hl ->; by apply (Hc n)).
      destruct Hset as [Hset|(f' & Hl & _ & E)]; [|by eapply Hsame].
      destruct (Hst n) as [E|(_ & f' & Hl & _ & E)]; [|by eapply Hsame].
      by rewrite (idl_of_lookup _ _ _ E) in Hset.
    + intros Hno. destruct (Hst n) as [E|(_ & f' & Hl & _)]; [done|by destruct (Hno f')].
Qed.

Lemma load_all_readable dss m o m' :
  (∀ n f, (n, f) ∈ concat (default [] <$> dss) → is_Some (file_idl f)) →
  load_all dss m o m' → o = Done tt.
Proof.
  intros Hf H. inversion H as [m1 ls Hrun Hfin|m1 ls n f Hrun Hfail]; subst; [done|].
  destruct (inv_failed _ _ _ (load_inv_runs _ _ _ Hrun) _ _ Hfail) as [Hl Hnone].
  apply Hf in Hl as [? ?]. congruence.
Qed.

Lemma store_after_app m l1 l2 m1 m2 :
  consistent (l1 ++ l2) → store_after m l1 m1 → store_after m1 l2 m2 → store_after m (l1 ++ l2) m2.
Proof.
  intros Hc H1 H2 n. destruct (H1 n) as [K1 L1], (H2 n) as [K2 L2]. split.
  - intros Hn. rewrite <- (K1 Hn). apply K2. by rewrite (idl_of_lookup _ m) by auto.
  - intros Hn. destruct (L1 Hn) as [A1 B1]. destruct (idl_of m1 (Some n)) as [i|] eqn:E.
    + assert (m2 !! n = m1 !! n) as -> by (by apply K2). split.
      * intros f [Hf|Hf]%elem_of_app; [by apply A1|].
        destruct (decide (Exists (fun a => a.1 = n) l1)) as [Hex|Hnex].
        -- apply Exists_exists in Hex as ([n' f'] & Hl & Heq). simpl in Heq. subst n'.
           rewrite (A1 f' Hl). apply (Hc n); apply elem_of_app; auto.
        -- exfalso. rewrite (idl_of_lookup m1 m) in E; [congruence|]. apply B1. intros f' Hf'.
           apply Hnex, Exists_exists. by exists (n, f').
      * intros Hno. apply B1. intros f Hf. apply (Hno f), elem_of_app. auto.
    + destruct (L2 eq_refl) as [A2 B2]. split.
      * intros f [Hf|Hf]%elem_of_app; [|by apply A2].
        destruct (decide (Exists (fun a => a.1 = n) l2)) as [Hex|Hnex].
        -- apply Exists_exists in Hex as ([n' f'] & Hl & Heq). simpl in Heq. subst n'.
           rewrite (A2 f' Hl). apply (Hc n); apply elem_of_app; auto.
        -- rewrite B2; [by apply A1|]. intros f' Hf'. apply Hnex, Exists_exists. by exists (n, f').
      * intros Hno. rewrite B2; [apply B1|]; intros f Hf; apply (Hno f), elem_of_app; auto.
Qed.

(** C19: the IDLs that a project change leaves do not depend on how the loops of the
    datasources and templates interleave, when the files named for one program hold
    the same and can be read: the call succeeds, every program without an IDL gets
    that of its file, and every other entry of the store stays. *)
Theorem onProjectChange_loads dataSources templates m o m' :
  let l := concat (default [] <$> dataSources) ++ concat (default [] <$> templates) in
  consistent l → (∀ n f, (n, f) ∈ l → is_Some (file_idl f)) →
  onProjectChange dataSources templates m o m' →
  o = Done tt ∧ store_after m l m'.
Proof.
  intros l Hc Hf H. assert (∀ a, a ∈ concat (default [] <$> dataSources) → a ∈ l) as Hl1
    by (intros a Ha; apply elem_of_app; auto).
  assert (∀ a, a ∈ concat (default [] <$> templates) → a ∈ l) as Hl2
    by (intros a Ha; apply elem_of_app; auto).
  destruct H as [m1 o m2 H1 H2|e m1 H1].
  - pose proof (load_all_readable _ _ _ _ (fun n f Hin => Hf n f (Hl2 _ Hin)) H2) as ->.
    split; [done|]. eapply store_after_app; [done|apply load_all_store, H1|apply load_all_store, H2];
      intros n f f' H3 H4; apply (Hc n); auto.
  - by pose proof (load_all_readable _ _ _ _ (fun n f Hin => Hf n f (Hl1 _ Hin)) H1).
Qed.

(** ** Every schedule ends *)

Definition work (l : Loader) : nat :=
  match l with
  | Checking rest => 2 * length rest
  | Reading _ _ rest => 1 + 2 * length rest
  | Failed _ _ => 0
  end%nat.

Definition total (ls : list Loader) : nat := sum_list (work <$> ls).

Lemma total_insert ls i x y :
  ls !! i = Some x → (work y < work x)%nat → (total (<[i := y]> ls) < total ls)%nat.
Proof.
  unfold total. revert i. induction ls as [|z ls IH]; intros [|i] Hi Hw; simplify_eq/=; [lia|].
  specialize (IH i Hi Hw). lia.
Qed.

Lemma step_work s s' : step s s' → (total s'.2 < total s.2)%nat.
Proof.
  intros [m ls i x m' y Hi Hstep]. simpl. eapply total_insert; [done|].
  destruct Hstep; simpl; lia.
Qed.

Lemma total_start dss : total (start <$> dss) = (2 * length (concat (default [] <$> dss)))%nat.
Proof.
  unfold total. induction dss as [|d dss IH]; [done|]. cbn [fmap list_fmap concat sum_list] in *.
  rewrite length_app, IH. simpl. lia.
Qed.

Definition over (l : Loader) : Prop := l = Checking [] ∨ ∃ n f, l = Failed n f.
#[local] Instance over_dec l : Decision (over l).
Proof.
  refine (match l with
          | Checking [] | Failed _ _ => left _
          | Checking (_ :: _) | Reading _ _ _ => right _
          end); unfold over; naive_solver.
Defined.

Lemma loader_progress m l : ¬ over l → ∃ m' l', loader_step m l m' l'.
Proof.
  destruct l as [[|[n f] rest]|n f rest|n f]; intros H.
  - destruct H. by left.
  - destruct (idl_of m (Some n)) as [idl|] eqn:E; eexists _, _; [by eapply step_skip|by apply step_read].
  - destruct (file_idl f) as [idl|] eqn:E; eexists _, _; [by eapply step_loaded|by apply step_failed].
  - destruct H. right. eauto.
Qed.

(** C20: whatever the schedule, loading ends: it takes at most two steps for each
    asset, and where no loop can go on the promise is settled, fulfilled or rejected
    with the error that names an asset, its program and its file, whose file cannot be read. *)
Theorem load_all_ends dss m k m' ls :
  nsteps step k (m, start <$> dss) (m', ls) →
  (k ≤ 2 * length (concat (default [] <$> dss)))%nat ∧
  ((∀ s', ¬ step (m', ls) s') →
     load_all dss m (Done tt) m' ∨
     ∃ n f, load_all dss m (Throw (load_error n f)) m' ∧
       (n, f) ∈ concat (default [] <$> dss) ∧ file_idl f = None).
Proof.
  intros Hk. split.
  - rewrite <- total_start. change (start <$> dss) with ((m, start <$> dss).2).
    clear -Hk. induction Hk as [s|k s1 s2 s3 H12 _ IH]; [lia|]. apply step_work in H12. lia.
  - intros Hstuck. assert (rtc step (m, start <$> dss) (m', ls)) as Hrun by (by eapply rtc_nsteps_2).
    destruct (decide (Forall over ls)) as [Hover|Hnot].
    + destruct (decide (Exists (fun l => l ≠ Checking []) ls)) as [Hex|Hnex].
      * apply Exists_exists in Hex as (l & Hl & Hne). rewrite Forall_forall in Hover.
        destruct (Hover l Hl) as [->|(n & f & ->)]; [done|]. right.
        destruct (inv_failed _ _ _ (load_inv_runs _ _ _ Hrun) _ _ Hl) as [Hin Hf].
        exists n, f. split; [by eapply one_failed|done].
      * left. eapply all_loaded; [done|]. apply Forall_forall. intros l Hl.
        destruct (decide (l = Checking [])) as [|Hne]; [done|]. destruct Hnex. apply Exists_exists. eauto.
    + exfalso. apply not_Forall_Exists in Hnot; [|apply _].
      apply Exists_exists in Hnot as (l & (i & Hi)%list_elem_of_lookup & Hl).
      destruct (loader_progress m' l Hl) as (m2 & l' & Hs). by eapply Hstuck, step_loader.
Qed.

Lemma step_at i m ls m' ls' l l' :
  ls !! i = Some l → loader_step m l m' l' → ls' = <[i := l']> ls → step (m, ls) (m', ls').
Proof. intros Hi Hs ->. by eapply step_loader. Qed.

(** C33: two datasources that name different files for one program race: either file
    can win, whichever answers last, while the code generator always takes that of
    the later datasource. *)
Theorem datasources_race (d1 d2 : SubqlDatasource) p f1 f2 i1 i2 m :
  ds_assets d1 = Some [(p, f1)] → ds_assets d2 = Some [(p, f2)] →
  file_idl f1 = Some i1 → file_idl f2 = Some i2 → idl_of m (Some p) = None →
  load_all (ds_assets <$> [d1; d2]) m (Done tt) (<[p := i1]> m) ∧
  load_all (ds_assets <$> [d1; d2]) m (Done tt) (<[p := i2]> m) ∧
  allAssets [d1; d2] = [(p, f2)].
Proof.
  intros H1 H2 Hf1 Hf2 Hp. cbn [fmap list_fmap]. rewrite H1, H2.
  set (dss := [Some [(p, f1)]; Some [(p, f2)]]).
  assert (rtc step (m, start <$> dss) (m, [Reading p f1 []; Reading p f2 []])) as Hboth.
  { apply (rtc_l _ _ (m, [Reading p f1 []; Checking [(p, f2)]])).
    - by eapply (step_at 0); [|by apply step_read|].
    - apply rtc_once. by eapply (step_at 1); [|by apply step_read|]. }
  split_and!.
  - rewrite <- (insert_insert_eq m p i1 i2).
    eapply (all_loaded _ _ _ [Checking []; Checking []]); [|by repeat constructor].
    etrans; [exact Hboth|]. apply (rtc_l _ _ (<[p := i2]> m, [Reading p f1 []; Checking []])).
    + by eapply (step_at 1); [|by eapply step_loaded|].
    + apply rtc_once. by eapply (step_at 0); [|by eapply step_loaded|].
  - rewrite <- (insert_insert_eq m p i2 i1).
    eapply (all_loaded _ _ _ [Checking []; Checking []]); [|by repeat constructor].
    etrans; [exact Hboth|]. apply (rtc_l _ _ (<[p := i1]> m, [Checking []; Reading p f2 []])).
    + by eapply (step_at 0); [|by eapply step_loaded|].
    + apply rtc_once. by eapply (step_at 1); [|by eapply step_loaded|].
  - unfold allAssets. simpl. rewrite H1, H2. unfold new_Map. simpl. by rewrite decide_True.
Qed.
End load.

(** ** Instances *)
Definition sim_idl2 : Idl := AnchorIdl (Some (Some "0.1.0")) None JNull.
Definition sim_file (file : string) : option (option Idl) :=
  if decide (file = "a.json") then Some (Some sim_idl)
  else if decide (file = "b.json") then Some (Some sim_idl2) else None.
Definition sim_json (text : string) : outcome (option Idl) :=
  match sim_file text with Some idl => Done idl | None => Throw (TypeError "no JSON") end.

Lemma loader_alone_witness :
  ∃ m', rtc (alone sim_file) (∅, Checking [("p", "a.json"); ("q", "b.json")]) (m', Checking []).
Proof.
  destruct (loader_alone sim_file (fun f (w : unit) => (Done f, w)) sim_json
    [("p", "a.json"); ("q", "b.json")] (mkDecoder ∅ tt)) as (m' & l' & Hrun & H).
  - intros f w. unfold sim_json. unfold mbind, M_bind, of_outcome.
    destruct (sim_file f); [reflexivity|by eexists].
  - destruct H as [[_ ->]|(name & file & H & _)]; [by exists m'|].
    apply (f_equal fst) in H. vm_compute in H. discriminate H.
Defined.

Definition sim_asset_ds (assets : assets) : SubqlDatasource :=
  mkDatasource "solana/Runtime" "./dist/index.js" [] (Some assets) None.

Lemma sim_change :
  onProjectChange sim_file [Some [("p", "a.json")]] [None] ∅ (Done tt) (<["p" := Some sim_idl]> ∅).
Proof.
  eapply project_changed; eapply (all_loaded _ _ _ _ [Checking []]); try by repeat constructor.
  - apply (rtc_l _ _ (∅, [Reading "p" "a.json" []])).
    + eapply (step_at _ 0); [reflexivity|by apply step_read|reflexivity].
    + apply rtc_once. eapply (step_at _ 0); [reflexivity|by eapply step_loaded|reflexivity].
Qed.

Lemma onProjectChange_loads_witness :
  ∃ m', onProjectChange sim_file [Some [("p", "a.json")]] [None] ∅ (Done tt) m' ∧
    m' !! "p" = sim_file "a.json".
Proof.
  exists (<["p" := Some sim_idl]> ∅). split; [exact sim_change|].
  destruct (onProjectChange_loads sim_file [Some [("p", "a.json")]] [None] ∅ (Done tt)
    (<["p" := Some sim_idl]> ∅)) as [_ H].
  - intros n f f' H1 H2. apply list_elem_of_singleton in H1, H2. congruence.
  - intros n f H1. apply list_elem_of_singleton in H1. injection H1 as -> ->. by eexists.
  - exact sim_change.
  - destruct (H "p") as [_ H2]. destruct (H2 eq_refl) as [H3 _]. apply H3. by left.
Defined.

Lemma load_all_ends_witness :
  let s := [Failed "p" "c.json"] in
  ∃ k, nsteps (step sim_file) k (∅, start <$> [Some [("p", "c.json")]]) (∅, s) ∧ (k ≤ 2)%nat.
Proof.
  exists 2%nat.
  assert (nsteps (step sim_file) 2 (∅, start <$> [Some [("p", "c.json")]]) (∅, [Failed "p" "c.json"])) as H.
  { eapply (nsteps_l _ _ _ (∅, [Reading "p" "c.json" []])).
    - eapply (step_at _ 0); [reflexivity|by apply step_read|reflexivity].
    - apply nsteps_once. eapply (step_at _ 0); [reflexivity|by apply step_failed|reflexivity]. }
  split; [exact H|]. exact (proj1 (load_all_ends sim_file _ ∅ 2 ∅ _ H)).
Defined.

Lemma datasources_race_witness :
  let d1 := sim_asset_ds [("p", "a.json")] in
  let d2 := sim_asset_ds [("p", "b.json")] in
  load_all sim_file (ds_assets <$> [d1; d2]) ∅ (Done tt) (<["p" := Some sim_idl]> ∅) ∧
  load_all sim_file (ds_assets <$> [d1; d2]) ∅ (Done tt) (<["p" := Some sim_idl2]> ∅) ∧
  allAssets [d1; d2] = [("p", "b.json")].
Proof.
  intros d1 d2. apply (datasources_race sim_file d1 d2 "p" "a.json" "b.json"); reflexivity.
Defined.
