(* ===== verification/Modules.v ===== *)
(** * The wiring of the services

    The modules of the dependency injection: [packages/node/src/app.module.ts],
    [configure/configure.module.ts], [indexer/fetch.module.ts], the modules under
    [indexer/worker] and [subcommands].  A module lists providers, and the constructors
    and factories of the repository name the providers that they need.  The constructors
    of the node core's classes are not in the repository, and nothing is said of them. *)
From S2P Require Import Prelude.

(** A provider is asked for by a class or by a text. *)
Inductive Token := Cls (name : string) | Str (name : string).
#[global] Instance Token_eq_dec : EqDecision Token.
Proof. solve_decision. Defined.

Inductive Construction :=
| UseClass (cls : string)
| UseFactory (factory : string) (inject : list Token)
| UseValue.

Record Provider := mkProvider { provide : Token; construction : Construction }.

Record NestModule := mkModule {
  module_name : string;
  is_global : bool;
  imports : list string;
  providers : list Provider;
  exports : list Token
}.

(** A class in a list of providers is asked for by itself. *)
Definition class_provider (cls : string) : Provider := mkProvider (Cls cls) (UseClass cls).
Definition provide_class (token cls : string) : Provider := mkProvider (Str token) (UseClass cls).

(** ** Constructors and factories of the repository *)
Definition BlockchainService_constructor : list Token := [Str "APIService"].
Definition IndexerManager_constructor : list Token :=
  [Str "APIService"; Cls "NodeConfig"; Cls "SandboxService"; Cls "DsProcessorService";
   Cls "DynamicDsService"; Str "IUnfinalizedBlocksService"; Str "IBlockchainService"].
Definition UnfinalizedBlocksService_constructor : list Token :=
  [Cls "NodeConfig"; Str "IStoreModelProvider"; Str "IBlockchainService"].
Definition SolanaDictionaryService_constructor : list Token :=
  [Str "ISubqueryProject"; Cls "NodeConfig"; Cls "EventEmitter2"; Str "APIService"].
Definition WorkerService_constructor : list Token :=
  [Str "APIService"; Cls "IndexerManager"; Str "IProjectService"; Str "IProjectUpgradeService";
   Cls "NodeConfig"].

(** What an instance of a class of the repository is made of *)
Definition constructor_of (cls : string) : option (list Token) :=
  if decide (cls = "BlockchainService") then Some BlockchainService_constructor
  else if decide (cls = "IndexerManager") then Some IndexerManager_constructor
  else if decide (cls = "UnfinalizedBlocksService") then Some UnfinalizedBlocksService_constructor
  else if decide (cls = "SolanaDictionaryService") then Some SolanaDictionaryService_constructor
  else if decide (cls = "WorkerService") then Some WorkerService_constructor
  else None.

(** The parameters of [SolanaApiService.init], in order, as the tokens of their types *)
Definition SolanaApiService_init_parameters : list Token :=
  [Str "ISubqueryProject"; Cls "ConnectionPoolService"; Cls "EventEmitter2"; Cls "NodeConfig"].

(** The tokens that the repository names for a provider; a class of the node core has
    more, which only the node core knows. *)
Definition named_tokens (p : Provider) : list Token :=
  match construction p with
  | UseClass cls => default [] (constructor_of cls)
  | UseFactory _ inject => inject
  | UseValue => []
  end.

Definition api_service_provider : Provider :=
  mkProvider (Str "APIService") (UseFactory "SolanaApiService.init"
    [Str "ISubqueryProject"; Cls "ConnectionPoolService"; Cls "EventEmitter2"; Cls "NodeConfig"]).

(** ** The modules *)
Definition ConfigureModule : NestModule := mkModule "ConfigureModule" true []
  [mkProvider (Cls "NodeConfig") UseValue; mkProvider (Str "ISubqueryProject") UseValue;
   mkProvider (Str "IProjectUpgradeService") UseValue; mkProvider (Str "Null") UseValue]
  [Cls "NodeConfig"; Str "ISubqueryProject"; Str "IProjectUpgradeService"; Str "Null"].

Definition FetchModule : NestModule := mkModule "FetchModule" false ["CoreModule"]
  [api_service_provider;
   provide_class "IBlockchainService" "BlockchainService";
   class_provider "IndexerManager";
   class_provider "MultiChainRewindService";
   mkProvider (Str "IBlockDispatcher") (UseFactory "blockDispatcherFactory"
     [Cls "NodeConfig"; Cls "EventEmitter2"; Str "IProjectService"; Str "IProjectUpgradeService";
      Cls "InMemoryCacheService"; Cls "StoreService"; Str "IStoreModelProvider"; Cls "PoiSyncService";
      Str "ISubqueryProject"; Cls "DynamicDsService"; Str "IUnfinalizedBlocksService";
      Cls "ConnectionPoolStateManager"; Str "IBlockchainService"; Cls "IndexerManager";
      Cls "MultiChainRewindService"; Cls "MonitorService"]);
   class_provider "FetchService";
   mkProvider (Cls "DictionaryService") (UseClass "SolanaDictionaryService");
   class_provider "DsProcessorService";
   class_provider "DynamicDsService";
   provide_class "IProjectService" "ProjectService";
   provide_class "IUnfinalizedBlocksService" "UnfinalizedBlocksService"] [].

Definition WorkerFetchModule : NestModule := mkModule "WorkerFetchModule" false ["WorkerCoreModule"]
  [class_provider "DsProcessorService";
   class_provider "IndexerManager";
   api_service_provider;
   provide_class "IProjectService" "ProjectService";
   provide_class "IBlockchainService" "BlockchainService";
   class_provider "WorkerService"] [].

Definition ReindexFeatureModule : NestModule := mkModule "ReindexFeatureModule" false []
  [mkProvider (Str "IStoreModelProvider") (UseFactory "storeModelFactory"
     [Cls "NodeConfig"; Cls "EventEmitter2"; Cls "Sequelize"]);
   class_provider "StoreService";
   class_provider "ReindexService";
   class_provider "PoiService";
   class_provider "ForceCleanService";
   provide_class "UnfinalizedBlocksService" "UnfinalizedBlocksService";
   provide_class "DynamicDsService" "DynamicDsService";
   class_provider "DsProcessorService";
   class_provider "ConnectionPoolStateManager";
   class_provider "ConnectionPoolService";
   api_service_provider;
   provide_class "IBlockchainService" "BlockchainService";
   class_provider "MultiChainRewindService";
   class_provider "SchedulerRegistry"] [].

Definition TestingFeatureModule : NestModule := mkModule "TestingFeatureModule" false ["TestingCoreModule"]
  [provide_class "IProjectService" "ProjectService";
   api_service_provider;
   provide_class "IUnfinalizedBlocksService" "UnfinalizedBlocksService";
   provide_class "IBlockchainService" "BlockchainService";
   class_provider "TestRunner";
   provide_class "IIndexerManager" "IndexerManager";
   class_provider "DsProcessorService";
   class_provider "DynamicDsService";
   class_provider "MultiChainRewindService"] [Cls "TestRunner"].

(** The roots import the module of their feature and global modules. *)
Definition AppModule : NestModule := mkModule "AppModule" false
  ["DbModule"; "EventEmitterModule"; "ConfigureModule"; "ScheduleModule"; "CoreModule"; "FetchModule";
   "MetaModule"] [] [].
Definition WorkerModule : NestModule := mkModule "WorkerModule" false
  ["DbModule"; "EventEmitterModule"; "ConfigureModule"; "ScheduleModule"; "WorkerCoreModule";
   "WorkerFetchModule"] [] [].
Definition ForceCleanModule : NestModule := mkModule "ForceCleanModule" false
  ["DbModule"; "ConfigureModule"; "ForceCleanFeatureModule"] [] [].
Definition ReindexModule : NestModule := mkModule "ReindexModule" false
  ["DbModule"; "ConfigureModule"; "ReindexFeatureModule"; "EventEmitterModule"] [] [].
Definition TestingModule : NestModule := mkModule "TestingModule" false
  ["DbModule"; "ConfigureModule"; "EventEmitterModule"; "ScheduleModule"; "TestingFeatureModule"] [] [].

(** ** Tokens *)

(** What the repository names in a module and provides neither there nor in
    [ConfigureModule], so that the node core or NestJS has to *)
Definition required (m : NestModule) : list Token :=
  filter (fun t => t ∉ (provide <$> providers m) ++ exports ConfigureModule)
    (remove_dups (concat (named_tokens <$> providers m))).

Lemma elem_of_required m t :
  t ∈ required m ↔ (∃ p, p ∈ providers m ∧ t ∈ named_tokens p) ∧
    t ∉ provide <$> providers m ∧ t ∉ exports ConfigureModule.
Proof.
  unfold required. rewrite list_elem_of_filter, elem_of_remove_dups, elem_of_app.
  assert (t ∈ concat (named_tokens <$> providers m) ↔ ∃ p, p ∈ providers m ∧ t ∈ named_tokens p)
    as ->; [|tauto].
  rewrite list_elem_of_In, in_concat. setoid_rewrite <- list_elem_of_In.
  setoid_rewrite list_elem_of_fmap. naive_solver.
Qed.

(** The applications of the repository whose features have providers, with what the
    repository needs there of the node core and NestJS *)
Definition applications : list (NestModule * NestModule * list Token) :=
  [(AppModule, FetchModule,
    [Cls "ConnectionPoolService"; Cls "SandboxService"; Cls "InMemoryCacheService"; Cls "StoreService";
     Cls "PoiSyncService"; Cls "ConnectionPoolStateManager"; Cls "MonitorService"; Cls "EventEmitter2";
     Str "IStoreModelProvider"]);
   (WorkerModule, WorkerFetchModule,
    [Cls "SandboxService"; Cls "DynamicDsService"; Str "IUnfinalizedBlocksService";
     Cls "ConnectionPoolService"; Cls "EventEmitter2"]);
   (ReindexModule, ReindexFeatureModule, [Cls "Sequelize"; Cls "EventEmitter2"]);
   (TestingModule, TestingFeatureModule,
    [Cls "ConnectionPoolService"; Cls "EventEmitter2"; Str "IStoreModelProvider"; Cls "SandboxService"])].

(** What [bootstrap], [initWorker] and [getTestRunner] ask their container for *)
Definition bootstrap_get : list Token := [Str "IProjectService"; Cls "FetchService"].
Definition initWorker_get : list Token := [Str "IProjectService"; Cls "WorkerService"].
Definition getTestRunner_get : list Token := [Str "IProjectService"; Cls "TestRunner"].
Definition fetched (root : NestModule) : list Token :=
  if decide (module_name root = "AppModule") then bootstrap_get
  else if decide (module_name root = "WorkerModule") then initWorker_get
  else if decide (module_name root = "TestingModule") then getTestRunner_get
  else [].

Definition factory_arguments (p : Provider) : Prop :=
  match construction p with
  | UseFactory f inject => f = "SolanaApiService.init" → inject = SolanaApiService_init_parameters
  | _ => True
  end.

(** In each application the listed tokens are all that the code of the repository names
    and does not provide; the feature's module and the configuration are imported, what
    the start asks for is provided, no token twice, and the factory of the API service
    gets its arguments in the order of its parameters. *)
Lemma application_tokens root feature needed :
  (root, feature, needed) ∈ applications →
  required feature ≡ₚ needed ∧
  module_name feature ∈ imports root ∧ module_name ConfigureModule ∈ imports root ∧
  fetched root ⊆ (provide <$> providers feature) ∧ NoDup (provide <$> providers feature) ∧
  Forall factory_arguments (providers feature).
Proof.
  intros H. repeat (apply elem_of_cons in H as [[= -> -> ->]|H]); [..|by apply elem_of_nil in H].
  all: split_and!;
    [apply (bool_decide_eq_true_1 _); vm_compute; reflexivity..|by repeat (constructor; [done|])].
Qed.
