(* ===== verification/Bootstrap.v ===== *)
(** * The start of the processes

    [packages/node/src/main.ts], [init.ts], [indexer/worker/worker.ts],
    [configure/configure.module.ts], [yargs.ts] and [subcommands]: the order in which the
    services of the node, of a worker and of the test runner are started, what the
    commands of the command line run, and what happens to errors.  The services are
    those of the node core, the modules those of [Modules]. *)
From S2P Require Import Prelude Types Modules.

(** What the node core and the framework offer *)
Class NodeRuntime (W App : Type) := {
  initLogger : M W unit;
  getValidPort : option Z → M W Z;
  NestFactory_create : NestModule → M W App;
  app_init : App → M W unit;
  ProjectService_init : App → option Z → M W unit;
  ProjectService_startHeight : App → M W Z;
  FetchService_init : App → Z → M W unit;
  enableShutdownHooks : App → M W unit;
  app_listen : App → Z → M W unit;
  app_close : App → M W unit;
  initWorkerServices : App → M W unit;
  registerApp : M W unit;
  TestingService_run : M W unit;
  forceClean : NestModule → M W unit;
  baseReindexInit : NestModule → Z → M W unit
}.

Section bootstrap.
Context {W App : Type} `{RT : !NodeRuntime W App}.

(** [init.ts]; the port is chosen before errors are caught. *)
Definition bootstrap (argv_port : option Z) : M W unit :=
  port ← getValidPort (App:=App) argv_port;
  try_catch
    (app ← NestFactory_create AppModule;
     app_init app ;;
     ProjectService_init app None ;;
     startHeight ← ProjectService_startHeight app;
     FetchService_init app startHeight ;;
     enableShutdownHooks app ;;
     app_listen app port)
    (fun e => exit "Node failed to start").

(** [main.ts]: a subcommand runs on its own. *)
Definition main (subcommand : option string) (argv_port : option Z) : M W unit :=
  initLogger (App:=App) ;;
  match subcommand with
  | Some c => if truthy_string c then mret tt else bootstrap argv_port
  | None => bootstrap argv_port
  end.

(** [worker.ts] *)
Definition initWorker (startHeight : option Z) : M W unit :=
  try_catch
    (app ← NestFactory_create WorkerModule;
     app_init app ;;
     ProjectService_init app startHeight ;;
     initWorkerServices app)
    (fun e => throw e).

(** [getTestRunner]: how to close the context, and the context the runner is taken from *)
Definition getTestRunner : M W (M W unit * App) :=
  testContext ← NestFactory_create TestingModule;
  app_init testContext ;;
  ProjectService_init testContext None ;;
  mret (app_close testContext, testContext).

(** [ConfigureModule.getInstance] and [register] *)
Definition getInstance : M W unit := registerApp (App:=App).
Definition register : M W NestModule := getInstance ;; mret ConfigureModule.

(** [testing.init.ts]; [process.exit(0)] has no message. *)
Definition testingInit : M W unit :=
  try_catch (getInstance ;; TestingService_run (App:=App))
    (fun e => exit "Testing failed") ;;
  exit "".

(** [forceClean.init.ts] and [reindex.init.ts] *)
Definition forceCleanInit : M W unit := forceClean (App:=App) ForceCleanModule.
Definition reindexInit (targetHeight : Z) : M W unit :=
  baseReindexInit (App:=App) ReindexModule targetHeight.

(** [yargs.ts]: what the commands run, and the options of the node *)
Inductive OptionDefault := DefaultNumber (z : Z) | DefaultBoolean (b : bool).
Record RunOption := mkRunOption {
  opt_name : string; opt_default : OptionDefault; opt_required : bool
}.
Record YargsOptions := mkYargs {
  initTesting : M W unit;
  initForceClean : M W unit;
  initReindex : Z → M W unit;
  runOptions : list RunOption
}.
Definition yargsOptions : YargsOptions := mkYargs testingInit forceCleanInit reindexInit
  [mkRunOption "requestTimeout" (DefaultNumber 30000) false;
   mkRunOption "treatLongTermStorageSkipAsSkipped" (DefaultBoolean true) false].

(** Errors of the services end the node; only the choice of a port can throw. *)
Lemma bootstrap_throws port e w w' :
  bootstrap port w = (Throw e, w') → getValidPort (App:=App) port w = (Throw e, w').
Proof.
  unfold bootstrap. unfold mbind at 1, M_bind at 1. destruct (getValidPort port w) as [[p|x|x|] w1]; [|by intros [=]; subst..].
  unfold try_catch, exit. intros H. repeat case_match; simplify_eq.
Qed.

(** The test command never returns to its caller. *)
Lemma testingInit_exits w a w' : testingInit w ≠ (Done a, w').
Proof.
  unfold testingInit, mbind at 1, M_bind at 1. destruct (try_catch _ _ w) as [[] w1]; unfold exit; by intros [=].
Qed.
End bootstrap.
