(* ===== verification/ScenariosProject.v ===== *)
(** * The unit tests of projects, run on the model

    The scenarios of [codegen.spec.ts], [blockchain.service.test.ts] and
    [project.spec.ts] that need neither the network nor a renderer. *)
From S2P Require Import Prelude JsNumber JsString Json JsMap Types Idl Codegen Datasources Manifest ManifestLaws ManifestSpec.

(** ** codegen.spec.ts *)
Definition JUPITER : string := "JUP6LkbZbjS1jKKwapdHNy74zcZ3tLUZoi5QNyVTaV4".

(** What codama makes of the file of the test: the instruction [claim_token] gets its
    name in camel case and its discriminator as the default value of an argument. *)
Definition jupiter_root : RootNode := mkRootNode "jupiter" JUPITER
  [mkInstructionNode "claim" [mkArgument "discriminator" (Some (BytesValueNode "base16" "3ec6d6c1d59f6cd2"))];
   mkInstructionNode "claimToken"
     [mkArgument "discriminator" (Some (BytesValueNode "base16" "74ce1bbfa6130049"))]] [].
Definition jupiter_idl : Idl := AnchorIdl (Some (Some "0.1.0")) None JNull.

Definition lower_first (s : string) : string :=
  match s with
  | String c s => String (if (65 <=? Z.of_N (Ascii.N_of_ascii c)) && (Z.of_N (Ascii.N_of_ascii c) <=? 90)
                          then Ascii.ascii_of_N (Ascii.N_of_ascii c + 32) else c) s
  | EmptyString => EmptyString
  end.

Definition mock_codama : Codama := {|
  codama_rootNodeFromAnchor _ := Done jupiter_root;
  codama_createFromRoot _ := Throw (TypeError "not a root node");
  camelCase := lower_first; pascalCase s := s;
  encode_utf8 _ := []; encode_base16 s := Done (of_hex s);
  encode_base58 _ := Done []; encode_base64 _ := Done [];
  sha256 _ := []
|}.

Definition claim_ds (assets : option (list (string * string))) (discriminator : string) : SubqlDatasource :=
  mkDatasource SolanaDatasourceKind_Runtime ""
    [mkHandler "handleClaimToken"
       (FInstruction (Some (mkInstructionFilter (Some JUPITER) (Some discriminator) None None)))]
    assets None.
Definition jupiter_assets : option (list (string * string)) :=
  Some [(JUPITER, "../../../../node/test/JUP6LkbZbjS1jKKwapdHNy74zcZ3tLUZoi5QNyVTaV4.idl.json")].

Definition validate_test (ds : SubqlDatasource) : outcome unit :=
  (validateDiscriminators (CD:=mock_codama) (join_on (Ascii.ascii_of_nat 47)) (fun _ => mret "")
    (fun _ => Done (Some jupiter_idl)) [ds] "out" tt).1.

(** 'can validate that a discriminator is part of an IDL' *)
Example validates_discriminator : validate_test (claim_ds jupiter_assets "ClaimToken") = Done tt.
Proof. vm_compute. reflexivity. Qed.

(** 'throws when an idl does not include the discriminator' *)
Example invalid_discriminator :
  validate_test (claim_ds jupiter_assets "InvalidDiscriminator") = Throw (AssertionError
    "Datasource has a handler with a discriminator InvalidDiscriminator but no matching instruction found in IDL").
Proof. vm_compute. reflexivity. Qed.

(** 'throws when there is no IDL' *)
Example no_idl :
  validate_test (claim_ds None "ClaimToken") = Throw (AssertionError
    "Datasource has a handler with a discriminator but no IDL file reference").
Proof. vm_compute. reflexivity. Qed.

(** ** blockchain.service.test.ts *)
Definition something_ds (filter : props) : DsObject :=
  mkDsObject SolanaDatasourceKind_Runtime ""
    [mkDsHandler "handleSomething" (handler_kind_string KInstruction) (Some filter)] None None.
Definition test_accounts : json := JArray [JNull; JString "6fuLRV8aLJF96MaNi44bLJUhaSJu1yzc588kHM4DfG2W"].

(** 'can instantiate dynamic datasources correctly' (the misspelt property is the
    test's; the validation strips what has no rule, from its copy) *)
Example instantiates_dynamic_ds :
  updateDynamicDs (fun _ => Done []) (Some [("accounts", test_accounts)])
    (something_ds [("progamId", JString "foo")]) =
  (Done tt, something_ds [("progamId", JString "foo"); ("accounts", test_accounts)]).
Proof. vm_compute. reflexivity. Qed.

(** ** project.spec.ts *)

(** The first datasource of [test/project_1.0.0.yaml] *)
Definition pool_created_filter : list (string * value) :=
  [("topics", VArray [VString
     "PoolCreated(address indexed token0, address indexed token1, uint24 indexed fee, int24 tickSpacing, address pool)"])].
Definition pool_created_ds : value := VObject None
  [("kind", VString "solana/Runtime"); ("startBlock", VNumber 12369621);
   ("mapping", VObject None
      [("file", VString "./dist/index.js");
       ("handlers", VArray [VObject None
          [("handler", VString "handlePoolCreated"); ("kind", VString "solana/LogHandler");
           ("filter", VObject None pool_created_filter)]])])].

(** The test expects the manifest to pass validation, but a log filter has no rule for
    [topics], whatever the base classes declare. *)
Lemma topics_rejected `{DecoratorLaws} : ¬ accepted pool_created_ds.
Proof.
  eapply (undeclared_filter_property _ _ _ _ _ _ _ KLog _ _ "topics");
    [by vm_compute|reflexivity|reflexivity|by left|reflexivity|done|reflexivity|reflexivity|].
  cbn. set_solver.
Qed.
