(* ===== verification/Regex.v ===== *)
(** * Regular expressions

    The part of JavaScript's regular expressions that the release script uses: classes
    of characters, sequences, alternatives and repetitions, and [regex.test(s)], which
    looks for a match anywhere in a text.  The match is computed with derivatives. *)
From S2P Require Import Prelude JsString.
From Stdlib Require Import Ascii.

Inductive regex :=
| REmpty
| REps
| RClass (p : ascii → bool)
| RCat (r1 r2 : regex)
| RAlt (r1 r2 : regex)
| RStar (r : regex).

(** [r+], [r{n}] and a literal text *)
Definition RPlus (r : regex) : regex := RCat r (RStar r).
Fixpoint RRepeat (n : nat) (r : regex) : regex :=
  match n with O => REps | S n => RCat r (RRepeat n r) end.
Definition RChar (c : ascii) : regex := RClass (fun d => bool_decide (c = d)).
Fixpoint RText (s : string) : regex :=
  match s with EmptyString => REps | String c s => RCat (RChar c) (RText s) end.

(** [[0-9]] *)
Definition is_digit (c : ascii) : bool :=
  let n := nat_of_ascii c in (48 <=? n)%nat && (n <=? 57)%nat.
Definition RDigit : regex := RClass is_digit.

(** The texts of an expression *)
Inductive lang : regex → string → Prop :=
| lang_eps : lang REps ""
| lang_class p c : p c = true → lang (RClass p) (String c "")
| lang_cat r1 r2 s1 s2 : lang r1 s1 → lang r2 s2 → lang (RCat r1 r2) (s1 +:+ s2)
| lang_alt_l r1 r2 s : lang r1 s → lang (RAlt r1 r2) s
| lang_alt_r r1 r2 s : lang r2 s → lang (RAlt r1 r2) s
| lang_star_nil r : lang (RStar r) ""
| lang_star_cons r s1 s2 : lang r s1 → lang (RStar r) s2 → lang (RStar r) (s1 +:+ s2).

Fixpoint nullable (r : regex) : bool :=
  match r with
  | REmpty | RClass _ => false
  | REps | RStar _ => true
  | RCat r1 r2 => nullable r1 && nullable r2
  | RAlt r1 r2 => nullable r1 || nullable r2
  end.

Fixpoint derivative (c : ascii) (r : regex) : regex :=
  match r with
  | REmpty | REps => REmpty
  | RClass p => if p c then REps else REmpty
  | RCat r1 r2 =>
      if nullable r1 then RAlt (RCat (derivative c r1) r2) (derivative c r2)
      else RCat (derivative c r1) r2
  | RAlt r1 r2 => RAlt (derivative c r1) (derivative c r2)
  | RStar r => RCat (derivative c r) (RStar r)
  end.

(** A match at the start of the text, and anywhere *)
Fixpoint match_here (r : regex) (s : string) : bool :=
  nullable r || match s with String c s => match_here (derivative c r) s | EmptyString => false end.
Fixpoint test (r : regex) (s : string) : bool :=
  match_here r s || match s with String _ s => test r s | EmptyString => false end.

Lemma app_eq_empty s1 s2 : s1 +:+ s2 = "" → s1 = "" ∧ s2 = "".
Proof. by destruct s1. Qed.

Lemma nullable_spec r : nullable r = true ↔ lang r "".
Proof.
  split.
  - induction r as [| |p|r1 IH1 r2 IH2|r1 IH1 r2 IH2|r IH]; simpl; try done.
    + constructor.
    + intros [H1 H2]%andb_true_iff. apply (lang_cat _ _ "" ""); auto.
    + intros [H|H]%orb_true_iff; [apply lang_alt_l|apply lang_alt_r]; auto.
    + constructor.
  - intros H. remember "" as s eqn:Hs. revert Hs. induction H; simpl; intros Hs; try done.
    + apply app_eq_empty in Hs as [-> ->]. rewrite IHlang1, IHlang2; done.
    + by rewrite IHlang.
    + by rewrite IHlang, orb_true_r.
Qed.

Lemma derivative_sound c r s : lang (derivative c r) s → lang r (String c s).
Proof.
  revert s. induction r as [| |p|r1 IH1 r2 IH2|r1 IH1 r2 IH2|r IH]; simpl; intros s H.
  - inversion H.
  - inversion H.
  - destruct (p c) eqn:E; [|inversion H]. inversion H; subst. by constructor.
  - assert (∀ s, lang (RCat (derivative c r1) r2) s → lang (RCat r1 r2) (String c s)) as Hcat.
    { clear s H. intros s H. inversion H; subst.
      match goal with |- lang _ (String c (?s1 +:+ ?s2)) => apply (lang_cat _ _ (String c s1) s2) end; auto. }
    destruct (nullable r1) eqn:E; [|by apply Hcat]. inversion H; subst; [by apply Hcat|].
    apply (lang_cat _ _ "" (String c s)); [by apply nullable_spec|by apply IH2].
  - inversion H; subst; [apply lang_alt_l|apply lang_alt_r]; auto.
  - inversion H; subst.
    match goal with |- lang _ (String c (?s1 +:+ ?s2)) => apply (lang_star_cons _ (String c s1) s2) end; auto.
Qed.

Lemma derivative_complete c r s : lang r (String c s) → lang (derivative c r) s.
Proof.
  intros H. remember (String c s) as t eqn:Ht. revert s Ht.
  induction H as [|p d Hp|r1 r2 s1 s2 H1 IH1 H2 IH2|r1 r2 t H IH|r1 r2 t H IH| |r s1 s2 H1 IH1 H2 IH2];
    intros s Ht; simpl; try done.
  - injection Ht as -> <-. rewrite Hp. constructor.
  - destruct s1 as [|d s1]; simpl in Ht.
    + apply nullable_spec in H1. rewrite H1. apply lang_alt_r. by apply IH2.
    + injection Ht as -> <-. specialize (IH1 s1 eq_refl).
      destruct (nullable r1); [apply lang_alt_l|]; by apply lang_cat.
  - apply lang_alt_l. by apply IH.
  - apply lang_alt_r. by apply IH.
  - destruct s1 as [|d s1]; simpl in Ht; [by apply IH2|]. injection Ht as -> <-.
    apply lang_cat; [by apply IH1|done].
Qed.

Lemma match_here_spec r s :
  match_here r s = true ↔ ∃ p t, s = p +:+ t ∧ lang r p.
Proof.
  revert r. induction s as [|c s IH]; intros r; simpl; rewrite orb_true_iff, nullable_spec.
  - split; [intros [H|H]; [by exists "", ""|done]|].
    intros (p & t & [-> ->]%eq_sym%app_eq_empty & H). by left.
  - rewrite IH. split.
    + intros [H|(p & t & -> & H)]; [by exists "", (String c s)|].
      exists (String c p), t. split; [done|]. by apply derivative_sound.
    + intros ([|d p] & t & Ht & H); [by left|right]. injection Ht as <- ->.
      exists p, t. split; [done|]. by apply derivative_complete.
Qed.

(** The test finds a match exactly when some part of the text is one. *)
Lemma test_spec r s : test r s = true ↔ ∃ a p b, s = a +:+ p +:+ b ∧ lang r p.
Proof.
  induction s as [|c s IH]; cbn [test]; rewrite orb_true_iff, match_here_spec.
  - split; [|intros ([|] & p & b & Hs & H); [left; by exists p, b|done]].
    intros [(p & t & Hs & H)|H]; [by exists "", p, t|done].
  - rewrite IH. split.
    + intros [(p & t & Hs & H)|(a & p & b & -> & H)]; [by exists "", p, t|].
      by exists (String c a), p, b.
    + intros ([|d a] & p & b & Hs & H); [left; by exists p, b|right].
      injection Hs as <- ->. by exists a, p, b.
Qed.
