(* ===== verification/Release.v ===== *)
(** * The release scripts

    [.github/actions/create-release/gh-release-script.js], which publishes the section
    of a version of a package's changelog as a release, and
    [create-prerelease/remove-stable-version.js].  The runtime of the actions is a
    parameter. *)
From S2P Require Import Prelude JsNumber JsString JsDate Json JsMap Types Filters Regex.
From Stdlib Require Import Ascii.

(** [s.includes(p)] *)
Fixpoint includes_text (p s : string) : bool :=
  startsWith p s || match s with String _ s => includes_text p s | EmptyString => false end.

(** [/## \[([0-9]+(\.[0-9]+)+)] - [0-9]{4}-[0-9]{2}-[0-9]{2}/i]; it has no letters. *)
Definition heading_regex : regex :=
  RCat (RText "## [")
    (RCat (RCat (RPlus RDigit) (RPlus (RCat (RChar "."%char) (RPlus RDigit))))
      (RCat (RText "] - ")
        (RCat (RRepeat 4 RDigit) (RCat (RText "-")
          (RCat (RRepeat 2 RDigit) (RCat (RText "-") (RRepeat 2 RDigit))))))).

Record PackageJson := mkPackageJson { pj_name : option string; pj_version : option string }.

Record ReleaseRequest := mkRelease {
  rel_token : option string;
  rel_owner : string;
  rel_name : string;
  rel_repo : string;
  rel_tag_name : string;
  rel_target_commitish : string;
  rel_body : string
}.

(** [core.setFailed] marks the run as failed and returns. *)
Class ActionRuntime (W : Type) := {
  readFileSync : string → M W string;
  setFailed : string → M W unit;
  env_REPO_TOKEN : option string;
  request_release : ReleaseRequest → M W unit;
  error_text : jserror → string
}.

Definition is_heading (line : string) : bool := test heading_regex line.
Definition names_version (version line : string) : bool := includes_text ("[" +:+ version +:+ "]") line.
Definition with_newline (line : string) : string := line +:+ String newline "".

(** The first loop: the line of the version, or line 0, and whether it was found *)
Fixpoint find_changelog (version : string) (j : nat) (lines : list string) : nat * bool :=
  match lines with
  | [] => (0%nat, false)
  | line :: lines =>
      if names_version version line then (j, true) else find_changelog version (S j) lines
  end.

(** The second loop *)
Fixpoint collect (j : nat) (releaseInfo : string) (lines : list string) : string :=
  match lines with
  | [] => releaseInfo
  | line :: lines =>
      match j with
      | O => collect (S j) (releaseInfo +:+ with_newline line) lines
      | S _ =>
          if negb (is_heading line) then collect (S j) (releaseInfo +:+ with_newline line) lines
          else releaseInfo
      end
  end.

Section release.
Context {W : Type} `{RT : !ActionRuntime W}.

Definition NO_RELEASE_INFO : string :=
  "No release info found, either missing in changelog or changelog is formatted incorrectly".

Definition checkForBetaVersion (version : string) : M W unit :=
  if includes_text "-" version then exit "" else mret tt.

Definition gatherReleaseInfo (version logPath : string) : M W string :=
  changeLogs ← readFileSync logPath;
  let lines := split_on newline changeLogs in
  let '(i, foundChangelog) := find_changelog version 0 lines in
  let lines := drop i lines in
  let releaseInfo := if foundChangelog : bool then collect 0 "" lines else "" in
  (if decide (releaseInfo = "") then setFailed NO_RELEASE_INFO else mret tt) ;;
  mret releaseInfo.

(** [`${x}`] of an argument that may be missing *)
Definition argument_text (x : option string) : string := default "undefined" x.

Definition publishRelease (version repoName : string) (commitish : option string) (releaseInfo : string)
  : M W unit :=
  try_catch
    (request_release (mkRelease env_REPO_TOKEN "subquery" ("[" +:+ version +:+ "] " +:+ repoName)
       "subql-solana" (argument_text (split_on "/"%char repoName !! 1%nat) +:+ "/" +:+ version)
       (argument_text commitish) releaseInfo))
    (fun err => setFailed (error_text err)).

(** The script: the package's folder and the commit are its arguments. *)
Definition release_script (pJson : PackageJson) (folder : string) (commitish : option string) : M W unit :=
  match pj_name pJson with
  | None => throw (TypeError "Cannot read properties of undefined (reading 'split')")
  | Some repoName =>
      match pj_version pJson with
      | None => throw (TypeError "Cannot read properties of undefined (reading 'includes')")
      | Some version =>
          checkForBetaVersion version ;;
          releaseInfo ← gatherReleaseInfo version (folder +:+ "/CHANGELOG.md");
          publishRelease version repoName commitish releaseInfo
      end
  end.

(** ** What is published *)
Fixpoint take_while {A} (p : A → bool) (l : list A) : list A :=
  match l with [] => [] | x :: l => if p x then x :: take_while p l else [] end.
Fixpoint drop_while {A} (p : A → bool) (l : list A) : list A :=
  match l with [] => [] | x :: l' => if p x then drop_while p l' else l end.

Definition unlines (lines : list string) : string := foldr (fun l s => with_newline l +:+ s) "" lines.

(** The section of a version: the first line that names it and the lines up to the next
    heading of a release. *)
Definition section_of (version : string) (lines : list string) : list string :=
  match drop_while (fun l => negb (names_version version l)) lines with
  | [] => []
  | heading :: rest => heading :: take_while (fun l => negb (is_heading l)) rest
  end.

Lemma find_changelog_spec version j lines :
  find_changelog version j lines =
    match drop_while (fun l => negb (names_version version l)) lines with
    | [] => (0%nat, false)
    | _ => ((j + length (take_while (fun l => negb (names_version version l)) lines))%nat, true)
    end.
Proof.
  revert j. induction lines as [|l lines IH]; intros j; [done|]. simpl.
  destruct (names_version version l); simpl; [by rewrite Nat.add_0_r|]. rewrite IH.
  destruct (drop_while _ lines); [done|]. f_equal. lia.
Qed.

Lemma drop_take_while {A} (p : A → bool) l : drop (length (take_while p l)) l = drop_while p l.
Proof. induction l as [|x l IH]; [done|]. simpl. by destruct (p x). Qed.

Lemma app_nil_r_text s : s +:+ "" = s.
Proof. induction s as [|c s IH]; [done|]. change (String c (s +:+ "") = String c s). by rewrite IH. Qed.

Lemma collect_rest j acc lines :
  collect (S j) acc lines = acc +:+ unlines (take_while (fun l => negb (is_heading l)) lines).
Proof.
  revert j acc. induction lines as [|l lines IH]; intros j acc; simpl; [by rewrite app_nil_r_text|].
  destruct (is_heading l); simpl; [by rewrite app_nil_r_text|].
  by rewrite IH, <- string_app_assoc.
Qed.

Lemma collected version lines :
  (let '(i, found) := find_changelog version 0 lines in
   if found : bool then collect 0 "" (drop i lines) else "") = unlines (section_of version lines).
Proof.
  rewrite find_changelog_spec. unfold section_of.
  pose proof (drop_take_while (fun l => negb (names_version version l)) lines) as Hd.
  destruct (drop_while _ lines) as [|h rest] eqn:E; [done|]. simpl. rewrite Hd. simpl.
  by rewrite collect_rest.
Qed.

Lemma section_empty version lines :
  unlines (section_of version lines) = "" ↔ Forall (fun l => names_version version l = false) lines.
Proof.
  unfold section_of. induction lines as [|l lines IH]; [done|]. cbn [drop_while].
  destruct (names_version version l) eqn:E; simpl.
  - split; [by destruct l|]. inversion 1; congruence.
  - rewrite IH. split; [by constructor|]. by inversion 1.
Qed.

(** C26: the script publishes one release, whose body is the section of the version: from
    the first line of the changelog that names the version in brackets up to the next line
    with the heading of a release.  A version with a hyphen ends the run before anything
    is read or published.  When no line names the version the run is marked as failed, but
    a release with an empty body is published all the same. *)
Theorem release_publishes_section name version folder commitish w :
  let request body := publishRelease version name commitish body in
  release_script (mkPackageJson (Some name) (Some version)) folder commitish w =
    if includes_text "-" version then (Exit "", w)
    else (text ← readFileSync (folder +:+ "/CHANGELOG.md");
          let lines := split_on newline text in
          if decide (Forall (fun l => names_version version l = false) lines)
          then setFailed NO_RELEASE_INFO ;; request ""
          else request (unlines (section_of version lines))) w.
Proof.
  intros request. unfold release_script, checkForBetaVersion. cbn.
  destruct (includes_text "-" version); [done|].
  unfold gatherReleaseInfo, mbind, M_bind. cbn.
  destruct (readFileSync _ w) as [[text| | |] w1]; try done.
  set (lines := split_on newline text). pose proof (collected version lines) as Hc.
  destruct (find_changelog version 0 lines) as [i found]. rewrite Hc.
  pose proof (section_empty version lines) as He.
  destruct (decide (unlines _ = "")) as [Hs|Hs]; destruct (decide (Forall _ _)) as [Hf|Hf];
    try (exfalso; tauto).
  - rewrite Hs. by destruct (setFailed _ w1) as [[] ?].
  - done.
Qed.
End release.

(** ** Removing the stable version *)

(** [JSON.stringify(value, null, 2)] at an indentation *)
Definition line_break (indent : string) : string := String newline indent.
Definition bracketed (indent open close : string) (l : list string) : string :=
  match l with
  | [] => open +:+ close
  | x :: l =>
      let inner := line_break (indent +:+ "  ") in
      open +:+ inner +:+ x +:+ foldr (fun y s => "," +:+ inner +:+ y +:+ s) "" l
        +:+ line_break indent +:+ close
  end.
Fixpoint stringify_2 (indent : string) (j : json) : string :=
  match j with
  | JArray l => bracketed indent "[" "]" (map (stringify_2 (indent +:+ "  ")) l)
  | JObject l => bracketed indent "{" "}"
      (map (fun kv => quoted kv.1 +:+ ": " +:+ stringify_2 (indent +:+ "  ") kv.2) l)
  | _ => stringify j
  end.

Section stable.
Context {W : Type} (writeFileSync : string → string → M W unit).

(** [delete pJson.stableVersion] *)
Definition delete_property (k : string) (l : list (string * json)) : list (string * json) :=
  filter (fun kv => kv.1 ≠ k) l.

Definition remove_stable_version (folder : string) (pJson : props) : M W unit :=
  if truthy_json (default JNull (map_get pJson "stableVersion"))
  then writeFileSync (folder +:+ "/package.json") (stringify_2 "" (JObject (delete_property "stableVersion" pJson)))
  else mret tt.

(** The file is written only if there was a stable version, and then every other
    property is as it was. *)
Theorem remove_stable_version_keeps folder pJson w k :
  (truthy_json (default JNull (map_get pJson "stableVersion")) = false →
   remove_stable_version folder pJson w = (Done tt, w)) ∧
  map_get (delete_property "stableVersion" pJson) k =
    if decide (k = "stableVersion") then None else map_get pJson k.
Proof.
  split; [by unfold remove_stable_version; intros ->|].
  unfold delete_property. induction pJson as [|[k' v] l IH]; [by case_decide|].
  rewrite filter_cons. cbn [map_get fst].
  destruct (decide (k' ≠ "stableVersion")) as [H|H]; cbn [map_get]; repeat case_decide; subst;
    try done; exfalso; tauto.
Qed.
End stable.

(** ** Instances *)
Definition sim_changelog : list string :=
  ["# Changelog"; "## [Unreleased]"; ""; "## [6.3.1] - 2026-06-18"; "### Fixed"; "- A skipped slot"; "";
   "## [6.3.0] - 2026-06-18"; "### Fixed"; "[6.3.1]: https://github.com/subquery/subql-solana"].

Example section_first :
  section_of "6.3.1" sim_changelog = ["## [6.3.1] - 2026-06-18"; "### Fixed"; "- A skipped slot"; ""].
Proof. vm_compute. reflexivity. Qed.
(** The oldest section goes on to the end of the file, with the links of all versions. *)
Example section_last :
  section_of "6.3.0" sim_changelog =
    ["## [6.3.0] - 2026-06-18"; "### Fixed"; "[6.3.1]: https://github.com/subquery/subql-solana"].
Proof. vm_compute. reflexivity. Qed.
(** Only the shape of a heading is looked at: one without a date does not end a section. *)
Example heading_shapes :
  (is_heading "## [6.3.1] - 2026-06-18", is_heading "## [6.3.1]", is_heading "## [6.3.1-0] - 2026-06-18",
   is_heading "## [Unreleased]") = (true, false, false, false).
Proof. vm_compute. reflexivity. Qed.
Example stringify_2_nested :
  stringify_2 "" (JObject [("a", JNumber 1); ("b", JArray [])]) =
    "{" +:+ String newline ("  " +:+ quoted "a" +:+ ": 1," +:+
      String newline ("  " +:+ quoted "b" +:+ ": []" +:+ String newline "}")).
Proof. vm_compute. reflexivity. Qed.
